(* ===== verification/_CoqProject ===== *)
-Q . S2P
Prelude.v
Encoding.v
Sha256.v
Params.v
Tx.v
Block.v
Consensus.v
Pebble.v
Storage.v
StoreSpec.v
Ledger.v
Mempool.v
Miner.v
Bech32.v
Chain.v
ChainSpec.v
Mining.v
Rollback.v
Sync.v
Protection.v
Json.v
Peers.v
Relay.v
Float64.v
Health.v
Primes.v
Curve.v
Secp256k1.v
BasePoint.v
Ecdsa.v
Ripemd160.v
Keys.v
Wallet.v
Builder.v
Pbkdf2.v
Seed.v
Aes.v
KeyFile.v
Pay.v
Readiness.v
Http.v
Rpc.v
RpcSpec.v
Explorer.v
Commands.v
Examples.v
WalletExamples.v
