(* ===== verification/Prelude.v ===== *)
(** * A verification of the Nevel node

    Nevel is a proof-of-work chain with unspent transaction outputs, written in
    Go.  This library models the node and its wallet: how transactions and
    blocks are encoded and hashed, which of them are valid, how a block changes
    the files of the database and how it is undone, how the node chooses its
    tip, mines, synchronises, keeps unconfirmed transactions, keeps its peers
    and answers their messages; how the wallet makes keys, addresses and
    signatures, spends outputs and keeps its keys in files; and the services
    on top, payments, the RPC server, the explorer and the two commands.

    ** The program and the files that model it

    The packages are layered, and the files follow the layers.  Each file
    models one package under src/ unless it says otherwise, and a definition has
    the name of the function or type it models.

    - [Prelude]: machine integers as [Z] with the wrap-around written out
      ([u32], [u64], [i64]), bytes, the error monad [result] with the source's
      error values, the tactics [mach] and [by_decision], sums over lists and
      maps, the hint databases [nevel] and [nevel_rw].
    - [Encoding]: what the program uses of encoding/binary, encoding/hex,
      math/big, fmt and io.
    - [Sha256]: crypto/sha256, and the class [HashFunction] the other files are
      proved against; [go_sha256] is the instance.
    - [Params]: params/params.go and params/economics.go: the networks, the
      compact form of targets, the audit of the reward schedule.
    - [Tx]: tx/transaction.go.  [Block]: blockchain/block.go and
      blockchain/genesis.go.  [Consensus]: consensus/consensus.go.
    - [Pebble]: internal/pebble/pebble.go, the key-value store with one file per
      key.  Its state [DB] is the contents of the directory together with the
      outcomes of the next file-system calls, so that a failing or a torn write
      is a value of the state.  [Storage]: storage/storage.go on top of it,
      against the class [UTXOJson] that states what it relies on of
      encoding/json.  [Json] models that part of encoding/json and
      encoding/base64 and gives the instance [go_json].
    - [StoreSpec] and [Ledger]: the abstract store, a finite map from typed keys
      to typed values; [represents d cs] relates the files to it, and the
      refinement lemmas ([ApplyBlock_refines], [DisconnectTip_refines],
      [PutTotalWork_refines] and one per read) show that the operations on
      files perform the abstract ones.
    - [Mempool]: mempool/mempool.go.  [Miner]: miner/miner.go.
    - [Bech32]: wallet/bech32.go and the address functions of wallet/wallet.go.
    - [Chain]: chain/chain.go; its state [Manager] is the store, the network,
      the shared pool and the verifier.  [ChainSpec]: the main chain as a list
      of blocks, the invariant [chain_inv], the runs [offered] of a node and the
      states [reachable] by runs with [regular] blocks only.
      [Mining]: one round of MineBlocksStreaming.  [Rollback]: a run of accepted
      blocks and its undoing, up to the equivalence [same_utxos].
    - [Sync]: sync/sync.go.  [Protection] and [Health]: chain/protection.go, the
      health report with the floating-point seconds of [Float64].
    - [Peers]: p2p/p2p.go, p2p/hardening.go, p2p/seeds.go and p2p/node.go up to
      the sockets; its state [Node] is the peer table with scores, bans and
      counters, and what was written to each connection.  [Relay]:
      p2p/handler.go and the reading loop, on the node and the chain manager.
    - [Primes], [Curve]: primality certificates and the group law of a curve
      y^2 = x^3 + b, for [Secp256k1]: wallet/secp256k1.go, whose methods are
      proved against the class [ValidCurve] of curve parameters.  [BasePoint]
      gives the instances for secp256k1, the order of the base point included.
    - [Ecdsa]: crypto/ecdsa on such a curve, against the class [SigningCurve].
      [Ripemd160]: wallet/ripemd160.go.  [Keys] and [Wallet]: wallet/wallet.go.
      [Builder]: wallet/builder.go and wallet/hardware.go.
    - [Pbkdf2]: wallet/pbkdf2_internal.go on crypto/hmac.  [Seed]:
      wallet/seed_audit.go and the seed phrases of wallet/store.go.  [Aes]:
      crypto/aes and the GCM mode, against the class [BlockCipher].  [KeyFile]:
      the rest of wallet/store.go; its state is a map from paths to contents.
    - [Pay]: pay/pay.go; its state is the map of requests.  [Readiness]:
      security/readiness.go.
    - [Http]: what the servers use of net/http.  [Rpc]: rpc/server.go; its state
      [Server] holds the store, the pool, the chain manager and the payments,
      and [ServeHTTP] is the whole handler with routes, authorisation and
      headers.  [RpcSpec]: what a request can change.  [Explorer]:
      explorer/explorer.go and explorer/server.go.  [Commands]:
      cmd/neveld/main.go and cmd/nevel-cli/main.go.
    - [Examples] and [WalletExamples]: concrete data and the witnesses.

    ** What the theorems show

    - Money: a valid block spends nothing twice and creates at most its reward
      ([accepted_transaction_rules], [accepted_block_conserves]), applying it
      raises the sum of the unspent outputs by at most that
      ([apply_block_supply]), so the sum is bounded by the schedule after every run
      with regular blocks ([reachable_supply]), though not after other runs
      ([height_zero_blocks_inflate]); the schedule is within the declared maximum
      ([audit_supply_passes]); balances are exact ([reachable_balance]).
    - The ledger on disk: what was applied reads back
      ([apply_block_reads_back]), disconnecting inverts applying
      ([disconnect_inverts_apply]), rolling back restores an earlier state
      ([rollback_restores]), and what a disk failure can leave behind
      ([failed_apply_keeps_tip], [interrupted_apply_loses_utxo]).
    - The chain: with regular blocks the tip moves only to a child of the tip
      ([tip_moves_only_to_children]).  A block that claims height 0 becomes the
      tip without the checks against its parent
      ([height_zero_block_replaces_tip]), and the reorganisation away from it
      leaves its outputs in place ([reorganisation_keeps_height_zero_block]).
      Disconnected blocks stay refused
      ([rolled_back_blocks_stay_known]); mined blocks are accepted
      ([mined_blocks_are_accepted]); synchronisation follows the headers
      ([sync_follows_headers]); the reorganisation policy
      ([fork_choice_policy]) and the health report ([health_report]).
    - Work: the search ends when a nonce hits ([mining_terminates]), its result
      passes the check ([mined_block_has_work]), and retargeting stays in range
      ([retarget_stays_in_range]).
    - Formats: the parsers accept exactly what the serializers write
      ([transaction_roundtrip], [block_roundtrip]), addresses and stored JSON
      decode ([address_roundtrip], [stored_json_roundtrip]); what a Merkle root
      fixes ([merkle_root_commits]) and what it does not
      ([merkle_root_duplicate]).
    - The pool: its invariant ([pool_add_preserves]), no conflicts
      ([pool_no_double_spend]), removal of mined transactions
      ([mined_block_leaves_pool]), the order of the snapshot and of eviction
      ([snapshot_by_fee_rate], [eviction_takes_lowest]).
    - The network: the peer table stays within its limits and holds no banned
      peer ([peer_table_bounded], [banned_peer_stays_out]), messages are limited
      ([rate_limit_bound]) and framed ([frame_roundtrip]); accepted blocks are
      relayed ([accepted_blocks_are_relayed]), header requests are answered from
      the main chain ([served_headers_link]), and peer list requests end the
      connection ([getaddr_ends_connection]).
    - Keys and signatures: the points of the curve are a group under the
      addition of the code ([curve_group]) and scalar multiplication is repeated
      addition ([scalar_mult_multiple]); every wallet that can be made is well
      formed ([new_wallet], [wallet_from_hex], [seed_wallet]); what it signs
      verifies ([signed_input_verifies]), what verifies and what makes the
      verifier panic ([verifier_outcomes], [crafted_signature_panics]); public
      keys decode ([public_key_roundtrip]).
    - Spending: what is built ([built_transaction]) and that the rules of
      [Consensus] accept it when the fee is high enough
      ([built_transaction_accepted]).
    - Key files and seeds: a saved wallet loads ([saved_wallet_loads]), what
      loading any file can give ([load_outcomes], [wrong_nonce_panics]), the key
      derivation is the standard one ([pbkdf2_is_rfc8018]), the audit of
      phrases ([generated_seed_audit]).
    - Services: only authorised requests change the server
      ([writes_are_authorised]), requests keep the node reachable
      ([rpc_keeps_node_reachable]) as long as none of them submits a block of
      height 0: until then the theorems on reachable nodes hold of a node behind
      the server, which the daemon starts in such a state
      ([daemon_serves_reachable]).  Broadcasts are answered ([broadcast_reply]);
      what trades do ([pool_trade_moves_nothing],
      [rejected_trade_reports_success]); the life of a payment
      ([payment_lifecycle], [late_mark_expires]); the release gate asks
      for all the documented evidence but the scope of the audit
      ([gate_ignores_scope], [gate_order_irrelevant]); what the client cannot do ([client_cannot_authenticate],
      [client_rounds_balance]).

    ** Hypotheses

    Hash functions collide, so a theorem that needs distinct hashes assumes
    [collision_free] for the messages it names and for no others; only
    [merkle_root_commits] and [pool_add_preserves] do.

    The theorems on runs of a node say which runs they cover: the node starts with
    an empty database on a disk without failures and is offered [regular] blocks,
    of positive height and within the limits of the parser, in any order, valid or
    not.  The code enforces neither condition on a block from a peer.  A block of
    height 0 breaks the conclusions, as the theorems on such blocks show; a block
    over the limits is applied but cannot be read back.  [sync_follows_headers]
    assumes of the peer only the types of what it sends, and says what holds up to
    the first block that is not regular.

    The class [HashFunction] asks only for 32 bytes of output, [BlockCipher] only
    for 16.  In the rules and the chain a signature verifier is a parameter, nil
    or any function; [Verifier] is the one of the wallet.  Parameters too are a
    source of headers, the decoder of the payloads that peers send, what a dial
    returns, a hardware signer and the outcomes of writes to disk and to peers.
    Nothing is assumed of the curve: that its two moduli are prime and that the
    base point has the stated order is proved.

    ** Fuel

    A loop with no bound of its own takes fuel, and [None] means that it has not
    ended: the search for a nonce, the walk along a side branch, the rollback,
    the audit and the sum of the rewards.  The theorems say how much is enough:
    one step per block to undo for a rollback ([rollback_restores]), one step
    per height up to 36 halvings, where the reward is zero, for the audit
    ([audit_supply_passes]), one step per height for the sum of rewards
    ([total_rewards_exact]), and as many steps as there are nonces before the
    first hit for mining ([mining_terminates], [mined_blocks_are_accepted]).
    Block processing on reachable states ends with any fuel, none included, and
    the reading loop of a connection with one step per byte it delivers
    ([reading_loop_ends]).  The padding of RIPEMD-160 ends within 64 steps
    ([pad_loop_ends]).  Signing and making keys draw new randomness until it is
    in range; the randomness is the list of bytes that will be delivered, which
    bounds the retries, and its end is the error of the reader.  In [Wallet] and
    the files above it, the outer [None] of [go] is a panic, not missing fuel.

    ** What is not modelled

    The clock, the context of a search and the order in which Go visits a map
    are arguments.  The mutexes of the pool and of the payments make each of
    their operations one step; the chain manager has no lock, and calls of it
    that overlap in time are not modelled: requests to the server run one after
    the other.  The node of the network has one lock; its operations are steps of
    a run, and the reader of a connection runs alone between them.
    A panic of the wallet's verifier is a result of [VerifyTransactionInput]; the
    rules of [Consensus] take a verifier that returns, and [Verifier] refuses the
    input in that case, where the source stops the call.
    Sockets, the transport of HTTP and the parsing of requests from bytes, the
    flag package and the texts outside ASCII in JSON, in package strings and in
    URLs are left out.  The DER form in which crypto/ecdsa passes a signature to
    itself is left out.  Nothing is claimed on secrecy: the theorems on keys and
    files are about what is computed, not about what an attacker can learn. *)

From stdpp Require Export base gmap list sorting strings.
From Stdlib Require Export ZArith Lia.

#[global] Open Scope Z_scope.
#[global] Set Default Proof Using "Type".

(** ** Hint databases of the development *)

(** [nevel] closes the side conditions the components share: ranges of machine
    integers, lengths of encodings and well-formedness facts. *)
Create HintDb nevel discriminated.
Create HintDb nevel_rw.

(** ** Machine integers

    A Go [uintN] is a [Z] in [0, 2^N); the wrap-around of an operation is
    written at the operation. *)

Definition u8 (z : Z) : Z := z mod 2 ^ 8.
Definition u32 (z : Z) : Z := z mod 2 ^ 32.
Definition u64 (z : Z) : Z := z mod 2 ^ 64.
(** A conversion to [int64]: the representative in [-2^63, 2^63). *)
Definition i64 (z : Z) : Z := (z + 2 ^ 63) mod 2 ^ 64 - 2 ^ 63.

(** [^uint32(0)] and [^uint64(0)]. *)
Definition max32 : Z := 2 ^ 32 - 1.
Definition max64 : Z := 2 ^ 64 - 1.

Definition is_byte (z : Z) : Prop := 0 <= z < 2 ^ 8.
Definition is_u32 (z : Z) : Prop := 0 <= z < 2 ^ 32.
Definition is_u64 (z : Z) : Prop := 0 <= z < 2 ^ 64.
Definition is_i64 (z : Z) : Prop := - 2 ^ 63 <= z < 2 ^ 63.

#[global] Instance is_byte_dec z : Decision (is_byte z).
Proof. unfold is_byte. apply _. Defined.
#[global] Instance is_u32_dec z : Decision (is_u32 z).
Proof. unfold is_u32. apply _. Defined.
#[global] Instance is_u64_dec z : Decision (is_u64 z).
Proof. unfold is_u64. apply _. Defined.
#[global] Instance is_i64_dec z : Decision (is_i64 z).
Proof. unfold is_i64. apply _. Defined.

(** Turn every machine-integer definition in sight into its inequalities and
    finish with [lia]. *)
Ltac mach :=
  unfold is_byte, is_u32, is_u64, is_i64, max32, max64 in *; lia.

Lemma u32_range z : is_u32 (u32 z).
Proof. unfold is_u32, u32. apply Z.mod_pos_bound. lia. Qed.
Lemma u64_range z : is_u64 (u64 z).
Proof. unfold is_u64, u64. apply Z.mod_pos_bound. lia. Qed.
Lemma u8_range z : is_byte (u8 z).
Proof. unfold is_byte, u8. apply Z.mod_pos_bound. lia. Qed.
Lemma u32_small z : is_u32 z -> u32 z = z.
Proof. intros H. apply Z.mod_small, H. Qed.
Lemma u64_small z : is_u64 z -> u64 z = z.
Proof. intros H. apply Z.mod_small, H. Qed.
Lemma u8_small z : is_byte z -> u8 z = z.
Proof. intros H. apply Z.mod_small, H. Qed.
Lemma u64_le z : 0 <= z -> u64 z <= z.
Proof. intros H. apply Z.mod_le; lia. Qed.
Lemma u64_nonneg z : 0 <= u64 z.
Proof. apply u64_range. Qed.
Lemma i64_small z : is_i64 z -> i64 z = z.
Proof. unfold is_i64, i64. intros H. rewrite Z.mod_small; lia. Qed.
Lemma i64_u64 z : is_i64 z -> i64 (u64 z) = z.
Proof.
  unfold is_i64, i64, u64. intros H.
  rewrite Zplus_mod_idemp_l, Z.mod_small; lia.
Qed.
Lemma i64_range z : is_i64 (i64 z).
Proof.
  unfold is_i64, i64.
  pose proof (Z.mod_pos_bound (z + 2 ^ 63) (2 ^ 64) ltac:(lia)). lia.
Qed.

#[export] Hint Resolve u8_range u32_range u64_range i64_range u64_nonneg : nevel.

(** ** Bytes *)

Abbreviation bytes := (list Z).

Definition bytes_wf (bs : bytes) : Prop := Forall is_byte bs.

(** A Go [[32]byte]. *)
Definition is_hash (h : bytes) : Prop := length h = 32%nat /\ bytes_wf h.

#[global] Instance bytes_wf_dec bs : Decision (bytes_wf bs).
Proof. unfold bytes_wf. apply _. Defined.
#[global] Instance is_hash_dec h : Decision (is_hash h).
Proof. unfold is_hash. apply _. Defined.

(** The zero value of [[32]byte]. *)
Definition zero_hash : bytes := replicate 32 0.

Lemma zero_hash_wf : is_hash zero_hash.
Proof. split; [done|]. by apply Forall_replicate. Qed.

Lemma bytes_wf_app xs ys : bytes_wf (xs ++ ys) <-> bytes_wf xs /\ bytes_wf ys.
Proof. apply Forall_app. Qed.
Lemma bytes_wf_rev xs : bytes_wf (rev xs) <-> bytes_wf xs.
Proof. unfold bytes_wf. rewrite !Forall_forall. setoid_rewrite list_elem_of_In. by setoid_rewrite <- in_rev. Qed.
Lemma bytes_wf_take n xs : bytes_wf xs -> bytes_wf (take n xs).
Proof. apply Forall_take. Qed.
Lemma bytes_wf_drop n xs : bytes_wf xs -> bytes_wf (drop n xs).
Proof. apply Forall_drop. Qed.

#[export] Hint Resolve zero_hash_wf bytes_wf_take bytes_wf_drop : nevel.

(** Number of bytes of a slice, the value of Go's [len]. *)
Definition len {A} (l : list A) : Z := Z.of_nat (length l).

Lemma len_nonneg {A} (l : list A) : 0 <= len l.
Proof. unfold len. lia. Qed.
Lemma len_app {A} (l k : list A) : len (l ++ k) = len l + len k.
Proof. unfold len. rewrite length_app. lia. Qed.
Lemma len_cons {A} (x : A) l : len (x :: l) = 1 + len l.
Proof. unfold len. simpl length. lia. Qed.
#[export] Hint Resolve len_nonneg : nevel.

(** The bytes of a Go string constant. *)
Definition byte_of_ascii (a : Ascii.ascii) : Z := Z.of_N (Ascii.N_of_ascii a).
Definition str (s : string) : bytes := byte_of_ascii <$> String.list_ascii_of_string s.

Lemma byte_of_ascii_wf a : is_byte (byte_of_ascii a).
Proof.
  unfold is_byte, byte_of_ascii. pose proof (Ascii.N_ascii_bounded a). lia.
Qed.
Lemma str_wf s : bytes_wf (str s).
Proof.
  apply Forall_fmap, Forall_true. intros a. apply byte_of_ascii_wf.
Qed.
#[export] Hint Resolve str_wf : nevel.

(** ** Errors and results

    One constructor per error variable of the sources; [Errorf] stands for the
    errors built in place by [errors.New] and [fmt.Errorf], with their text (or
    the constant part of it). *)

Inductive error :=
| ErrNotFound | ErrEOF | ErrUnexpectedEOF | ErrOS
| ErrDustOutput | ErrInflation | ErrFeeTooLow
| ErrInvalidProofOfWork | ErrInvalidMerkleRoot | ErrInvalidCoinbase
| ErrInvalidSignature | ErrMissingUTXO | ErrDoubleSpend | ErrBadTimestamp
| ErrImmatureCoinbase | ErrBadDifficulty
| ErrSupplyScheduleExceedsMax
| ErrChainUninitialized | ErrReorgTooDeep | ErrInsufficientWork
| ErrDifficultyAnomaly | ErrCanceled
| Errorf (msg : string).

#[global] Instance error_eq_dec : EqDecision error.
Proof. solve_decision. Defined.

Inductive result (A : Type) :=
| Ok (a : A)
| Err (e : error).
Arguments Ok {A} a.
Arguments Err {A} e.

#[global] Instance result_eq_dec {A} `{EqDecision A} : EqDecision (result A).
Proof. solve_decision. Defined.

#[global] Instance result_ret : MRet result := fun A a => Ok a.
#[global] Instance result_bind : MBind result := fun A B f m =>
  match m with Ok a => f a | Err e => Err e end.

(** [err == nil] *)
Definition is_ok {A} (r : result A) : bool :=
  match r with Ok _ => true | Err _ => false end.

(** [if c { return err }; k] *)
Notation "'fail_if' c 'with' e ';;' k" := (if c then Err e else k)
  (at level 100, c at level 99, e at level 99, k at level 100, right associativity).

Lemma bind_Ok {A B} (m : result A) (f : A -> result B) b :
  (m ≫= f) = Ok b <-> exists a, m = Ok a /\ f a = Ok b.
Proof. destruct m; split; intros; naive_solver. Qed.

Lemma bind_Err {A B} (m : result A) (f : A -> result B) e :
  (m ≫= f) = Err e <-> m = Err e \/ exists a, m = Ok a /\ f a = Err e.
Proof. destruct m; split; intros; naive_solver. Qed.

Lemma ret_Ok {A} (a b : A) : mret a = Ok b <-> a = b.
Proof. split; [by intros [= ->] | by intros ->]. Qed.

(** Split every successful computation in the context into the values of its
    steps. *)
Ltac inv_ok :=
  repeat match goal with
  | H : (_ ≫= _) = Ok _ |- _ => apply bind_Ok in H; destruct H as (? & ? & ?)
  | H : mret _ = Ok _ |- _ => apply ret_Ok in H
  | H : Ok _ = Ok _ |- _ => injection H as H
  | H : Err _ = Ok _ |- _ => discriminate H
  | H : Ok _ = Err _ |- _ => discriminate H
  | H : (if ?b then Err _ else _) = Ok _ |- _ =>
      let E := fresh "E" in destruct b eqn:E; [discriminate H |]
  | H : (if ?b then _ else Err _) = Ok _ |- _ =>
      let E := fresh "E" in destruct b eqn:E; [| discriminate H]
  | H : match ?m with Ok _ => _ | Err _ => Err _ end = Ok _ |- _ =>
      let E := fresh "E" in destruct m eqn:E; [| discriminate H]
  end; simplify_eq/=.

(** Reflect the boolean comparisons of the code into propositions. *)
Ltac breflect :=
  repeat match goal with
  | H : bool_decide _ = true |- _ => apply bool_decide_eq_true in H
  | H : bool_decide _ = false |- _ => apply bool_decide_eq_false in H
  | H : (_ <? _) = true |- _ => apply Z.ltb_lt in H
  | H : (_ <? _) = false |- _ => apply Z.ltb_ge in H
  | H : (_ <=? _) = true |- _ => apply Z.leb_le in H
  | H : (_ <=? _) = false |- _ => apply Z.leb_gt in H
  | H : (_ =? _) = true |- _ => apply Z.eqb_eq in H
  | H : (_ =? _) = false |- _ => apply Z.eqb_neq in H
  | H : negb _ = true |- _ => apply negb_true_iff in H
  | H : negb _ = false |- _ => apply negb_false_iff in H
  | H : _ && _ = true |- _ => apply andb_true_iff in H; destruct H
  | H : _ || _ = false |- _ => apply orb_false_iff in H; destruct H
  end.

(** Prove a closed decidable goal by evaluating its decision procedure. *)
Ltac by_decision :=
  match goal with |- ?P => apply (bool_decide_eq_true_1 P); vm_compute; reflexivity end.

(** ** Sums of amounts *)

Fixpoint Zsum (l : list Z) : Z :=
  match l with [] => 0 | x :: l => x + Zsum l end.

Lemma Zsum_app l k : Zsum (l ++ k) = Zsum l + Zsum k.
Proof. induction l; simpl; lia. Qed.
Lemma Zsum_nonneg l : Forall (fun z => 0 <= z) l -> 0 <= Zsum l.
Proof. induction 1; simpl; lia. Qed.
#[global] Instance Zsum_perm : Proper ((≡ₚ) ==> (=)) Zsum.
Proof. induction 1; simpl; lia. Qed.

(** The guarded addition the sources repeat:
    [if ^uint64(0)-total < x { return ErrInflation }; total += x]. *)
Definition checked_add (total x : Z) : result Z :=
  fail_if max64 - total <? x with ErrInflation ;; Ok (u64 (total + x)).

(** The loop [for _, x := range xs { ... total += x }] over that addition. *)
Fixpoint checked_sum (total : Z) (xs : list Z) : result Z :=
  match xs with
  | [] => Ok total
  | x :: xs => total' ← checked_add total x; checked_sum total' xs
  end.

Lemma checked_add_Ok total x s :
  is_u64 total -> is_u64 x ->
  checked_add total x = Ok s <-> s = total + x /\ is_u64 s.
Proof.
  intros Ht Hx. unfold checked_add.
  destruct (Z.ltb_spec (max64 - total) x).
  - split; [done | intros [-> ?]; mach].
  - rewrite u64_small by mach. split; [intros [= <-]; mach | by intros [-> _]].
Qed.

Lemma checked_sum_Ok xs total s :
  is_u64 total -> Forall is_u64 xs ->
  checked_sum total xs = Ok s <-> s = total + Zsum xs /\ is_u64 s.
Proof.
  intros Ht Hxs. revert total Ht.
  induction Hxs as [|x xs Hx Hxs IH]; intros total Ht; simpl.
  - split; [intros [= <-]; split; [lia | done] | intros [-> ?]; f_equal; lia].
  - assert (0 <= Zsum xs) by (apply Zsum_nonneg; eapply Forall_impl; [done|]; intros; mach).
    rewrite bind_Ok. setoid_rewrite checked_add_Ok; [|done..]. split.
    + intros (a & [-> Ha] & Hs). apply IH in Hs; [|done]. split; [lia | naive_solver].
    + intros [-> Hs]. exists (total + x). split; [split; [done | mach]|].
      apply IH; [mach|]. split; [lia | done].
Qed.

(** The guarded sum fails only with [ErrInflation], and exactly when the exact
    sum does not fit in 64 bits. *)
Lemma checked_sum_Err xs total e :
  is_u64 total -> Forall is_u64 xs ->
  checked_sum total xs = Err e <-> e = ErrInflation /\ max64 < total + Zsum xs.
Proof.
  intros Ht Hxs. revert total Ht.
  induction Hxs as [|x xs Hx Hxs IH]; intros total Ht; simpl.
  - split; [done | intros [_ ?]; mach].
  - assert (0 <= Zsum xs) by (apply Zsum_nonneg; eapply Forall_impl; [done|]; intros; mach).
    unfold checked_add. destruct (Z.ltb_spec (max64 - total) x); simpl.
    + split; [intros [= <-]; split; [done | lia] | by intros [-> _]].
    + rewrite u64_small by mach. rewrite IH by mach. by rewrite Z.add_assoc.
Qed.

(** ** Generic list and map lemmas *)

(** Go's [strings.HasPrefix] / [bytes.HasPrefix]. *)
Fixpoint has_prefix (p s : bytes) : bool :=
  match p, s with
  | [], _ => true
  | x :: p, y :: s => (x =? y) && has_prefix p s
  | _ :: _, [] => false
  end.

Lemma has_prefix_spec p s : has_prefix p s = true <-> exists t, s = p ++ t.
Proof.
  revert s. induction p as [|x p IH]; intros [|y s]; simpl; try naive_solver.
  rewrite andb_true_iff, Z.eqb_eq, IH. naive_solver.
Qed.

Lemma app_inj_length {A} (a b c d : list A) :
  length a = length c -> a ++ b = c ++ d -> a = c /\ b = d.
Proof. intros Hl Happ. by apply app_inj_1 in Happ. Qed.

(** Induction two elements at a time. *)
Lemma pair_ind {A} (P : list A -> Prop) :
  P [] -> (forall a, P [a]) -> (forall a b l, P l -> P (a :: b :: l)) -> forall l, P l.
Proof.
  intros H0 H1 H2. fix IH 1. intros [|a [|b l]]; [exact H0 | apply H1 |].
  apply H2, IH.
Qed.

(** *** Sums over the entries of a map *)

Section MapSum.
Context `{Countable K} {A : Type} (f : K * A -> Z).

Definition map_sum (m : gmap K A) : Z := Zsum (f <$> map_to_list m).

Lemma map_sum_empty : map_sum ∅ = 0.
Proof. unfold map_sum. by rewrite map_to_list_empty. Qed.

Lemma map_sum_insert m k v : m !! k = None -> map_sum (<[k := v]> m) = f (k, v) + map_sum m.
Proof. intros E. unfold map_sum. by rewrite map_to_list_insert. Qed.

Lemma map_sum_delete m k v : m !! k = Some v -> map_sum (delete k m) = map_sum m - f (k, v).
Proof.
  intros E. rewrite <- (insert_delete_id m k v E) at 2.
  rewrite map_sum_insert by apply lookup_delete_eq. lia.
Qed.

Lemma map_sum_nonneg m : (forall k v, m !! k = Some v -> 0 <= f (k, v)) -> 0 <= map_sum m.
Proof.
  intros Hf. apply Zsum_nonneg, Forall_fmap, Forall_forall. intros [k v] Hkv.
  by apply Hf, elem_of_map_to_list.
Qed.
End MapSum.
