(* ===== verification/Encoding.v ===== *)
(** * Encoding: the parts of Go's encoding/binary, encoding/hex, math/big, fmt
      and io that the program uses

    Fixed-width little- and big-endian integers, [big.Int.SetBytes] and
    [big.Int.Bytes], lower-case hexadecimal, decimal numerals ([%d]) and the
    reads of an [io.Reader] over a byte slice, with the round trips and the
    injectivity facts that the serializers and the database keys rest on. *)

From S2P Require Import Prelude.

(** ** Fixed-width integers *)

(** [binary.LittleEndian.PutUintN] on [n] bytes. *)
Fixpoint le_bytes (n : nat) (z : Z) : bytes :=
  match n with
  | O => []
  | S n => z mod 256 :: le_bytes n (z / 256)
  end.

(** [binary.LittleEndian.UintN]. *)
Fixpoint le_val (bs : bytes) : Z :=
  match bs with
  | [] => 0
  | b :: bs => b + 256 * le_val bs
  end.

(** [binary.BigEndian.PutUintN] and [big.Int.FillBytes]. *)
Definition be_bytes (n : nat) (z : Z) : bytes := rev (le_bytes n z).

(** [binary.BigEndian.UintN] and [big.Int.SetBytes]. *)
Definition be_val (bs : bytes) : Z := le_val (rev bs).

Lemma le_bytes_length n z : length (le_bytes n z) = n.
Proof. revert z. induction n; intros; simpl; auto. Qed.

Lemma len_le_bytes n z : len (le_bytes n z) = Z.of_nat n.
Proof. unfold len. by rewrite le_bytes_length. Qed.

Lemma be_bytes_length n z : length (be_bytes n z) = n.
Proof. unfold be_bytes. rewrite length_rev. apply le_bytes_length. Qed.

Lemma le_bytes_wf n z : bytes_wf (le_bytes n z).
Proof.
  revert z. induction n; intros z; simpl; constructor; [|apply IHn].
  unfold is_byte. apply Z.mod_pos_bound. lia.
Qed.

Lemma be_bytes_wf n z : bytes_wf (be_bytes n z).
Proof. apply bytes_wf_rev, le_bytes_wf. Qed.

Lemma le_val_bound bs : bytes_wf bs -> 0 <= le_val bs < 256 ^ len bs.
Proof.
  induction 1 as [|b bs Hb _ IH]; [done|].
  rewrite len_cons, Z.pow_add_r by (pose proof (len_nonneg bs); lia).
  unfold is_byte in Hb. simpl le_val. lia.
Qed.

Lemma be_val_bound bs : bytes_wf bs -> 0 <= be_val bs < 256 ^ len bs.
Proof.
  intros H. unfold be_val. replace (len bs) with (len (rev bs)).
  - by apply le_val_bound, bytes_wf_rev.
  - unfold len. by rewrite length_rev.
Qed.

Lemma le_val_bytes n z : le_val (le_bytes n z) = z mod 256 ^ Z.of_nat n.
Proof.
  revert z. induction n as [|n IH]; intros z; simpl le_bytes.
  - by rewrite Z.mod_1_r.
  - simpl le_val. rewrite IH, Nat2Z.inj_succ, Z.pow_succ_r by lia.
    rewrite Z.rem_mul_r by lia. lia.
Qed.

Lemma le_roundtrip n z : 0 <= z < 256 ^ Z.of_nat n -> le_val (le_bytes n z) = z.
Proof. intros H. rewrite le_val_bytes. by apply Z.mod_small. Qed.

Lemma be_roundtrip n z : 0 <= z < 256 ^ Z.of_nat n -> be_val (be_bytes n z) = z.
Proof.
  intros H. unfold be_val, be_bytes. rewrite rev_involutive. by apply le_roundtrip.
Qed.

Lemma le_bytes_val bs : bytes_wf bs -> le_bytes (length bs) (le_val bs) = bs.
Proof.
  induction 1 as [|b bs Hb Hbs IH]; [done|]. simpl. unfold is_byte in Hb.
  rewrite (Z.mul_comm 256), Z.mod_add, Z.div_add by lia.
  rewrite Z.mod_small, Z.div_small, Z.add_0_l by lia. by rewrite IH.
Qed.

Lemma le_bytes_inj n a b :
  0 <= a < 256 ^ Z.of_nat n -> 0 <= b < 256 ^ Z.of_nat n ->
  le_bytes n a = le_bytes n b -> a = b.
Proof.
  intros Ha Hb H. rewrite <- (le_roundtrip n a), <- (le_roundtrip n b) by done.
  by rewrite H.
Qed.

Lemma be_bytes_val bs : bytes_wf bs -> be_bytes (length bs) (be_val bs) = bs.
Proof.
  intros Hw. unfold be_bytes, be_val. rewrite <- length_rev, le_bytes_val by by apply bytes_wf_rev.
  apply rev_involutive.
Qed.

Lemma be_val_snoc k v : be_val (k ++ [v]) = 256 * be_val k + v.
Proof. unfold be_val. rewrite rev_app_distr. simpl. lia. Qed.

Lemma be_val_inj a b :
  bytes_wf a -> bytes_wf b -> length a = length b -> be_val a = be_val b -> a = b.
Proof.
  unfold be_val. intros Ha Hb Hl H.
  rewrite <- (rev_involutive a), <- (rev_involutive b). f_equal.
  rewrite <- (le_bytes_val (rev a)), <- (le_bytes_val (rev b)) by by apply bytes_wf_rev.
  by rewrite H, !length_rev, Hl.
Qed.

Lemma u32_pow z : is_u32 z -> 0 <= z < 256 ^ Z.of_nat 4.
Proof. unfold is_u32. change (256 ^ Z.of_nat 4) with (2 ^ 32). done. Qed.
Lemma u64_pow z : is_u64 z -> 0 <= z < 256 ^ Z.of_nat 8.
Proof. unfold is_u64. change (256 ^ Z.of_nat 8) with (2 ^ 64). done. Qed.

#[export] Hint Resolve le_bytes_wf be_bytes_wf u32_pow u64_pow : nevel.
#[export] Hint Rewrite le_bytes_length be_bytes_length : nevel_rw.

(** ** Hexadecimal: [hex.EncodeToString], [%x] and [hex.DecodeString] *)

Definition hex_digit (n : Z) : Z := if n <? 10 then 48 + n else 87 + n.

Definition hex_encode (bs : bytes) : bytes :=
  flat_map (fun b => [hex_digit (b / 16); hex_digit (b mod 16)]) bs.

(** The value of a hexadecimal character, upper or lower case. *)
Definition hex_value (c : Z) : option Z :=
  if (48 <=? c) && (c <=? 57) then Some (c - 48)
  else if (97 <=? c) && (c <=? 102) then Some (c - 87)
  else if (65 <=? c) && (c <=? 70) then Some (c - 55)
  else None.

(** [hex.DecodeString]: an odd length or a foreign character is an error, the
    character first; the text of that error does not repeat the character here. *)
Fixpoint hex_decode (s : bytes) : result bytes :=
  match s with
  | [] => Ok []
  | [a] =>
      match hex_value a with
      | Some _ => Err (Errorf "encoding/hex: odd length hex string")
      | None => Err (Errorf "encoding/hex: invalid byte")
      end
  | a :: b :: s =>
      match hex_value a, hex_value b with
      | Some x, Some y => bs ← hex_decode s; Ok (16 * x + y :: bs)
      | _, _ => Err (Errorf "encoding/hex: invalid byte")
      end
  end.

Lemma hex_value_digit n : 0 <= n < 16 -> hex_value (hex_digit n) = Some n.
Proof.
  intros H. unfold hex_value, hex_digit. destruct (Z.ltb_spec n 10).
  - rewrite (proj2 (Z.leb_le 48 _)), (proj2 (Z.leb_le _ 57)) by lia. simpl. f_equal. lia.
  - rewrite (proj2 (Z.leb_gt _ 57)), andb_false_r by lia.
    rewrite (proj2 (Z.leb_le 97 _)), (proj2 (Z.leb_le _ 102)) by lia. simpl. f_equal. lia.
Qed.

Lemma hex_decode_encode bs : bytes_wf bs -> hex_decode (hex_encode bs) = Ok bs.
Proof.
  induction 1 as [|b bs Hb _ IH]; [done|]. simpl. unfold is_byte in Hb.
  rewrite !hex_value_digit by (first [apply Z.mod_pos_bound; lia |
    split; [apply Z.div_pos; lia | apply Z.div_lt_upper_bound; lia]]).
  rewrite IH. simpl. by rewrite <- Z.div_mod by lia.
Qed.

Lemma hex_value_range c n : hex_value c = Some n -> 0 <= n < 16.
Proof.
  unfold hex_value. intros H. repeat case_match; simplify_eq; breflect; lia.
Qed.

Lemma hex_decode_wf s bs : hex_decode s = Ok bs -> bytes_wf bs.
Proof.
  revert bs. induction s as [|a|a b s IH] using pair_ind; intros bs; simpl;
    [intros [= <-]; constructor | by destruct (hex_value a)|].
  destruct (hex_value a) as [x|] eqn:Ea, (hex_value b) as [y|] eqn:Eb; try done.
  intros (r & Hr & [= <-])%bind_Ok. constructor; [|by apply IH].
  apply hex_value_range in Ea, Eb. unfold is_byte. lia.
Qed.

Lemma hex_encode_inj a b :
  bytes_wf a -> bytes_wf b -> hex_encode a = hex_encode b -> a = b.
Proof.
  intros Ha Hb H. apply hex_decode_encode in Ha, Hb. rewrite H in Ha. congruence.
Qed.

Lemma hex_encode_length bs : length (hex_encode bs) = (2 * length bs)%nat.
Proof. induction bs; simpl; lia. Qed.

Lemma hex_encode_wf bs : bytes_wf bs -> bytes_wf (hex_encode bs).
Proof.
  induction 1 as [|b bs Hb _ IH]; [constructor|]. simpl.
  unfold is_byte, hex_digit in *.
  pose proof (Z.mod_pos_bound b 16 ltac:(lia)).
  assert (0 <= b / 16 < 16) by (split; [apply Z.div_pos | apply Z.div_lt_upper_bound]; lia).
  apply Forall_cons; split; [|apply Forall_cons; split; [|apply IH]];
    unfold is_byte; destruct (_ <? 10) eqn:?; breflect; lia.
Qed.
#[export] Hint Resolve hex_encode_wf : nevel.

(** ** Decimal numerals: [%d], [big.Int.String] and [big.Int.SetString(_, 10)]
       on non-negative numbers *)

(** Digits, least significant first; the fuel bounds their number. *)
Fixpoint digits (fuel : nat) (z : Z) : list Z :=
  match fuel with
  | O => []
  | S fuel => if z <? 10 then [48 + z] else 48 + z mod 10 :: digits fuel (z / 10)
  end.

(** A number below 2^k has at most k + 1 digits. *)
Definition decimal (z : Z) : bytes := rev (digits (S (Z.to_nat (Z.log2 z))) z).

Fixpoint digits_val (ds : list Z) : Z :=
  match ds with
  | [] => 0
  | d :: ds => (d - 48) + 10 * digits_val ds
  end.

Definition is_digit (c : Z) : bool := (48 <=? c) && (c <=? 57).

(** [None] on an empty or foreign string. *)
Definition decimal_value (s : bytes) : option Z :=
  match s with
  | [] => None
  | _ => if forallb is_digit s then Some (digits_val (rev s)) else None
  end.

Lemma digits_val_digits fuel z :
  0 <= z < 2 ^ Z.of_nat fuel -> (0 < fuel)%nat -> digits_val (digits fuel z) = z.
Proof.
  revert z. induction fuel as [|fuel IH]; intros z Hz Hf; [lia|].
  simpl. destruct (Z.ltb_spec z 10); simpl; [lia|].
  rewrite Nat2Z.inj_succ, Z.pow_succ_r in Hz by lia.
  pose proof (Z.div_mod z 10 ltac:(lia)).
  rewrite IH; [lia | |].
  - split; [apply Z.div_pos; lia | apply Z.div_lt_upper_bound; lia].
  - destruct fuel; [simpl in Hz; lia | lia].
Qed.

Lemma digits_digit fuel z : 0 <= z -> forallb is_digit (digits fuel z) = true.
Proof.
  revert z. induction fuel as [|fuel IH]; intros z Hz; [done|].
  simpl. unfold is_digit. case_match eqn:E; breflect; simpl.
  - rewrite andb_true_r. apply andb_true_iff. split; apply Z.leb_le; lia.
  - pose proof (Z.mod_pos_bound z 10 ltac:(lia)).
    rewrite IH by (apply Z.div_pos; lia). rewrite andb_true_r.
    apply andb_true_iff. split; apply Z.leb_le; lia.
Qed.

Lemma forallb_rev {A} (f : A -> bool) l : forallb f (rev l) = forallb f l.
Proof.
  induction l as [|x l IH]; [done|]. simpl. rewrite forallb_app, IH. simpl.
  destruct (f x), (forallb f l); done.
Qed.

Lemma decimal_roundtrip z : 0 <= z -> decimal_value (decimal z) = Some z.
Proof.
  intros Hz. unfold decimal_value, decimal.
  assert (Hb : 0 <= z < 2 ^ Z.of_nat (S (Z.to_nat (Z.log2 z)))).
  { rewrite Nat2Z.inj_succ, Z2Nat.id by apply Z.log2_nonneg.
    destruct (Z.eq_dec z 0) as [->|]; [done|].
    split; [lia | apply Z.log2_spec; lia]. }
  destruct (rev (digits _ z)) eqn:E.
  - apply (f_equal (@length Z)) in E. rewrite length_rev in E.
    simpl in E. case_match; done.
  - rewrite <- E, forallb_rev, digits_digit, rev_involutive by done.
    f_equal. apply digits_val_digits; [done | lia].
Qed.

Lemma decimal_inj a b : 0 <= a -> 0 <= b -> decimal a = decimal b -> a = b.
Proof.
  intros Ha Hb H. apply decimal_roundtrip in Ha, Hb. rewrite H in Ha. congruence.
Qed.

Lemma decimal_digits z : 0 <= z -> Forall (fun c => 48 <= c <= 57) (decimal z).
Proof.
  intros Hz. apply Forall_forall. intros c Hc. apply list_elem_of_In, in_rev in Hc.
  pose proof (digits_digit (S (Z.to_nat (Z.log2 z))) z Hz) as Hd.
  rewrite forallb_forall in Hd. specialize (Hd c Hc). unfold is_digit in Hd.
  breflect. lia.
Qed.

(** ** Reading from a [bytes.Reader] *)

(** [io.ReadFull] into a buffer of [n] bytes: [io.EOF] when nothing is left,
    [io.ErrUnexpectedEOF] when less than [n] is. *)
Definition readFull (n : nat) (r : bytes) : result (bytes * bytes) :=
  if (n <=? length r)%nat then Ok (take n r, drop n r)
  else Err (match r with [] => ErrEOF | _ => ErrUnexpectedEOF end).

(** [binary.Read] of an unsigned integer of [n] bytes. *)
Definition readUint (n : nat) (r : bytes) : result (Z * bytes) :=
  '(b, r) ← readFull n r; Ok (le_val b, r).

(** [binary.Read] of an [int64]. *)
Definition readInt64 (r : bytes) : result (Z * bytes) :=
  '(z, r) ← readUint 8 r; Ok (i64 z, r).

Lemma readFull_app n a r : length a = n -> readFull n (a ++ r) = Ok (a, r).
Proof.
  intros <-. unfold readFull. rewrite length_app.
  rewrite (proj2 (Nat.leb_le _ _)) by lia.
  by rewrite take_app_length, drop_app_length.
Qed.

Lemma readFull_Err n r e : readFull n r = Err e -> e = ErrEOF \/ e = ErrUnexpectedEOF.
Proof. unfold readFull. intros H. repeat case_match; simplify_eq; auto. Qed.

Lemma readFull_Ok n r a r' : readFull n r = Ok (a, r') -> r = a ++ r' /\ length a = n.
Proof.
  unfold readFull. destruct (Nat.leb_spec n (length r)); [|done].
  intros [= <- <-]. rewrite take_drop, length_take. split; [done | lia].
Qed.

Lemma readUint_app n z r :
  0 <= z < 256 ^ Z.of_nat n -> readUint n (le_bytes n z ++ r) = Ok (z, r).
Proof.
  intros Hz. unfold readUint. rewrite readFull_app by apply le_bytes_length.
  simpl. by rewrite le_roundtrip.
Qed.

Lemma readUint_Ok n r z r' :
  readUint n r = Ok (z, r') -> bytes_wf r ->
  r = le_bytes n z ++ r' /\ 0 <= z < 256 ^ Z.of_nat n.
Proof.
  unfold readUint. intros H Hwf. inv_ok. destruct x as [a r1]. simplify_eq/=.
  apply readFull_Ok in H as [-> Hl]. apply bytes_wf_app in Hwf as [Ha _].
  rewrite <- Hl, le_bytes_val by done. split; [done|].
  by apply le_val_bound.
Qed.

Lemma readInt64_app z r :
  is_i64 z -> readInt64 (le_bytes 8 (u64 z) ++ r) = Ok (z, r).
Proof.
  intros Hz. unfold readInt64. rewrite readUint_app by auto with nevel.
  simpl. by rewrite i64_u64.
Qed.

(** ** Serializers and their parsers

    [codec P w r]: on the values that satisfy [P], the parser [r] inverts the
    serializer [w] in front of any suffix, and whatever [r] accepts from
    well-formed bytes is the image of such a value followed by the rest. *)

Record codec {A} (P : A -> Prop) (w : A -> bytes) (r : bytes -> result (A * bytes)) : Prop := {
  codec_read : forall a rest, P a -> r (w a ++ rest) = Ok (a, rest);
  codec_sound : forall bs a rest, bytes_wf bs -> r bs = Ok (a, rest) -> P a /\ bs = w a ++ rest;
}.
Arguments codec_read {A P w r}.
Arguments codec_sound {A P w r}.

Lemma codec_ext {A} (P P' : A -> Prop) w w' r r' :
  (forall a, P' a <-> P a) -> (forall a, w' a = w a) -> (forall bs, r' bs = r bs) ->
  codec P w r -> codec P' w' r'.
Proof.
  intros HP Hw Hr [C1 C2]. split.
  - intros a rest Ha. rewrite Hw, Hr. apply C1. by apply HP.
  - intros bs a rest Hwf. rewrite Hw, Hr, HP. by apply C2.
Qed.

(** One value after the other. *)
Lemma codec_pair {A B} (P : A -> Prop) (Q : B -> Prop) w1 w2 r1 r2 :
  codec P w1 r1 -> codec Q w2 r2 ->
  codec (fun ab => P ab.1 /\ Q ab.2) (fun ab => w1 ab.1 ++ w2 ab.2)
    (fun bs => '(a, bs) ← r1 bs; '(b, bs) ← r2 bs; Ok ((a, b), bs)).
Proof.
  intros C1 C2. split.
  - intros [a b] rest [HP HQ]; simpl in *. rewrite <- app_assoc.
    rewrite (codec_read C1) by done. simpl. by rewrite (codec_read C2) by done.
  - intros bs [a b] rest Hwf H. apply bind_Ok in H as ([a1 r'] & H1 & H).
    apply bind_Ok in H as ([b1 r''] & H2 & [= <- <- <-]); simpl.
    apply (codec_sound C1) in H1 as [? ->]; [|done]. apply bytes_wf_app in Hwf as [_ Hwf].
    apply (codec_sound C2) in H2 as [? ->]; [|done]. by rewrite <- app_assoc.
Qed.

(** Values of an isomorphic type: a record and the tuple of its fields. *)
Lemma codec_map {A B} (f : A -> B) (g : B -> A) (P : A -> Prop) w r :
  (forall b, f (g b) = b) -> (forall a, g (f a) = a) -> codec P w r ->
  codec (fun b => P (g b)) (fun b => w (g b)) (fun bs => '(a, bs) ← r bs; Ok (f a, bs)).
Proof.
  intros Hfg Hgf C. split.
  - intros b rest HP. rewrite (codec_read C) by done. simpl. by rewrite Hfg.
  - intros bs b rest Hwf H. apply bind_Ok in H as ([a r'] & H1 & [= <- <-]).
    rewrite Hgf. by apply (codec_sound C).
Qed.

Lemma codec_uint n :
  codec (fun z => 0 <= z < 256 ^ Z.of_nat n) (le_bytes n) (readUint n).
Proof.
  split; [intros; by apply readUint_app|].
  intros bs a rest Hwf H. apply readUint_Ok in H as [-> ?]; done.
Qed.

Lemma codec_u32 : codec is_u32 (le_bytes 4) (readUint 4).
Proof. apply (codec_uint 4). Qed.
Lemma codec_u64 : codec is_u64 (le_bytes 8) (readUint 8).
Proof. apply (codec_uint 8). Qed.

Lemma codec_i64 : codec is_i64 (fun z => le_bytes 8 (u64 z)) readInt64.
Proof.
  split; [intros; by apply readInt64_app|].
  intros bs a rest Hwf H. unfold readInt64 in H.
  apply bind_Ok in H as ([z r'] & H & [= <- <-]).
  apply (codec_sound codec_u64) in H as [Hz ->]; [|done].
  split; [apply i64_range|]. do 2 f_equal. unfold i64, u64.
  rewrite Zminus_mod_idemp_l, Z.add_simpl_r. symmetry. by apply Z.mod_small.
Qed.

Lemma codec_full n : codec (fun b => length b = n /\ bytes_wf b) (fun b => b) (readFull n).
Proof.
  split; [intros a rest [? _]; by apply readFull_app|].
  intros bs a rest Hwf H. apply readFull_Ok in H as [-> ?].
  apply bytes_wf_app in Hwf as [? _]. done.
Qed.

Lemma codec_hash : codec is_hash (fun b => b) (readFull 32).
Proof. apply codec_full. Qed.

(** [for i := range xs { xs[i], err = read(r); if err != nil { return } }] *)
Fixpoint readN {A} (read : bytes -> result (A * bytes)) (n : nat) (r : bytes)
    : result (list A * bytes) :=
  match n with
  | O => Ok ([], r)
  | S n => '(x, r) ← read r; '(xs, r) ← readN read n r; Ok (x :: xs, r)
  end.

Lemma codec_readN {A} (P : A -> Prop) w r n :
  codec P w r -> codec (fun l => length l = n /\ Forall P l) (flat_map w) (readN r n).
Proof.
  intros C. induction n as [|n IH].
  - split; [by intros [] rest [[=] _]|].
    intros bs a rest Hwf [= <- <-]. split; [split; [done | by apply Forall_nil]|done].
  - split.
    + intros [|x l] rest [[= Hl] HF]; simpl. inversion HF; subst.
      rewrite <- app_assoc, (codec_read C) by done. simpl.
      by rewrite (codec_read IH) by done.
    + intros bs l rest Hwf H. simpl in H. apply bind_Ok in H as ([x r1] & H1 & H).
      apply bind_Ok in H as ([xs r2] & H2 & [= <- <-]).
      apply (codec_sound C) in H1 as [? ->]; [|done]. apply bytes_wf_app in Hwf as [_ Hwf].
      apply (codec_sound IH) in H2 as [[<- ?] ->]; [|done]. simpl.
      rewrite <- app_assoc. split; [split; [done | by apply Forall_cons]|done].
Qed.

(** A list behind its length, read by a [count] that returns it and bounded by
    [limit]. *)
Lemma codec_counted {A} (P : A -> Prop) w r (limit : Z) count e :
  limit < 2 ^ 64 ->
  (forall n, is_u64 n -> n <= limit -> forall rest, count (le_bytes 8 n ++ rest) = Ok (n, rest)) ->
  (forall bs n rest, bytes_wf bs -> count bs = Ok (n, rest) -> is_u64 n /\ bs = le_bytes 8 n ++ rest) ->
  codec P w r ->
  codec (fun l => len l <= limit /\ Forall P l)
    (fun l => le_bytes 8 (u64 (len l)) ++ flat_map w l)
    (fun bs => '(n, bs) ← count bs; if limit <? n then Err e else readN r (Z.to_nat n) bs).
Proof.
  intros Hlim Hc1 Hc2 C. split.
  - intros l rest [Hl HF]. pose proof (len_nonneg l).
    rewrite <- app_assoc, u64_small by mach.
    rewrite Hc1 by mach. simpl. rewrite (proj2 (Z.ltb_ge _ _)) by lia.
    apply (codec_read (codec_readN P w r (Z.to_nat (len l)) C)). split; [unfold len; lia | done].
  - intros bs l rest Hwf H. apply bind_Ok in H as ([n r1] & H1 & H).
    apply Hc2 in H1 as [Hn ->]; [|done]. apply bytes_wf_app in Hwf as [_ Hwf].
    destruct (Z.ltb_spec limit n); [done|].
    apply (codec_sound (codec_readN P w r (Z.to_nat n) C)) in H as [[Hl HF] ->]; [|done].
    assert (len l = n) as <- by (unfold len; mach).
    rewrite u64_small, <- app_assoc by done. done.
Qed.

#[global] Opaque le_bytes be_bytes le_val be_val decimal readFull.

(** ** Searching strings *)

(** [strings.IndexByte] *)
Fixpoint IndexByte (s : bytes) (c : Z) : option Z :=
  match s with
  | [] => None
  | x :: s => if x =? c then Some 0 else Z.succ <$> IndexByte s c
  end.

(** [s[:pos]] and [s[pos+1:]] at the last [sep], [strings.LastIndexByte]. *)
Fixpoint split_last (sep : Z) (s : bytes) : option (bytes * bytes) :=
  match s with
  | [] => None
  | x :: s =>
      match split_last sep s with
      | Some (a, b) => Some (x :: a, b)
      | None => if x =? sep then Some ([], s) else None
      end
  end.

Lemma split_last_app sep a b : sep ∉ b -> split_last sep (a ++ sep :: b) = Some (a, b).
Proof.
  intros Hn. induction a as [|x a IH]; simpl; [|by rewrite IH].
  assert (E : split_last sep b = None).
  { clear -Hn. induction b as [|y b IH]; simpl; [done|]. rewrite not_elem_of_cons in Hn.
    destruct Hn as [Hy Hn]. rewrite IH by done. by rewrite (proj2 (Z.eqb_neq y sep)) by congruence. }
  by rewrite E, Z.eqb_refl.
Qed.

(** ** math/big: minimal big-endian bytes *)

(** [z.Bytes()] *)
Definition big_bytes (z : Z) : bytes :=
  if z =? 0 then [] else be_bytes (Z.to_nat ((Z.log2 z + 8) / 8)) z.

(** [z.BitLen()] *)
Definition BitLen (z : Z) : Z := if z =? 0 then 0 else Z.log2 (Z.abs z) + 1.

Lemma big_bytes_fits z : 0 <= z -> z < 256 ^ Z.of_nat (Z.to_nat ((Z.log2 z + 8) / 8)).
Proof.
  intros Hz. pose proof (Z.log2_nonneg z). rewrite Z2Nat.id by (apply Z.div_pos; lia).
  destruct (decide (z = 0)) as [->|Hz0]; [done|].
  change 256 with (2 ^ 8). rewrite <- Z.pow_mul_r by (try apply Z.div_pos; lia).
  eapply Z.lt_le_trans; [apply Z.log2_spec; lia|]. apply Z.pow_le_mono_r; [lia|].
  Z.div_mod_to_equations. lia.
Qed.

Lemma be_val_big_bytes z : 0 <= z -> be_val (big_bytes z) = z.
Proof.
  intros Hz. unfold big_bytes. destruct (Z.eqb_spec z 0) as [->|]; [by vm_compute|].
  apply be_roundtrip. split; [done | by apply big_bytes_fits].
Qed.
Lemma big_bytes_wf z : bytes_wf (big_bytes z).
Proof. unfold big_bytes. destruct (z =? 0); [by constructor | apply be_bytes_wf]. Qed.

#[export] Hint Resolve big_bytes_wf : nevel.
