(* ===== verification/Sha256.v ===== *)
(** * Sha256: Go's crypto/sha256

    [HashFunction] is what the rest of the program relies on: a function from
    byte strings to 32-byte digests.  The components are developed against this
    interface, so their theorems hold for any such function and mention
    messages the program needs to hash without collisions.  [go_sha256] is the
    instance the program runs with, an executable SHA-256 (FIPS 180-4), so
    transaction identities, merkle roots and proofs of work of concrete inputs
    evaluate to the values the program computes. *)

From S2P Require Import Prelude Encoding.

Definition rotr32 (x n : Z) : Z :=
  Z.lor (Z.shiftr x n) (u32 (Z.shiftl x (32 - n))).

(** The constants are defined by the roots of the first primes: the first 32
    bits of the fractional parts of their cube roots and square roots. *)

(** The largest [r] below [2^n] above [acc] with [r ^ e <= x], bit by bit. *)
Fixpoint root_search (n : nat) (e x acc : Z) : Z :=
  match n with
  | O => acc
  | S n => let r := acc + 2 ^ Z.of_nat n in
           root_search n e x (if r ^ e <=? x then r else acc)
  end.

Definition root_fraction (e p : Z) : Z := u32 (root_search 40 e (p * 2 ^ (32 * e)) 0).

Definition is_prime (p : nat) : bool :=
  (2 <=? p)%nat && forallb (fun d => negb (p mod d =? 0)%nat) (seq 2 (p - 2)).

Definition primes : list Z := Eval vm_compute in Z.of_nat <$> List.filter is_prime (seq 0 312).

Definition K256 : list Z := Eval vm_compute in root_fraction 3 <$> primes.

(** The eight chaining words. *)
Record words := Words { wa : Z; wb : Z; wc : Z; wd : Z; we : Z; wf : Z; wg : Z; wh : Z }.

Definition H0 : words := Eval vm_compute in
  let r i := root_fraction 2 (nth i primes 0) in
  Words (r 0%nat) (r 1%nat) (r 2%nat) (r 3%nat) (r 4%nat) (r 5%nat) (r 6%nat) (r 7%nat).

(** Message schedule, newest word first. *)
Fixpoint extend (n : nat) (w : list Z) : list Z :=
  match n with
  | O => w
  | S n =>
      let w15 := nth 14 w 0 in
      let w2 := nth 1 w 0 in
      let s0 := Z.lxor (Z.lxor (rotr32 w15 7) (rotr32 w15 18)) (Z.shiftr w15 3) in
      let s1 := Z.lxor (Z.lxor (rotr32 w2 17) (rotr32 w2 19)) (Z.shiftr w2 10) in
      extend n (u32 (s1 + nth 6 w 0 + s0 + nth 15 w 0) :: w)
  end.

Fixpoint be_words (n : nat) (bs : bytes) : list Z :=
  match n with
  | O => []
  | S n => be_val (take 4 bs) :: be_words n (drop 4 bs)
  end.

Definition schedule (block : bytes) : list Z := rev (extend 48 (rev (be_words 16 block))).

Definition sha_round (s : words) (kw : Z * Z) : words :=
  let '(Words a b c d e f g h) := s in
  let S1 := Z.lxor (Z.lxor (rotr32 e 6) (rotr32 e 11)) (rotr32 e 25) in
  let ch := Z.lxor (Z.land e f) (Z.land (max32 - e) g) in
  let t1 := h + S1 + ch + kw.1 + kw.2 in
  let S0 := Z.lxor (Z.lxor (rotr32 a 2) (rotr32 a 13)) (rotr32 a 22) in
  let maj := Z.lxor (Z.lxor (Z.land a b) (Z.land a c)) (Z.land b c) in
  Words (u32 (t1 + S0 + maj)) a b c (u32 (d + t1)) e f g.

Definition compress (s : words) (block : bytes) : words :=
  let r := fold_left sha_round (combine K256 (schedule block)) s in
  Words (u32 (wa s + wa r)) (u32 (wb s + wb r)) (u32 (wc s + wc r)) (u32 (wd s + wd r))
        (u32 (we s + we r)) (u32 (wf s + wf r)) (u32 (wg s + wg r)) (u32 (wh s + wh r)).

(** Padding: 0x80, zeros to 56 modulo 64, then the bit length in 8 bytes. *)
Definition sha_pad (msg : bytes) : bytes :=
  let n := len msg in
  msg ++ [0x80] ++ replicate (Z.to_nat ((55 - n) mod 64)) 0 ++ be_bytes 8 (u64 (8 * n)).

Fixpoint blocks (n : nat) (bs : bytes) : list bytes :=
  match n with
  | O => []
  | S n => take 64 bs :: blocks n (drop 64 bs)
  end.

Definition digest (s : words) : bytes :=
  be_bytes 4 (wa s) ++ be_bytes 4 (wb s) ++ be_bytes 4 (wc s) ++ be_bytes 4 (wd s) ++
  be_bytes 4 (we s) ++ be_bytes 4 (wf s) ++ be_bytes 4 (wg s) ++ be_bytes 4 (wh s).

(** [sha256.Sum256] *)
Definition Sum256 (msg : bytes) : bytes :=
  let p := sha_pad msg in
  digest (fold_left compress (blocks (length p / 64) p) H0).

Lemma Sum256_hash msg : is_hash (Sum256 msg).
Proof.
  unfold Sum256, digest, is_hash. split.
  - rewrite !length_app. by autorewrite with nevel_rw.
  - rewrite !bytes_wf_app. split_and!; apply be_bytes_wf.
Qed.

(** The padded message is a whole number of 64-byte blocks, so the block loop
    consumes all of it. *)
Lemma sha_pad_blocks msg : exists k, length (sha_pad msg) = (64 * k)%nat.
Proof.
  unfold sha_pad. rewrite !length_app, length_replicate. autorewrite with nevel_rw.
  unfold len. set (n := Z.of_nat (length msg)).
  pose proof (Z.mod_pos_bound (55 - n) 64 ltac:(lia)).
  pose proof (Z.div_mod (55 - n) 64 ltac:(lia)).
  exists (Z.to_nat (1 - (55 - n) / 64)). simpl. lia.
Qed.

(** Two FIPS 180-4 test vectors. *)
Example sha256_abc :
  hex_encode (Sum256 (str "abc")) =
  str "ba7816bf8f01cfea414140de5dae2223b00361a396177a9cb410ff61f20015ad".
Proof. vm_compute. reflexivity. Qed.

Example sha256_two_blocks :
  hex_encode (Sum256 (str "abcdbcdecdefdefgefghfghighijhijkijkljklmklmnlmnomnopnopq")) =
  str "248d6a61d20638b8e5c026930c3e6039a33ce45964ff2167f6ecedd419db06c1".
Proof. vm_compute. reflexivity. Qed.

(** ** The interface *)

Class HashFunction := {
  sha256 : bytes -> bytes;
  sha256_hash : forall msg, is_hash (sha256 msg);
}.

Definition go_sha256 : HashFunction := {|
  sha256 := Sum256; sha256_hash := Sum256_hash |}.

Section Hash.
Context {HF : HashFunction}.

(** The double hash used for transactions, headers and merkle nodes:
    [first := sha256.Sum256(x); sha256.Sum256(first[:])]. *)
Definition sha256d (msg : bytes) : bytes := sha256 (sha256 msg).

(** No two different messages of the list share a double hash.  Lists of the
    messages a computation hashes are the domain on which the program relies on
    the hash function being injective. *)
Definition collision_free (ms : list bytes) : Prop :=
  forall x y, x ∈ ms -> y ∈ ms -> sha256d x = sha256d y -> x = y.

Lemma collision_free_sub ms ms' : ms ⊆ ms' -> collision_free ms' -> collision_free ms.
Proof. intros Hs Hc x y Hx Hy. apply Hc; by apply Hs. Qed.

Lemma sha256_length msg : length (sha256 msg) = 32%nat.
Proof. apply sha256_hash. Qed.
Lemma sha256_wf msg : bytes_wf (sha256 msg).
Proof. apply sha256_hash. Qed.
Lemma sha256d_hash msg : is_hash (sha256d msg).
Proof. apply sha256_hash. Qed.
End Hash.

#[export] Hint Resolve sha256_hash sha256_wf sha256d_hash : nevel.
