(* ===== verification/Params.v ===== *)
(** * Params: network parameters, compact targets and the supply schedule

    Models [params/params.go] and [params/economics.go]. *)

From S2P Require Import Prelude.

(** ** Constants ([params/params.go]) *)

Definition UnitsPerNEVEL : Z := 100000000.
Definition MaxSupply : Z := 21000000000 * UnitsPerNEVEL.
Definition TargetBlockSec : Z := 60.
Definition InitialReward : Z := 500 * UnitsPerNEVEL.
Definition HalvingInterval : Z := 2102400.
Definition DifficultyAdjustmentInterval : Z := 720.
Definition DifficultyWindow : Z := DifficultyAdjustmentInterval.
Definition ExpectedRetargetSec : Z := TargetBlockSec * DifficultyAdjustmentInterval.
Definition CoinbaseMaturity : Z := 100.
Definition DefaultMempoolMaxByte : Z := 64 * 1024 * 1024.
Definition MinRelayFeePerByte : Z := 1.
Definition ProductionPowBits : Z := 0x1d00ffff.
Definition RegtestPowBits : Z := 0x207fffff.

(** ** Compact targets *)

(** [CompactToBig]: the top byte is a size in bytes, the low 23 bits a
    mantissa, bit 23 a sign. *)
Definition CompactToBig (compact : Z) : Z :=
  let size := Z.shiftr compact 24 in
  let word := Z.land compact 0x007fffff in
  let bn := if size <=? 3 then Z.shiftr word (8 * (3 - size))
            else Z.shiftl word (8 * (size - 3)) in
  if negb (Z.land compact 0x00800000 =? 0) then - bn else bn.

(** [len(n.Bytes())], the length of the absolute value in bytes. *)
Definition byte_size (n : Z) : Z := Z.log2 (Z.abs n) / 8 + 1.

(** [big.Int.Uint64]: the low 64 bits of the absolute value. *)
Definition big_Uint64 (n : Z) : Z := u64 (Z.abs n).

Definition BigToCompact (n : Z) : Z :=
  if n =? 0 then 0 else
  let size := byte_size n in
  let compact :=
    if size <=? 3 then u32 (big_Uint64 (Z.shiftl n (8 * (3 - size))))
    else u32 (big_Uint64 (Z.shiftr n (8 * (size - 3)))) in
  let '(compact, size) :=
    if negb (Z.land compact 0x00800000 =? 0) then (Z.shiftr compact 8, size + 1)
    else (compact, size) in
  Z.lor compact (u32 (Z.shiftl (u32 size) 24)).

(** ** Networks *)

Record Network := {
  ID : string;
  AddressPrefix : string;
  DefaultRPC : string;
  GenesisBits : Z;
  InitialBits : Z;
  PowLimit : Z;
}.

Definition MaxPowLimit : Z := Z.shiftl 1 256 - 1.

Definition Mainnet : Network := {|
  ID := "nevel-mainnet-1"; AddressPrefix := "nevel"; DefaultRPC := "127.0.0.1:8332";
  GenesisBits := ProductionPowBits; InitialBits := ProductionPowBits;
  PowLimit := CompactToBig ProductionPowBits |}.

Definition Testnet : Network := {|
  ID := "nevel-testnet-1"; AddressPrefix := "tnevel"; DefaultRPC := "127.0.0.1:18332";
  GenesisBits := ProductionPowBits; InitialBits := ProductionPowBits;
  PowLimit := CompactToBig ProductionPowBits |}.

Definition Regtest : Network := {|
  ID := "nevel-regtest-1"; AddressPrefix := "rnevel"; DefaultRPC := "127.0.0.1:18443";
  GenesisBits := RegtestPowBits; InitialBits := RegtestPowBits;
  PowLimit := CompactToBig RegtestPowBits |}.

Definition ByName (name : string) : Network :=
  if String.eqb name "mainnet" then Mainnet
  else if String.eqb name "testnet" then Testnet
  else Regtest.

(** ** The supply audit ([params/economics.go]) *)

Record SupplyAudit := {
  sa_MaxSupply : Z;
  sa_InitialReward : Z;
  sa_HalvingInterval : Z;
  sa_TotalSubsidy : Z;
  sa_Pass : bool;
}.

Definition audit_report (total : Z) (pass : bool) : SupplyAudit := {|
  sa_MaxSupply := MaxSupply; sa_InitialReward := InitialReward;
  sa_HalvingInterval := HalvingInterval; sa_TotalSubsidy := total; sa_Pass := pass |}.

(** [InitialReward >> (height / HalvingInterval)], zeroed from the 64th halving on. *)
Definition audit_reward (height : Z) : Z :=
  let reward := Z.shiftr InitialReward (height / HalvingInterval) in
  if 64 <=? height / HalvingInterval then 0 else reward.

(** The audit loop; [None] when the fuel runs out.  The error case carries the
    partial report, as the code returns both. *)
Fixpoint audit_loop (fuel : nat) (maxHeight height total : Z)
    : option (SupplyAudit * option error) :=
  match fuel with
  | O => None
  | S fuel =>
      let done := Some (audit_report total (total <=? MaxSupply), None) in
      if negb (height <=? maxHeight) then done else
      let reward := audit_reward height in
      if (max64 - total <? reward) || (MaxSupply <? u64 (total + reward)) then
        Some (audit_report total false, Some ErrSupplyScheduleExceedsMax)
      else
        let total := u64 (total + reward) in
        if reward =? 0 then Some (audit_report total (total <=? MaxSupply), None)
        else audit_loop fuel maxHeight (u64 (height + 1)) total
  end.

Definition AuditSupplySchedule (fuel : nat) (maxHeight : Z)
    : option (SupplyAudit * option error) :=
  audit_loop fuel maxHeight 0 0.

(** ** Compact targets: lemmas *)

Lemma land_pow2_zero x k :
  0 <= k -> Z.land x (2 ^ k) = 0 <-> Z.testbit x k = false.
Proof.
  intros Hk. split; intros H.
  - apply (f_equal (fun z => Z.testbit z k)) in H.
    by rewrite Z.land_spec, Z.pow2_bits_true, andb_true_r, Z.bits_0 in H by done.
  - apply Z.bits_inj'. intros n Hn. rewrite Z.land_spec, Z.pow2_bits_eqb, Z.bits_0 by done.
    destruct (Z.eqb_spec k n) as [<-|]; [by rewrite H | apply andb_false_r].
Qed.

Lemma testbit_div x k : 0 <= k -> Z.testbit x k = true <-> (x / 2 ^ k) mod 2 = 1.
Proof. intros Hk. by rewrite Z.testbit_eqb, Z.eqb_eq by done. Qed.

Lemma pow256 k : 0 <= k -> 256 ^ k = 2 ^ (8 * k).
Proof. intros Hk. change 256 with (2 ^ 8). by rewrite <- Z.pow_mul_r by lia. Qed.

(** A compact value as mantissa and size. *)
Lemma CompactToBig_split mant size :
  0 <= mant < 2 ^ 23 -> 0 <= size < 2 ^ 8 ->
  CompactToBig (mant + size * 2 ^ 24) =
  if size <=? 3 then mant / 256 ^ (3 - size) else mant * 256 ^ (size - 3).
Proof.
  intros Hm Hs. unfold CompactToBig.
  assert (Hsz : Z.shiftr (mant + size * 2 ^ 24) 24 = size).
  { rewrite Z.shiftr_div_pow2, Z.div_add, Z.div_small by lia. lia. }
  assert (Hw : Z.land (mant + size * 2 ^ 24) 0x007fffff = mant).
  { change 0x007fffff with (Z.ones 23). rewrite Z.land_ones by lia.
    replace (mant + size * 2 ^ 24) with (mant + (size * 2) * 2 ^ 23) by lia.
    rewrite Z.mod_add, Z.mod_small; lia. }
  assert (Hb : Z.land (mant + size * 2 ^ 24) 0x00800000 = 0).
  { change 0x00800000 with (2 ^ 23). apply land_pow2_zero; [lia|].
    apply not_true_iff_false. rewrite testbit_div by lia.
    replace (mant + size * 2 ^ 24) with (mant + (size * 2) * 2 ^ 23) by lia.
    rewrite Z.div_add, Z.div_small, Z.add_0_l, Z.mod_mul by lia. lia. }
  rewrite Hsz, Hw, Hb. simpl negb. cbv iota.
  destruct (Z.leb_spec size 3).
  - by rewrite Z.shiftr_div_pow2, pow256 by lia.
  - by rewrite Z.shiftl_mul_pow2, pow256 by lia.
Qed.

Lemma lor_shiftl_add a b k :
  0 <= k -> 0 <= a < 2 ^ k -> Z.lor a (Z.shiftl b k) = a + b * 2 ^ k.
Proof.
  intros Hk Ha.
  assert (Hland : Z.land a (Z.shiftl b k) = 0).
  { apply Z.bits_inj'. intros n Hn. rewrite Z.land_spec, Z.bits_0, Z.shiftl_spec by done.
    destruct (Z.lt_ge_cases n k).
    - rewrite (Z.testbit_neg_r b) by lia. apply andb_false_r.
    - replace (Z.testbit a n) with false; [done|]. symmetry.
      destruct (Z.eq_dec a 0) as [->|]; [apply Z.bits_0|].
      apply Z.bits_above_log2; [lia|]. eapply Z.lt_le_trans; [|done].
      apply Z.log2_lt_pow2; lia. }
  rewrite <- Z.lxor_lor, <- Z.add_nocarry_lxor by done.
  by rewrite Z.shiftl_mul_pow2 by done.
Qed.

(** [byte_size] is the length of the big-endian representation. *)
Lemma byte_size_spec n :
  0 < n -> 1 <= byte_size n /\ 256 ^ (byte_size n - 1) <= n < 256 ^ byte_size n.
Proof.
  intros Hn. unfold byte_size. rewrite Z.abs_eq by lia.
  pose proof (Z.log2_nonneg n) as Hl. pose proof (Z.log2_spec n Hn) as [Hlo Hhi].
  assert (0 <= Z.log2 n / 8) by (apply Z.div_pos; lia).
  pose proof (Z.div_mod (Z.log2 n) 8 ltac:(lia)).
  pose proof (Z.mod_pos_bound (Z.log2 n) 8 ltac:(lia)).
  rewrite !pow256 by lia. split; [lia|]. split.
  - eapply Z.le_trans; [|exact Hlo]. apply Z.pow_le_mono_r; lia.
  - eapply Z.lt_le_trans; [exact Hhi|]. apply Z.pow_le_mono_r; lia.
Qed.

Lemma byte_size_bound n k : 0 < n < 256 ^ k -> 0 <= k -> byte_size n <= k.
Proof.
  intros [Hn Hk] ?. destruct (byte_size_spec n Hn) as (? & Hlo & _).
  destruct (Z.le_gt_cases (byte_size n) k); [done|].
  assert (256 ^ k <= 256 ^ (byte_size n - 1)) by (apply Z.pow_le_mono_r; lia). lia.
Qed.

Lemma byte_size_unique n k :
  0 < n -> 1 <= k /\ 256 ^ (k - 1) <= n < 256 ^ k -> byte_size n = k.
Proof.
  intros Hn (Hk & Hlo & Hhi). destruct (byte_size_spec n Hn) as (? & Hlo' & _).
  pose proof (byte_size_bound n k ltac:(lia) ltac:(lia)).
  destruct (Z.le_gt_cases k (byte_size n)); [lia|].
  destruct (byte_size_spec n Hn) as (_ & _ & Hhi').
  assert (256 ^ byte_size n <= 256 ^ (k - 1)) by (apply Z.pow_le_mono_r; lia). lia.
Qed.

(** The mantissa before the sign adjustment: the three leading bytes of [n]. *)
Definition lead3 (n : Z) : Z :=
  if byte_size n <=? 3 then n * 256 ^ (3 - byte_size n)
  else n / 256 ^ (byte_size n - 3).

Lemma lead3_range n : 0 < n -> 2 ^ 16 <= lead3 n < 2 ^ 24.
Proof.
  intros Hn. destruct (byte_size_spec n Hn) as (Hs & Hlo & Hhi). unfold lead3.
  change (2 ^ 16) with (256 ^ 2). change (2 ^ 24) with (256 ^ 3).
  destruct (Z.leb_spec (byte_size n) 3).
  - assert (Hp : 0 < 256 ^ (3 - byte_size n)) by (apply Z.pow_pos_nonneg; lia).
    replace (256 ^ 2) with (256 ^ (byte_size n - 1) * 256 ^ (3 - byte_size n))
      by (rewrite <- Z.pow_add_r by lia; f_equal; lia).
    replace (256 ^ 3) with (256 ^ byte_size n * 256 ^ (3 - byte_size n))
      by (rewrite <- Z.pow_add_r by lia; f_equal; lia).
    split; [by apply Z.mul_le_mono_nonneg_r; lia | by apply Z.mul_lt_mono_pos_r].
  - assert (Hp : 0 < 256 ^ (byte_size n - 3)) by (apply Z.pow_pos_nonneg; lia).
    split; [apply Z.div_le_lower_bound | apply Z.div_lt_upper_bound]; try done;
      rewrite <- Z.pow_add_r by lia.
    + by replace (byte_size n - 3 + 2) with (byte_size n - 1) by lia.
    + by replace (byte_size n - 3 + 3) with (byte_size n) by lia.
Qed.

Lemma bit23 c : 0 <= c < 2 ^ 24 -> negb (Z.land c 0x00800000 =? 0) = (2 ^ 23 <=? c).
Proof.
  intros Hc. change 0x00800000 with (2 ^ 23). apply eq_true_iff_eq.
  rewrite negb_true_iff, Z.eqb_neq, Z.leb_le, land_pow2_zero, not_false_iff_true by lia.
  rewrite testbit_div by lia.
  assert (Hd : c / 2 ^ 23 < 2) by (apply Z.div_lt_upper_bound; lia).
  assert (0 <= c / 2 ^ 23) by (apply Z.div_pos; lia).
  rewrite Z.mod_small by lia. split; intros H'.
  - pose proof (Z.mul_div_le c (2 ^ 23) ltac:(lia)). lia.
  - assert (1 <= c / 2 ^ 23) by (apply Z.div_le_lower_bound; lia). lia.
Qed.

(** [BigToCompact] in arithmetic form. *)
Lemma BigToCompact_arith n :
  0 < n < 256 ^ 254 ->
  BigToCompact n =
  if 2 ^ 23 <=? lead3 n then lead3 n / 256 + (byte_size n + 1) * 2 ^ 24
  else lead3 n + byte_size n * 2 ^ 24.
Proof.
  intros Hn. pose proof (byte_size_bound n 254 ltac:(lia) ltac:(lia)) as Hsz.
  destruct (byte_size_spec n ltac:(lia)) as (Hs & _ & _).
  pose proof (lead3_range n ltac:(lia)) as Hl.
  unfold BigToCompact. rewrite (proj2 (Z.eqb_neq n 0)) by lia.
  assert (Hc : (if byte_size n <=? 3
     then u32 (big_Uint64 (Z.shiftl n (8 * (3 - byte_size n))))
     else u32 (big_Uint64 (Z.shiftr n (8 * (byte_size n - 3))))) = lead3 n).
  { revert Hl. unfold lead3, big_Uint64. destruct (Z.leb_spec (byte_size n) 3);
      [rewrite Z.shiftl_mul_pow2 by lia | rewrite Z.shiftr_div_pow2 by lia];
      rewrite <- pow256 by lia; intros;
      rewrite Z.abs_eq, u64_small, u32_small by mach; done. }
  cbv zeta. rewrite Hc, bit23 by lia.
  assert (Hu : forall z, 0 <= z < 256 -> u32 (Z.shiftl (u32 z) 24) = Z.shiftl z 24).
  { intros z Hz. rewrite (u32_small z) by mach. apply u32_small.
    rewrite Z.shiftl_mul_pow2; mach. }
  destruct (Z.leb_spec (2 ^ 23) (lead3 n)); rewrite Hu by lia.
  - rewrite Z.shiftr_div_pow2 by lia. change (2 ^ 8) with 256.
    apply lor_shiftl_add; [lia|].
    split; [apply Z.div_pos; lia | apply Z.div_lt_upper_bound; lia].
  - apply lor_shiftl_add; lia.
Qed.

(** Keeping the leading bytes of [n] as a 23-bit mantissa of at least 16 bits
    loses less than one part in 2^15. *)
Lemma compact_truncation n m e :
  0 < n -> 2 ^ 15 <= m < 2 ^ 23 -> 1 <= e <= 255 ->
  (e <= 3 -> m = n * 256 ^ (3 - e)) -> (3 < e -> m = n / 256 ^ (e - 3)) ->
  0 < CompactToBig (m + e * 2 ^ 24) <= n /\
  (n - CompactToBig (m + e * 2 ^ 24)) * 2 ^ 15 <= n.
Proof.
  intros Hn Hm He H1 H2. rewrite CompactToBig_split by lia.
  destruct (Z.leb_spec e 3).
  - assert (0 < 256 ^ (3 - e)) by (apply Z.pow_pos_nonneg; lia).
    rewrite H1, Z.div_mul by lia. lia.
  - assert (Hp : 0 < 256 ^ (e - 3)) by (apply Z.pow_pos_nonneg; lia).
    pose proof (Z.mul_div_le n (256 ^ (e - 3)) Hp).
    pose proof (Z.mul_succ_div_gt n (256 ^ (e - 3)) Hp).
    rewrite <- H2 in * by lia. nia.
Qed.

(** Dropping one more byte of the mantissa. *)
Lemma lead3_next n :
  0 < n ->
  (byte_size n + 1 <= 3 -> lead3 n / 256 = n * 256 ^ (3 - (byte_size n + 1))) /\
  (3 < byte_size n + 1 -> lead3 n / 256 = n / 256 ^ (byte_size n + 1 - 3)).
Proof.
  intros Hn. unfold lead3. split; intros He; destruct (Z.leb_spec (byte_size n) 3); try lia.
  - replace (3 - byte_size n) with (Z.succ (3 - (byte_size n + 1))) by lia.
    rewrite Z.pow_succ_r, (Z.mul_comm 256), Z.mul_assoc, Z.div_mul by lia. done.
  - replace (byte_size n) with 3 by lia. by rewrite Z.mul_1_r.
  - rewrite Z.div_div by (try apply Z.pow_nonzero; lia). f_equal.
    replace (byte_size n + 1 - 3) with (byte_size n - 3 + 1) by lia.
    by rewrite Z.pow_add_r by lia.
Qed.

(** Encoding truncates to the leading bytes: the decoded target is never above
    the encoded one and loses less than one part in 2^15. *)
Lemma CompactToBig_BigToCompact n :
  0 < n < 256 ^ 254 ->
  0 < CompactToBig (BigToCompact n) <= n /\
  (n - CompactToBig (BigToCompact n)) * 2 ^ 15 <= n.
Proof.
  intros Hn. pose proof (byte_size_bound n 254 ltac:(lia) ltac:(lia)) as Hsz.
  destruct (byte_size_spec n ltac:(lia)) as (Hs & _ & _).
  pose proof (lead3_range n ltac:(lia)) as Hl. rewrite BigToCompact_arith by done.
  destruct (Z.leb_spec (2 ^ 23) (lead3 n)).
  - destruct (lead3_next n ltac:(lia)). apply compact_truncation; try done; try lia.
    split; [apply Z.div_le_lower_bound | apply Z.div_lt_upper_bound]; lia.
  - apply compact_truncation; try lia; unfold lead3; intros He;
      destruct (Z.leb_spec (byte_size n) 3); (done || lia).
Qed.

(** A canonical compact value: positive, at least 16 significant bits and a size
    of at least the three bytes of the mantissa. *)
Definition compact_canonical (c : Z) : Prop :=
  exists mant size, c = mant + size * 2 ^ 24 /\ 2 ^ 15 <= mant < 2 ^ 23 /\ 3 <= size <= 254.

(** The leading bytes of [m * 256^k]. *)
Lemma lead3_shift m k :
  2 ^ 15 <= m < 2 ^ 23 -> 0 <= k ->
  byte_size (m * 256 ^ k) = (if 2 ^ 16 <=? m then k + 3 else k + 2) /\
  lead3 (m * 256 ^ k) = if 2 ^ 16 <=? m then m else m * 256.
Proof.
  intros Hm Hk. assert (Hp : 0 < 256 ^ k) by (apply Z.pow_pos_nonneg; lia).
  assert (Hsz : byte_size (m * 256 ^ k) = if 2 ^ 16 <=? m then k + 3 else k + 2).
  { apply byte_size_unique; [nia|].
    destruct (Z.leb_spec (2 ^ 16) m); (split; [lia|]).
    - replace (k + 3 - 1) with (k + 2) by lia. rewrite !Z.pow_add_r by lia. nia.
    - replace (k + 2 - 1) with (k + 1) by lia. rewrite !Z.pow_add_r by lia. nia. }
  split; [done|]. unfold lead3. rewrite Hsz. destruct (Z.leb_spec (2 ^ 16) m).
  - destruct (Z.leb_spec (k + 3) 3).
    + replace k with 0 by lia. simpl. lia.
    + replace (k + 3 - 3) with k by lia. by rewrite Z.div_mul by lia.
  - destruct (Z.leb_spec (k + 2) 3).
    + assert (k = 0 \/ k = 1) as [-> | ->] by lia; simpl; lia.
    + replace (m * 256 ^ k) with (m * 256 * 256 ^ (k + 2 - 3)).
      * by rewrite Z.div_mul by (apply Z.pow_nonzero; lia).
      * rewrite <- Z.mul_assoc, <- Z.pow_succ_r by lia. do 2 f_equal. lia.
Qed.

(** Every canonical compact value survives decoding and encoding. *)
Lemma BigToCompact_CompactToBig c :
  compact_canonical c -> BigToCompact (CompactToBig c) = c.
Proof.
  intros (m & e & -> & Hm & He). rewrite CompactToBig_split by lia.
  replace (if e <=? 3 then m / 256 ^ (3 - e) else m * 256 ^ (e - 3)) with (m * 256 ^ (e - 3)).
  2: { destruct (Z.leb_spec e 3); [|done]. replace e with 3 by lia. simpl.
       by rewrite Z.div_1_r, Z.mul_1_r. }
  assert (Hp : 0 < 256 ^ (e - 3)) by (apply Z.pow_pos_nonneg; lia).
  assert (Hle : 256 ^ (3 + (e - 3)) <= 256 ^ 254) by (apply Z.pow_le_mono_r; lia).
  rewrite Z.pow_add_r in Hle by lia. change (256 ^ 3) with (2 ^ 24) in Hle.
  rewrite BigToCompact_arith by nia.
  destruct (lead3_shift m (e - 3)) as [-> ->]; [lia..|].
  destruct (Z.leb_spec (2 ^ 16) m).
  - rewrite (proj2 (Z.leb_gt _ _)) by lia. do 2 f_equal. lia.
  - rewrite (proj2 (Z.leb_le _ _)), Z.div_mul by lia. do 2 f_equal. lia.
Qed.

Lemma compact_canonical_const :
  compact_canonical ProductionPowBits /\ compact_canonical RegtestPowBits.
Proof.
  split; [exists 0xffff, 0x1d | exists 0x7fffff, 0x20]; by vm_compute.
Qed.

(** ** The supply schedule: lemmas *)

(** The subsidy of the first [q] halving periods, per block. *)
Fixpoint halving_sum (q : nat) : Z :=
  match q with
  | O => 0
  | S q => halving_sum q + Z.shiftr InitialReward (Z.of_nat q)
  end.

Lemma halving_step q :
  0 <= q -> 2 * Z.shiftr InitialReward (q + 1) <= Z.shiftr InitialReward q.
Proof.
  intros Hq. rewrite <- Z.shiftr_shiftr by lia.
  rewrite (Z.shiftr_div_pow2 _ 1) by lia. apply Z.mul_div_le. lia.
Qed.

Lemma shiftr_nonneg q : 0 <= Z.shiftr InitialReward q.
Proof. apply Z.shiftr_nonneg. done. Qed.

Lemma halving_sum_bound q :
  halving_sum q + 2 * Z.shiftr InitialReward (Z.of_nat q) <= 2 * InitialReward.
Proof.
  induction q as [|q IH]; [done|]. simpl halving_sum.
  pose proof (halving_step (Z.of_nat q) ltac:(lia)) as Hs.
  rewrite Nat2Z.inj_succ. unfold Z.succ. lia.
Qed.

Lemma halving_sum_nonneg q : 0 <= halving_sum q.
Proof. induction q; simpl; [lia|]. pose proof (shiftr_nonneg (Z.of_nat q)). lia. Qed.

Lemma audit_reward_shiftr h :
  0 <= h -> audit_reward h = Z.shiftr InitialReward (h / HalvingInterval).
Proof.
  intros Hh. unfold audit_reward. destruct (Z.leb_spec 64 (h / HalvingInterval)); [|done].
  symmetry. apply Z.shiftr_eq_0; [done|]. eapply Z.lt_le_trans; [|done]. done.
Qed.

Lemma audit_reward_range h : 0 <= h -> 0 <= audit_reward h <= InitialReward.
Proof.
  intros Hh. rewrite audit_reward_shiftr by done. split; [apply shiftr_nonneg|].
  assert (0 <= h / HalvingInterval) by (apply Z.div_pos; unfold HalvingInterval; lia).
  rewrite Z.shiftr_div_pow2 by lia.
  apply Z.div_le_upper_bound; [apply Z.pow_pos_nonneg; lia|].
  pose proof (Z.pow_pos_nonneg 2 (h / HalvingInterval)). unfold InitialReward, UnitsPerNEVEL. nia.
Qed.

(** The subsidy issued by the blocks below height [n]. *)
Fixpoint subsidy_below (n : nat) : Z :=
  match n with
  | O => 0
  | S n => subsidy_below n + audit_reward (Z.of_nat n)
  end.

(** The subsidy issued so far in closed form: whole halving periods and the
    blocks of the current one. *)
Lemma subsidy_closed n :
  let q := Z.of_nat n / HalvingInterval in
  subsidy_below n =
  HalvingInterval * halving_sum (Z.to_nat q) +
  (Z.of_nat n mod HalvingInterval) * Z.shiftr InitialReward q.
Proof.
  cbv zeta. induction n as [|n IH]; [done|]. simpl subsidy_below.
  rewrite IH, audit_reward_shiftr by lia. rewrite Nat2Z.inj_succ. clear IH.
  set (h := Z.of_nat n). assert (Hh : 0 <= h) by lia.
  pose proof (Z.div_mod h HalvingInterval ltac:(done)) as Hdm.
  pose proof (Z.mod_pos_bound h HalvingInterval ltac:(done)) as Hr.
  set (q := h / HalvingInterval) in *. set (r := h mod HalvingInterval) in *.
  assert (0 <= q) by (apply Z.div_pos; unfold HalvingInterval; lia).
  destruct (Z.lt_ge_cases (r + 1) HalvingInterval).
  - assert (Z.succ h / HalvingInterval = q) as ->
      by (symmetry; apply (Z.div_unique_pos _ _ _ (r + 1)); lia).
    assert (Z.succ h mod HalvingInterval = r + 1) as ->
      by (symmetry; apply (Z.mod_unique_pos _ _ q); lia). lia.
  - assert (Z.succ h / HalvingInterval = q + 1) as ->
      by (symmetry; apply (Z.div_unique_pos _ _ _ 0); lia).
    assert (Z.succ h mod HalvingInterval = 0) as ->
      by (symmetry; apply (Z.mod_unique_pos _ _ (q + 1)); lia).
    replace (Z.to_nat (q + 1)) with (S (Z.to_nat q)) by lia. simpl halving_sum.
    rewrite Z2Nat.id by done. assert (r = HalvingInterval - 1) as -> by lia. lia.
Qed.

(** No schedule of any length issues more than 2,102,400,000 NEVEL. *)
Lemma subsidy_bound n : 0 <= subsidy_below n <= 2 * HalvingInterval * InitialReward.
Proof.
  rewrite subsidy_closed. set (q := Z.of_nat n / HalvingInterval).
  assert (0 <= q) by (apply Z.div_pos; unfold HalvingInterval; lia).
  pose proof (halving_sum_bound (Z.to_nat q)) as Hb. rewrite Z2Nat.id in Hb by done.
  pose proof (halving_sum_nonneg (Z.to_nat q)). pose proof (shiftr_nonneg q).
  pose proof (Z.mod_pos_bound (Z.of_nat n) HalvingInterval ltac:(done)).
  unfold HalvingInterval in *. nia.
Qed.

Lemma audit_reward_zero h h' : 0 <= h <= h' -> audit_reward h = 0 -> audit_reward h' = 0.
Proof.
  intros Hh. rewrite !audit_reward_shiftr by lia. intros H0.
  pose proof (Z.div_le_mono h h' HalvingInterval ltac:(done) ltac:(lia)).
  assert (0 <= h / HalvingInterval) by (apply Z.div_pos; unfold HalvingInterval; lia).
  replace (h' / HalvingInterval)
    with (h / HalvingInterval + (h' / HalvingInterval - h / HalvingInterval)) by lia.
  rewrite <- Z.shiftr_shiftr, H0 by lia. apply Z.shiftr_0_l.
Qed.

Lemma subsidy_constant n m :
  (n <= m)%nat -> audit_reward (Z.of_nat n) = 0 -> subsidy_below m = subsidy_below n.
Proof.
  induction 1 as [|m Hm IH]; [done|]. intros H0. simpl.
  rewrite IH, (audit_reward_zero (Z.of_nat n)) by (done || lia). lia.
Qed.

(** The first height whose subsidy is zero: the 36th halving. *)
Definition last_subsidy_height : Z := 36 * HalvingInterval.

Lemma reward_before_last h : 0 <= h -> audit_reward h <> 0 -> h < last_subsidy_height.
Proof.
  intros Hh H. destruct (Z.lt_ge_cases h last_subsidy_height) as [|Hge]; [done|].
  destruct H. apply (audit_reward_zero last_subsidy_height); [|by vm_compute].
  split; [by vm_compute | done].
Qed.

Lemma audit_loop_total fuel maxHeight h :
  is_u64 maxHeight -> 0 <= h <= Z.min maxHeight last_subsidy_height + 1 ->
  Z.min maxHeight last_subsidy_height - h + 2 <= Z.of_nat fuel ->
  audit_loop fuel maxHeight h (subsidy_below (Z.to_nat h)) =
  Some (audit_report (subsidy_below (S (Z.to_nat maxHeight))) true, None).
Proof.
  revert h. induction fuel as [|fuel IH]; intros h Hmax Hh Hfuel;
    unfold is_u64 in Hmax; [lia|].
  assert (Hcap : forall n, (subsidy_below n <=? MaxSupply) = true).
  { intros n. apply Z.leb_le. pose proof (subsidy_bound n) as Hb.
    unfold MaxSupply, HalvingInterval, InitialReward, UnitsPerNEVEL in *. lia. }
  cbn [audit_loop]. cbv zeta.
  destruct (Z.leb_spec h maxHeight) as [Hle|Hgt]; simpl negb; cbv iota.
  2: { rewrite Hcap. replace (Z.to_nat h) with (S (Z.to_nat maxHeight)) by lia. done. }
  assert (Hn : subsidy_below (Z.to_nat h) + audit_reward h = subsidy_below (S (Z.to_nat h))).
  { simpl. by rewrite Z2Nat.id by lia. }
  pose proof (subsidy_bound (Z.to_nat h)) as Hb0.
  pose proof (subsidy_bound (S (Z.to_nat h))) as Hb. rewrite Hn.
  unfold HalvingInterval, InitialReward, UnitsPerNEVEL in Hb, Hb0.
  rewrite (proj2 (Z.ltb_ge _ _)) by mach. rewrite orb_false_l.
  rewrite (u64_small (subsidy_below _)) by mach.
  rewrite (proj2 (Z.ltb_ge _ _)) by apply Z.leb_le, Hcap. cbv iota.
  destruct (Z.eqb_spec (audit_reward h) 0) as [H0|H0].
  - rewrite Hcap, (subsidy_constant (Z.to_nat h) (S (Z.to_nat maxHeight))),
      (subsidy_constant (Z.to_nat h) (S (Z.to_nat h))); (done || lia || by rewrite Z2Nat.id by lia).
  - apply reward_before_last in H0; [|lia]. rewrite u64_small
      by (unfold last_subsidy_height, HalvingInterval in *; mach).
    replace (S (Z.to_nat h)) with (Z.to_nat (h + 1)) by lia. apply IH; [done | lia | lia].
Qed.

(** C23: The supply audit accepts the reward schedule at every 64-bit height and reports
    the exact sum of the rewards, at most 2 102 400 000 coins, without overflow; its
    loop ends by height 36 halvings because the reward is zero from there on. *)
Theorem audit_supply_passes fuel maxHeight :
  is_u64 maxHeight ->
  Z.min maxHeight (36 * HalvingInterval) + 2 <= Z.of_nat fuel ->
  exists total,
    AuditSupplySchedule fuel maxHeight = Some (audit_report total true, None) /\
    total = subsidy_below (S (Z.to_nat maxHeight)) /\
    total <= 2102400000 * UnitsPerNEVEL < MaxSupply.
Proof.
  intros Hmax Hfuel. eexists. split_and!; [|done | | done].
  - apply (audit_loop_total fuel maxHeight 0); [done| |]; unfold last_subsidy_height.
    + unfold HalvingInterval in *. mach.
    + lia.
  - apply subsidy_bound.
Qed.
