(* ===== verification/Tx.v ===== *)
(** * Tx: transactions and their wire format

    Models [tx/transaction.go]: the data types, the coinbase test, the fee of a
    transaction, the serializer ([WriteTransaction]) and the parser
    ([ReadTransaction]) with its limits on counts and field sizes. *)

From S2P Require Import Prelude Encoding Sha256.

(** ** Data *)

Record Input := mkInput {
  in_PrevTxHash : bytes;
  in_OutputIdx : Z;
  in_Signature : bytes;
  in_PublicKey : bytes;
}.

Record Output := mkOutput {
  out_Amount : Z;
  out_LockingScript : bytes;
}.

Record Transaction := mkTransaction {
  tx_Version : Z;
  tx_Inputs : list Input;
  tx_Outputs : list Output;
  tx_LockTime : Z;
}.

#[global] Instance Input_eq_dec : EqDecision Input.
Proof. solve_decision. Defined.
#[global] Instance Output_eq_dec : EqDecision Output.
Proof. solve_decision. Defined.
#[global] Instance Transaction_eq_dec : EqDecision Transaction.
Proof. solve_decision. Defined.

(** ** Well-formedness: what the Go types guarantee *)

Definition input_wf (i : Input) : Prop :=
  is_hash (in_PrevTxHash i) /\ is_u32 (in_OutputIdx i) /\
  bytes_wf (in_Signature i) /\ bytes_wf (in_PublicKey i).

Definition output_wf (o : Output) : Prop :=
  is_u64 (out_Amount o) /\ bytes_wf (out_LockingScript o).

Definition tx_wf (t : Transaction) : Prop :=
  is_u32 (tx_Version t) /\ Forall input_wf (tx_Inputs t) /\
  Forall output_wf (tx_Outputs t) /\ is_u64 (tx_LockTime t).

#[global] Instance input_wf_dec i : Decision (input_wf i).
Proof. unfold input_wf. apply _. Defined.
#[global] Instance output_wf_dec o : Decision (output_wf o).
Proof. unfold output_wf. apply _. Defined.
#[global] Instance tx_wf_dec t : Decision (tx_wf t).
Proof. unfold tx_wf. apply _. Defined.

(** ** Serialization *)

Definition writeVarBytesList (n : Z) : bytes := le_bytes 8 (u64 n).

Definition writeBytes (b : bytes) : bytes := le_bytes 8 (u64 (len b)) ++ b.

Definition writeInput (i : Input) : bytes :=
  in_PrevTxHash i ++ le_bytes 4 (in_OutputIdx i) ++
  writeBytes (in_Signature i) ++ writeBytes (in_PublicKey i).

Definition writeOutput (o : Output) : bytes :=
  le_bytes 8 (out_Amount o) ++ writeBytes (out_LockingScript o).

(** [WriteTransaction] into a buffer, whose writes cannot fail. *)
Definition WriteTransaction (t : Transaction) : bytes :=
  le_bytes 4 (tx_Version t) ++
  writeVarBytesList (len (tx_Inputs t)) ++ flat_map writeInput (tx_Inputs t) ++
  writeVarBytesList (len (tx_Outputs t)) ++ flat_map writeOutput (tx_Outputs t) ++
  le_bytes 8 (tx_LockTime t).

Definition SerializeTransaction (t : Transaction) : bytes := WriteTransaction t.

(** [Transaction.Hash] *)
Definition tx_Hash {HF : HashFunction} (t : Transaction) : bytes := sha256d (SerializeTransaction t).

(** ** Parsing *)

Definition readCount (r : bytes) : result (Z * bytes) :=
  '(n, r) ← readUint 8 r;
  fail_if 1000000 <? n with Errorf "count too large" ;;
  Ok (n, r).

Definition readBytes (r : bytes) : result (bytes * bytes) :=
  '(n, r) ← readUint 8 r;
  fail_if 1000000 <? n with Errorf "byte field too large" ;;
  readFull (Z.to_nat n) r.

Definition readInput (r : bytes) : result (Input * bytes) :=
  '(h, r) ← readFull 32 r;
  '(idx, r) ← readUint 4 r;
  '(sig, r) ← readBytes r;
  '(pub, r) ← readBytes r;
  Ok (mkInput h idx sig pub, r).

Definition readOutput (r : bytes) : result (Output * bytes) :=
  '(amount, r) ← readUint 8 r;
  '(script, r) ← readBytes r;
  Ok (mkOutput amount script, r).

Definition ReadTransaction (r : bytes) : result (Transaction * bytes) :=
  '(version, r) ← readUint 4 r;
  '(inputs, r) ← readCount r;
  fail_if 10000 <? inputs with Errorf "too many inputs" ;;
  '(ins, r) ← readN readInput (Z.to_nat inputs) r;
  '(outputs, r) ← readCount r;
  fail_if 10000 <? outputs with Errorf "too many outputs" ;;
  '(outs, r) ← readN readOutput (Z.to_nat outputs) r;
  '(lockTime, r) ← readUint 8 r;
  Ok (mkTransaction version ins outs lockTime, r).

(** Bytes left over after the transaction are ignored. *)
Definition DeserializeTransaction (b : bytes) : result Transaction :=
  '(t, _) ← ReadTransaction b; Ok t.

(** ** Queries and construction *)

Definition IsCoinbase (t : Transaction) : bool :=
  match tx_Inputs t with
  | [i] => bool_decide (in_PrevTxHash i = zero_hash) && (in_OutputIdx i =? max32)
  | _ => false
  end.

Definition Fee (t : Transaction) (inputTotal : Z) : result Z :=
  out ← checked_sum 0 (out_Amount <$> tx_Outputs t);
  fail_if inputTotal <? out with ErrInflation ;;
  Ok (inputTotal - out).

Definition NewCoinbase (message : bytes) (amount : Z) (script : bytes) : Transaction := {|
  tx_Version := 1;
  tx_Inputs := [mkInput zero_hash max32 message []];
  tx_Outputs := [mkOutput amount script];
  tx_LockTime := 0 |}.

(** ** The limits of the parser *)

Definition max_field : Z := 1000000.
Definition max_items : Z := 10000.

Definition input_fits (i : Input) : Prop :=
  len (in_Signature i) <= max_field /\ len (in_PublicKey i) <= max_field.
Definition output_fits (o : Output) : Prop := len (out_LockingScript o) <= max_field.

(** The transactions [ReadTransaction] accepts back. *)
Definition tx_fits (t : Transaction) : Prop :=
  len (tx_Inputs t) <= max_items /\ len (tx_Outputs t) <= max_items /\
  Forall input_fits (tx_Inputs t) /\ Forall output_fits (tx_Outputs t).

#[global] Instance tx_fits_dec t : Decision (tx_fits t).
Proof. unfold tx_fits, input_fits, output_fits. apply _. Defined.

(** ** Lemmas *)

Lemma tx_Hash_hash {HF : HashFunction} t : is_hash (tx_Hash t).
Proof. apply sha256d_hash. Qed.
#[export] Hint Resolve tx_Hash_hash : nevel.

Lemma NewCoinbase_IsCoinbase m a s : IsCoinbase (NewCoinbase m a s) = true.
Proof. done. Qed.

Lemma NewCoinbase_wf m a s :
  bytes_wf m -> is_u64 a -> bytes_wf s -> tx_wf (NewCoinbase m a s).
Proof.
  intros. unfold NewCoinbase, tx_wf; simpl. split_and!; try mach.
  - apply Forall_singleton. split_and!; simpl; (done || auto with nevel || apply Forall_nil_2).
  - by apply Forall_singleton.
Qed.

(** *** The parser inverts the serializer *)

Lemma readCount_app n rest :
  is_u64 n -> n <= max_items -> readCount (le_bytes 8 n ++ rest) = Ok (n, rest).
Proof.
  intros Hn Hle. unfold readCount, max_items in *. rewrite (codec_read codec_u64) by done. simpl.
  by rewrite (proj2 (Z.ltb_ge _ _)) by lia.
Qed.

Lemma readCount_Ok bs n rest :
  bytes_wf bs -> readCount bs = Ok (n, rest) -> is_u64 n /\ bs = le_bytes 8 n ++ rest.
Proof.
  intros Hwf H. apply bind_Ok in H as ([m r'] & H & H'). inv_ok.
  by apply (codec_sound codec_u64) in H.
Qed.

Lemma codec_bytes :
  codec (fun b => len b <= max_field /\ bytes_wf b) writeBytes readBytes.
Proof.
  split.
  - intros a rest [Hl Hwf]. unfold readBytes, writeBytes. rewrite <- app_assoc.
    pose proof (len_nonneg a). unfold max_field in *.
    rewrite (codec_read codec_u64), u64_small by (auto with nevel; mach). simpl.
    rewrite (proj2 (Z.ltb_ge _ _)) by lia. apply readFull_app. unfold len. lia.
  - intros bs a rest Hwf H. apply bind_Ok in H as ([n r1] & H & H').
    apply (codec_sound codec_u64) in H as [Hn ->]; [|done]. inv_ok. breflect.
    apply bytes_wf_app in Hwf as [_ Hwf].
    apply (codec_sound (codec_full _)) in H' as [[Hl ?] ->]; [|done].
    assert (len a = n) as <- by (unfold len; mach). unfold writeBytes.
    rewrite u64_small, <- app_assoc by done. done.
Qed.

(** Compare two nestings of the same sequence of reads. *)
Ltac reassoc_reads :=
  intros; repeat (case_match; simplify_eq/=; try done); simplify_eq/=; try done.

Definition input_of (p : bytes * (Z * (bytes * bytes))) : Input :=
  let '(h, (i, (s, p))) := p in mkInput h i s p.
Definition of_input (i : Input) : bytes * (Z * (bytes * bytes)) :=
  (in_PrevTxHash i, (in_OutputIdx i, (in_Signature i, in_PublicKey i))).

Lemma codec_input : codec (fun i => input_wf i /\ input_fits i) writeInput readInput.
Proof.
  pose proof (codec_map input_of of_input _ _ _ ltac:(by intros []) ltac:(by intros (?&?&?&?))
    (codec_pair _ _ _ _ _ _ codec_hash (codec_pair _ _ _ _ _ _ codec_u32
      (codec_pair _ _ _ _ _ _ codec_bytes codec_bytes)))) as C.
  revert C. apply codec_ext; [| done |].
  - intros []. unfold input_wf, input_fits; simpl. naive_solver.
  - intros bs. unfold readInput. simpl. unfold mbind, result_bind. reassoc_reads.
Qed.

Definition output_of (p : Z * bytes) : Output := mkOutput p.1 p.2.
Definition of_output (o : Output) : Z * bytes := (out_Amount o, out_LockingScript o).

Lemma codec_output : codec (fun o => output_wf o /\ output_fits o) writeOutput readOutput.
Proof.
  pose proof (codec_map output_of of_output _ _ _ ltac:(by intros []) ltac:(by intros [])
    (codec_pair _ _ _ _ _ _ codec_u64 codec_bytes)) as C.
  revert C. apply codec_ext; [| done |].
  - intros []. unfold output_wf, output_fits; simpl. naive_solver.
  - intros bs. unfold readOutput. simpl. unfold mbind, result_bind. reassoc_reads.
Qed.

Definition tx_of (p : Z * (list Input * (list Output * Z))) : Transaction :=
  let '(v, (i, (o, l))) := p in mkTransaction v i o l.
Definition of_tx (t : Transaction) : Z * (list Input * (list Output * Z)) :=
  (tx_Version t, (tx_Inputs t, (tx_Outputs t, tx_LockTime t))).

Lemma codec_tx : codec (fun t => tx_wf t /\ tx_fits t) WriteTransaction ReadTransaction.
Proof.
  pose proof (codec_counted _ _ _ max_items _ (Errorf "too many inputs") ltac:(done)
    (fun n H H' r => readCount_app n r H H') readCount_Ok codec_input) as CI.
  pose proof (codec_counted _ _ _ max_items _ (Errorf "too many outputs") ltac:(done)
    (fun n H H' r => readCount_app n r H H') readCount_Ok codec_output) as CO.
  pose proof (codec_map tx_of of_tx _ _ _ ltac:(by intros []) ltac:(by intros (?&?&?&?))
    (codec_pair _ _ _ _ _ _ codec_u32 (codec_pair _ _ _ _ _ _ CI
      (codec_pair _ _ _ _ _ _ CO codec_u64)))) as C.
  revert C. apply codec_ext.
  - intros []. unfold tx_wf, tx_fits; simpl. rewrite !Forall_and. naive_solver.
  - intros []. unfold WriteTransaction, writeVarBytesList; simpl. by rewrite <- !app_assoc.
  - intros bs. unfold ReadTransaction. simpl. unfold mbind, result_bind, max_items. reassoc_reads.
Qed.

Lemma SerializeTransaction_inj t t' :
  tx_wf t -> tx_fits t -> tx_wf t' -> tx_fits t' ->
  SerializeTransaction t = SerializeTransaction t' -> t = t'.
Proof.
  intros H1 H2 H3 H4 Heq.
  pose proof (codec_read codec_tx t [] (conj H1 H2)) as R1.
  pose proof (codec_read codec_tx t' [] (conj H3 H4)) as R2.
  unfold SerializeTransaction in Heq. rewrite Heq in R1. congruence.
Qed.

Lemma flat_map_wf {A} (w : A -> bytes) l :
  Forall (fun a => bytes_wf (w a)) l -> bytes_wf (flat_map w l).
Proof. induction 1; simpl; [apply Forall_nil_2|]. by apply bytes_wf_app. Qed.

Lemma SerializeTransaction_wf t : tx_wf t -> bytes_wf (SerializeTransaction t).
Proof.
  intros (_ & Hi & Ho & _). unfold SerializeTransaction, WriteTransaction, writeVarBytesList.
  rewrite !bytes_wf_app. split_and!; try apply le_bytes_wf; apply flat_map_wf.
  - eapply Forall_impl; [exact Hi|]. intros i ([_ ?] & _ & ? & ?).
    unfold writeInput, writeBytes. rewrite !bytes_wf_app. split_and!; (done || apply le_bytes_wf).
  - eapply Forall_impl; [exact Ho|]. intros o (_ & ?).
    unfold writeOutput, writeBytes. rewrite !bytes_wf_app. split_and!; (done || apply le_bytes_wf).
Qed.

(** Version, two counts and the lock time take 28 bytes. *)
Lemma SerializeTransaction_length t : 28 <= len (SerializeTransaction t).
Proof.
  unfold SerializeTransaction, WriteTransaction, writeVarBytesList.
  rewrite !len_app, !len_le_bytes.
  pose proof (len_nonneg (flat_map writeInput (tx_Inputs t))).
  pose proof (len_nonneg (flat_map writeOutput (tx_Outputs t))). lia.
Qed.

(** *** Properties *)

(** C21: DeserializeTransaction accepts exactly the serializations of the transactions
    within the limits of the parser, followed by any bytes, and returns the serialized
    transaction. *)
Theorem transaction_roundtrip bs t :
  bytes_wf bs ->
  DeserializeTransaction bs = Ok t <->
  tx_wf t /\ tx_fits t /\ exists rest, bs = SerializeTransaction t ++ rest.
Proof.
  intros Hwf. unfold DeserializeTransaction. split.
  - intros H. apply bind_Ok in H as ([t' rest] & H & [= <-]).
    apply (codec_sound codec_tx) in H as [[? ?] ->]; [|done]. eauto.
  - intros (? & ? & rest & ->).
    change (SerializeTransaction t) with (WriteTransaction t).
    by rewrite (codec_read codec_tx).
Qed.

(** Fee returns a value exactly when the true sum of the outputs is at most the input
    total, and then returns the difference: a sum that wraps around is refused. *)
Theorem Fee_correct t inputTotal fee :
  tx_wf t -> is_u64 inputTotal ->
  Fee t inputTotal = Ok fee <->
  fee = inputTotal - Zsum (out_Amount <$> tx_Outputs t) /\ 0 <= fee.
Proof.
  intros (_ & _ & Ho & _) Hin. unfold Fee.
  assert (HF : Forall is_u64 (out_Amount <$> tx_Outputs t))
    by (apply Forall_fmap; eapply Forall_impl; [exact Ho|]; by intros o [? _]).
  assert (0 <= Zsum (out_Amount <$> tx_Outputs t))
    by (apply Zsum_nonneg; eapply Forall_impl; [exact HF|]; intros; mach).
  rewrite bind_Ok. setoid_rewrite checked_sum_Ok; [|mach|done]. split.
  - intros (s & [-> _] & H'). inv_ok. breflect. lia.
  - intros [-> Hle]. eexists. split; [split; [done|mach]|].
    by rewrite (proj2 (Z.ltb_ge _ _)) by lia.
Qed.
