(* ===== verification/Block.v ===== *)
(** * Block: headers, blocks, merkle roots and the block wire format

    Models [blockchain/block.go] and [blockchain/genesis.go].  [time.Now().Unix()]
    is an argument. *)

From S2P Require Import Prelude Encoding Sha256 Params Tx.

(** ** Data *)

Record BlockHeader := mkHeader {
  hdr_Version : Z;
  hdr_PrevHash : bytes;
  hdr_MerkleRoot : bytes;
  hdr_Timestamp : Z;
  hdr_Bits : Z;
  hdr_Nonce : Z;
  hdr_Height : Z;
}.

Record Block := mkBlock {
  blk_Header : BlockHeader;
  blk_Transactions : list Transaction;
}.

#[global] Instance BlockHeader_eq_dec : EqDecision BlockHeader.
Proof. solve_decision. Defined.
#[global] Instance Block_eq_dec : EqDecision Block.
Proof. solve_decision. Defined.

(** What the Go types guarantee. *)
Definition header_wf (h : BlockHeader) : Prop :=
  is_u32 (hdr_Version h) /\ is_hash (hdr_PrevHash h) /\ is_hash (hdr_MerkleRoot h) /\
  is_i64 (hdr_Timestamp h) /\ is_u32 (hdr_Bits h) /\ is_u64 (hdr_Nonce h) /\
  is_u64 (hdr_Height h).

Definition block_wf (b : Block) : Prop :=
  header_wf (blk_Header b) /\ Forall tx_wf (blk_Transactions b).

#[global] Instance header_wf_dec h : Decision (header_wf h).
Proof. unfold header_wf. apply _. Defined.
#[global] Instance block_wf_dec b : Decision (block_wf b).
Proof. unfold block_wf. apply _. Defined.

(** ** Hashes *)

Section Hashes.
Context {HF : HashFunction}.

(** The buffer [BlockHeader.Hash] fills. *)
Definition header_preimage (h : BlockHeader) : bytes :=
  le_bytes 4 (hdr_Version h) ++ hdr_PrevHash h ++ hdr_MerkleRoot h ++
  le_bytes 8 (u64 (hdr_Timestamp h)) ++ le_bytes 4 (hdr_Bits h) ++
  le_bytes 8 (hdr_Nonce h) ++ le_bytes 8 (hdr_Height h).

(** [BlockHeader.Hash] *)
Definition hdr_Hash (h : BlockHeader) : bytes := sha256d (header_preimage h).

(** [Block.Hash] *)
Definition blk_Hash (b : Block) : bytes := hdr_Hash (blk_Header b).

(** The inner loop of [BuildMerkleRoot]: [for i := 0; i < len(hashes); i += 2]. *)
Fixpoint merkle_pairs (hashes : list bytes) : list bytes :=
  match hashes with
  | a :: b :: hashes => sha256d (a ++ b) :: merkle_pairs hashes
  | _ => []
  end.

(** One round: an odd list repeats its last hash first. *)
Definition merkle_level (hashes : list bytes) : list bytes :=
  merkle_pairs (if Nat.odd (length hashes)
                then hashes ++ [List.last hashes zero_hash] else hashes).

(** The outer loop [for len(hashes) > 1]; each round at least halves the list
    rounded up, so the number of hashes is enough fuel ([merkle_loop_fuel]). *)
Fixpoint merkle_loop (fuel : nat) (hashes : list bytes) : bytes :=
  match fuel with
  | O => zero_hash
  | S fuel =>
      if (1 <? length hashes)%nat then merkle_loop fuel (merkle_level hashes)
      else hd zero_hash hashes
  end.

Definition BuildMerkleRoot (txs : list Transaction) : bytes :=
  match txs with
  | [] => zero_hash
  | _ => let hashes := tx_Hash <$> txs in merkle_loop (length hashes) hashes
  end.

End Hashes.

(** ** Construction *)

Definition set_merkle (b : Block) (root : bytes) : Block :=
  let h := blk_Header b in
  mkBlock (mkHeader (hdr_Version h) (hdr_PrevHash h) root (hdr_Timestamp h)
             (hdr_Bits h) (hdr_Nonce h) (hdr_Height h)) (blk_Transactions b).

Definition NewBlock {HF : HashFunction} (now : Z) (prev : bytes) (height bits : Z) (txs : list Transaction) : Block :=
  set_merkle (mkBlock (mkHeader 1 prev zero_hash now bits 0 height) txs) (BuildMerkleRoot txs).

Definition GenesisMessage : bytes := str "NEVEL: The global money network begins.".

Definition CreateGenesisBlock {HF : HashFunction} (net : Network) : Block :=
  let coinbase := NewCoinbase GenesisMessage InitialReward (str "genesis") in
  let block := mkBlock (mkHeader 1 zero_hash zero_hash 1780000000 (GenesisBits net) 0 0)
                 [coinbase] in
  set_merkle block (BuildMerkleRoot (blk_Transactions block)).

(** ** Serialization *)

Definition WriteHeader (h : BlockHeader) : bytes :=
  le_bytes 4 (hdr_Version h) ++ hdr_PrevHash h ++ hdr_MerkleRoot h ++
  le_bytes 8 (u64 (hdr_Timestamp h)) ++ le_bytes 4 (hdr_Bits h) ++
  le_bytes 8 (hdr_Nonce h) ++ le_bytes 8 (hdr_Height h).

Definition WriteBlock (b : Block) : bytes :=
  WriteHeader (blk_Header b) ++
  le_bytes 8 (u64 (len (blk_Transactions b))) ++
  flat_map WriteTransaction (blk_Transactions b).

Definition SerializeBlock (b : Block) : bytes := WriteBlock b.

Definition ReadBlock (r : bytes) : result (Block * bytes) :=
  '(version, r) ← readUint 4 r;
  '(prevHash, r) ← readFull 32 r;
  '(merkleRoot, r) ← readFull 32 r;
  '(timestamp, r) ← readInt64 r;
  '(bits, r) ← readUint 4 r;
  '(nonce, r) ← readUint 8 r;
  '(height, r) ← readUint 8 r;
  '(n, r) ← readUint 8 r;
  fail_if 100000 <? n with Errorf "too many block transactions" ;;
  '(txs, r) ← readN ReadTransaction (Z.to_nat n) r;
  Ok (mkBlock (mkHeader version prevHash merkleRoot timestamp bits nonce height) txs, r).

Definition DeserializeBlock (data : bytes) : result Block :=
  '(b, _) ← ReadBlock data; Ok b.

(** The blocks [ReadBlock] accepts back. *)
Definition max_block_txs : Z := 100000.
Definition block_fits (b : Block) : Prop :=
  len (blk_Transactions b) <= max_block_txs /\ Forall tx_fits (blk_Transactions b).

#[global] Instance block_fits_dec b : Decision (block_fits b).
Proof. unfold block_fits. apply _. Defined.

(** ** Lemmas: serialization *)

Lemma hdr_Hash_hash {HF : HashFunction} h : is_hash (hdr_Hash h).
Proof. apply sha256d_hash. Qed.
Lemma blk_Hash_hash {HF : HashFunction} b : is_hash (blk_Hash b).
Proof. apply sha256d_hash. Qed.
#[export] Hint Resolve hdr_Hash_hash blk_Hash_hash : nevel.

Definition header_of (p : Z * (bytes * (bytes * (Z * (Z * (Z * Z)))))) : BlockHeader :=
  let '(v, (p, (m, (t, (b, (n, h)))))) := p in mkHeader v p m t b n h.
Definition of_header (h : BlockHeader) : Z * (bytes * (bytes * (Z * (Z * (Z * Z))))) :=
  (hdr_Version h, (hdr_PrevHash h, (hdr_MerkleRoot h, (hdr_Timestamp h,
    (hdr_Bits h, (hdr_Nonce h, hdr_Height h)))))).

Definition readHeader (r : bytes) : result (BlockHeader * bytes) :=
  '(version, r) ← readUint 4 r;
  '(prevHash, r) ← readFull 32 r;
  '(merkleRoot, r) ← readFull 32 r;
  '(timestamp, r) ← readInt64 r;
  '(bits, r) ← readUint 4 r;
  '(nonce, r) ← readUint 8 r;
  '(height, r) ← readUint 8 r;
  Ok (mkHeader version prevHash merkleRoot timestamp bits nonce height, r).

Lemma codec_header : codec header_wf WriteHeader readHeader.
Proof.
  pose proof (codec_map header_of of_header _ _ _ ltac:(by intros [])
    ltac:(by intros (?&?&?&?&?&?&?))
    (codec_pair _ _ _ _ _ _ codec_u32 (codec_pair _ _ _ _ _ _ codec_hash
      (codec_pair _ _ _ _ _ _ codec_hash (codec_pair _ _ _ _ _ _ codec_i64
        (codec_pair _ _ _ _ _ _ codec_u32 (codec_pair _ _ _ _ _ _ codec_u64 codec_u64))))))) as C.
  revert C. apply codec_ext; [done | done |].
  intros bs. unfold readHeader. simpl. unfold mbind, result_bind. reassoc_reads.
Qed.

Definition block_of (p : BlockHeader * list Transaction) : Block := mkBlock p.1 p.2.
Definition of_block (b : Block) : BlockHeader * list Transaction :=
  (blk_Header b, blk_Transactions b).

Lemma codec_block : codec (fun b => block_wf b /\ block_fits b) WriteBlock ReadBlock.
Proof.
  pose proof (codec_counted _ _ _ max_block_txs _ (Errorf "too many block transactions")
    ltac:(done) (fun n H _ r => codec_read codec_u64 n r H)
    (codec_sound codec_u64) codec_tx) as CT.
  pose proof (codec_map block_of of_block _ _ _ ltac:(by intros []) ltac:(by intros [])
    (codec_pair _ _ _ _ _ _ codec_header CT)) as C.
  revert C. apply codec_ext; [| done |].
  - intros []. unfold block_wf, block_fits; simpl. rewrite Forall_and. naive_solver.
  - intros bs. unfold ReadBlock, readHeader. simpl.
    unfold mbind, result_bind, max_block_txs. reassoc_reads.
Qed.

Lemma SerializeBlock_wf b : block_wf b -> bytes_wf (SerializeBlock b).
Proof.
  intros [(_ & [_ ?] & [_ ?] & _) HT]. unfold SerializeBlock, WriteBlock, WriteHeader.
  rewrite !bytes_wf_app. split_and!; try apply le_bytes_wf; try done.
  apply flat_map_wf. eapply Forall_impl; [exact HT|]. apply SerializeTransaction_wf.
Qed.

Lemma DeserializeBlock_Serialize b :
  block_wf b -> block_fits b -> DeserializeBlock (SerializeBlock b) = Ok b.
Proof.
  intros. unfold DeserializeBlock, SerializeBlock.
  rewrite <- (app_nil_r (WriteBlock b)), (codec_read codec_block); done.
Qed.

(** The hash commits to every header field: equal preimages are equal headers. *)
Lemma header_preimage_inj h h' :
  header_wf h -> header_wf h' -> header_preimage h = header_preimage h' -> h = h'.
Proof.
  intros H H' E. pose proof (codec_read codec_header h [] H) as R.
  pose proof (codec_read codec_header h' [] H') as R'.
  change (WriteHeader h) with (header_preimage h) in R. rewrite E in R.
  change (header_preimage h') with (WriteHeader h') in R. congruence.
Qed.

(** ** Lemmas: merkle roots *)

Section Merkle.
Context {HF : HashFunction}.

Lemma merkle_pairs_length hs :
  Nat.even (length hs) = true -> (2 * length (merkle_pairs hs))%nat = length hs.
Proof.
  induction hs as [|a|a b hs IH] using pair_ind; intros He; [done | done |].
  simpl in *. specialize (IH He). lia.
Qed.

(** The hashes one round works on: an even number of them. *)
Definition merkle_padded (hs : list bytes) : list bytes :=
  if Nat.odd (length hs) then hs ++ [List.last hs zero_hash] else hs.

Lemma merkle_padded_length hs :
  length (merkle_padded hs) = (2 * ((length hs + 1) / 2))%nat.
Proof.
  unfold merkle_padded. destruct (Nat.odd (length hs)) eqn:E.
  - rewrite length_app. apply Nat.odd_spec in E as [k ->]. simpl length.
    rewrite <- (Nat.div_unique (2 * k + 1 + 1) 2 (k + 1) 0); lia.
  - rewrite <- Nat.negb_even, negb_false_iff in E. apply Nat.even_spec in E as [k ->].
    rewrite <- (Nat.div_unique (2 * k + 1) 2 k 1); lia.
Qed.

Lemma merkle_level_length hs : length (merkle_level hs) = ((length hs + 1) / 2)%nat.
Proof.
  pose proof (merkle_padded_length hs) as Hp.
  pose proof (merkle_pairs_length (merkle_padded hs)) as H.
  unfold merkle_level. fold (merkle_padded hs).
  rewrite Hp, Nat.even_mul in H. specialize (H eq_refl). lia.
Qed.

Lemma merkle_level_shorter hs :
  (1 < length hs)%nat -> (0 < length (merkle_level hs) < length hs)%nat.
Proof.
  intros H. rewrite merkle_level_length. split.
  - apply Nat.div_str_pos. lia.
  - apply Nat.Div0.div_lt_upper_bound. lia.
Qed.

(** The number of hashes is enough fuel for the outer loop. *)
Lemma merkle_loop_fuel hs fuel fuel' :
  (0 < length hs)%nat -> (length hs <= fuel)%nat -> (length hs <= fuel')%nat ->
  merkle_loop fuel hs = merkle_loop fuel' hs.
Proof.
  revert hs fuel'. induction fuel as [|fuel IH]; intros hs [|fuel'] H0 H1 H2; [lia..|].
  simpl. destruct (Nat.ltb_spec 1 (length hs)) as [Hl|]; [|done].
  pose proof (merkle_level_shorter hs Hl). apply IH; lia.
Qed.

(** The root of a list of hashes, without fuel. *)
Definition merkle_root (hs : list bytes) : bytes := merkle_loop (length hs) hs.

Lemma merkle_root_single h : merkle_root [h] = h.
Proof. done. Qed.

Lemma merkle_root_step hs :
  (1 < length hs)%nat -> merkle_root hs = merkle_root (merkle_level hs).
Proof.
  intros Hl. unfold merkle_root. pose proof (merkle_level_shorter hs Hl).
  destruct (length hs) as [|n] eqn:E; [lia|]. simpl.
  rewrite E, (proj2 (Nat.ltb_lt _ _)) by lia. apply merkle_loop_fuel; lia.
Qed.

Lemma BuildMerkleRoot_root txs : txs <> [] -> BuildMerkleRoot txs = merkle_root (tx_Hash <$> txs).
Proof. by destruct txs. Qed.

(** The messages hashed in one round, and in all rounds. *)
Fixpoint pair_messages (hashes : list bytes) : list bytes :=
  match hashes with
  | a :: b :: hashes => (a ++ b) :: pair_messages hashes
  | _ => []
  end.
Fixpoint tree_messages (fuel : nat) (hs : list bytes) : list bytes :=
  match fuel with
  | O => []
  | S fuel =>
      if (1 <? length hs)%nat
      then pair_messages (merkle_padded hs) ++ tree_messages fuel (merkle_level hs) else []
  end.
(** Everything [BuildMerkleRoot] hashes. *)
Definition merkle_messages (txs : list Transaction) : list bytes :=
  (SerializeTransaction <$> txs) ++ tree_messages (length txs) (tx_Hash <$> txs).

Lemma merkle_pairs_inj hs hs' :
  collision_free (pair_messages hs ++ pair_messages hs') ->
  Forall is_hash hs -> Forall is_hash hs' -> length hs = length hs' ->
  Nat.even (length hs) = true ->
  merkle_pairs hs = merkle_pairs hs' -> hs = hs'.
Proof.
  revert hs'. induction hs as [|a|a b hs IH] using pair_ind;
    intros [|a' [|b' hs']] Hc FH FH' Hl He Hp; try done.
  rewrite !Forall_cons in FH, FH'.
  destruct FH as ([La _] & [Lb _] & FH), FH' as ([La' _] & [Lb' _] & FH').
  injection Hp as Hd Hp. injection Hl as Hl. simpl in Hc.
  assert (Hab : a ++ b = a' ++ b') by (apply Hc; [set_solver.. | done]).
  apply app_inj_length in Hab as [-> ->]; [|congruence]. do 2 f_equal.
  apply IH; try done. eapply collision_free_sub; [|exact Hc]. set_solver.
Qed.

Lemma last_hash hs : Forall is_hash hs -> is_hash (List.last hs zero_hash).
Proof.
  induction 1 as [|x l Hx Hl IH]; [apply zero_hash_wf|]. by destruct l.
Qed.

Lemma merkle_level_inj hs hs' :
  collision_free (pair_messages (merkle_padded hs) ++ pair_messages (merkle_padded hs')) ->
  Forall is_hash hs -> Forall is_hash hs' -> length hs = length hs' ->
  merkle_level hs = merkle_level hs' -> hs = hs'.
Proof.
  intros Hc FH FH' Hl H.
  assert (Hpad : forall l, Forall is_hash l -> Forall is_hash (merkle_padded l)).
  { intros l Hl'. unfold merkle_padded. case_match; [|done].
    apply Forall_app. split; [done|]. apply Forall_singleton. by apply last_hash. }
  assert (E : merkle_padded hs = merkle_padded hs').
  { apply merkle_pairs_inj; auto.
    - by rewrite !merkle_padded_length, Hl.
    - by rewrite merkle_padded_length, Nat.even_mul. }
  unfold merkle_padded in E. rewrite Hl in E. case_match; [|done].
  by apply app_inj_length in E as [? _].
Qed.

Lemma merkle_level_hashes hs : Forall is_hash (merkle_level hs).
Proof.
  unfold merkle_level. fold (merkle_padded hs).
  induction (merkle_padded hs) as [|a|a b l IH] using pair_ind; simpl; [constructor..|].
  constructor; [apply sha256d_hash | done].
Qed.

Lemma merkle_loop_hash fuel hs : Forall is_hash hs -> is_hash (merkle_loop fuel hs).
Proof.
  revert hs. induction fuel as [|fuel IH]; intros hs Hhs; simpl; [apply zero_hash_wf|].
  destruct (_ <? _)%nat; [apply IH, merkle_level_hashes|].
  destruct Hhs; [apply zero_hash_wf | done].
Qed.

Lemma BuildMerkleRoot_hash txs : is_hash (BuildMerkleRoot txs).
Proof.
  unfold BuildMerkleRoot. destruct txs as [|t txs]; [apply zero_hash_wf|].
  apply merkle_loop_hash, Forall_fmap, Forall_true. intros. apply tx_Hash_hash.
Qed.

Lemma merkle_root_binding n hs hs' :
  collision_free (tree_messages n hs ++ tree_messages n hs') ->
  (length hs <= n)%nat -> (0 < length hs)%nat -> length hs = length hs' ->
  Forall is_hash hs -> Forall is_hash hs' ->
  merkle_root hs = merkle_root hs' -> hs = hs'.
Proof.
  revert hs hs'. induction n as [|n IH]; intros hs hs' Hc Hn H0 Hl FH FH' Hr; [lia|].
  destruct (Nat.ltb_spec 1 (length hs)) as [H1|H1].
  - rewrite (merkle_root_step hs), (merkle_root_step hs') in Hr by lia.
    pose proof (merkle_level_shorter hs H1). simpl in Hc.
    rewrite !(proj2 (Nat.ltb_lt _ _)) in Hc by lia.
    apply merkle_level_inj; try done; [eapply collision_free_sub; [|exact Hc]; set_solver|].
    apply IH; auto using merkle_level_hashes; try lia.
    + eapply collision_free_sub; [|exact Hc]. set_solver.
    + by rewrite !merkle_level_length, Hl.
  - destruct hs as [|h [|]]; simpl in *; [lia | | lia].
    destruct hs' as [|h' [|]]; simpl in *; [lia | | lia].
    rewrite !merkle_root_single in Hr. congruence.
Qed.

Lemma tx_Hash_inj t t' :
  collision_free [SerializeTransaction t; SerializeTransaction t'] ->
  tx_wf t -> tx_fits t -> tx_wf t' -> tx_fits t' -> tx_Hash t = tx_Hash t' -> t = t'.
Proof.
  intros Hc W F W' F' H. apply SerializeTransaction_inj; try done. apply Hc; [set_solver.. | done].
Qed.

Lemma txs_of_hashes txs txs' :
  collision_free ((SerializeTransaction <$> txs) ++ (SerializeTransaction <$> txs')) ->
  Forall tx_wf txs -> Forall tx_fits txs -> Forall tx_wf txs' -> Forall tx_fits txs' ->
  tx_Hash <$> txs = tx_Hash <$> txs' -> txs = txs'.
Proof.
  revert txs'. induction txs as [|t txs IH]; intros [|t' txs'] Hc W F W' F' H; simplify_eq/=; [done|].
  rewrite !Forall_cons in *. destruct W, F, W', F'. f_equal.
  - apply tx_Hash_inj; try done. eapply collision_free_sub; [|exact Hc]. set_solver.
  - apply IH; try done. eapply collision_free_sub; [|exact Hc]. set_solver.
Qed.

(** C22: Two lists of transactions within the parser limits, of the same length and with
    the same Merkle root, are equal, provided the messages hashed for the two roots hash
    without collision. *)
Theorem merkle_root_commits txs txs' :
  collision_free (merkle_messages txs ++ merkle_messages txs') ->
  Forall tx_wf txs -> Forall tx_fits txs -> Forall tx_wf txs' -> Forall tx_fits txs' ->
  length txs = length txs' ->
  BuildMerkleRoot txs = BuildMerkleRoot txs' -> txs = txs'.
Proof.
  intros Hc W F W' F' Hl H.
  destruct (decide (txs = [])) as [->|Hne]; [by destruct txs'|].
  assert (Hne' : txs' <> []) by (by intros ->; destruct txs).
  rewrite !BuildMerkleRoot_root in H by done. unfold merkle_messages in Hc. rewrite <- Hl in Hc.
  assert (HH : forall l, Forall is_hash (tx_Hash <$> l))
    by (intros l; apply Forall_fmap, Forall_true; intros; apply tx_Hash_hash).
  apply txs_of_hashes; try done; [eapply collision_free_sub; [|exact Hc]; set_solver|].
  apply (merkle_root_binding (length txs)); try done.
  - eapply collision_free_sub; [|exact Hc]. set_solver.
  - by rewrite length_fmap.
  - rewrite length_fmap. destruct txs; [done | simpl; lia].
  - by rewrite !length_fmap.
Qed.

(** The Merkle root does not fix the number of transactions: repeating the last
    transaction of an odd list of at least three leaves the root unchanged. *)
Theorem merkle_root_duplicate txs t :
  Nat.odd (length (txs ++ [t])) = true -> txs <> [] ->
  BuildMerkleRoot (txs ++ [t]) = BuildMerkleRoot (txs ++ [t; t]).
Proof.
  intros Hodd Hne. rewrite !BuildMerkleRoot_root by (by destruct txs).
  assert (Hlen : (0 < length txs)%nat) by (destruct txs; simpl; [done | lia]).
  rewrite !(merkle_root_step (_ <$> _)) by (rewrite length_fmap, length_app; simpl; lia).
  f_equal. unfold merkle_level. rewrite !length_fmap, Hodd.
  rewrite length_app in Hodd. simpl in Hodd.
  rewrite (length_app txs [t; t]). simpl length.
  replace (length txs + 2)%nat with (S (length txs + 1)) by lia.
  rewrite Nat.odd_succ, <- Nat.negb_odd, Hodd. simpl negb. cbv iota.
  rewrite !fmap_app. simpl. rewrite last_last, <- app_assoc. done.
Qed.

End Merkle.

(** ** Properties of the wire format *)

(** C20: DeserializeBlock accepts exactly the serializations of the blocks within the
    limits of the parser, followed by any bytes, and returns the serialized block. *)
Theorem block_roundtrip bs b :
  bytes_wf bs ->
  DeserializeBlock bs = Ok b <->
  block_wf b /\ block_fits b /\ exists rest, bs = SerializeBlock b ++ rest.
Proof.
  intros Hwf. unfold DeserializeBlock. split.
  - intros H. apply bind_Ok in H as ([b' rest] & H & [= <-]).
    apply (codec_sound codec_block) in H as [[? ?] ->]; [|done]. eauto.
  - intros (? & ? & rest & ->).
    change (SerializeBlock b) with (WriteBlock b). by rewrite (codec_read codec_block).
Qed.

