(* ===== verification/Consensus.v ===== *)
(** * Consensus: rewards, difficulty, proof of work and validation

    Models [consensus/consensus.go].  The interfaces of the source are values
    here: a [UTXOReader] is its [Get] method, a [SignatureVerifier] may be nil.
    [time.Now().Unix()] is the argument [now]. *)

From S2P Require Import Prelude Encoding Sha256 Params Tx Block.

(** ** Data and interfaces *)

Record UTXO := mkUTXO {
  u_TxHash : bytes;
  u_OutputIdx : Z;
  u_Amount : Z;
  u_Script : bytes;
  u_Height : Z;
  u_Coinbase : bool;
}.

#[global] Instance UTXO_eq_dec : EqDecision UTXO.
Proof. solve_decision. Defined.

(** What the Go types guarantee. *)
Definition utxo_wf (u : UTXO) : Prop :=
  is_hash (u_TxHash u) /\ is_u32 (u_OutputIdx u) /\ is_u64 (u_Amount u) /\
  bytes_wf (u_Script u) /\ is_u64 (u_Height u).

#[global] Instance utxo_wf_dec u : Decision (utxo_wf u).
Proof. unfold utxo_wf. apply _. Defined.

Definition UTXOReader : Type := bytes -> Z -> result UTXO.
Definition SignatureVerifier : Type := option (Transaction -> nat -> bytes -> bool).
Definition HeaderByHeight : Type := Z -> result BlockHeader.

(** ** Rewards and difficulty *)

Definition BlockReward (height : Z) : Z :=
  let halvings := height / HalvingInterval in
  if 64 <=? halvings then 0 else Z.shiftr InitialReward halvings.

(** [big.Int.Div]: Euclidean division. *)
Definition big_Div (a b : Z) : Z := if 0 <? b then a / b else - (a / - b).

(** [expectedTime / 4] and [expectedTime * 4] are [int64] operations. *)
Definition Retarget (oldTarget actualTime expectedTime : Z) : Z :=
  let min := Z.quot expectedTime 4 in
  let max := i64 (expectedTime * 4) in
  let actualTime := if actualTime <? min then min else actualTime in
  let actualTime := if max <? actualTime then max else actualTime in
  big_Div (oldTarget * actualTime) expectedTime.

Definition WorkForBits (bits : Z) : Z :=
  let target := CompactToBig bits in
  if target <=? 0 then 0 else big_Div (Z.shiftl 1 256) (target + 1).

Definition CheckProofOfWork {HF : HashFunction} (h : BlockHeader) (powLimit : Z) : result unit :=
  let target := CompactToBig (hdr_Bits h) in
  fail_if (target <=? 0) || (powLimit <? target) with ErrInvalidProofOfWork ;;
  fail_if target <? be_val (hdr_Hash h) with ErrInvalidProofOfWork ;;
  Ok tt.

Definition ExpectedBits (prev : BlockHeader) (net : Network) (headerByHeight : HeaderByHeight)
    : result Z :=
  let nextHeight := u64 (hdr_Height prev + 1) in
  if negb (nextHeight mod DifficultyWindow =? 0) || (nextHeight =? 0) then Ok (hdr_Bits prev)
  else
    let firstHeight := u64 (nextHeight - DifficultyWindow) in
    first ← headerByHeight firstHeight;
    let actual := i64 (hdr_Timestamp prev - hdr_Timestamp first) in
    let old := CompactToBig (hdr_Bits prev) in
    let retargeted := Retarget old actual ExpectedRetargetSec in
    let retargeted := if PowLimit net <? retargeted then PowLimit net else retargeted in
    Ok (BigToCompact retargeted).

(** ** Header validation *)

Definition ValidateBlockHeader {HF : HashFunction}
    (now : Z) (b : Block) (prev : option BlockHeader) (net : Network) : result unit :=
  fail_if negb (bool_decide (hdr_MerkleRoot (blk_Header b) = BuildMerkleRoot (blk_Transactions b)))
    with ErrInvalidMerkleRoot ;;
  _ ← CheckProofOfWork (blk_Header b) (PowLimit net);
  fail_if now + 7200 <? hdr_Timestamp (blk_Header b) with ErrBadTimestamp ;;
  match prev with
  | None => Ok tt
  | Some prev =>
      fail_if negb (hdr_Height (blk_Header b) =? u64 (hdr_Height prev + 1)) with Errorf "bad height" ;;
      fail_if negb (bool_decide (hdr_PrevHash (blk_Header b) = hdr_Hash prev))
        with Errorf "bad previous hash" ;;
      Ok tt
  end.

Definition ValidateBlockHeaderWithDifficulty {HF : HashFunction}
    (now : Z) (b : Block) (prev : option BlockHeader) (net : Network)
    (headerByHeight : HeaderByHeight) : result unit :=
  _ ← ValidateBlockHeader now b prev net;
  match prev with
  | None => Ok tt
  | Some prev =>
      expected ← ExpectedBits prev net headerByHeight;
      fail_if negb (hdr_Bits (blk_Header b) =? expected) with ErrBadDifficulty ;;
      Ok tt
  end.

(** ** Transaction validation *)

(** [fmt.Sprintf("%x:%d", hash, idx)] *)
Definition OutpointKey (hash : bytes) (idx : Z) : bytes :=
  hex_encode hash ++ str ":" ++ decimal idx.

Definition MinFee (t : Transaction) : Z :=
  u64 (len (SerializeTransaction t) * MinRelayFeePerByte).

Definition in_key (i : Input) : bytes := OutpointKey (in_PrevTxHash i) (in_OutputIdx i).

(** [u.Coinbase && spendHeight != ^uint64(0) && spendHeight < u.Height+CoinbaseMaturity] *)
Definition immature (u : UTXO) (spendHeight : Z) : bool :=
  u_Coinbase u && negb (spendHeight =? max64) &&
  (spendHeight <? u64 (u_Height u + CoinbaseMaturity)).

(** [verifier != nil && !verifier.VerifyTransactionInput(t, i, u.Script)] *)
Definition bad_signature (verifier : SignatureVerifier) (t : Transaction) (i : nat) (u : UTXO) : bool :=
  match verifier with
  | None => false
  | Some verify => negb (verify t i (u_Script u))
  end.

(** The loop over the inputs.  [pendingSpent] is shared with the caller; on an
    error both callers drop it, so only the success case returns it. *)
Fixpoint validate_inputs (t : Transaction) (utxos : UTXOReader) (verifier : SignatureVerifier)
    (spendHeight : Z) (i : nat) (ins : list Input) (pendingSpent : gset bytes) (inputTotal : Z)
    : result (Z * gset bytes) :=
  match ins with
  | [] => Ok (inputTotal, pendingSpent)
  | inp :: ins =>
      let key := in_key inp in
      fail_if bool_decide (key ∈ pendingSpent) with ErrDoubleSpend ;;
      match utxos (in_PrevTxHash inp) (in_OutputIdx inp) with
      | Err _ => Err ErrMissingUTXO
      | Ok u =>
          fail_if immature u spendHeight with ErrImmatureCoinbase ;;
          fail_if bad_signature verifier t i u with ErrInvalidSignature ;;
          inputTotal ← checked_add inputTotal (u_Amount u);
          validate_inputs t utxos verifier spendHeight (S i) ins
            ({[key]} ∪ pendingSpent) inputTotal
      end
  end.

(** The loop over the outputs. *)
Fixpoint validate_outputs (outs : list Output) (outputTotal : Z) : result Z :=
  match outs with
  | [] => Ok outputTotal
  | out :: outs =>
      fail_if out_Amount out =? 0 with ErrDustOutput ;;
      outputTotal ← checked_add outputTotal (out_Amount out);
      validate_outputs outs outputTotal
  end.

Definition ValidateTransactionAt (t : Transaction) (utxos : UTXOReader)
    (verifier : SignatureVerifier) (pendingSpent : gset bytes) (spendHeight : Z)
    : result (Z * gset bytes) :=
  fail_if IsCoinbase t with ErrInvalidCoinbase ;;
  '(inputTotal, pendingSpent) ←
    validate_inputs t utxos verifier spendHeight 0 (tx_Inputs t) pendingSpent 0;
  outputTotal ← validate_outputs (tx_Outputs t) 0;
  fail_if inputTotal <? outputTotal with ErrInflation ;;
  let fee := inputTotal - outputTotal in
  fail_if fee <? MinFee t with ErrFeeTooLow ;;
  Ok (fee, pendingSpent).

Definition ValidateTransaction (t : Transaction) (utxos : UTXOReader)
    (verifier : SignatureVerifier) (pendingSpent : gset bytes) : result (Z * gset bytes) :=
  ValidateTransactionAt t utxos verifier pendingSpent max64.

(** ** Block validation *)

(** The loop over the transactions after the first. *)
Fixpoint validate_txs (txs : list Transaction) (utxos : UTXOReader)
    (verifier : SignatureVerifier) (spendHeight : Z) (spent : gset bytes) (fees : Z)
    : result Z :=
  match txs with
  | [] => Ok fees
  | t :: txs =>
      '(fee, spent) ← ValidateTransactionAt t utxos verifier spent spendHeight;
      fees ← checked_add fees fee;
      validate_txs txs utxos verifier spendHeight spent fees
  end.

Definition ValidateBlockTransactionsAt (b : Block) (utxos : UTXOReader)
    (verifier : SignatureVerifier) (spendHeight : Z) : result unit :=
  match blk_Transactions b with
  | [] => Err ErrInvalidCoinbase
  | coinbase :: txs =>
      fail_if negb (IsCoinbase coinbase) with ErrInvalidCoinbase ;;
      let reward := BlockReward (hdr_Height (blk_Header b)) in
      fees ← validate_txs txs utxos verifier spendHeight ∅ 0;
      coinbaseOut ← checked_sum 0 (out_Amount <$> tx_Outputs coinbase);
      fail_if u64 (reward + fees) <? coinbaseOut with ErrInvalidCoinbase ;;
      Ok tt
  end.

Definition ValidateBlockTransactions (b : Block) (utxos : UTXOReader)
    (verifier : SignatureVerifier) : result unit :=
  ValidateBlockTransactionsAt b utxos verifier (hdr_Height (blk_Header b)).

(** ** Scripts *)

Definition ScriptForPubKeyHash (hash : bytes) : bytes := str "p2pkh:" ++ hash.

Definition ExtractPubKeyHash (script : bytes) : option bytes :=
  let prefix := str "p2pkh:" in
  if has_prefix prefix script then Some (drop (length prefix) script) else None.

(** ** What an accepted transaction satisfies *)

(** The reader yields well-typed values. *)
Definition reader_wf (utxos : UTXOReader) : Prop :=
  forall h i u, utxos h i = Ok u -> utxo_wf u.

Definition resolves (utxos : UTXOReader) (i : Input) (u : UTXO) : Prop :=
  utxos (in_PrevTxHash i) (in_OutputIdx i) = Ok u.

Definition in_keys (ins : list Input) : gset bytes := list_to_set (in_key <$> ins).

(** The rules on the inputs of [t] from position [i] on, resolved to [us]. *)
Record inputs_accepted (t : Transaction) (utxos : UTXOReader) (verifier : SignatureVerifier)
    (spendHeight : Z) (i : nat) (ins : list Input) (spent : gset bytes) (us : list UTXO) : Prop := {
  ia_resolved : Forall2 (resolves utxos) ins us;
  ia_distinct : NoDup (in_key <$> ins);
  ia_unspent : Forall (fun inp => in_key inp ∉ spent) ins;
  ia_mature : Forall (fun u => immature u spendHeight = false) us;
  ia_signed : forall k u, us !! k = Some u -> bad_signature verifier t (i + k) u = false;
}.

(** The rules a transaction has to meet, with the outputs it spends and its fee. *)
Record tx_accepted (t : Transaction) (utxos : UTXOReader) (verifier : SignatureVerifier)
    (spent : gset bytes) (spendHeight : Z) (us : list UTXO) (fee : Z) : Prop := {
  ta_not_coinbase : IsCoinbase t = false;
  ta_inputs : inputs_accepted t utxos verifier spendHeight 0 (tx_Inputs t) spent us;
  ta_no_dust : Forall (fun o => out_Amount o <> 0) (tx_Outputs t);
  ta_no_overflow : is_u64 (Zsum (u_Amount <$> us));
  ta_fee : fee = Zsum (u_Amount <$> us) - Zsum (out_Amount <$> tx_Outputs t);
  ta_min_fee : MinFee t <= fee;
}.

Lemma inputs_accepted_cons t utxos v h i inp ins spent u us :
  inputs_accepted t utxos v h i (inp :: ins) spent (u :: us) <->
  resolves utxos inp u /\ in_key inp ∉ spent /\ immature u h = false /\
  bad_signature v t i u = false /\
  inputs_accepted t utxos v h (S i) ins ({[in_key inp]} ∪ spent) us.
Proof.
  split.
  - intros [R D U M Sg]. apply Forall2_cons in R as [R1 R].
    rewrite fmap_cons, NoDup_cons in D. destruct D as [D1 D].
    apply Forall_cons in U as [U1 U], M as [M1 M]. split_and!; try done.
    + specialize (Sg 0%nat u eq_refl). by rewrite Nat.add_0_r in Sg.
    + split; try done.
      * rewrite Forall_forall in U |- *. intros x Hx. specialize (U x Hx).
        rewrite not_elem_of_union, not_elem_of_singleton. split; [|done].
        intros E. apply D1. rewrite <- E. by apply list_elem_of_fmap_2.
      * intros k u' Hk. specialize (Sg (S k) u' Hk).
        by replace (S i + k)%nat with (i + S k)%nat by lia.
  - intros (R1 & U1 & M1 & S1 & [R D U M Sg]). split.
    + by constructor.
    + rewrite fmap_cons, NoDup_cons. split; [|done]. intros (x & E & Hx)%list_elem_of_fmap.
      rewrite Forall_forall in U. specialize (U x Hx). rewrite <- E in U. set_solver.
    + constructor; [done|]. eapply Forall_impl; [exact U|]. set_solver.
    + by constructor.
    + intros [|k] u' Hk; csimpl in Hk; [injection Hk as <-; by rewrite Nat.add_0_r|].
      specialize (Sg k u' Hk). by replace (i + S k)%nat with (S i + k)%nat by lia.
Qed.

Lemma resolved_amounts utxos ins us :
  reader_wf utxos -> Forall2 (resolves utxos) ins us -> Forall is_u64 (u_Amount <$> us).
Proof.
  intros Hr. induction 1 as [|i u ins us H _ IH]; constructor; [|done].
  apply Hr in H as (_ & _ & ? & _). done.
Qed.

Lemma u64_sum_nonneg l : Forall is_u64 l -> 0 <= Zsum l.
Proof. intros H. apply Zsum_nonneg. eapply Forall_impl; [exact H|]. intros; mach. Qed.

(** The input loop succeeds exactly when the rules hold, and computes the exact
    total and the extended set of spent outpoints. *)
Lemma validate_inputs_Ok t utxos v h ins i spent total total' spent' :
  reader_wf utxos -> is_u64 total ->
  validate_inputs t utxos v h i ins spent total = Ok (total', spent') <->
  exists us, inputs_accepted t utxos v h i ins spent us /\
    total' = total + Zsum (u_Amount <$> us) /\ is_u64 total' /\ spent' = in_keys ins ∪ spent.
Proof.
  intros Hr. revert i spent total. induction ins as [|inp ins IH]; intros i spent total Ht; csimpl.
  - split.
    + intros [= <- <-]. exists []. csimpl. split_and!; [|lia|done|set_solver].
      split; try constructor. by intros k u Hk.
    + intros (us & [R _ _ _ _] & -> & _ & ->). apply Forall2_nil_inv_l in R as ->.
      csimpl. do 2 f_equal; [lia | set_solver].
  - split.
    + destruct (bool_decide _) eqn:Hsp; [done|].
      destruct (utxos _ _) as [u|] eqn:Hu; [|done]. intros H. inv_ok. breflect.
      pose proof (Hr _ _ _ Hu) as (_ & _ & Hamt & _).
      apply checked_add_Ok in H as [-> Hx]; [|done..].
      apply IH in H0 as (us & A & -> & Htot & ->); [|done].
      exists (u :: us). split_and!; [| csimpl; lia | done | unfold in_keys; set_solver].
      by apply inputs_accepted_cons.
    + intros (us & A & -> & Htot & ->).
      destruct us as [|u us]; [by apply ia_resolved, Forall2_nil_inv_r in A|].
      pose proof (resolved_amounts _ _ _ Hr (ia_resolved _ _ _ _ _ _ _ _ A)) as Hamts.
      csimpl in Hamts. apply Forall_cons in Hamts as [Hamt Hamts].
      pose proof (u64_sum_nonneg _ Hamts). csimpl in Htot.
      apply inputs_accepted_cons in A as (R & U & M & Sg & A).
      rewrite bool_decide_false by done. unfold resolves in R. rewrite R, M, Sg.
      rewrite bind_Ok. exists (total + u_Amount u).
      rewrite checked_add_Ok by done. split; [mach|]. apply IH; [mach|].
      exists us. split_and!; [done | csimpl; lia | done | unfold in_keys; set_solver].
Qed.

Lemma validate_outputs_Ok outs total total' :
  is_u64 total -> Forall output_wf outs ->
  validate_outputs outs total = Ok total' <->
  Forall (fun o => out_Amount o <> 0) outs /\
  total' = total + Zsum (out_Amount <$> outs) /\ is_u64 total'.
Proof.
  intros Ht Hwf. revert total Ht. induction Hwf as [|o outs [Ho _] Hwf IH]; intros total Ht; csimpl.
  - split; [intros [= <-]; split_and!; [by constructor | lia | done] | intros (_ & -> & _); f_equal; lia].
  - assert (Hamts : Forall is_u64 (out_Amount <$> outs))
      by (apply Forall_fmap; eapply Forall_impl; [exact Hwf|]; by intros ? [? _]).
    pose proof (u64_sum_nonneg _ Hamts). rewrite Forall_cons. split.
    + intros H'. inv_ok. breflect. apply checked_add_Ok in H0 as [-> ?]; [|done..].
      apply IH in H1 as (? & -> & ?); [|done]. split_and!; [done | done | lia | done].
    + intros ([Hnz Hd] & -> & Hs). rewrite (proj2 (Z.eqb_neq _ _)) by done.
      rewrite bind_Ok. exists (total + out_Amount o).
      rewrite checked_add_Ok by done. split; [mach|]. apply IH; [mach|].
      split_and!; [done | lia | done].
Qed.

Lemma outputs_u64 t : tx_wf t -> Forall is_u64 (out_Amount <$> tx_Outputs t).
Proof.
  intros (_ & _ & H & _). apply Forall_fmap. eapply Forall_impl; [exact H|]. by intros ? [? _].
Qed.

Lemma MinFee_pos t : len (SerializeTransaction t) < 2 ^ 64 -> 28 <= MinFee t.
Proof.
  intros H. pose proof (SerializeTransaction_length t). unfold MinFee, MinRelayFeePerByte.
  rewrite Z.mul_1_r, u64_small by mach. done.
Qed.

(** [ValidateTransactionAt] accepts exactly the transactions that meet the
    rules; it returns their fee and marks their outpoints as spent. *)
Lemma ValidateTransactionAt_Ok t utxos v spent h fee spent' :
  reader_wf utxos -> tx_wf t ->
  ValidateTransactionAt t utxos v spent h = Ok (fee, spent') <->
  exists us, tx_accepted t utxos v spent h us fee /\ spent' = in_keys (tx_Inputs t) ∪ spent.
Proof.
  intros Hr Ht. pose proof (u64_sum_nonneg _ (outputs_u64 t Ht)) as Hout0.
  unfold ValidateTransactionAt. split.
  - intros H. destruct (IsCoinbase t) eqn:Hcb; [done|].
    apply bind_Ok in H as ([inTot sp] & Hin & H). apply bind_Ok in H as (outTot & Hout & H).
    apply validate_inputs_Ok in Hin as (us & A & -> & Htot & ->); [|done|mach].
    apply validate_outputs_Ok in Hout as (Hd & -> & Ho); [|mach|apply Ht]. inv_ok. breflect.
    exists us. split; [|done]. split; try done; lia.
  - intros (us & [Hcb A Hd Hov -> Hmin] & ->). rewrite Hcb. cbv iota.
    assert (Hfee : 0 <= MinFee t) by apply u64_nonneg.
    rewrite bind_Ok. eexists (_, _). split.
    { apply validate_inputs_Ok; [done | mach |]. eexists. split_and!; [exact A | done | mach | done]. }
    csimpl. rewrite bind_Ok. eexists. split.
    { apply validate_outputs_Ok; [mach | apply Ht |]. split_and!; [done | done | mach]. }
    csimpl. rewrite (proj2 (Z.ltb_ge _ _)) by lia. by rewrite (proj2 (Z.ltb_ge _ _)) by lia.
Qed.

(** ** What an accepted block satisfies *)

Definition block_inputs (txs : list Transaction) : list Input := txs ≫= tx_Inputs.
Definition block_outputs (txs : list Transaction) : list Output := txs ≫= tx_Outputs.

(** The transactions after the coinbase are accepted one after the other; [us]
    are the outputs they spend, [fees] the sum of their fees. *)
Inductive txs_accepted (utxos : UTXOReader) (v : SignatureVerifier) (h : Z)
    : gset bytes -> list Transaction -> list UTXO -> Z -> Prop :=
| tas_nil spent : txs_accepted utxos v h spent [] [] 0
| tas_cons spent t txs us fee us' fees :
    tx_accepted t utxos v spent h us fee ->
    txs_accepted utxos v h (in_keys (tx_Inputs t) ∪ spent) txs us' fees ->
    txs_accepted utxos v h spent (t :: txs) (us ++ us') (fee + fees).

Lemma tx_accepted_fee t utxos v spent h us fee :
  tx_wf t -> tx_accepted t utxos v spent h us fee -> is_u64 fee.
Proof.
  intros Ht [_ _ _ Hov -> Hmin]. pose proof (u64_sum_nonneg _ (outputs_u64 t Ht)).
  pose proof (u64_nonneg (len (SerializeTransaction t) * MinRelayFeePerByte)).
  unfold MinFee in Hmin. mach.
Qed.

Lemma txs_accepted_fees utxos v h spent txs us fees :
  Forall tx_wf txs -> txs_accepted utxos v h spent txs us fees -> 0 <= fees.
Proof.
  intros Hwf A. induction A as [|spent t txs us fee us' fees A _ IH]; [lia|].
  apply Forall_cons in Hwf as [Ht Hwf]. apply tx_accepted_fee in A; [|done].
  specialize (IH Hwf). mach.
Qed.

Lemma validate_txs_Ok utxos v h txs spent fees fees' :
  reader_wf utxos -> Forall tx_wf txs -> is_u64 fees ->
  validate_txs txs utxos v h spent fees = Ok fees' <->
  exists us f, txs_accepted utxos v h spent txs us f /\ fees' = fees + f /\ is_u64 fees'.
Proof.
  intros Hr Hwf. revert spent fees.
  induction Hwf as [|t txs Ht Hwf IH]; intros spent fees Hf; csimpl.
  - split.
    + intros [= <-]. exists [], 0. split_and!; [constructor | lia | done].
    + intros (us & f & A & -> & _). inversion A; subst. f_equal. lia.
  - split.
    + intros H. apply bind_Ok in H as ([fee sp] & H1 & H). apply bind_Ok in H as (fs & H2 & H).
      apply ValidateTransactionAt_Ok in H1 as (us & A & ->); [|done..].
      apply checked_add_Ok in H2 as [-> Hfs]; [|done | by eapply tx_accepted_fee].
      apply IH in H as (us' & f & A' & -> & ?); [|done].
      exists (us ++ us'), (fee + f). split_and!; [by econstructor | lia | done].
    + intros (us0 & f0 & A & -> & Hsum). inversion A as [|? ? ? us fee us' f A1 A2]; subst.
      pose proof (tx_accepted_fee _ _ _ _ _ _ _ Ht A1).
      pose proof (txs_accepted_fees _ _ _ _ _ _ _ Hwf A2).
      rewrite bind_Ok. eexists (_, _). split; [apply ValidateTransactionAt_Ok; eauto|]. csimpl.
      rewrite bind_Ok. exists (fees + fee). rewrite checked_add_Ok by done.
      split; [mach|]. apply IH; [mach|]. exists us', f. split_and!; [done | lia | done].
Qed.

Lemma txs_accepted_resolved utxos v h spent txs us fees :
  txs_accepted utxos v h spent txs us fees ->
  Forall2 (resolves utxos) (block_inputs txs) us.
Proof.
  induction 1 as [|spent t txs us fee us' fees A _ IH]; [constructor|]. csimpl.
  apply Forall2_app; [apply A | exact IH].
Qed.

(** No outpoint is spent twice, nor one that was spent before. *)
Lemma txs_accepted_distinct utxos v h spent txs us fees :
  txs_accepted utxos v h spent txs us fees ->
  NoDup (in_key <$> block_inputs txs) /\
  Forall (fun i => in_key i ∉ spent) (block_inputs txs).
Proof.
  induction 1 as [|spent t txs us fee us' fees A _ [IH1 IH2]]; [split; constructor|]. csimpl.
  rewrite fmap_app, NoDup_app, Forall_app. destruct (ta_inputs _ _ _ _ _ _ _ A) as [_ D U _ _].
  rewrite Forall_forall in IH2. split_and!; try done.
  - intros k Hk (i & -> & Hi)%list_elem_of_fmap. specialize (IH2 i Hi).
    apply IH2, elem_of_union_l. unfold in_keys. by apply elem_of_list_to_set.
  - apply Forall_forall. intros i Hi. specialize (IH2 i Hi). set_solver.
Qed.

Lemma txs_accepted_not_coinbase utxos v h spent txs us fees :
  txs_accepted utxos v h spent txs us fees -> Forall (fun t => IsCoinbase t = false) txs.
Proof. induction 1 as [|spent t txs us fee us' fees A _ IH]; constructor; [apply A | done]. Qed.

(** The spent value covers the outputs and the fees exactly. *)
Lemma txs_accepted_balance utxos v h spent txs us fees :
  txs_accepted utxos v h spent txs us fees ->
  Zsum (u_Amount <$> us) = Zsum (out_Amount <$> block_outputs txs) + fees.
Proof.
  induction 1 as [|spent t txs us fee us' fees A _ IH]; [done|]. csimpl.
  rewrite !fmap_app, !Zsum_app, IH. destruct A as [_ _ _ _ -> _]. lia.
Qed.

Definition cb_total (cb : Transaction) : Z := Zsum (out_Amount <$> tx_Outputs cb).

(** An accepted block: one coinbase, first, and transactions that meet the
    rules; the coinbase collects at most the reward and the fees. *)
Record block_accepted (b : Block) (utxos : UTXOReader) (v : SignatureVerifier) (h : Z)
    (cb : Transaction) (txs : list Transaction) (us : list UTXO) (fees : Z) : Prop := {
  ba_txs : blk_Transactions b = cb :: txs;
  ba_coinbase : IsCoinbase cb = true;
  ba_accepted : txs_accepted utxos v h ∅ txs us fees;
  ba_fees : is_u64 fees;
  ba_claim : cb_total cb <= u64 (BlockReward (hdr_Height (blk_Header b)) + fees);
}.

Lemma ValidateBlockTransactionsAt_Ok b utxos v h :
  reader_wf utxos -> block_wf b ->
  ValidateBlockTransactionsAt b utxos v h = Ok tt <->
  exists cb txs us fees, block_accepted b utxos v h cb txs us fees.
Proof.
  intros Hr [_ Hwf]. unfold ValidateBlockTransactionsAt.
  destruct (blk_Transactions b) as [|cb txs] eqn:Hb.
  { split; [done | intros (? & ? & ? & ? & [E _ _ _ _]); congruence]. }
  apply Forall_cons in Hwf as [Hcb Hwf].
  pose proof (outputs_u64 cb Hcb) as Houts. pose proof (u64_sum_nonneg _ Houts) as Hnn.
  destruct (IsCoinbase cb) eqn:Hisc; csimpl.
  2: { split; [done | intros (? & ? & ? & ? & [E ? _ _ _]); congruence]. }
  rewrite bind_Ok. setoid_rewrite validate_txs_Ok; [|done|done|mach]. split.
  - intros (f & (us & f' & A & -> & Hu) & H). apply bind_Ok in H as (co & Hco & H).
    apply checked_sum_Ok in Hco as [-> ?]; [|mach|done]. inv_ok. breflect.
    exists cb, txs, us, f'. split; try done.
  - intros (cb' & txs' & us & f & [E _ A Hf Hc]). rewrite Hb in E. injection E as <- <-.
    unfold cb_total in Hc. pose proof (u64_range (BlockReward (hdr_Height (blk_Header b)) + f)).
    exists f. split; [exists us, f; split_and!; [done | lia | done]|].
    rewrite bind_Ok. eexists. rewrite checked_sum_Ok by (mach || done).
    split; [split; [done | mach]|]. by rewrite (proj2 (Z.ltb_ge _ _)) by lia.
Qed.

(** ** Rewards, difficulty, keys and scripts: lemmas *)

Lemma BlockReward_audit h : BlockReward h = audit_reward h.
Proof. done. Qed.

Lemma BlockReward_range h : 0 <= h -> 0 <= BlockReward h <= InitialReward.
Proof. rewrite BlockReward_audit. apply audit_reward_range. Qed.

(** The clamped time stays within a factor of four of the expected one. *)
Lemma Retarget_bounds old actual expected :
  0 <= old -> 4 <= expected < 2 ^ 60 -> (4 | expected) ->
  old / 4 <= Retarget old actual expected <= 4 * old.
Proof.
  intros Ho He [k Hk]. unfold Retarget, big_Div.
  rewrite i64_small by mach. rewrite Z.quot_div_nonneg by lia.
  rewrite (proj2 (Z.ltb_lt 0 expected)) by lia.
  assert (Hq : expected / 4 = k) by (rewrite Hk; apply Z.div_mul; lia). rewrite Hq.
  set (a := if expected * 4 <? _ then _ else _).
  assert (Ha : k <= a <= expected * 4).
  { unfold a. destruct (Z.ltb_spec actual k);
      match goal with |- context [?x <? ?y] => destruct (Z.ltb_spec x y) end; lia. }
  split.
  - apply Z.div_le_lower_bound; [lia|]. pose proof (Z.mul_div_le old 4 ltac:(lia)). nia.
  - apply Z.div_le_upper_bound; nia.
Qed.

(** A number of retargets never leaves the range of valid targets. *)
Lemma ExpectedBits_target prev net hbh bits :
  let old := CompactToBig (hdr_Bits prev) in
  4 <= old <= PowLimit net -> PowLimit net < 2 ^ 256 ->
  ExpectedBits prev net hbh = Ok bits ->
  0 < CompactToBig bits <= PowLimit net /\ CompactToBig bits <= 4 * old /\
  (old / 4) * (2 ^ 15 - 1) <= CompactToBig bits * 2 ^ 15.
Proof.
  intros old Hold Hlim. unfold ExpectedBits.
  assert (1 <= old / 4) by (apply Z.div_le_lower_bound; lia).
  pose proof (Z.mul_div_le old 4 ltac:(lia)).
  destruct (negb _ || _).
  { intros [= <-]. fold old. lia. }
  intros H'. apply bind_Ok in H' as (first & _ & H'). fold old in H'.
  set (r0 := Retarget old _ _) in H'.
  assert (Hr0 : old / 4 <= r0 <= 4 * old)
    by (apply Retarget_bounds; [lia | by vm_compute | by exists 10800]).
  set (r := if PowLimit net <? r0 then PowLimit net else r0) in H'.
  assert (Hr : old / 4 <= r <= 4 * old /\ r <= PowLimit net)
    by (unfold r; destruct (Z.ltb_spec (PowLimit net) r0); lia).
  clearbody r r0. injection H' as <-.
  assert (2 ^ 256 < 256 ^ 254) by done.
  pose proof (CompactToBig_BigToCompact r ltac:(lia)). lia.
Qed.

Lemma CheckProofOfWork_Ok {HF : HashFunction} h limit :
  CheckProofOfWork h limit = Ok tt <->
  0 < CompactToBig (hdr_Bits h) <= limit /\ be_val (hdr_Hash h) <= CompactToBig (hdr_Bits h).
Proof.
  unfold CheckProofOfWork. split.
  - intros H. inv_ok. breflect. lia.
  - intros [[H0 H1] H2]. rewrite (proj2 (Z.leb_gt _ _)), (proj2 (Z.ltb_ge _ _)) by lia.
    simpl. by rewrite (proj2 (Z.ltb_ge _ _)) by lia.
Qed.

Lemma OutpointKey_inj h i h' i' :
  is_hash h -> is_hash h' -> 0 <= i -> 0 <= i' ->
  OutpointKey h i = OutpointKey h' i' -> h = h' /\ i = i'.
Proof.
  intros [Hl Hw] [Hl' Hw'] Hi Hi' H. unfold OutpointKey in H.
  apply app_inj_length in H as [Hh Hd]; [|by rewrite !hex_encode_length, Hl, Hl'].
  apply app_inv_head in Hd. split; [by apply hex_encode_inj | by apply decimal_inj].
Qed.

Lemma ExtractPubKeyHash_Script hash :
  ExtractPubKeyHash (ScriptForPubKeyHash hash) = Some hash.
Proof.
  unfold ExtractPubKeyHash, ScriptForPubKeyHash.
  rewrite (proj2 (has_prefix_spec _ _)) by eauto. by rewrite drop_app_length.
Qed.

(** ** Properties *)

(** C10: ValidateTransactionAt accepts a transaction exactly when it is no coinbase, its
    inputs are distinct, resolve, are unspent, mature and correctly signed, no output is
    zero, the input sum fits 64 bits and the fee reaches the minimum; it then returns
    that fee and adds its inputs to the spent set. *)
Theorem accepted_transaction_rules t utxos v spent h fee spent' :
  reader_wf utxos -> tx_wf t ->
  ValidateTransactionAt t utxos v spent h = Ok (fee, spent') <->
  exists us, tx_accepted t utxos v spent h us fee /\ spent' = in_keys (tx_Inputs t) ∪ spent.
Proof. apply ValidateTransactionAt_Ok. Qed.

(** C11: In a block that passes transaction validation no output is spent twice and the
    outputs, coinbase included, add up to at most the resolved inputs plus the block
    reward, without wrap-around. *)
Theorem accepted_block_conserves b utxos v :
  reader_wf utxos -> block_wf b -> ValidateBlockTransactions b utxos v = Ok tt ->
  exists cb txs us,
    blk_Transactions b = cb :: txs /\
    Forall2 (resolves utxos) (block_inputs txs) us /\
    NoDup (in_key <$> block_inputs txs) /\
    Zsum (out_Amount <$> block_outputs (cb :: txs)) <=
      Zsum (u_Amount <$> us) + BlockReward (hdr_Height (blk_Header b)).
Proof.
  intros Hr Hwf H. apply ValidateBlockTransactionsAt_Ok in H as (cb & txs & us & fees & A); [|done..].
  exists cb, txs, us. destruct A as [Hb _ A Hf Hc]. split_and!; [done | | |].
  - by eapply txs_accepted_resolved.
  - by apply txs_accepted_distinct in A as [? _].
  - csimpl. rewrite fmap_app, Zsum_app. rewrite (txs_accepted_balance _ _ _ _ _ _ _ A).
    fold (cb_total cb). fold (block_outputs txs).
    pose proof (BlockReward_range (hdr_Height (blk_Header b))) as HR.
    destruct Hwf as [(_ & _ & _ & _ & _ & _ & Hh) _].
    pose proof (u64_le (BlockReward (hdr_Height (blk_Header b)) + fees)). mach.
Qed.

(** C24: When the previous target is at least 4 and within the limit of the network, and
    that limit is below 2^256, the bits ExpectedBits computes stand for a positive
    target within the limit, at most four times the previous target and at least a
    quarter of it up to the rounding of the compact form. *)
Theorem retarget_stays_in_range prev net hbh bits :
  4 <= CompactToBig (hdr_Bits prev) <= PowLimit net -> PowLimit net < 2 ^ 256 ->
  ExpectedBits prev net hbh = Ok bits ->
  0 < CompactToBig bits <= PowLimit net /\
  CompactToBig bits <= 4 * CompactToBig (hdr_Bits prev) /\
  (CompactToBig (hdr_Bits prev) / 4) * (2 ^ 15 - 1) <= CompactToBig bits * 2 ^ 15.
Proof. apply ExpectedBits_target. Qed.
