(* ===== verification/Pebble.v ===== *)
(** * Pebble: the file-backed key-value store

    Models [internal/pebble/pebble.go], the store the build replaces
    cockroachdb/pebble with: one file per key under the database directory.

    The state is the directory's contents and the behaviour of the operating
    system: the files it refuses to read, and the outcome of each of the next
    file-system writes ([OsOk] once the list is used up).  A failed write may
    leave the file as it was or torn, with any contents.  File names are the
    keys: [filepath.Clean] is the identity on the keys the program uses, which
    are clean names ([clean_name], proved for every key in [Storage]). *)

From S2P Require Import Prelude Encoding.

Inductive os_outcome :=
| OsOk
| OsFail (torn : option bytes).

Record DB := mkDB {
  db_files : gmap bytes bytes;
  db_unreadable : gset bytes;
  db_faults : list os_outcome;
}.

(** No fault now or later. *)
Definition healthy (d : DB) : Prop := db_unreadable d = ∅ /\ db_faults d = [].

Definition clean_name (key : bytes) : Prop :=
  47 ∉ key /\ key <> [] /\ key <> str "." /\ key <> str "..".

(** The outcome of the next write. *)
Definition next_outcome (d : DB) : os_outcome * list os_outcome :=
  match db_faults d with [] => (OsOk, []) | o :: os => (o, os) end.

(** [Open]: [os.MkdirAll] of the directory, whose contents it keeps.  The
    closers do nothing. *)
Definition Open (d : DB) : DB * result unit :=
  let '(o, os) := next_outcome d in
  (mkDB (db_files d) (db_unreadable d) os,
   match o with OsOk => Ok tt | OsFail _ => Err ErrOS end).

(** [DB.Set]: [os.MkdirAll] of the directory, which exists, and [os.WriteFile];
    one outcome stands for both. *)
Definition Set_ (key value : bytes) (d : DB) : DB * result unit :=
  let '(o, os) := next_outcome d in
  match o with
  | OsOk => (mkDB (<[key := value]> (db_files d)) (db_unreadable d) os, Ok tt)
  | OsFail None => (mkDB (db_files d) (db_unreadable d) os, Err ErrOS)
  | OsFail (Some torn) => (mkDB (<[key := torn]> (db_files d)) (db_unreadable d) os, Err ErrOS)
  end.

(** [DB.Get]: [os.ReadFile]. *)
Definition Get_ (key : bytes) (d : DB) : result bytes :=
  match db_files d !! key with
  | None => Err ErrNotFound
  | Some b => fail_if bool_decide (key ∈ db_unreadable d) with ErrOS ;; Ok b
  end.

(** [DB.Delete]: [os.Remove]; a missing file is no error. *)
Definition Delete (key : bytes) (d : DB) : DB * result unit :=
  match db_files d !! key with
  | None => (d, Ok tt)
  | Some _ =>
      let '(o, os) := next_outcome d in
      match o with
      | OsOk => (mkDB (delete key (db_files d)) (db_unreadable d) os, Ok tt)
      | OsFail _ => (mkDB (db_files d) (db_unreadable d) os, Err ErrOS)
      end
  end.

(** ** Batches *)

Record op := mkOp { op_del : bool; op_key : bytes; op_value : bytes }.

(** [Batch.Set] and [Batch.Delete] only record the operation and never fail. *)
Definition Batch_Set (key value : bytes) (ops : list op) : list op := ops ++ [mkOp false key value].
Definition Batch_Delete (key : bytes) (ops : list op) : list op := ops ++ [mkOp true key []].

(** [Batch.Commit]: the operations one by one, stopping at the first error. *)
Fixpoint Commit (ops : list op) (d : DB) : DB * result unit :=
  match ops with
  | [] => (d, Ok tt)
  | o :: ops =>
      let '(d, r) := if op_del o then Delete (op_key o) d
                     else Set_ (op_key o) (op_value o) d in
      match r with
      | Err e => (d, Err e)
      | Ok _ => Commit ops d
      end
  end.

(** ** Walking the directory *)

(** Byte-wise lexical order, the order of [filepath.WalkDir]. *)
Fixpoint bytes_leb (a b : bytes) : bool :=
  match a, b with
  | [], _ => true
  | _ :: _, [] => false
  | x :: a, y :: b => (x <? y) || (x =? y) && bytes_leb a b
  end.

Definition bytes_le (a b : bytes) : Prop := bytes_leb a b = true.
#[global] Instance bytes_le_dec a b : Decision (bytes_le a b).
Proof. unfold bytes_le. apply _. Defined.

(** The names with the prefix, in walking order. *)
Definition names_with_prefix (prefix : bytes) (d : DB) : list bytes :=
  merge_sort bytes_le
    (List.filter (has_prefix prefix) ((map_to_list (db_files d)).*1)).

(** [DB.WalkPrefix] with a callback that threads an accumulator. *)
Fixpoint walk {S} (fn : bytes -> bytes -> S -> result S) (names : list bytes) (d : DB) (s : S)
    : result S :=
  match names with
  | [] => Ok s
  | k :: names => v ← Get_ k d; s ← fn k v s; walk fn names d s
  end.

Definition WalkPrefix {S} (prefix : bytes) (fn : bytes -> bytes -> S -> result S) (d : DB) (s : S)
    : result S :=
  walk fn (names_with_prefix prefix d) d s.

(** ** Lemmas *)

(** What one operation does to the files when the system does not fail. *)
Definition op_files (o : op) (m : gmap bytes bytes) : gmap bytes bytes :=
  if op_del o then delete (op_key o) m else <[op_key o := op_value o]> m.

Definition ops_files (ops : list op) (m : gmap bytes bytes) : gmap bytes bytes :=
  fold_left (fun m o => op_files o m) ops m.

Lemma next_healthy d : healthy d -> next_outcome d = (OsOk, []).
Proof. intros [_ H]. unfold next_outcome. by rewrite H. Qed.

Lemma Get_healthy key d :
  healthy d ->
  Get_ key d = match db_files d !! key with None => Err ErrNotFound | Some b => Ok b end.
Proof.
  intros [H _]. unfold Get_. destruct (db_files d !! key); [|done].
  by rewrite H, bool_decide_false by set_solver.
Qed.

Lemma Set_healthy key value d :
  healthy d -> Set_ key value d = (mkDB (<[key := value]> (db_files d)) ∅ [], Ok tt).
Proof. intros H. unfold Set_. rewrite next_healthy by done. by destruct H as [-> _]. Qed.

Lemma Delete_healthy key d :
  healthy d -> Delete key d = (mkDB (delete key (db_files d)) ∅ [], Ok tt).
Proof.
  intros H. unfold Delete. rewrite next_healthy by done. destruct d as [m u f], H as [Hu Hf].
  simpl in *. subst. destruct (m !! key) eqn:E; [done|]. by rewrite delete_id.
Qed.

(** A commit on a healthy system applies every operation. *)
Lemma Commit_healthy ops d :
  healthy d -> Commit ops d = (mkDB (ops_files ops (db_files d)) ∅ [], Ok tt).
Proof.
  revert d. induction ops as [|o ops IH]; intros d H; simpl.
  - destruct d as [m u f], H as [Hu Hf]; simpl in *. by subst.
  - unfold ops_files. simpl. unfold op_files at 2.
    destruct (op_del o); [rewrite Delete_healthy by done | rewrite Set_healthy by done];
      rewrite IH by done; done.
Qed.

(** An interrupted operation: the files as they were, or the written file torn. *)
Definition op_torn (o : op) (m m' : gmap bytes bytes) : Prop :=
  m' = m \/ (op_del o = false /\ exists torn, m' = <[op_key o := torn]> m).

Lemma Set_step key value d d' r :
  Set_ key value d = (d', r) ->
  (r = Ok tt /\ db_files d' = <[key := value]> (db_files d)) \/
  (r = Err ErrOS /\ op_torn (mkOp false key value) (db_files d) (db_files d')).
Proof.
  unfold Set_. destruct (next_outcome d) as [[|[torn|]] os]; intros [= <- <-];
    [by left | right; split; [done|]; right; eauto | right; split; [done | by left]].
Qed.

Lemma Delete_step key d d' r :
  Delete key d = (d', r) ->
  (r = Ok tt /\ db_files d' = delete key (db_files d)) \/
  (r = Err ErrOS /\ db_files d' = db_files d).
Proof.
  unfold Delete. destruct (db_files d !! key) eqn:E.
  - destruct (next_outcome d) as [[|torn] os]; intros [= <- <-]; [by left | by right].
  - intros [= <- <-]. left. by rewrite delete_id.
Qed.

(** Whatever the system does, a commit applies a prefix of its operations and
    possibly tears the next one; it reports success exactly when it applied
    all of them. *)
Lemma Commit_prefix ops d d' r :
  Commit ops d = (d', r) ->
  (r = Ok tt /\ db_files d' = ops_files ops (db_files d)) \/
  (r = Err ErrOS /\ exists pre o post,
     ops = pre ++ o :: post /\ op_torn o (ops_files pre (db_files d)) (db_files d')).
Proof.
  revert d. induction ops as [|o ops IH]; intros d; simpl.
  - intros [= <- <-]. by left.
  - destruct (if op_del o then _ else _) as [d1 r1] eqn:E1.
    assert (H1 : (r1 = Ok tt /\ db_files d1 = op_files o (db_files d)) \/
                 (r1 = Err ErrOS /\ op_torn o (db_files d) (db_files d1))).
    { unfold op_files. destruct o as [[] k v]; simpl in *.
      - apply Delete_step in E1 as [[-> ->]|[-> ->]]; [by left | right; split; [done|by left]].
      - by apply Set_step in E1. }
    destruct H1 as [[-> Hd1]|[-> Ht]].
    + intros H. apply IH in H as [[-> ->]|[-> (pre & o' & post & -> & Ht)]].
      * left. by rewrite Hd1.
      * right. split; [done|]. exists (o :: pre), o', post.
        rewrite Hd1 in Ht. done.
    + intros [= <- <-]. right. split; [done|]. by exists [], o, ops.
Qed.
