(* ===== verification/Storage.v ===== *)
(** * Storage: the chain database

    Models [storage/storage.go] over the store of [Pebble]: blocks, the height
    and transaction indexes, the UTXO set, spent markers, undo logs, total work
    and the tip pointer, each under keys of its own, and the two operations that
    move the tip, [ApplyBlock] and [DisconnectTip].

    UTXOs and undo logs are stored as JSON.  [UTXOJson] is what the code relies
    on of encoding/json: marshalling the two types never fails, unmarshalling
    inverts it and yields well-typed values. *)

From S2P Require Import Prelude Encoding Sha256 Params Tx Block Consensus Pebble.

Class UTXOJson := {
  json_Marshal : UTXO -> bytes;
  json_Unmarshal : bytes -> result UTXO;
  json_MarshalList : list UTXO -> bytes;
  json_UnmarshalList : bytes -> result (list UTXO);
  json_roundtrip u : utxo_wf u -> json_Unmarshal (json_Marshal u) = Ok u;
  json_list_roundtrip us :
    Forall utxo_wf us -> json_UnmarshalList (json_MarshalList us) = Ok us;
  json_wf bs u : json_Unmarshal bs = Ok u -> utxo_wf u;
  json_list_wf bs us : json_UnmarshalList bs = Ok us -> Forall utxo_wf us;
}.

(** ** Keys *)

Definition keyBlockHeight (height : Z) : bytes := str "block:" ++ hex_encode (be_bytes 8 height).
Definition keyBlockHash (hash : bytes) : bytes := str "blockhash:" ++ hex_encode hash.
Definition keyTx (hash : bytes) : bytes := str "tx:" ++ hex_encode hash.
Definition keyUTXO (hash : bytes) (idx : Z) : bytes :=
  str "utxo:" ++ hex_encode hash ++ str ":" ++ decimal idx.
Definition keySpent (hash : bytes) (idx : Z) : bytes :=
  str "spent:" ++ hex_encode hash ++ str ":" ++ decimal idx.
Definition keyTotalWork (hash : bytes) : bytes := str "chain:totalwork:" ++ hex_encode hash.
Definition keyUndo (hash : bytes) : bytes := str "undo:" ++ hex_encode hash.
Definition keyTip : bytes := str "chain:tip".

(** [big.Int.String] and [big.Int.SetString(_, 10)] *)
Definition big_String (z : Z) : bytes := if z <? 0 then 45 :: decimal (- z) else decimal z.
Definition big_SetString (s : bytes) : option Z :=
  match s with
  | c :: d => if c =? 45 then Z.opp <$> decimal_value d
              else if c =? 43 then decimal_value d else decimal_value s
  | [] => None
  end.

(** [var h [32]byte; copy(h[:], v)] *)
Definition copy32 (v : bytes) : bytes := take 32 v ++ replicate (32 - length v) 0.

Section Storage.
Context {HF : HashFunction} {UJ : UTXOJson}.

(** [Open] *)
Definition storage_Open (d : DB) : DB * result unit := Open d.

(** ** Reads *)

Definition TotalWork (hash : bytes) (d : DB) : result Z :=
  v ← Get_ (keyTotalWork hash) d;
  match big_SetString v with
  | Some work => Ok work
  | None => Err (Errorf "corrupt total work")
  end.

Definition GetBlock (hash : bytes) (d : DB) : result Block :=
  v ← Get_ (keyBlockHash hash) d; DeserializeBlock v.

Definition BlockHashByHeight (height : Z) (d : DB) : result bytes :=
  v ← Get_ (keyBlockHeight height) d; Ok (copy32 v).

Definition Tip (d : DB) : result bytes := v ← Get_ keyTip d; Ok (copy32 v).

(** [DB.Get], the [UTXOReader] of the database. *)
Definition Get (d : DB) : UTXOReader := fun hash idx =>
  v ← Get_ (keyUTXO hash idx) d; json_Unmarshal v.

Definition GetTx (hash : bytes) (d : DB) : result Transaction :=
  v ← Get_ (keyTx hash) d; DeserializeTransaction v.

Definition Height (d : DB) : result Z :=
  h ← Tip d; b ← GetBlock h d; Ok (hdr_Height (blk_Header b)).

Definition Undo (hash : bytes) (d : DB) : result (list UTXO) :=
  v ← Get_ (keyUndo hash) d; json_UnmarshalList v.

Definition ListUTXOs (d : DB) : result (list UTXO) :=
  WalkPrefix (str "utxo:")
    (fun _ value out => u ← json_Unmarshal value; Ok (out ++ [u])) d [].

Definition ListUTXOsByScript (script : bytes) (d : DB) : result (list UTXO) :=
  all ← ListUTXOs d;
  Ok (List.filter (fun u => bool_decide (u_Script u = script)) all).

Definition BalanceByScript (script : bytes) (d : DB) : result Z :=
  utxos ← ListUTXOsByScript script d;
  checked_sum 0 (u_Amount <$> utxos).

(** ** Writes *)

Definition PutTotalWork (hash : bytes) (work : Z) (d : DB) : DB * result unit :=
  Set_ (keyTotalWork hash) (big_String work) d.

Definition SetTip (hash : bytes) (d : DB) : DB * result unit := Set_ keyTip hash d.

Definition PutUndo (hash : bytes) (undo : list UTXO) (d : DB) : DB * result unit :=
  Set_ (keyUndo hash) (json_MarshalList undo) d.

Definition PutUTXO (u : UTXO) (d : DB) : DB * result unit :=
  Set_ (keyUTXO (u_TxHash u) (u_OutputIdx u)) (json_Marshal u) d.

Definition SpendUTXO (hash : bytes) (idx : Z) (d : DB) : DB * result unit :=
  Commit (Batch_Set (keySpent hash idx) [1] (Batch_Delete (keyUTXO hash idx) [])) d.

(** [for _, t := range b.Transactions { batch.Set(keyTx(th), ...) }] *)
Definition batch_txs (txs : list Transaction) (ops : list op) : list op :=
  fold_left (fun ops t => Batch_Set (keyTx (tx_Hash t)) (SerializeTransaction t) ops) txs ops.

Definition PutBlock (b : Block) (d : DB) : DB * result unit :=
  let hash := blk_Hash b in
  let batch := Batch_Set (keyBlockHash hash) (SerializeBlock b) [] in
  let batch := Batch_Set (keyBlockHeight (hdr_Height (blk_Header b))) hash batch in
  let batch := batch_txs (blk_Transactions b) batch in
  let batch := Batch_Set keyTip hash batch in
  Commit batch d.

(** The undo log: the outputs the block spends, as far as the store has them. *)
Definition undo_input (d : DB) (undo : list UTXO) (i : Input) : list UTXO :=
  match Get d (in_PrevTxHash i) (in_OutputIdx i) with
  | Ok u => undo ++ [u]
  | Err _ => undo
  end.

Definition collect_undo (txs : list Transaction) (d : DB) : list UTXO :=
  fold_left (fun undo t =>
    if IsCoinbase t then undo else fold_left (undo_input d) (tx_Inputs t) undo) txs [].

(** Spend one input inside the batch. *)
Definition batch_spend (ops : list op) (i : Input) : list op :=
  Batch_Set (keySpent (in_PrevTxHash i) (in_OutputIdx i)) [1]
    (Batch_Delete (keyUTXO (in_PrevTxHash i) (in_OutputIdx i)) ops).

(** The UTXO that output [i] of the transaction at position [ti] becomes. *)
Definition new_utxo (height : Z) (ti : nat) (th : bytes) (i : nat) (out : Output) : UTXO :=
  mkUTXO th (u32 (Z.of_nat i)) (out_Amount out) (out_LockingScript out) height (ti =? 0)%nat.

Fixpoint batch_outputs (height : Z) (ti : nat) (th : bytes) (i : nat) (outs : list Output)
    (ops : list op) : list op :=
  match outs with
  | [] => ops
  | out :: outs =>
      let u := new_utxo height ti th i out in
      batch_outputs height ti th (S i) outs
        (Batch_Set (keyUTXO th (u32 (Z.of_nat i))) (json_Marshal u) ops)
  end.

Definition batch_tx (height : Z) (ti : nat) (t : Transaction) (ops : list op) : list op :=
  let th := tx_Hash t in
  let ops := if IsCoinbase t then ops else fold_left batch_spend (tx_Inputs t) ops in
  batch_outputs height ti th 0 (tx_Outputs t) ops.

Fixpoint batch_all (height : Z) (ti : nat) (txs : list Transaction) (ops : list op) : list op :=
  match txs with
  | [] => ops
  | t :: txs => batch_all height (S ti) txs (batch_tx height ti t ops)
  end.

Definition apply_batch (b : Block) (undo : list UTXO) : list op :=
  let hash := blk_Hash b in
  let height := hdr_Height (blk_Header b) in
  let batch := Batch_Set (keyUndo hash) (json_MarshalList undo) [] in
  let batch := Batch_Set (keyBlockHash hash) (SerializeBlock b) batch in
  let batch := Batch_Set (keyBlockHeight height) hash batch in
  let batch := batch_txs (blk_Transactions b) batch in
  let batch := batch_all height 0 (blk_Transactions b) batch in
  Batch_Set keyTip hash batch.

Definition ApplyBlock (b : Block) (d : DB) : DB * result unit :=
  Commit (apply_batch b (collect_undo (blk_Transactions b) d)) d.

(** Delete the outputs of one transaction inside the batch. *)
Definition batch_delete_outputs (t : Transaction) (ops : list op) : list op :=
  fold_left (fun ops i => Batch_Delete (keyUTXO (tx_Hash t) (u32 (Z.of_nat i))) ops)
    (seq 0 (length (tx_Outputs t))) ops.

Definition disconnect_batch (b : Block) (undo : list UTXO) : list op :=
  let batch := fold_left (fun ops t => batch_delete_outputs t ops) (blk_Transactions b) [] in
  let batch := fold_left (fun ops u =>
    Batch_Set (keyUTXO (u_TxHash u) (u_OutputIdx u)) (json_Marshal u) ops) undo batch in
  if hdr_Height (blk_Header b) =? 0 then Batch_Delete keyTip batch
  else Batch_Set keyTip (hdr_PrevHash (blk_Header b)) batch.

(** [DisconnectTip] returns the block with the error of the commit. *)
Definition DisconnectTip (d : DB) : DB * result Block :=
  match (hash ← Tip d; b ← GetBlock hash d; undo ← Undo hash d; Ok (b, undo)) with
  | Err e => (d, Err e)
  | Ok (b, undo) =>
      let '(d, r) := Commit (disconnect_batch b undo) d in
      (d, match r with Ok _ => Ok b | Err e => Err e end)
  end.

End Storage.
