(* ===== verification/StoreSpec.v ===== *)
(** * StoreSpec: the abstract store and the refinement of the database

    The abstract store is a finite map from typed keys to typed values: what
    [storage/storage.go] means to keep, without encodings.  [represents] relates
    a database directory to it.  Every read of [Storage] returns what the
    abstract store holds and every write moves to the directory that represents
    the updated store, so the components above are reasoned about on the
    abstract store. *)

From S2P Require Import Prelude Encoding Sha256 Params Tx Block Consensus Pebble Storage.

(** ** Typed keys and values *)

Inductive skey :=
| KUTXO (h : bytes) (i : Z)
| KSpent (h : bytes) (i : Z)
| KBlock (h : bytes)
| KHeight (n : Z)
| KTx (h : bytes)
| KWork (h : bytes)
| KUndo (h : bytes)
| KTip.

#[global] Instance skey_eq_dec : EqDecision skey.
Proof. solve_decision. Defined.

Definition skey_code (k : skey) : nat * bytes * Z :=
  match k with
  | KUTXO h i => (0%nat, h, i)
  | KSpent h i => (1%nat, h, i)
  | KBlock h => (2%nat, h, 0)
  | KHeight n => (3%nat, [], n)
  | KTx h => (4%nat, h, 0)
  | KWork h => (5%nat, h, 0)
  | KUndo h => (6%nat, h, 0)
  | KTip => (7%nat, [], 0)
  end.

Definition skey_decode (c : nat * bytes * Z) : option skey :=
  match c with
  | (0%nat, h, i) => Some (KUTXO h i)
  | (1%nat, h, i) => Some (KSpent h i)
  | (2%nat, h, _) => Some (KBlock h)
  | (3%nat, _, n) => Some (KHeight n)
  | (4%nat, h, _) => Some (KTx h)
  | (5%nat, h, _) => Some (KWork h)
  | (6%nat, h, _) => Some (KUndo h)
  | (7%nat, _, _) => Some KTip
  | _ => None
  end.

#[global] Instance skey_countable : Countable skey.
Proof. refine (inj_countable skey_code skey_decode _). by intros []. Defined.

Inductive svalue :=
| VUTXO (u : UTXO)
| VSpent
| VBlock (b : Block)
| VHash (h : bytes)
| VTx (t : Transaction)
| VWork (z : Z)
| VUndo (us : list UTXO).

Definition skey_wf (k : skey) : Prop :=
  match k with
  | KUTXO h i | KSpent h i => is_hash h /\ is_u32 i
  | KBlock h | KTx h | KWork h | KUndo h => is_hash h
  | KHeight n => is_u64 n
  | KTip => True
  end.

Definition key_bytes (k : skey) : bytes :=
  match k with
  | KUTXO h i => keyUTXO h i
  | KSpent h i => keySpent h i
  | KBlock h => keyBlockHash h
  | KHeight n => keyBlockHeight n
  | KTx h => keyTx h
  | KWork h => keyTotalWork h
  | KUndo h => keyUndo h
  | KTip => keyTip
  end.

(** *** Keys never collide *)

(** Two strings that differ at a common position. *)
Fixpoint differ (a b : bytes) : bool :=
  match a, b with
  | x :: a, y :: b => negb (x =? y) || differ a b
  | _, _ => false
  end.

Lemma differ_app a b x y : differ a b = true -> a ++ x <> b ++ y.
Proof.
  revert b. induction a as [|c a IH]; intros [|c' b]; try done. simpl. intros H [= -> E].
  rewrite Z.eqb_refl in H. simpl in H. by eapply IH.
Qed.

Definition key_prefix (k : skey) : bytes :=
  match k with
  | KUTXO _ _ => str "utxo:"
  | KSpent _ _ => str "spent:"
  | KBlock _ => str "blockhash:"
  | KHeight _ => str "block:"
  | KTx _ => str "tx:"
  | KWork _ => str "chain:totalwork:"
  | KUndo _ => str "undo:"
  | KTip => str "chain:tip"
  end.

Definition key_suffix (k : skey) : bytes :=
  match k with
  | KUTXO h i | KSpent h i => OutpointKey h i
  | KBlock h | KTx h | KWork h | KUndo h => hex_encode h
  | KHeight n => hex_encode (be_bytes 8 n)
  | KTip => []
  end.

Lemma key_bytes_split k : key_bytes k = key_prefix k ++ key_suffix k.
Proof. by destruct k. Qed.

Lemma be8_inj n n' : is_u64 n -> is_u64 n' -> be_bytes 8 n = be_bytes 8 n' -> n = n'.
Proof.
  intros H H' E. rewrite <- (be_roundtrip 8 n), <- (be_roundtrip 8 n') by auto with nevel.
  by rewrite E.
Qed.

(** Different kinds of keys have different prefixes, and the rest of a key
    determines the hash, index or height. *)
Lemma key_bytes_inj k k' :
  skey_wf k -> skey_wf k' -> key_bytes k = key_bytes k' -> k = k'.
Proof.
  intros W W' E. rewrite !key_bytes_split in E.
  destruct k, k'; simpl in W, W';
    try (exfalso; refine (differ_app _ _ _ _ _ E); vm_compute; reflexivity);
    apply app_inv_head in E; simpl in E.
  all: try (apply OutpointKey_inj in E as [-> ->]; [done | apply W | apply W' | apply W | apply W']).
  all: try (apply hex_encode_inj in E; [by subst | apply W | apply W']).
  - apply hex_encode_inj in E; [|apply be_bytes_wf..]. f_equal. by apply be8_inj.
  - done.
Qed.

(** Every key is a clean file name. *)
Lemma hex_encode_no_slash bs : bytes_wf bs -> 47 ∉ hex_encode bs.
Proof.
  induction 1 as [|b bs Hb _ IH]; simpl; [apply not_elem_of_nil|].
  rewrite !not_elem_of_cons. unfold is_byte in Hb.
  pose proof (Z.mod_pos_bound b 16 ltac:(lia)).
  assert (0 <= b / 16 < 16) by (split; [apply Z.div_pos | apply Z.div_lt_upper_bound]; lia).
  unfold hex_digit. split_and!; [case_match; breflect; lia.. | done].
Qed.

Lemma OutpointKey_no_slash h i : is_hash h -> 0 <= i -> 47 ∉ OutpointKey h i.
Proof.
  intros [_ Hh] Hi. unfold OutpointKey. rewrite !not_elem_of_app. split_and!.
  - by apply hex_encode_no_slash.
  - by_decision.
  - intros H. pose proof (decimal_digits i Hi) as Hd. rewrite Forall_forall in Hd.
    specialize (Hd _ H). lia.
Qed.

Lemma key_bytes_clean k : skey_wf k -> clean_name (key_bytes k).
Proof.
  intros W. unfold clean_name. rewrite key_bytes_split.
  assert (Hp : 47 ∉ key_prefix k /\ (3 <= length (key_prefix k))%nat)
    by (destruct k; (split; [by_decision | vm_compute; lia])).
  destruct Hp as [Hp Hl]. split_and!.
  - rewrite not_elem_of_app. split; [done|].
    destruct k; simpl in W |- *; try (apply hex_encode_no_slash; apply W).
    + apply OutpointKey_no_slash; [apply W | destruct W; mach].
    + apply OutpointKey_no_slash; [apply W | destruct W; mach].
    + apply hex_encode_no_slash, be_bytes_wf.
    + apply not_elem_of_nil.
  - intros E. apply (f_equal length) in E. rewrite length_app in E. simpl in E. lia.
  - intros E. apply (f_equal length) in E. rewrite length_app in E. simpl in E. lia.
  - intros E. apply (f_equal length) in E. rewrite length_app in E. simpl in E. lia.
Qed.

(** ** Representation *)

Section Represents.
Context {HF : HashFunction} {UJ : UTXOJson}.

Definition value_bytes (v : svalue) : bytes :=
  match v with
  | VUTXO u => json_Marshal u
  | VSpent => [1]
  | VBlock b => SerializeBlock b
  | VHash h => h
  | VTx t => SerializeTransaction t
  | VWork z => big_String z
  | VUndo us => json_MarshalList us
  end.

(** Which values a key may hold. *)
Definition entry_ok (k : skey) (v : svalue) : Prop :=
  match k, v with
  | KUTXO h i, VUTXO u => utxo_wf u /\ u_TxHash u = h /\ u_OutputIdx u = i
  | KSpent _ _, VSpent => True
  | KBlock h, VBlock b => block_wf b /\ blk_Hash b = h
  | KHeight _, VHash h => is_hash h
  | KTx h, VTx t => tx_wf t /\ tx_Hash t = h
  | KWork _, VWork _ => True
  | KUndo _, VUndo us => Forall utxo_wf us
  | KTip, VHash h => is_hash h
  | _, _ => False
  end.

Definition store_ok (cs : gmap skey svalue) : Prop :=
  forall k v, cs !! k = Some v -> skey_wf k /\ entry_ok k v.

(** The directory holds the encoding of the store and nothing else. *)
Record represents (d : DB) (cs : gmap skey svalue) : Prop := {
  rep_healthy : healthy d;
  rep_ok : store_ok cs;
  rep_files : forall k, skey_wf k -> db_files d !! key_bytes k = value_bytes <$> cs !! k;
  rep_names : forall name v, db_files d !! name = Some v ->
    exists k, skey_wf k /\ name = key_bytes k;
}.

(** ** Writes *)

(** A typed write: [Some v] stores, [None] deletes. *)
Definition top : Type := skey * option svalue.

Definition op_of (o : top) : op :=
  match o.2 with
  | Some v => mkOp false (key_bytes o.1) (value_bytes v)
  | None => mkOp true (key_bytes o.1) []
  end.

Definition top_apply (cs : gmap skey svalue) (o : top) : gmap skey svalue :=
  match o.2 with Some v => <[o.1 := v]> cs | None => delete o.1 cs end.

Definition tops_apply (ops : list top) (cs : gmap skey svalue) : gmap skey svalue :=
  fold_left top_apply ops cs.

Definition top_ok (o : top) : Prop :=
  skey_wf o.1 /\ match o.2 with Some v => entry_ok o.1 v | None => True end.

Lemma top_apply_ok cs o : store_ok cs -> top_ok o -> store_ok (top_apply cs o).
Proof.
  intros Hs [Hk Hv] k v. unfold top_apply. destruct o as [k0 [v0|]]; simpl in *.
  - rewrite lookup_insert_Some. intros [[<- <-]|[_ ?]]; [done | by apply Hs].
  - rewrite lookup_delete_Some. intros [_ ?]. by apply Hs.
Qed.

Lemma tops_apply_ok ops cs : store_ok cs -> Forall top_ok ops -> store_ok (tops_apply ops cs).
Proof.
  revert cs. induction ops as [|o ops IH]; intros cs Hs HFa; [done|].
  apply Forall_cons in HFa as [? ?]. apply IH; [by apply top_apply_ok | done].
Qed.

(** One write on both sides. *)
Lemma op_files_represents m cs o :
  top_ok o ->
  (forall k, skey_wf k -> m !! key_bytes k = value_bytes <$> cs !! k) ->
  (forall name v, m !! name = Some v -> exists k, skey_wf k /\ name = key_bytes k) ->
  (forall k, skey_wf k -> op_files (op_of o) m !! key_bytes k = value_bytes <$> top_apply cs o !! k) /\
  (forall name v, op_files (op_of o) m !! name = Some v -> exists k, skey_wf k /\ name = key_bytes k).
Proof.
  intros [Hk _] Hf Hn. destruct o as [k0 [v0|]]; unfold op_files, op_of, top_apply; simpl in *.
  - split.
    + intros k Wk. destruct (decide (k0 = k)) as [<-|Hne].
      * by rewrite !lookup_insert_eq.
      * rewrite !lookup_insert_ne; [by apply Hf | done |].
        intros E. by apply key_bytes_inj in E.
    + intros name v. rewrite lookup_insert_Some. intros [[<- _]|[_ ?]]; eauto.
  - split.
    + intros k Wk. destruct (decide (k0 = k)) as [<-|Hne].
      * by rewrite !lookup_delete_eq.
      * rewrite !lookup_delete_ne; [by apply Hf | done |].
        intros E. by apply key_bytes_inj in E.
    + intros name v. rewrite lookup_delete_Some. intros [_ ?]; eauto.
Qed.

Lemma ops_files_represents ops m cs :
  Forall top_ok ops ->
  (forall k, skey_wf k -> m !! key_bytes k = value_bytes <$> cs !! k) ->
  (forall name v, m !! name = Some v -> exists k, skey_wf k /\ name = key_bytes k) ->
  (forall k, skey_wf k ->
     ops_files (op_of <$> ops) m !! key_bytes k = value_bytes <$> tops_apply ops cs !! k) /\
  (forall name v, ops_files (op_of <$> ops) m !! name = Some v ->
     exists k, skey_wf k /\ name = key_bytes k).
Proof.
  intros HFa. revert m cs. induction HFa as [|o ops Ho HFa IH]; intros m cs Hf Hn; [done|].
  destruct (op_files_represents m cs o Ho Hf Hn) as [Hf' Hn']. exact (IH _ _ Hf' Hn').
Qed.

(** A committed batch of typed writes. *)
Lemma Commit_represents d cs ops :
  represents d cs -> Forall top_ok ops ->
  exists d', Commit (op_of <$> ops) d = (d', Ok tt) /\ represents d' (tops_apply ops cs).
Proof.
  intros [Hh Hok Hf Hn] HFa. eexists. split; [by apply Commit_healthy|].
  destruct (ops_files_represents ops _ _ HFa Hf Hn).
  split; simpl; [done | by apply tops_apply_ok | done | done].
Qed.

Lemma Set_represents d cs k v :
  represents d cs -> skey_wf k -> entry_ok k v ->
  exists d', Set_ (key_bytes k) (value_bytes v) d = (d', Ok tt) /\ represents d' (<[k := v]> cs).
Proof.
  intros R Hk Hv. destruct (Commit_represents d cs [(k, Some v)] R) as (d' & Hc & R').
  { apply Forall_singleton. done. }
  exists d'. split; [|done]. pose proof (rep_healthy _ _ R) as Hh. simpl in Hc.
  rewrite Set_healthy in Hc |- * by done. congruence.
Qed.

(** ** Reads *)

Definition cs_utxo (cs : gmap skey svalue) (h : bytes) (i : Z) : option UTXO :=
  match cs !! KUTXO h i with Some (VUTXO u) => Some u | _ => None end.
Definition cs_block (cs : gmap skey svalue) (h : bytes) : option Block :=
  match cs !! KBlock h with Some (VBlock b) => Some b | _ => None end.
Definition cs_index (cs : gmap skey svalue) (n : Z) : option bytes :=
  match cs !! KHeight n with Some (VHash h) => Some h | _ => None end.
Definition cs_work (cs : gmap skey svalue) (h : bytes) : option Z :=
  match cs !! KWork h with Some (VWork z) => Some z | _ => None end.
Definition cs_undo (cs : gmap skey svalue) (h : bytes) : option (list UTXO) :=
  match cs !! KUndo h with Some (VUndo us) => Some us | _ => None end.
Definition cs_tip (cs : gmap skey svalue) : option bytes :=
  match cs !! KTip with Some (VHash h) => Some h | _ => None end.

Definition or_err {A} (e : error) (o : option A) : result A :=
  match o with Some a => Ok a | None => Err e end.

(** A read of the directory through the representation. *)
Lemma Get_represents d cs k :
  represents d cs -> skey_wf k ->
  Get_ (key_bytes k) d = or_err ErrNotFound (value_bytes <$> cs !! k).
Proof.
  intros [Hh _ Hf _] Wk. rewrite Get_healthy, Hf by done. by destruct (cs !! k).
Qed.

Lemma big_String_roundtrip z : big_SetString (big_String z) = Some z.
Proof.
  unfold big_String. destruct (Z.ltb_spec z 0).
  - unfold big_SetString. simpl. rewrite decimal_roundtrip by lia. simpl. f_equal. lia.
  - unfold big_SetString. pose proof (decimal_digits z ltac:(lia)) as Hd.
    pose proof (decimal_roundtrip z ltac:(lia)) as Hr.
    destruct (decimal z) as [|c s]; [done|]. apply Forall_cons in Hd as [Hc _].
    rewrite (proj2 (Z.eqb_neq c 45)), (proj2 (Z.eqb_neq c 43)) by lia. done.
Qed.

Lemma copy32_hash h : is_hash h -> copy32 h = h.
Proof.
  intros [Hl _]. unfold copy32. rewrite Hl, take_ge by lia. simpl. apply app_nil_r.
Qed.

(** Look the entry up in the store and discard the values its key cannot hold. *)
Ltac read_store R Hk :=
  rewrite (Get_represents _ _ _ R Hk);
  match goal with |- context [?cs !! ?k] =>
    destruct (cs !! k) as [v|] eqn:Ev; [|done];
    destruct (rep_ok _ _ R _ _ Ev) as [_ Hv]; destruct v; try done; simpl in Hv |- *
  end.

Lemma Get_spec d cs h i :
  represents d cs -> is_hash h -> is_u32 i -> Get d h i = or_err ErrNotFound (cs_utxo cs h i).
Proof.
  intros R Hh Hi. unfold Get, cs_utxo. change (keyUTXO h i) with (key_bytes (KUTXO h i)).
  read_store R (conj Hh Hi : skey_wf (KUTXO h i)). apply json_roundtrip, Hv.
Qed.

Lemma GetBlock_spec d cs h :
  represents d cs -> is_hash h ->
  GetBlock h d = b ← or_err ErrNotFound (cs_block cs h); DeserializeBlock (SerializeBlock b).
Proof.
  intros R Hh. unfold GetBlock, cs_block. change (keyBlockHash h) with (key_bytes (KBlock h)).
  read_store R (Hh : skey_wf (KBlock h)).
Qed.

Lemma BlockHashByHeight_spec d cs n :
  represents d cs -> is_u64 n -> BlockHashByHeight n d = or_err ErrNotFound (cs_index cs n).
Proof.
  intros R Hn. unfold BlockHashByHeight, cs_index.
  change (keyBlockHeight n) with (key_bytes (KHeight n)).
  read_store R (Hn : skey_wf (KHeight n)). by rewrite copy32_hash.
Qed.

Lemma TotalWork_spec d cs h :
  represents d cs -> is_hash h -> TotalWork h d = or_err ErrNotFound (cs_work cs h).
Proof.
  intros R Hh. unfold TotalWork, cs_work. change (keyTotalWork h) with (key_bytes (KWork h)).
  read_store R (Hh : skey_wf (KWork h)). by rewrite big_String_roundtrip.
Qed.

Lemma Undo_spec d cs h :
  represents d cs -> is_hash h -> Undo h d = or_err ErrNotFound (cs_undo cs h).
Proof.
  intros R Hh. unfold Undo, cs_undo. change (keyUndo h) with (key_bytes (KUndo h)).
  read_store R (Hh : skey_wf (KUndo h)). by apply json_list_roundtrip.
Qed.

Lemma Tip_spec d cs : represents d cs -> Tip d = or_err ErrNotFound (cs_tip cs).
Proof.
  intros R. unfold Tip, cs_tip. change keyTip with (key_bytes KTip).
  read_store R (I : skey_wf KTip). by rewrite copy32_hash.
Qed.

Lemma cs_tip_hash cs h : store_ok cs -> cs_tip cs = Some h -> is_hash h.
Proof.
  intros Hok. unfold cs_tip. destruct (cs !! KTip) as [[]|] eqn:E; try done.
  intros [= ->]. apply Hok in E as [_ ?]. done.
Qed.

Lemma cs_index_hash cs n h : store_ok cs -> cs_index cs n = Some h -> is_hash h.
Proof.
  intros Hok. unfold cs_index. destruct (cs !! KHeight n) as [[]|] eqn:E; try done.
  intros [= ->]. apply Hok in E as [_ ?]. done.
Qed.

Lemma cs_block_ok cs h b : store_ok cs -> cs_block cs h = Some b -> block_wf b /\ blk_Hash b = h.
Proof.
  intros Hok. unfold cs_block. destruct (cs !! KBlock h) as [[]|] eqn:E; try done.
  intros [= ->]. apply Hok in E as [_ ?]. done.
Qed.

Lemma cs_utxo_ok cs h i u :
  store_ok cs -> cs_utxo cs h i = Some u -> utxo_wf u /\ u_TxHash u = h /\ u_OutputIdx u = i.
Proof.
  intros Hok. unfold cs_utxo. destruct (cs !! KUTXO h i) as [[]|] eqn:E; try done.
  intros [= ->]. apply Hok in E as [_ ?]. done.
Qed.

Lemma cs_undo_ok cs h us : store_ok cs -> cs_undo cs h = Some us -> Forall utxo_wf us.
Proof.
  intros Hok. unfold cs_undo. destruct (cs !! KUndo h) as [[]|] eqn:E; try done.
  intros [= ->]. apply Hok in E as [_ ?]. done.
Qed.

Lemma Get_reader_wf d : reader_wf (Get d).
Proof. intros h i u H. unfold Get in H. inv_ok. by apply json_wf in H0. Qed.

(** ** The UTXO set *)

(** The entries of the UTXO set. *)
Definition utxo_entry (kv : skey * svalue) : option (skey * UTXO) :=
  match kv with (KUTXO h i, VUTXO u) => Some (KUTXO h i, u) | _ => None end.
Definition utxo_entries (cs : gmap skey svalue) : list (skey * UTXO) :=
  omap utxo_entry (map_to_list cs).
Definition utxo_list (cs : gmap skey svalue) : list UTXO := (utxo_entries cs).*2.

Lemma elem_of_utxo_entries cs k u :
  (k, u) ∈ utxo_entries cs <-> exists h i, k = KUTXO h i /\ cs_utxo cs h i = Some u.
Proof.
  unfold utxo_entries. rewrite list_elem_of_omap. split.
  - intros ([k' v] & Hin & He). apply elem_of_map_to_list in Hin.
    destruct k', v; simplify_eq/=. eexists _, _. split; [done|]. unfold cs_utxo. by rewrite Hin.
  - intros (h & i & -> & H). unfold cs_utxo in H.
    destruct (cs !! KUTXO h i) as [[]|] eqn:E; simplify_eq.
    exists (KUTXO h i, VUTXO u). split; [by apply elem_of_map_to_list | done].
Qed.

Lemma utxo_entries_nodup cs : NoDup (utxo_entries cs).*1.
Proof.
  unfold utxo_entries. pose proof (NoDup_fst_map_to_list cs) as H.
  induction (map_to_list cs) as [|[k v] l IH]; [constructor|].
  csimpl in H. apply NoDup_cons in H as [Hk H]. specialize (IH H). csimpl.
  assert (Hnew : k ∉ (omap utxo_entry l : list (skey * UTXO)).*1).
  { intros ([k' u] & E & Hin)%list_elem_of_fmap. simpl in E. subst k'.
    apply list_elem_of_omap in Hin as ([k' v'] & Hin & He).
    apply Hk. apply list_elem_of_fmap. exists (k', v'). split; [|done].
    destruct k', v'; simplify_eq/=; done. }
  destruct k, v; try done. csimpl. apply NoDup_cons. split; [by apply Hnew | done].
Qed.

(** *** Listing the UTXO set *)

Lemma utxo_prefix_key k : skey_wf k ->
  has_prefix (str "utxo:") (key_bytes k) = true -> exists h i, k = KUTXO h i.
Proof.
  intros W H. apply has_prefix_spec in H as [t H]. rewrite key_bytes_split in H.
  destruct k; eauto; exfalso; refine (differ_app _ _ _ _ _ H); vm_compute; reflexivity.
Qed.

(** The names the walk visits are the keys of the UTXO entries, in some order. *)
Lemma utxo_names d cs :
  represents d cs ->
  names_with_prefix (str "utxo:") d ≡ₚ (fun e => key_bytes e.1) <$> utxo_entries cs.
Proof.
  intros R. unfold names_with_prefix. rewrite merge_sort_Permutation.
  apply NoDup_Permutation.
  - apply NoDup_ListNoDup, List.NoDup_filter, NoDup_ListNoDup, NoDup_fst_map_to_list.
  - assert (Hw : forall e, e ∈ utxo_entries cs -> skey_wf e.1).
    { intros [k u] He. apply elem_of_utxo_entries in He as (h & i & -> & Hu).
      unfold cs_utxo in Hu. destruct (cs !! KUTXO h i) eqn:E; [|done].
      by apply (rep_ok _ _ R) in E as [? _]. }
    pose proof (utxo_entries_nodup cs) as Hnd. revert Hw Hnd.
    induction (utxo_entries cs) as [|e l IH]; intros Hw Hnd; csimpl; [constructor|].
    csimpl in Hnd. apply NoDup_cons in Hnd as [Hn Hnd]. apply NoDup_cons. split.
    + intros (e' & E & He')%list_elem_of_fmap. apply Hn.
      apply key_bytes_inj in E; [|apply Hw; set_solver..]. rewrite E. by apply list_elem_of_fmap_2.
    + apply IH; [|done]. intros e' He'. apply Hw. set_solver.
  - intros name. rewrite list_elem_of_In, filter_In, <- list_elem_of_In. split.
    + intros [Hin Hp]. apply list_elem_of_fmap in Hin as ([n v] & -> & Hin). simpl in *.
      apply elem_of_map_to_list in Hin.
      destruct (rep_names _ _ R _ _ Hin) as (k & Wk & ->).
      destruct (utxo_prefix_key k Wk Hp) as (h & i & ->).
      rewrite (rep_files _ _ R _ Wk) in Hin.
      destruct (cs !! KUTXO h i) as [v'|] eqn:E; [|done].
      pose proof (rep_ok _ _ R _ _ E) as [_ Hv]. destruct v'; try done.
      apply list_elem_of_fmap. exists (KUTXO h i, u). split; [done|].
      apply elem_of_utxo_entries. exists h, i. unfold cs_utxo. by rewrite E.
    + intros ([k u] & -> & He)%list_elem_of_fmap. apply elem_of_utxo_entries in He as (h & i & -> & Hu).
      unfold cs_utxo in Hu. destruct (cs !! KUTXO h i) as [v|] eqn:E; [|done].
      pose proof (rep_ok _ _ R _ _ E) as [Wk _]. split.
      * apply list_elem_of_fmap. exists (key_bytes (KUTXO h i), value_bytes v). split; [done|].
        apply elem_of_map_to_list. by rewrite (rep_files _ _ R _ Wk), E.
      * apply has_prefix_spec. rewrite key_bytes_split. by eexists.
Qed.

Lemma walk_utxos d cs es out :
  represents d cs -> (forall e, e ∈ es -> e ∈ utxo_entries cs) ->
  walk (fun _ value out => u ← json_Unmarshal value; Ok (out ++ [u]))
    ((fun e => key_bytes e.1) <$> es) d out = Ok (out ++ es.*2).
Proof.
  intros R. revert out. induction es as [|[k u] es IH]; intros out Hes; csimpl.
  - by rewrite app_nil_r.
  - assert (He : (k, u) ∈ utxo_entries cs) by (apply Hes; set_solver).
    apply elem_of_utxo_entries in He as (h & i & -> & Hu).
    unfold cs_utxo in Hu. destruct (cs !! KUTXO h i) as [[]|] eqn:E; simplify_eq.
    pose proof (rep_ok _ _ R _ _ E) as [Wk [Hwf _]].
    rewrite (Get_represents _ _ _ R Wk), E. simpl. rewrite json_roundtrip by done. simpl.
    rewrite IH by (intros e He; apply Hes; set_solver). by rewrite <- app_assoc.
Qed.

Lemma ListUTXOs_spec d cs :
  represents d cs -> exists us, ListUTXOs d = Ok us /\ us ≡ₚ utxo_list cs.
Proof.
  intros R. pose proof (utxo_names d cs R) as Hn.
  apply Permutation_map_inv in Hn as (es & Hes & Hp).
  exists es.*2. split.
  - unfold ListUTXOs, WalkPrefix. rewrite Hes.
    apply (walk_utxos d cs es [] R). intros e He. by rewrite Hp.
  - unfold utxo_list. by rewrite Hp.
Qed.

End Represents.
