(* ===== verification/Ledger.v ===== *)
(** * Ledger: applying and disconnecting blocks on the abstract store

    The typed writes of [ApplyBlock] and [DisconnectTip], the refinement lemmas
    that the database operations perform exactly these writes, the value held by
    the UTXO set, and the inverse relation between the two operations. *)

From S2P Require Import Prelude Encoding Sha256 Params Tx Block Consensus Pebble Storage StoreSpec.

(** ** Writes and lookups *)

Lemma tops_apply_app ops ops' cs : tops_apply (ops ++ ops') cs = tops_apply ops' (tops_apply ops cs).
Proof. apply fold_left_app. Qed.

Lemma top_apply_ne cs o k : o.1 <> k -> top_apply cs o !! k = cs !! k.
Proof.
  intros H. unfold top_apply. destruct (o.2); [by rewrite lookup_insert_ne | by rewrite lookup_delete_ne].
Qed.

Lemma top_apply_eq cs o : top_apply cs o !! o.1 = o.2.
Proof. unfold top_apply. destruct (o.2); [by rewrite lookup_insert_eq | by rewrite lookup_delete_eq]. Qed.

(** A key all of whose writes agree on [r] ends up with [r]. *)
Lemma tops_lookup_same ops cs k r :
  (forall o, o ∈ ops -> o.1 = k -> o.2 = r) ->
  tops_apply ops cs !! k = if decide (k ∈ ops.*1) then r else cs !! k.
Proof.
  revert cs. induction ops as [|o ops IH]; intros cs H.
  - by rewrite decide_False by apply not_elem_of_nil.
  - change (tops_apply (o :: ops) cs) with (tops_apply ops (top_apply cs o)).
    rewrite fmap_cons, IH by (intros; apply H; set_solver).
    destruct (decide (o.1 = k)) as [<-|Hne].
    + rewrite (decide_True (P := o.1 ∈ o.1 :: ops.*1)) by set_solver.
      rewrite top_apply_eq, H by set_solver. by case_decide.
    + rewrite top_apply_ne by done.
      destruct (decide (k ∈ ops.*1)), (decide (k ∈ o.1 :: ops.*1)); set_solver.
Qed.

Lemma tops_lookup_other ops cs k : k ∉ ops.*1 -> tops_apply ops cs !! k = cs !! k.
Proof.
  intros H. rewrite (tops_lookup_same _ _ _ None); [by rewrite decide_False|].
  intros o Ho E. destruct H. rewrite <- E. by apply list_elem_of_fmap_2.
Qed.

Section Ledger.
Context {HF : HashFunction} {UJ : UTXOJson}.

(** ** The typed writes of a block *)

Definition in_skey (i : Input) : skey := KUTXO (in_PrevTxHash i) (in_OutputIdx i).

Definition t_spend (i : Input) : list top :=
  [(in_skey i, None); (KSpent (in_PrevTxHash i) (in_OutputIdx i), Some VSpent)].

Fixpoint t_outputs (height : Z) (ti : nat) (th : bytes) (i : nat) (outs : list Output) : list top :=
  match outs with
  | [] => []
  | out :: outs =>
      (KUTXO th (u32 (Z.of_nat i)), Some (VUTXO (new_utxo height ti th i out)))
        :: t_outputs height ti th (S i) outs
  end.

Definition t_tx (height : Z) (ti : nat) (t : Transaction) : list top :=
  (if IsCoinbase t then [] else tx_Inputs t ≫= t_spend) ++
  t_outputs height ti (tx_Hash t) 0 (tx_Outputs t).

Fixpoint t_all (height : Z) (ti : nat) (txs : list Transaction) : list top :=
  match txs with
  | [] => []
  | t :: txs => t_tx height ti t ++ t_all height (S ti) txs
  end.

Definition t_txs (txs : list Transaction) : list top :=
  (fun t => (KTx (tx_Hash t), Some (VTx t))) <$> txs.

(** Block data and indexes, the part of the batch that leaves the UTXO set alone. *)
Definition t_block (b : Block) (undo : list UTXO) : list top :=
  [(KUndo (blk_Hash b), Some (VUndo undo)); (KBlock (blk_Hash b), Some (VBlock b));
   (KHeight (hdr_Height (blk_Header b)), Some (VHash (blk_Hash b)))] ++
  t_txs (blk_Transactions b).

Definition t_apply (b : Block) (undo : list UTXO) : list top :=
  t_block b undo ++ t_all (hdr_Height (blk_Header b)) 0 (blk_Transactions b) ++
  [(KTip, Some (VHash (blk_Hash b)))].

Definition t_delete_outputs (t : Transaction) : list top :=
  (fun i => (KUTXO (tx_Hash t) (u32 (Z.of_nat i)), None)) <$> seq 0 (length (tx_Outputs t)).

Definition t_restore (undo : list UTXO) : list top :=
  (fun u => (KUTXO (u_TxHash u) (u_OutputIdx u), Some (VUTXO u))) <$> undo.

Definition t_disconnect (b : Block) (undo : list UTXO) : list top :=
  (blk_Transactions b ≫= t_delete_outputs) ++ t_restore undo ++
  [(KTip, if hdr_Height (blk_Header b) =? 0 then None
          else Some (VHash (hdr_PrevHash (blk_Header b))))].

(** The inputs a block spends: those of its transactions that are not coinbases. *)
Definition spent_inputs (txs : list Transaction) : list Input :=
  block_inputs (List.filter (fun t => negb (IsCoinbase t)) txs).

(** The undo log on the abstract store. *)
Definition a_undo (txs : list Transaction) (cs : gmap skey svalue) : list UTXO :=
  omap (fun i => cs_utxo cs (in_PrevTxHash i) (in_OutputIdx i)) (spent_inputs txs).

(** The abstract operations. *)
Definition a_ApplyBlock (b : Block) (cs : gmap skey svalue) : gmap skey svalue :=
  tops_apply (t_apply b (a_undo (blk_Transactions b) cs)) cs.
Definition a_Disconnect (b : Block) (undo : list UTXO) (cs : gmap skey svalue) : gmap skey svalue :=
  tops_apply (t_disconnect b undo) cs.

(** ** The batches are the typed writes *)

Lemma batch_txs_typed txs ops : batch_txs txs ops = ops ++ (op_of <$> t_txs txs).
Proof.
  unfold batch_txs. revert ops. induction txs as [|t txs IH]; intros ops; csimpl.
  - by rewrite app_nil_r.
  - rewrite IH. unfold Batch_Set. by rewrite <- app_assoc.
Qed.

Lemma batch_outputs_typed height ti th i outs ops :
  batch_outputs height ti th i outs ops = ops ++ (op_of <$> t_outputs height ti th i outs).
Proof.
  revert i ops. induction outs as [|o outs IH]; intros i ops; csimpl.
  - by rewrite app_nil_r.
  - rewrite IH. unfold Batch_Set. by rewrite <- app_assoc.
Qed.

Lemma batch_spend_typed ins ops :
  fold_left batch_spend ins ops = ops ++ (op_of <$> (ins ≫= t_spend)).
Proof.
  revert ops. induction ins as [|i ins IH]; intros ops; csimpl.
  - by rewrite app_nil_r.
  - rewrite IH. unfold batch_spend, Batch_Set, Batch_Delete. by rewrite <- !app_assoc.
Qed.

Lemma batch_all_typed height ti txs ops :
  batch_all height ti txs ops = ops ++ (op_of <$> t_all height ti txs).
Proof.
  revert ti ops. induction txs as [|t txs IH]; intros ti ops; csimpl.
  - by rewrite app_nil_r.
  - rewrite IH. unfold batch_tx, t_tx. rewrite batch_outputs_typed, !fmap_app, !app_assoc.
    do 2 f_equal. destruct (IsCoinbase t); [by rewrite app_nil_r | apply batch_spend_typed].
Qed.

Lemma apply_batch_typed b undo : apply_batch b undo = op_of <$> t_apply b undo.
Proof.
  unfold apply_batch, t_apply, t_block. rewrite batch_all_typed, batch_txs_typed.
  unfold Batch_Set. rewrite !fmap_app, <- !app_assoc. done.
Qed.

Lemma disconnect_batch_typed b undo : disconnect_batch b undo = op_of <$> t_disconnect b undo.
Proof.
  unfold disconnect_batch, t_disconnect.
  assert (H1 : forall txs ops, fold_left (fun ops t => batch_delete_outputs t ops) txs ops =
    ops ++ (op_of <$> (txs ≫= t_delete_outputs))).
  { intros txs. induction txs as [|t txs IH]; intros ops; csimpl; [by rewrite app_nil_r|].
    rewrite IH, fmap_app, app_assoc. f_equal. unfold batch_delete_outputs, t_delete_outputs.
    generalize (seq 0 (length (tx_Outputs t))) as l. intros l. revert ops.
    induction l as [|i l IHl]; intros ops; csimpl; [by rewrite app_nil_r|].
    rewrite IHl. unfold Batch_Delete. by rewrite <- app_assoc. }
  assert (H2 : forall us ops, fold_left (fun ops u =>
      Batch_Set (keyUTXO (u_TxHash u) (u_OutputIdx u)) (json_Marshal u) ops) us ops =
    ops ++ (op_of <$> t_restore us)).
  { intros us. induction us as [|u us IH]; intros ops; csimpl; [by rewrite app_nil_r|].
    rewrite IH. unfold Batch_Set. by rewrite <- app_assoc. }
  rewrite H1, H2, !fmap_app. simpl app. rewrite app_assoc.
  destruct (_ =? 0); done.
Qed.

(** ** Refinement *)

Lemma Forall_bind {A B} (P : B -> Prop) (f : A -> list B) l :
  Forall (fun a => Forall P (f a)) l -> Forall P (l ≫= f).
Proof. induction 1; csimpl; [constructor | by apply Forall_app]. Qed.

Lemma t_outputs_ok height ti th i outs :
  is_u64 height -> is_hash th -> Forall output_wf outs ->
  Forall top_ok (t_outputs height ti th i outs).
Proof.
  intros Hh Ht Ho. revert i. induction Ho as [|o outs [Ha Hs] _ IH]; intros i; simpl; constructor; [|apply IH].
  pose proof (u32_range (Z.of_nat i)). unfold top_ok, new_utxo, utxo_wf. simpl.
  unfold utxo_wf. simpl. by split_and!.
Qed.

Lemma t_tx_ok height ti t : is_u64 height -> tx_wf t -> Forall top_ok (t_tx height ti t).
Proof.
  intros Hh (_ & Hi & Ho & _). unfold t_tx. apply Forall_app. split.
  - destruct (IsCoinbase t); [constructor|]. apply Forall_bind.
    eapply Forall_impl; [exact Hi|]. intros i (? & ? & _ & _). unfold t_spend.
    apply Forall_cons; split; [|apply Forall_singleton]; done.
  - apply t_outputs_ok; [done | apply tx_Hash_hash | done].
Qed.

Lemma t_all_ok height ti txs :
  is_u64 height -> Forall tx_wf txs -> Forall top_ok (t_all height ti txs).
Proof.
  intros Hh H. revert ti. induction H as [|t txs Ht _ IH]; intros ti; simpl; [constructor|].
  apply Forall_app. split; [by apply t_tx_ok | apply IH].
Qed.

Lemma t_apply_ok b undo : block_wf b -> Forall utxo_wf undo -> Forall top_ok (t_apply b undo).
Proof.
  intros [Hh Ht] Hu. pose proof Hh as (_ & _ & _ & _ & _ & _ & Hheight).
  pose proof (blk_Hash_hash b) as HH.
  unfold t_apply, t_block. rewrite !Forall_app. split_and!.
  - repeat (apply Forall_cons; split; [by unfold top_ok; simpl; split_and!|]). constructor.
  - unfold t_txs. apply Forall_fmap. eapply Forall_impl; [exact Ht|].
    intros t ?. split; [apply tx_Hash_hash | done].
  - by apply t_all_ok.
  - by apply Forall_singleton.
Qed.

Lemma t_disconnect_ok b undo : block_wf b -> Forall utxo_wf undo -> Forall top_ok (t_disconnect b undo).
Proof.
  intros [Hh Ht] Hu. unfold t_disconnect. rewrite !Forall_app. split_and!.
  - apply Forall_bind, Forall_true. intros t. unfold t_delete_outputs.
    apply Forall_fmap, Forall_true. intros i. split; [|done]. split; [apply tx_Hash_hash | apply u32_range].
  - unfold t_restore. apply Forall_fmap. eapply Forall_impl; [exact Hu|].
    intros u Hw. split; [split; apply Hw | done].
  - apply Forall_singleton. split; [done|]. simpl. destruct (_ =? 0); simpl; [done | apply Hh].
Qed.

Lemma a_undo_wf txs cs : store_ok cs -> Forall utxo_wf (a_undo txs cs).
Proof.
  intros Hok. apply Forall_forall. intros u Hu. apply list_elem_of_omap in Hu as (i & _ & Hu).
  by apply cs_utxo_ok in Hu as [? _].
Qed.

Lemma inputs_of_spent txs i :
  Forall tx_wf txs -> i ∈ spent_inputs txs -> input_wf i.
Proof.
  intros Hwf Hi. unfold spent_inputs, block_inputs in Hi.
  apply list_elem_of_bind in Hi as (t & Hi & Ht). apply list_elem_of_In, filter_In in Ht as [Ht _].
  rewrite Forall_forall in Hwf. apply list_elem_of_In, Hwf in Ht as (_ & Hins & _).
  rewrite Forall_forall in Hins. by apply Hins.
Qed.

Lemma collect_undo_spec d cs txs :
  represents d cs -> Forall tx_wf txs -> collect_undo txs d = a_undo txs cs.
Proof.
  intros R Hwf.
  assert (H1 : forall ins undo, Forall input_wf ins ->
    fold_left (undo_input d) ins undo =
    undo ++ omap (fun i => cs_utxo cs (in_PrevTxHash i) (in_OutputIdx i)) ins).
  { intros ins. induction ins as [|i ins IH]; intros undo Hi; csimpl; [by rewrite app_nil_r|].
    apply Forall_cons in Hi as [(Hh & Hx & _) Hi]. rewrite IH by done. unfold undo_input.
    rewrite (Get_spec _ _ _ _ R Hh Hx). destruct (cs_utxo cs _ _); simpl; [by rewrite <- app_assoc | done]. }
  unfold collect_undo, a_undo, spent_inputs.
  assert (H2 : forall undo, fold_left (fun undo t =>
      if IsCoinbase t then undo else fold_left (undo_input d) (tx_Inputs t) undo) txs undo =
    undo ++ omap (fun i => cs_utxo cs (in_PrevTxHash i) (in_OutputIdx i))
      (block_inputs (List.filter (fun t => negb (IsCoinbase t)) txs))).
  { induction Hwf as [|t txs Ht Hwf IH]; intros undo; csimpl; [by rewrite app_nil_r|].
    rewrite IH. destruct (IsCoinbase t); simpl; [done|]. csimpl.
    rewrite H1 by apply Ht. unfold block_inputs; csimpl. rewrite omap_app, <- app_assoc. done. }
  apply H2.
Qed.

(** [ApplyBlock] implements the abstract operation. *)
Lemma ApplyBlock_refines d cs b :
  represents d cs -> block_wf b ->
  exists d', ApplyBlock b d = (d', Ok tt) /\ represents d' (a_ApplyBlock b cs).
Proof.
  intros R Hwf. unfold ApplyBlock. rewrite (collect_undo_spec d cs) by (done || apply Hwf).
  rewrite apply_batch_typed. apply Commit_represents; [done|].
  apply t_apply_ok; [done|]. apply a_undo_wf, R.
Qed.

(** [DisconnectTip] implements the abstract operation on a tip that can be read
    back and has an undo log. *)
Lemma DisconnectTip_refines d cs h b undo :
  represents d cs -> cs_tip cs = Some h -> cs_block cs h = Some b -> block_fits b ->
  cs_undo cs h = Some undo ->
  exists d', DisconnectTip d = (d', Ok b) /\ represents d' (a_Disconnect b undo cs).
Proof.
  intros R Ht Hb Hfit Hu. pose proof (rep_ok _ _ R) as Hok.
  pose proof (cs_tip_hash _ _ Hok Ht) as Hh. pose proof (cs_block_ok _ _ _ Hok Hb) as [Hwf _].
  destruct (Commit_represents d cs (t_disconnect b undo) R) as (d' & Hc & R').
  { apply t_disconnect_ok; [done | by eapply cs_undo_ok]. }
  exists d'. split; [|done]. unfold DisconnectTip.
  rewrite (Tip_spec _ _ R), Ht. simpl. rewrite (GetBlock_spec _ _ _ R Hh), Hb. simpl.
  rewrite DeserializeBlock_Serialize by done. simpl.
  rewrite (Undo_spec _ _ _ R Hh), Hu. simpl. by rewrite disconnect_batch_typed, Hc.
Qed.

Lemma PutTotalWork_refines d cs h w :
  represents d cs -> is_hash h ->
  exists d', PutTotalWork h w d = (d', Ok tt) /\ represents d' (<[KWork h := VWork w]> cs).
Proof. intros R Hh. by apply (Set_represents d cs (KWork h) (VWork w)). Qed.

(** ** The value held by the UTXO set *)

Definition total (cs : gmap skey svalue) : Z := Zsum (u_Amount <$> utxo_list cs).

(** What one entry contributes. *)
Definition weight (kv : skey * svalue) : Z :=
  match utxo_entry kv with Some (_, u) => u_Amount u | None => 0 end.
Definition weight_at (cs : gmap skey svalue) (k : skey) : Z :=
  match cs !! k with Some v => weight (k, v) | None => 0 end.
(** What one write adds. *)
Definition weight_top (o : top) : Z :=
  match o.2 with Some v => weight (o.1, v) | None => 0 end.

Lemma total_weights cs : total cs = map_sum weight cs.
Proof.
  unfold total, utxo_list, utxo_entries, map_sum. induction (map_to_list cs) as [|kv l IH]; [done|].
  csimpl. rewrite <- IH. unfold weight. by destruct (utxo_entry kv) as [[]|].
Qed.

Lemma total_insert cs k v :
  cs !! k = None -> total (<[k := v]> cs) = weight (k, v) + total cs.
Proof. intros H. rewrite !total_weights. by apply map_sum_insert. Qed.

Lemma total_delete cs k : total (delete k cs) = total cs - weight_at cs k.
Proof.
  unfold weight_at. destruct (cs !! k) as [v|] eqn:E.
  - rewrite !total_weights. by apply map_sum_delete.
  - rewrite delete_id by done. lia.
Qed.

Lemma weight_nonneg k v : entry_ok k v -> 0 <= weight (k, v).
Proof. destruct k, v; try done; simpl. unfold weight; simpl. intros [(_ & _ & ? & _) _]. mach. Qed.

Lemma weight_at_nonneg cs k : store_ok cs -> 0 <= weight_at cs k.
Proof.
  intros Hok. unfold weight_at. destruct (cs !! k) eqn:E; [|done].
  apply Hok in E as [_ ?]. by apply weight_nonneg.
Qed.

Lemma weight_top_nonneg o : top_ok o -> 0 <= weight_top o.
Proof. unfold weight_top. destruct o as [k [v|]]; [|done]. intros [_ ?]. by apply weight_nonneg. Qed.

(** Without the keys [S]. *)
Abbreviation without S cs := (foldr delete cs S).

Lemma without_ok S cs : store_ok cs -> store_ok (without S cs).
Proof.
  intros Hok k v Hk. destruct (decide (k ∈ S)).
  - by rewrite lookup_foldr_delete in Hk.
  - rewrite lookup_foldr_delete_not_elem_of in Hk by done. by apply Hok.
Qed.

Lemma total_without_le S cs : store_ok cs -> total (without S cs) <= total cs.
Proof.
  intros Hok. induction S as [|k S IH]; simpl; [done|]. rewrite total_delete.
  pose proof (weight_at_nonneg (without S cs) k (without_ok S cs Hok)). lia.
Qed.

Lemma total_without S cs : NoDup S -> total (without S cs) = total cs - Zsum (weight_at cs <$> S).
Proof.
  induction 1 as [|k S Hk _ IH]; csimpl; [lia|]. rewrite total_delete, IH.
  unfold weight_at at 2. rewrite lookup_foldr_delete_not_elem_of by done.
  fold (weight_at cs k). lia.
Qed.

Lemma total_without_sub D S cs :
  store_ok cs -> NoDup D -> D ⊆ S ->
  total (without S cs) <= total cs - Zsum (weight_at cs <$> D).
Proof.
  intros Hok Hd Hs. rewrite <- total_without by done.
  replace (without S cs) with (without S (without D cs)); [by apply total_without_le, without_ok|].
  apply map_eq. intros k. destruct (decide (k ∈ S)).
  - by rewrite !lookup_foldr_delete.
  - rewrite !lookup_foldr_delete_not_elem_of; [done | set_solver..].
Qed.

(** Writes leave at most what they store plus what they do not touch. *)
Lemma total_top S cs o :
  store_ok cs -> top_ok o ->
  total (without S (top_apply cs o)) <= weight_top o + total (without (o.1 :: S) cs).
Proof.
  intros Hok Ho. pose proof (weight_top_nonneg o Ho) as Hn.
  destruct o as [k [v|]]; unfold top_apply, weight_top in *; simpl in *.
  - destruct (decide (k ∈ S)).
    + rewrite foldr_delete_insert_in by done. rewrite (delete_id _ k); [lia|]. by rewrite lookup_foldr_delete.
    + rewrite foldr_delete_insert_notin by done. rewrite <- (insert_delete_eq (without S cs)).
      rewrite total_insert; [done | apply lookup_delete_eq].
  - rewrite <- delete_foldr_delete. lia.
Qed.

Lemma total_tops ops cs :
  store_ok cs -> Forall top_ok ops ->
  total (tops_apply ops cs) <= Zsum (weight_top <$> ops) + total (without (ops.*1) cs).
Proof.
  intros Hok Hops. revert cs Hok. induction Hops as [|o ops Ho Hops IH]; intros cs Hok; csimpl; [lia|].
  change (tops_apply (o :: ops) cs) with (tops_apply ops (top_apply cs o)).
  pose proof (IH _ (top_apply_ok _ _ Hok Ho)). pose proof (total_top (ops.*1) cs o Hok Ho).
  csimpl in *. lia.
Qed.

(** *** Accepted blocks issue at most the reward *)

Lemma weight_t_outputs height ti th i outs :
  Zsum (weight_top <$> t_outputs height ti th i outs) = Zsum (out_Amount <$> outs).
Proof. revert i. induction outs as [|o outs IH]; intros i; csimpl; [done|]. by rewrite IH. Qed.

Lemma weight_t_spend ins : Zsum (weight_top <$> (ins ≫= t_spend)) = 0.
Proof. induction ins as [|i ins IH]; csimpl; [done|]. by rewrite IH. Qed.

Lemma weight_t_all height ti txs :
  Zsum (weight_top <$> t_all height ti txs) = Zsum (out_Amount <$> block_outputs txs).
Proof.
  revert ti. induction txs as [|t txs IH]; intros ti; csimpl; [done|].
  unfold t_tx. rewrite !fmap_app, !Zsum_app, IH, weight_t_outputs.
  destruct (IsCoinbase t); [done|]. by rewrite weight_t_spend.
Qed.

Lemma weight_t_txs txs : Zsum (weight_top <$> t_txs txs) = 0.
Proof. induction txs as [|t txs IH]; csimpl; [done|]. rewrite IH. done. Qed.

Lemma weight_t_apply b undo :
  Zsum (weight_top <$> t_apply b undo) = Zsum (out_Amount <$> block_outputs (blk_Transactions b)).
Proof.
  unfold t_apply, t_block. rewrite !fmap_app, !Zsum_app, weight_t_all, weight_t_txs.
  unfold weight_top, weight. simpl. lia.
Qed.

(** The keys of the outpoints a block spends. *)
Definition spent_keys (txs : list Transaction) : list skey := in_skey <$> spent_inputs txs.

Lemma spent_keys_written b undo : spent_keys (blk_Transactions b) ⊆ (t_apply b undo).*1.
Proof.
  unfold t_apply. rewrite !fmap_app. generalize (hdr_Height (blk_Header b)) as height. intros height.
  cut (forall ti, spent_keys (blk_Transactions b) ⊆ (t_all height ti (blk_Transactions b)).*1).
  { intros H. specialize (H 0%nat). set_solver. }
  induction (blk_Transactions b) as [|t txs IH]; intros ti; csimpl; [done|].
  unfold spent_keys, spent_inputs, t_tx in *. csimpl. rewrite !fmap_app. specialize (IH (S ti)).
  destruct (IsCoinbase t); csimpl; [set_solver|]. rewrite fmap_app. fold (block_inputs).
  intros k. rewrite elem_of_app. intros [Hk|Hk].
  - apply elem_of_app; left. apply elem_of_app; left.
    apply list_elem_of_fmap in Hk as (i & -> & Hi). apply list_elem_of_fmap.
    exists (in_skey i, None). split; [done|]. apply list_elem_of_bind. exists i. set_solver.
  - apply elem_of_app; right. by apply IH.
Qed.

Lemma in_skey_inj i j :
  input_wf i -> input_wf j -> in_skey i = in_skey j <-> in_key i = in_key j.
Proof.
  intros (Hh & Hx & _) (Hh' & Hx' & _). unfold in_skey, in_key. split.
  - by intros [= -> ->].
  - intros E. apply OutpointKey_inj in E as [-> ->]; [done | done | done | mach | mach].
Qed.

Lemma in_skeys_nodup ins :
  Forall input_wf ins -> NoDup (in_key <$> ins) -> NoDup (in_skey <$> ins).
Proof.
  intros Hwf. induction Hwf as [|i ins Hi Hwf IH]; csimpl; [constructor|].
  rewrite !NoDup_cons. intros [Hn Hd]. split; [|by apply IH].
  intros (j & E & Hj)%list_elem_of_fmap. apply Hn. apply in_skey_inj in E; [|done|].
  - rewrite E. by apply list_elem_of_fmap_2.
  - rewrite Forall_forall in Hwf. by apply Hwf.
Qed.

Lemma spent_inputs_coinbase cb txs :
  IsCoinbase cb = true -> Forall (fun t => IsCoinbase t = false) txs ->
  spent_inputs (cb :: txs) = block_inputs txs.
Proof.
  intros Hc H. unfold spent_inputs. simpl. rewrite Hc. simpl. f_equal.
  induction H as [|t txs Ht _ IH]; simpl; [done|]. by rewrite Ht, IH.
Qed.

(** The reader of the abstract store. *)
Definition cs_reader (cs : gmap skey svalue) : UTXOReader := fun h i =>
  or_err ErrNotFound (cs_utxo cs h i).

Lemma resolved_weights cs ins us :
  Forall2 (resolves (cs_reader cs)) ins us ->
  Zsum (weight_at cs <$> (in_skey <$> ins)) = Zsum (u_Amount <$> us).
Proof.
  induction 1 as [|i u ins us H _ IH]; csimpl; [done|]. rewrite IH. f_equal.
  unfold resolves, cs_reader, cs_utxo in H. unfold weight_at, in_skey.
  destruct (cs !! KUTXO _ _) as [[]|]; try done. by injection H as ->.
Qed.

Lemma cs_reader_wf cs : store_ok cs -> reader_wf (cs_reader cs).
Proof.
  intros Hok h i u. unfold cs_reader. destruct (cs_utxo cs h i) eqn:E; [|done].
  intros [= <-]. by apply cs_utxo_ok in E as [? _].
Qed.

(** The inputs an accepted block spends. *)
Lemma accepted_spent b utxos v h cb txs us fees :
  block_accepted b utxos v h cb txs us fees ->
  spent_inputs (blk_Transactions b) = block_inputs txs.
Proof.
  intros [Hb Hc A _ _]. rewrite Hb. apply spent_inputs_coinbase; [done|].
  by eapply txs_accepted_not_coinbase.
Qed.

(** A reader whose answers on well-typed inputs are entries of the store. *)
Definition reads (utxos : UTXOReader) (cs : gmap skey svalue) : Prop :=
  reader_wf utxos /\
  forall i u, input_wf i -> resolves utxos i u -> resolves (cs_reader cs) i u.

Lemma reads_resolved utxos cs ins us :
  reads utxos cs -> Forall input_wf ins ->
  Forall2 (resolves utxos) ins us -> Forall2 (resolves (cs_reader cs)) ins us.
Proof.
  intros [_ Hr] Hwf H. induction H as [|i u ins us H _ IH]; [constructor|].
  apply Forall_cons in Hwf as [? ?]. constructor; [by apply Hr | by apply IH].
Qed.

Lemma Get_reads d cs : represents d cs -> reads (Get d) cs.
Proof.
  intros R. split; [apply Get_reader_wf|]. intros i u (Hh & Hx & _) H.
  unfold resolves in *. by rewrite (Get_spec _ _ _ _ R Hh Hx) in H.
Qed.

(** An accepted block adds at most its reward to the UTXO set. *)
Lemma total_apply_accepted b utxos cs v :
  store_ok cs -> block_wf b -> reads utxos cs ->
  ValidateBlockTransactions b utxos v = Ok tt ->
  total (a_ApplyBlock b cs) <= total cs + BlockReward (hdr_Height (blk_Header b)).
Proof.
  intros Hok Hwf Hr H.
  apply ValidateBlockTransactionsAt_Ok in H as (cb & txs & us & fees & A); [|apply Hr|done].
  unfold a_ApplyBlock. set (undo := a_undo _ cs).
  assert (Hops : Forall top_ok (t_apply b undo)) by (apply t_apply_ok; [done | by apply a_undo_wf]).
  pose proof (total_tops _ _ Hok Hops) as H1. rewrite weight_t_apply in H1.
  assert (Hins : Forall input_wf (spent_inputs (blk_Transactions b))).
  { apply Forall_forall. intros i. apply inputs_of_spent, Hwf. }
  pose proof (accepted_spent _ _ _ _ _ _ _ _ A) as Hsp. destruct A as [Hb Hc A Hf Hcl].
  pose proof (total_without_sub (spent_keys (blk_Transactions b)) (t_apply b undo).*1 cs Hok) as H2.
  unfold spent_keys in H2. rewrite Hsp in H2, Hins.
  rewrite (resolved_weights _ _ us) in H2
    by (eapply reads_resolved; [done.. | by eapply txs_accepted_resolved]).
  rewrite (txs_accepted_balance _ _ _ _ _ _ _ A) in H2.
  assert (H3 := H2 (in_skeys_nodup _ Hins (proj1 (txs_accepted_distinct _ _ _ _ _ _ _ A)))
    ltac:(rewrite <- Hsp; apply (spent_keys_written b))).
  rewrite Hb in H1. change (block_outputs (cb :: txs)) with (tx_Outputs cb ++ block_outputs txs) in H1.
  rewrite fmap_app, Zsum_app in H1. fold (cb_total cb) in H1.
  destruct Hwf as [(_ & _ & _ & _ & _ & _ & Hh) _].
  pose proof (BlockReward_range (hdr_Height (blk_Header b)) ltac:(mach)).
  pose proof (u64_le (BlockReward (hdr_Height (blk_Header b)) + fees) ltac:(mach)).
  mach.
Qed.

(** ** Disconnecting inverts applying *)

(** The keys of the outputs a block creates. *)
Definition output_keys (txs : list Transaction) : list skey := (txs ≫= t_delete_outputs).*1.

Lemma output_keys_cons t txs :
  output_keys (t :: txs) = (t_delete_outputs t).*1 ++ output_keys txs.
Proof. unfold output_keys. csimpl. apply fmap_app. Qed.

Lemma elem_of_delete_outputs t k :
  k ∈ (t_delete_outputs t).*1 <->
  exists i, (i < length (tx_Outputs t))%nat /\ k = KUTXO (tx_Hash t) (u32 (Z.of_nat i)).
Proof.
  unfold t_delete_outputs. rewrite <- list_fmap_compose, list_elem_of_fmap. split.
  - intros (i & -> & Hi). apply elem_of_seq in Hi. exists i. split; [lia | done].
  - intros (i & Hi & ->). exists i. split; [done|]. apply elem_of_seq. lia.
Qed.

Lemma t_outputs_keys height ti th i outs o :
  o ∈ t_outputs height ti th i outs ->
  exists j, (i <= j < i + length outs)%nat /\ o.1 = KUTXO th (u32 (Z.of_nat j)).
Proof.
  revert i. induction outs as [|x outs IH]; intros i; simpl; [by intros ?%not_elem_of_nil|].
  intros [->|H]%elem_of_cons; [exists i; simpl; split; [lia | done]|].
  apply IH in H as (j & ? & ?). exists j. split; [lia | done].
Qed.

(** The writes of a block to a UTXO key spend an input or create an output. *)
Lemma t_all_utxo height ti txs o :
  o ∈ t_all height ti txs -> (exists h i, o.1 = KUTXO h i) ->
  o.1 ∈ output_keys txs \/ (o.2 = None /\ o.1 ∈ spent_keys txs).
Proof.
  revert ti. induction txs as [|t txs IH]; intros ti H K; csimpl in H; [by apply not_elem_of_nil in H|].
  rewrite output_keys_cons. unfold spent_keys, spent_inputs in *. simpl.
  rewrite !elem_of_app in *. destruct H as [H|H].
  - unfold t_tx in H. apply elem_of_app in H as [H|H].
    + destruct (IsCoinbase t) eqn:Hc; [by apply not_elem_of_nil in H|]. simpl.
      apply list_elem_of_bind in H as (i & H & Hi). right.
      unfold t_spend in H. rewrite !elem_of_cons in H.
      destruct H as [->|[->|H]]; [|by destruct K as (? & ? & ?)|by apply not_elem_of_nil in H].
      split; [done|]. csimpl. rewrite fmap_app. apply elem_of_app. left. by apply list_elem_of_fmap_2.
    + apply t_outputs_keys in H as (j & ? & ->). left; left. apply elem_of_delete_outputs. exists j.
      split; [lia | done].
  - destruct (IH _ H K) as [?|[? ?]]; [auto|]. right. split; [done|].
    destruct (IsCoinbase t); simpl; [done|]. csimpl. rewrite fmap_app. apply elem_of_app. by right.
Qed.

Lemma t_apply_utxo b undo o :
  o ∈ t_apply b undo -> (exists h i, o.1 = KUTXO h i) ->
  o.1 ∈ output_keys (blk_Transactions b) \/ (o.2 = None /\ o.1 ∈ spent_keys (blk_Transactions b)).
Proof.
  intros H K. unfold t_apply in H. rewrite !elem_of_app in H. destruct H as [H|[H|H]].
  - exfalso. destruct K as (h & i & K). unfold t_block, t_txs in H.
    rewrite elem_of_app, !elem_of_cons in H.
    destruct H as [[->|[->|[->|H]]]|H]; try done; [by apply not_elem_of_nil in H|].
    by apply list_elem_of_fmap in H as (? & -> & _).
  - by eapply t_all_utxo.
  - apply list_elem_of_singleton in H as ->. by destruct K as (? & ? & ?).
Qed.

(** The restored entries are the ones the block spent. *)
Lemma t_restore_entries txs cs o :
  store_ok cs -> o ∈ t_restore (a_undo txs cs) -> o.1 ∈ spent_keys txs /\ o.2 = cs !! o.1.
Proof.
  intros Hok H. unfold t_restore, a_undo in H. apply list_elem_of_fmap in H as (u & -> & H).
  apply list_elem_of_omap in H as (i & Hi & Hu).
  pose proof (cs_utxo_ok _ _ _ _ Hok Hu) as (_ & -> & ->). split.
  - by apply (list_elem_of_fmap_2 in_skey) in Hi.
  - simpl. unfold cs_utxo in Hu. destruct (cs !! _) as [[]|]; try done. by injection Hu as ->.
Qed.

Lemma t_restore_complete txs cs k :
  store_ok cs -> k ∈ spent_keys txs -> k ∉ (t_restore (a_undo txs cs)).*1 -> cs !! k = None.
Proof.
  intros Hok (i & -> & Hi)%list_elem_of_fmap Hn. unfold in_skey.
  destruct (cs !! KUTXO _ _) as [v|] eqn:E; [|done]. exfalso. apply Hn.
  pose proof (Hok _ _ E) as [_ Hv]. destruct v as [u| | | | | |]; try done. destruct Hv as (_ & Eh & Ei).
  apply list_elem_of_fmap. exists (KUTXO (u_TxHash u) (u_OutputIdx u), Some (VUTXO u)).
  split; [simpl; by rewrite Eh, Ei|]. unfold t_restore, a_undo. apply list_elem_of_fmap.
  exists u. split; [done|]. apply list_elem_of_omap. exists i. split; [done|].
  unfold cs_utxo. by rewrite E.
Qed.

Lemma disconnect_apply_utxo b cs h i :
  store_ok cs -> (forall k, k ∈ output_keys (blk_Transactions b) -> cs !! k = None) ->
  a_Disconnect b (a_undo (blk_Transactions b) cs) (a_ApplyBlock b cs) !! KUTXO h i =
  cs !! KUTXO h i.
Proof.
  intros Hok Hfresh. set (txs := blk_Transactions b) in *. set (k := KUTXO h i).
  unfold a_Disconnect, t_disconnect. rewrite !tops_apply_app. fold txs.
  rewrite (tops_lookup_other [_]) by (csimpl; by intros [? | ?%not_elem_of_nil]%elem_of_cons).
  rewrite (tops_lookup_same (t_restore _) _ k (cs !! k))
    by (intros o Ho <-; by apply t_restore_entries in Ho as [_ ?]).
  case_decide as Hr; [done|].
  rewrite (tops_lookup_same _ _ k None).
  2: { intros o Ho _. apply list_elem_of_bind in Ho as (t & Ho & _).
       unfold t_delete_outputs in Ho. by apply list_elem_of_fmap in Ho as (? & -> & _). }
  fold (output_keys txs). case_decide as Hd; [by rewrite Hfresh|].
  unfold a_ApplyBlock. fold txs. rewrite (tops_lookup_same _ _ k None).
  2: { intros o Ho E. destruct (t_apply_utxo b _ o Ho) as [K|[? _]]; [by rewrite E; eexists _, _ | | done].
       by rewrite E in K. }
  case_decide as Ha; [|done]. symmetry. apply (t_restore_complete txs); [done | | done].
  apply list_elem_of_fmap in Ha as (o & E & Ho).
  destruct (t_apply_utxo b _ o Ho) as [K|[_ K]]; [by rewrite <- E; eexists _, _ | |].
  - by rewrite <- E in K.
  - by rewrite <- E in K.
Qed.

(** The outputs of [b] are new to the store. *)
Definition fresh_outputs (b : Block) (d : DB) : Prop :=
  forall t i, t ∈ blk_Transactions b -> (i < length (tx_Outputs t))%nat ->
    Get d (tx_Hash t) (u32 (Z.of_nat i)) = Err ErrNotFound.

Lemma fresh_outputs_spec b d cs :
  represents d cs -> fresh_outputs b d ->
  forall k, k ∈ output_keys (blk_Transactions b) -> cs !! k = None.
Proof.
  intros R Hfresh k Hk. unfold output_keys in Hk. apply list_elem_of_fmap in Hk as (o & -> & Ho).
  apply list_elem_of_bind in Ho as (t & Ho & Ht). apply (list_elem_of_fmap_2 fst) in Ho.
  apply elem_of_delete_outputs in Ho as (j & Hj & ->). specialize (Hfresh t j Ht Hj).
  rewrite (Get_spec _ _ _ _ R (tx_Hash_hash t) (u32_range _)) in Hfresh. unfold cs_utxo in Hfresh.
  destruct (cs !! KUTXO _ _) as [v|] eqn:E; [|done]. exfalso.
  pose proof (rep_ok _ _ R _ _ E) as [_ Hv]. by destruct v.
Qed.

(** ** The rest of the store after a block *)

Lemma t_all_keys height ti txs o :
  o ∈ t_all height ti txs -> exists h i, o.1 = KUTXO h i \/ o.1 = KSpent h i.
Proof.
  revert ti. induction txs as [|t txs IH]; intros ti H; csimpl in H; [by apply not_elem_of_nil in H|].
  apply elem_of_app in H as [H|H]; [|by eapply IH]. unfold t_tx in H.
  apply elem_of_app in H as [H|H].
  - destruct (IsCoinbase t); [by apply not_elem_of_nil in H|].
    apply list_elem_of_bind in H as (i & H & _). unfold t_spend in H. rewrite !elem_of_cons in H.
    destruct H as [->|[->|H]]; [by eauto..|by apply not_elem_of_nil in H].
  - apply t_outputs_keys in H as (j & _ & ->). eauto.
Qed.

(** Keys of the indexes are written only by [t_block] and the tip. *)
Lemma apply_lookup_block b undo cs k :
  (forall h i, k <> KUTXO h i /\ k <> KSpent h i) -> k <> KTip ->
  tops_apply (t_apply b undo) cs !! k = tops_apply (t_block b undo) cs !! k.
Proof.
  intros Hk Ht. unfold t_apply. rewrite !tops_apply_app.
  rewrite (tops_lookup_other [_]) by (csimpl; by intros [? | ?%not_elem_of_nil]%elem_of_cons).
  apply tops_lookup_other. intros (o & E & Ho)%list_elem_of_fmap.
  apply t_all_keys in Ho as (h & i & [Ho|Ho]); destruct (Hk h i); congruence.
Qed.

Lemma t_block_lookup b undo cs k :
  (forall h, k <> KTx h) ->
  tops_apply (t_block b undo) cs !! k =
  if decide (k = KUndo (blk_Hash b)) then Some (VUndo undo)
  else if decide (k = KBlock (blk_Hash b)) then Some (VBlock b)
  else if decide (k = KHeight (hdr_Height (blk_Header b))) then Some (VHash (blk_Hash b))
  else cs !! k.
Proof.
  intros Hk. unfold t_block. rewrite tops_apply_app, tops_lookup_other.
  2: { unfold t_txs. intros (o & E & Ho)%list_elem_of_fmap.
       apply list_elem_of_fmap in Ho as (t & -> & _). by destruct (Hk (tx_Hash t)). }
  unfold tops_apply, top_apply. simpl.
  repeat case_decide; subst; simplify_map_eq; done.
Qed.

Lemma apply_tip b cs : cs_tip (a_ApplyBlock b cs) = Some (blk_Hash b).
Proof.
  unfold cs_tip, a_ApplyBlock, t_apply. rewrite !tops_apply_app. unfold tops_apply at 1. simpl.
  unfold top_apply. simpl. by rewrite lookup_insert_eq.
Qed.

Ltac solve_apply_lookup :=
  unfold a_ApplyBlock; rewrite apply_lookup_block by done; rewrite t_block_lookup by done;
  repeat case_decide; simplify_eq; done.

Lemma apply_block b cs h :
  cs_block (a_ApplyBlock b cs) h = if decide (h = blk_Hash b) then Some b else cs_block cs h.
Proof. unfold cs_block. solve_apply_lookup. Qed.

Lemma apply_undo b cs h :
  cs_undo (a_ApplyBlock b cs) h =
  if decide (h = blk_Hash b) then Some (a_undo (blk_Transactions b) cs) else cs_undo cs h.
Proof. unfold cs_undo. solve_apply_lookup. Qed.

Lemma apply_index b cs n :
  cs_index (a_ApplyBlock b cs) n =
  if decide (n = hdr_Height (blk_Header b)) then Some (blk_Hash b) else cs_index cs n.
Proof. unfold cs_index. solve_apply_lookup. Qed.

Lemma apply_work b cs h : cs_work (a_ApplyBlock b cs) h = cs_work cs h.
Proof. unfold cs_work. solve_apply_lookup. Qed.

Lemma disconnect_tip b undo cs :
  cs_tip (a_Disconnect b undo cs) =
  if hdr_Height (blk_Header b) =? 0 then None else Some (hdr_PrevHash (blk_Header b)).
Proof.
  unfold cs_tip, a_Disconnect, t_disconnect. rewrite !tops_apply_app. unfold tops_apply at 1. simpl.
  unfold top_apply. simpl. destruct (_ =? 0); [by rewrite lookup_delete_eq | by rewrite lookup_insert_eq].
Qed.

(** Disconnecting touches only the UTXO set and the tip. *)
Lemma disconnect_other b undo cs k :
  (forall h i, k <> KUTXO h i) -> k <> KTip -> a_Disconnect b undo cs !! k = cs !! k.
Proof.
  intros Hk Ht. apply tops_lookup_other. unfold t_disconnect.
  rewrite !fmap_app, !elem_of_app. intros [H|[H|H]].
  - apply list_elem_of_fmap in H as (o & E & H). apply list_elem_of_bind in H as (t & H & _).
    unfold t_delete_outputs in H. apply list_elem_of_fmap in H as (i & -> & _). by destruct (Hk _ _ E).
  - apply list_elem_of_fmap in H as (o & E & H). unfold t_restore in H.
    apply list_elem_of_fmap in H as (u & -> & _). by destruct (Hk _ _ E).
  - by apply list_elem_of_singleton in H.
Qed.

(** ** Interrupted writes *)

(** The same files under a given sequence of outcomes. *)
Definition with_faults (d : DB) (os : list os_outcome) : DB :=
  mkDB (db_files d) (db_unreadable d) os.

(** A commit can be stopped before any of its writes. *)
Lemma Commit_stopped pre k v post d :
  exists os d', Commit (pre ++ mkOp false k v :: post) (with_faults d os) = (d', Err ErrOS) /\
    db_files d' = ops_files pre (db_files d) /\ db_unreadable d' = db_unreadable d.
Proof.
  revert d. induction pre as [|o pre IH]; intros d; simpl.
  - by exists [OsFail None], (with_faults d []).
  - destruct (IH (mkDB (op_files o (db_files d)) (db_unreadable d) [])) as (os & d' & HC & Hf & Hu).
    destruct (op_del o) eqn:Hdel; [destruct (db_files d !! op_key o) eqn:E|].
    1: exists (OsOk :: os), d'. 2: exists os, d'. 3: exists (OsOk :: os), d'.
    all: split; [|by rewrite Hu].
    all: unfold Delete, Set_, with_faults, op_files in *; simpl in *; rewrite Hdel in HC; simpl in HC.
    + by rewrite E.
    + rewrite E. by rewrite delete_id in HC.
    + done.
Qed.

Lemma op_files_other o m k : op_key o <> k -> op_files o m !! k = m !! k.
Proof. intros H. unfold op_files. destruct (op_del o); by simplify_map_eq. Qed.

Lemma ops_files_other ops m k : k ∉ op_key <$> ops -> ops_files ops m !! k = m !! k.
Proof.
  revert m. induction ops as [|o ops IH]; intros m; csimpl; [done|].
  rewrite not_elem_of_cons. intros [? ?]. unfold ops_files. simpl.
  rewrite IH by done. by apply op_files_other.
Qed.

(** All writes of a block except the last leave the tip alone. *)
Definition apply_ops (b : Block) (undo : list UTXO) : list top :=
  t_block b undo ++ t_all (hdr_Height (blk_Header b)) 0 (blk_Transactions b).

Lemma apply_batch_split b undo :
  apply_batch b undo = (op_of <$> apply_ops b undo) ++ [mkOp false keyTip (blk_Hash b)].
Proof.
  rewrite apply_batch_typed. unfold t_apply, apply_ops. rewrite app_assoc, fmap_app. done.
Qed.

Lemma op_of_key o : op_key (op_of o) = key_bytes o.1.
Proof. unfold op_of. by destruct (o.2). Qed.

Lemma apply_ops_tip b undo : keyTip ∉ op_key <$> (op_of <$> apply_ops b undo).
Proof.
  intros (o & E & Ho)%list_elem_of_fmap. apply list_elem_of_fmap in Ho as (t & -> & Ht).
  rewrite op_of_key in E. change keyTip with (key_prefix KTip ++ []) in E.
  rewrite key_bytes_split in E.
  assert (Hk : differ (key_prefix KTip) (key_prefix t.1) = true); [|by apply differ_app in E].
  unfold apply_ops, t_block in Ht. rewrite !elem_of_app, !elem_of_cons in Ht.
  destruct Ht as [[[->|[->|[->|H]]]|H]|H]; try (vm_compute; reflexivity).
  - by apply not_elem_of_nil in H.
  - unfold t_txs in H. apply list_elem_of_fmap in H as (? & -> & _). by vm_compute.
  - apply t_all_keys in H as (h & i & [-> | ->]); by vm_compute.
Qed.

(** ** Properties *)

(** C9: Applying a block that passed transaction validation succeeds on a healthy disk
    and raises the sum of all unspent outputs by at most the block reward of its height.
    *)
Theorem apply_block_supply d cs b v :
  represents d cs -> block_wf b -> ValidateBlockTransactions b (Get d) v = Ok tt ->
  exists d' us us',
    ApplyBlock b d = (d', Ok tt) /\ represents d' (a_ApplyBlock b cs) /\
    ListUTXOs d = Ok us /\ ListUTXOs d' = Ok us' /\
    Zsum (u_Amount <$> us') <=
      Zsum (u_Amount <$> us) + BlockReward (hdr_Height (blk_Header b)).
Proof.
  intros R Hwf Hv. destruct (ApplyBlock_refines d cs b R Hwf) as (d' & Ha & R').
  destruct (ListUTXOs_spec _ _ R) as (us & Hl & Hp), (ListUTXOs_spec _ _ R') as (us' & Hl' & Hp').
  exists d', us, us'. split_and!; [done..|]. rewrite Hp, Hp'.
  eapply total_apply_accepted; [apply R | done | by apply Get_reads | done].
Qed.

(** After a block is applied on a healthy disk the tip, the height and the height index
    name it and it reads back unchanged, while every other block, height entry and work
    entry reads as before. *)
Theorem apply_block_reads_back d cs b :
  represents d cs -> block_wf b -> block_fits b ->
  exists d', ApplyBlock b d = (d', Ok tt) /\ Tip d' = Ok (blk_Hash b) /\
    GetBlock (blk_Hash b) d' = Ok b /\ Height d' = Ok (hdr_Height (blk_Header b)) /\
    (forall n, is_u64 n -> BlockHashByHeight n d' =
       if decide (n = hdr_Height (blk_Header b)) then Ok (blk_Hash b) else BlockHashByHeight n d) /\
    (forall h, is_hash h -> h <> blk_Hash b -> GetBlock h d' = GetBlock h d) /\
    (forall h, is_hash h -> TotalWork h d' = TotalWork h d).
Proof.
  intros R Hwf Hfit. destruct (ApplyBlock_refines d cs b R Hwf) as (d' & Ha & R').
  pose proof (blk_Hash_hash b) as HH. exists d'. split; [done|].
  assert (Ht : Tip d' = Ok (blk_Hash b)) by (by rewrite (Tip_spec _ _ R'), apply_tip).
  assert (Hg : GetBlock (blk_Hash b) d' = Ok b).
  { rewrite (GetBlock_spec _ _ _ R' HH), apply_block, decide_True by done. simpl.
    by apply DeserializeBlock_Serialize. }
  split_and!; [done | done | | | |].
  - unfold Height. rewrite Ht. simpl. by rewrite Hg.
  - intros n Hn. rewrite (BlockHashByHeight_spec _ _ _ R' Hn), apply_index.
    case_decide; [done|]. by rewrite (BlockHashByHeight_spec _ _ _ R Hn).
  - intros h Hh Hne. rewrite (GetBlock_spec _ _ _ R' Hh), apply_block, decide_False by done.
    by rewrite (GetBlock_spec _ _ _ R Hh).
  - intros h Hh. by rewrite (TotalWork_spec _ _ _ R' Hh), apply_work, (TotalWork_spec _ _ _ R Hh).
Qed.

(** C8: On a healthy store, disconnecting the block that was just applied succeeds,
    returns that block, moves the tip back to its parent and gives every unspent output
    its old value, provided the block is within the limits of the parser, is not of
    height 0 and creates only new outputs. *)
Theorem disconnect_inverts_apply d cs b :
  represents d cs -> block_wf b -> block_fits b -> hdr_Height (blk_Header b) <> 0 ->
  fresh_outputs b d ->
  exists d1 d2,
    ApplyBlock b d = (d1, Ok tt) /\ DisconnectTip d1 = (d2, Ok b) /\
    Tip d2 = Ok (hdr_PrevHash (blk_Header b)) /\
    (forall h i, is_hash h -> is_u32 i -> Get d2 h i = Get d h i).
Proof.
  intros R Hwf Hfit Hh Hfresh. pose proof (blk_Hash_hash b) as HH.
  destruct (ApplyBlock_refines d cs b R Hwf) as (d1 & Ha & R1).
  destruct (DisconnectTip_refines d1 (a_ApplyBlock b cs) (blk_Hash b) b
    (a_undo (blk_Transactions b) cs) R1) as (d2 & Hd & R2); [| |done| |].
  { apply apply_tip. }
  { by rewrite apply_block, decide_True. }
  { by rewrite apply_undo, decide_True. }
  exists d1, d2. split_and!; [done | done | |].
  - by rewrite (Tip_spec _ _ R2), disconnect_tip, (proj2 (Z.eqb_neq _ _)).
  - intros h i Hhash Hi. rewrite (Get_spec _ _ _ _ R2 Hhash Hi), (Get_spec _ _ _ _ R Hhash Hi).
    unfold cs_utxo. rewrite disconnect_apply_utxo; [done | apply R | by eapply fresh_outputs_spec].
Qed.

(** C36: When ApplyBlock fails the error is that of the disk, and the files show exactly
    a prefix of the batch and possibly a torn write; unless the failing write is the
    last one the tip is the old one. *)
Theorem failed_apply_keeps_tip b d d' e :
  ApplyBlock b d = (d', Err e) ->
  e = ErrOS /\
  exists pre o post,
    apply_batch b (collect_undo (blk_Transactions b) d) = pre ++ o :: post /\
    op_torn o (ops_files pre (db_files d)) (db_files d') /\
    (post <> [] -> db_files d' !! keyTip = db_files d !! keyTip).
Proof.
  intros H. apply Commit_prefix in H as [[? _]|[[= ->] (pre & o & post & Hb & Ht)]]; [done|].
  split; [done|]. exists pre, o, post. split_and!; [done | done|]. intros Hpost.
  destruct (exists_last Hpost) as (mid & last & ->).
  set (undo := collect_undo _ d) in Hb. pose proof (apply_ops_tip b undo) as Hn.
  rewrite apply_batch_split, app_comm_cons, app_assoc in Hb. apply app_inj_tail in Hb as [Hb _].
  rewrite Hb, fmap_app, fmap_cons, elem_of_app, elem_of_cons in Hn.
  assert (Hpre : ops_files pre (db_files d) !! keyTip = db_files d !! keyTip)
    by (apply ops_files_other; tauto).
  destruct Ht as [->|(_ & torn & ->)]; [done|]. rewrite lookup_insert_ne by (intros E; apply Hn; auto).
  done.
Qed.

(** C37: For every block that spends an existing output there is a disk failure during
    ApplyBlock after which the tip is still the old one but the spent output is gone:
    the batch is not atomic. *)
Theorem interrupted_apply_loses_utxo d cs b i u :
  represents d cs -> block_wf b -> i ∈ spent_inputs (blk_Transactions b) ->
  resolves (Get d) i u -> in_skey i ∉ output_keys (blk_Transactions b) ->
  exists os d', ApplyBlock b (with_faults d os) = (d', Err ErrOS) /\
    Tip d' = Tip d /\ Get d' (in_PrevTxHash i) (in_OutputIdx i) = Err ErrNotFound.
Proof.
  intros R Hwf Hi Hu Ho. set (undo := collect_undo (blk_Transactions b) d).
  destruct (Commit_stopped (op_of <$> apply_ops b undo) keyTip (blk_Hash b) [] d)
    as (os & d' & Hc & Hf & Hun).
  assert (Hcu : collect_undo (blk_Transactions b) (with_faults d os) = undo) by done.
  exists os, d'. split_and!.
  - unfold ApplyBlock. by rewrite Hcu, apply_batch_split.
  - unfold Tip, Get_. rewrite Hf, Hun, ops_files_other by apply apply_ops_tip. done.
  - unfold Get, Get_. rewrite Hf. change (keyUTXO (in_PrevTxHash i) (in_OutputIdx i)) with (key_bytes (in_skey i)).
    assert (Hok : Forall top_ok (apply_ops b undo)).
    { assert (Hwu : Forall utxo_wf undo).
      { unfold undo. rewrite (collect_undo_spec d cs); [apply a_undo_wf, R | done | apply Hwf]. }
      pose proof (t_apply_ok b undo Hwf Hwu) as H. unfold t_apply in H.
      rewrite app_assoc, Forall_app in H. apply H. }
    assert (Hw : skey_wf (in_skey i)).
    { apply inputs_of_spent in Hi as (? & ? & _); [done | apply Hwf]. }
    destruct (ops_files_represents (apply_ops b undo) (db_files d) cs Hok) as [Hrep _];
      [apply R | apply R |].
    rewrite Hrep by done. rewrite (tops_lookup_same _ _ _ None).
    + rewrite decide_True; [done|]. unfold apply_ops.
      pose proof (spent_keys_written b undo (in_skey i)) as Hs.
      unfold t_apply in Hs. rewrite app_assoc, fmap_app, elem_of_app in Hs.
      destruct Hs as [Hs|Hs]; [by apply list_elem_of_fmap_2 | done|].
      by apply list_elem_of_singleton in Hs.
    + intros o Hin E. destruct (t_apply_utxo b undo o) as [K|[K _]]; [| |by rewrite E in K|done].
      * unfold t_apply. rewrite app_assoc. apply elem_of_app. by left.
      * rewrite E. by eexists _, _.
Qed.

End Ledger.
