(* ===== verification/Mempool.v ===== *)
(** * Mempool: the pool of unconfirmed transactions

    Models [mempool/mempool.go].  The pool's [utxos] field is the chain
    database, which changes under it: the reader is an argument of [Add].  The
    mutex makes every method one atomic step, so each is a function on the
    state.  Go visits a map in an unspecified order: [MapOrder] gives the order
    of each visit, and the theorems hold for every order. *)

From S2P Require Import Prelude Encoding Sha256 Params Tx Block Consensus.

Record Entry := mkEntry {
  e_Tx : Transaction;
  e_Fee : Z;
  e_Size : Z;
  e_Added : Z;
}.

Record Mempool := mkMempool {
  mp_txs : gmap bytes Entry;
  mp_spends : gmap bytes bytes;
  mp_maxBytes : Z;
  mp_bytes : Z;
  mp_verifier : SignatureVerifier;
}.

(** The order of the [n]-th visit of a map. *)
Definition MapOrder : Type := nat -> gmap bytes Entry -> list (bytes * Entry).
Definition order_ok (range : MapOrder) : Prop := forall n m, range n m ≡ₚ map_to_list m.

Definition New (maxBytes : Z) (verifier : SignatureVerifier) : Mempool :=
  mkMempool ∅ ∅ maxBytes 0 verifier.

(** [for _, in := range e.Tx.Inputs { delete(m.spends, OutpointKey(...)) }] *)
Definition delete_spends (ins : list Input) (spends : gmap bytes bytes) : gmap bytes bytes :=
  fold_left (fun s i => delete (in_key i) s) ins spends.

(** [for _, in := range t.Inputs { m.spends[OutpointKey(...)] = h }] *)
Definition insert_spends (h : bytes) (ins : list Input) (spends : gmap bytes bytes)
    : gmap bytes bytes :=
  fold_left (fun s i => <[in_key i := h]> s) ins spends.

(** The three statements that take an entry out of the pool. *)
Definition drop_entry (h : bytes) (e : Entry) (m : Mempool) : Mempool :=
  mkMempool (delete h (mp_txs m)) (delete_spends (tx_Inputs (e_Tx e)) (mp_spends m))
    (mp_maxBytes m) (i64 (mp_bytes m - e_Size e)) (mp_verifier m).

(** [e.Fee*uint64(low.Size) < low.Fee*uint64(e.Size)] *)
Definition lower_rate (e low : Entry) : bool :=
  u64 (e_Fee e * u64 (e_Size low)) <? u64 (e_Fee low * u64 (e_Size e)).

(** The loop of [evictLowest]; [None] is [first]. *)
Fixpoint find_low (entries : list (bytes * Entry)) (low : option (bytes * Entry))
    : option (bytes * Entry) :=
  match entries with
  | [] => low
  | (h, e) :: entries =>
      find_low entries
        (match low with
         | None => Some (h, e)
         | Some (h', e') => if lower_rate e e' then Some (h, e) else Some (h', e')
         end)
  end.

(** [evictLowest]: [None] when the pool is empty. *)
Definition evictLowest (order : list (bytes * Entry)) (m : Mempool) : option Mempool :=
  match find_low order None with
  | None => None
  | Some (h, e) => Some (drop_entry h e m)
  end.

(** [for m.bytes+size > m.maxBytes { if !m.evictLowest() { break } }].  Every
    round but the last takes an entry out, so the number of entries plus one is
    enough fuel ([evict_loop_exit]). *)
Fixpoint evict_loop (fuel : nat) (range : MapOrder) (sz : Z) (m : Mempool) : Mempool :=
  match fuel with
  | O => m
  | S fuel =>
      if mp_maxBytes m <? i64 (mp_bytes m + sz) then
        match evictLowest (range fuel (mp_txs m)) m with
        | None => m
        | Some m => evict_loop fuel range sz m
        end
      else m
  end.

Section Mempool.
Context {HF : HashFunction}.

Definition Add (utxos : UTXOReader) (now : Z) (range : MapOrder) (t : Transaction) (m : Mempool)
    : Mempool * result unit :=
  match ValidateTransaction t utxos (mp_verifier m) (dom (mp_spends m)) with
  | Err e => (m, Err e)
  | Ok (fee, _) =>
      let h := tx_Hash t in
      let n := len (SerializeTransaction t) in
      let m := evict_loop (S (size (mp_txs m))) range n m in
      (mkMempool (<[h := mkEntry t fee n now]> (mp_txs m))
         (insert_spends h (tx_Inputs t) (mp_spends m))
         (mp_maxBytes m) (i64 (mp_bytes m + n)) (mp_verifier m), Ok tt)
  end.

Definition Remove (hash : bytes) (m : Mempool) : Mempool :=
  match mp_txs m !! hash with
  | None => m
  | Some e => drop_entry hash e m
  end.

Definition RemoveMinedBlock (b : Block) (m : Mempool) : Mempool :=
  fold_left (fun m t =>
    if IsCoinbase t then m
    else
      let h := tx_Hash t in
      match mp_txs m !! h with
      | Some e => drop_entry h e m
      | None => m
      end) (blk_Transactions b) m.

Definition Size (m : Mempool) : Z := Z.of_nat (size (mp_txs m)).

End Mempool.

(** *** Ordering by fee rate *)

(** [sort.Slice] as the insertion sort it runs on short slices: each element
    moves left past the elements it is less than.  On longer slices the library
    may order elements of equal rank differently. *)
Fixpoint slide {A} (less : A -> A -> bool) (x : A) (sorted_rev : list A) : list A :=
  match sorted_rev with
  | [] => [x]
  | y :: r => if less x y then y :: slide less x r else x :: y :: r
  end.
Definition sort_Slice {A} (less : A -> A -> bool) (l : list A) : list A :=
  rev (fold_left (fun acc x => slide less x acc) l []).

(** [out[i].Fee*uint64(out[j].Size) > out[j].Fee*uint64(out[i].Size)] *)
Definition higher_rate (a b : Entry) : bool :=
  u64 (e_Fee b * u64 (e_Size a)) <? u64 (e_Fee a * u64 (e_Size b)).

Definition EntriesByFeeRate (range : MapOrder) (m : Mempool) : list Entry :=
  sort_Slice higher_rate (range 0%nat (mp_txs m)).*2.

Definition Snapshot (range : MapOrder) (m : Mempool) : list Transaction :=
  e_Tx <$> EntriesByFeeRate range m.

(** ** The spends index *)

Lemma delete_spends_lookup ins s k :
  delete_spends ins s !! k = if decide (k ∈ in_key <$> ins) then None else s !! k.
Proof.
  unfold delete_spends. revert s. induction ins as [|i ins IH]; intros s; csimpl; [done|].
  rewrite IH. destruct (decide (k = in_key i)) as [->|].
  - rewrite lookup_delete_eq. by repeat case_decide; set_solver.
  - rewrite lookup_delete_ne by done. repeat case_decide; set_solver.
Qed.

Lemma insert_spends_lookup h ins s k :
  insert_spends h ins s !! k = if decide (k ∈ in_key <$> ins) then Some h else s !! k.
Proof.
  unfold insert_spends. revert s. induction ins as [|i ins IH]; intros s; csimpl; [done|].
  rewrite IH. destruct (decide (k = in_key i)) as [->|].
  - rewrite lookup_insert_eq. by repeat case_decide; set_solver.
  - rewrite lookup_insert_ne by done. repeat case_decide; set_solver.
Qed.

(** ** The invariant *)

Section Invariant.
Context {HF : HashFunction}.

Definition pool_bytes (txs : gmap bytes Entry) : Z := map_sum (fun he => e_Size he.2) txs.

(** The index and the byte count are those of the entries; the entries are
    filed under their hashes. *)
Record mempool_ok (m : Mempool) : Prop := {
  mo_entry : forall h e, mp_txs m !! h = Some e ->
    tx_wf (e_Tx e) /\ tx_fits (e_Tx e) /\ tx_Hash (e_Tx e) = h /\ tx_Inputs (e_Tx e) <> [] /\
    e_Size e = len (SerializeTransaction (e_Tx e)) /\ IsCoinbase (e_Tx e) = false;
  mo_spends : forall k h, mp_spends m !! k = Some h <->
    exists e, mp_txs m !! h = Some e /\ k ∈ in_key <$> tx_Inputs (e_Tx e);
  mo_bytes : mp_bytes m = pool_bytes (mp_txs m);
  mo_small : mp_bytes m < 2 ^ 63;
}.

Lemma New_ok maxBytes v : mempool_ok (New maxBytes v).
Proof.
  split; simpl; [by intros h e ?%lookup_empty_Some| | |lia].
  - intros k h. rewrite lookup_empty. split; [done|]. by intros (e & ?%lookup_empty_Some & _).
  - unfold pool_bytes. by rewrite map_sum_empty.
Qed.

Lemma entry_size m h e : mempool_ok m -> mp_txs m !! h = Some e -> 0 < e_Size e.
Proof.
  intros Hok He. apply (mo_entry _ Hok) in He as (_ & _ & _ & _ & -> & _).
  pose proof (SerializeTransaction_length (e_Tx e)). lia.
Qed.

Lemma drop_bytes m h e :
  mempool_ok m -> mp_txs m !! h = Some e ->
  pool_bytes (delete h (mp_txs m)) = mp_bytes m - e_Size e /\ 0 <= mp_bytes m - e_Size e.
Proof.
  intros Hok He. rewrite (mo_bytes _ Hok). unfold pool_bytes.
  rewrite (map_sum_delete _ _ _ e) by done. simpl. split; [done|].
  replace (map_sum _ _ - e_Size e) with (map_sum (fun he => e_Size he.2) (delete h (mp_txs m)))
    by (by rewrite (map_sum_delete _ _ _ e)).
  apply map_sum_nonneg. intros k v [_ Hv]%lookup_delete_Some. simpl.
  pose proof (entry_size _ _ _ Hok Hv). lia.
Qed.

Lemma drop_entry_ok m h e :
  mempool_ok m -> mp_txs m !! h = Some e -> mempool_ok (drop_entry h e m).
Proof.
  intros Hok He. destruct (drop_bytes m h e Hok He) as [Hb Hnn].
  pose proof (entry_size _ _ _ Hok He). pose proof (mo_small _ Hok).
  split; simpl.
  - intros h' e' [_ He']%lookup_delete_Some. by apply (mo_entry _ Hok).
  - intros k h'. rewrite delete_spends_lookup. case_decide as Hk.
    + split; [done|]. intros (e' & [Hne He']%lookup_delete_Some & Hk').
      pose proof (proj2 (mo_spends _ Hok k h) (ex_intro _ e (conj He Hk))).
      pose proof (proj2 (mo_spends _ Hok k h') (ex_intro _ e' (conj He' Hk'))). congruence.
    + rewrite (mo_spends _ Hok). split.
      * intros (e' & He' & Hk'). exists e'. split; [|done]. apply lookup_delete_Some.
        split; [|done]. intros ->. congruence.
      * intros (e' & [_ He']%lookup_delete_Some & Hk'). eauto.
  - rewrite i64_small by mach. by rewrite Hb.
  - rewrite i64_small by mach. lia.
Qed.

(** No outpoint is spent by two entries. *)
Lemma pool_no_conflict m h h' e e' k :
  mempool_ok m -> mp_txs m !! h = Some e -> mp_txs m !! h' = Some e' ->
  k ∈ in_key <$> tx_Inputs (e_Tx e) -> k ∈ in_key <$> tx_Inputs (e_Tx e') -> h = h'.
Proof.
  intros Hok He He' Hk Hk'.
  pose proof (proj2 (mo_spends _ Hok k h) (ex_intro _ e (conj He Hk))).
  pose proof (proj2 (mo_spends _ Hok k h') (ex_intro _ e' (conj He' Hk'))). congruence.
Qed.

(** ** Eviction *)

Lemma find_low_in entries low h e :
  find_low entries low = Some (h, e) -> (h, e) ∈ entries \/ low = Some (h, e).
Proof.
  revert low. induction entries as [|[h0 e0] l IH]; intros low H; [by right|]. simpl in H.
  apply IH in H as [H|H]; [left; set_solver|].
  destruct low as [[h' e']|]; [destruct (lower_rate e0 e')|]; simplify_eq; set_solver.
Qed.

Lemma find_low_none entries low : find_low entries low = None -> entries = [] /\ low = None.
Proof.
  revert low. induction entries as [|[h0 e0] l IH]; intros low H; [done|]. simpl in H.
  apply IH in H as [_ H]. destruct low as [[h' e']|]; [destruct (lower_rate e0 e')|]; done.
Qed.

Lemma evictLowest_Some order m m' :
  order ≡ₚ map_to_list (mp_txs m) -> evictLowest order m = Some m' ->
  exists h e, mp_txs m !! h = Some e /\ m' = drop_entry h e m.
Proof.
  intros Ho. unfold evictLowest. destruct (find_low order None) as [[h e]|] eqn:E; [|done].
  intros [= <-]. apply find_low_in in E as [E|?]; [|done]. rewrite Ho in E.
  apply elem_of_map_to_list in E. eauto.
Qed.

Lemma evictLowest_None order m :
  order ≡ₚ map_to_list (mp_txs m) -> evictLowest order m = None -> mp_txs m = ∅.
Proof.
  intros Ho. unfold evictLowest. destruct (find_low order None) as [[h e]|] eqn:E; [done|].
  intros _. apply find_low_none in E as [-> _]. apply map_to_list_empty_iff. by apply Permutation_nil.
Qed.

(** The loop ends with room for the transaction or with an empty pool, and has
    only removed entries. *)
Lemma evict_loop_exit range sz fuel m :
  order_ok range -> mempool_ok m -> 0 <= sz -> mp_bytes m + sz < 2 ^ 63 ->
  (size (mp_txs m) < fuel)%nat ->
  let m' := evict_loop fuel range sz m in
  mempool_ok m' /\ mp_maxBytes m' = mp_maxBytes m /\ mp_verifier m' = mp_verifier m /\
  mp_txs m' ⊆ mp_txs m /\ mp_bytes m' <= mp_bytes m /\
  (mp_bytes m' + sz <= mp_maxBytes m \/ mp_txs m' = ∅).
Proof.
  intros Hr. revert m. induction fuel as [|fuel IH]; intros m Hok Hsz Hsm Hf; [lia|]. simpl.
  assert (0 <= mp_bytes m).
  { rewrite (mo_bytes _ Hok). apply map_sum_nonneg. intros k v Hv. simpl.
    pose proof (entry_size _ _ _ Hok Hv). lia. }
  rewrite i64_small by mach. destruct (Z.ltb_spec (mp_maxBytes m) (mp_bytes m + sz)) as [Hlt|Hge].
  - destruct (evictLowest _ m) as [m1|] eqn:E.
    + apply evictLowest_Some in E as (h & e & He & ->); [|apply Hr].
      pose proof (drop_entry_ok _ _ _ Hok He) as Hok1.
      destruct (drop_bytes _ _ _ Hok He) as [_ Hnn]. pose proof (entry_size _ _ _ Hok He).
      pose proof (mo_small _ Hok).
      assert (Hb : mp_bytes (drop_entry h e m) = mp_bytes m - e_Size e)
        by (simpl; apply i64_small; mach).
      assert (Hlt' : (size (mp_txs (drop_entry h e m)) < fuel)%nat).
      { simpl. rewrite map_size_delete_Some by eauto.
        assert (size (mp_txs m) <> 0)%nat by (apply map_size_non_empty_iff; intros E0; by rewrite E0 in He). lia. }
      destruct (IH _ Hok1 Hsz ltac:(lia) Hlt') as (? & Hm & Hv & Hsub & Hle & Hx).
      split_and!; try done; [|lia]. simpl in Hsub. etrans; [exact Hsub|]. apply delete_subseteq.
    + apply evictLowest_None in E; [|apply Hr]. split_and!; auto with lia.
  - split_and!; auto with lia.
Qed.

(** ** Adding *)

Lemma accepted_has_inputs t utxos v spent h us fee :
  tx_wf t -> len (SerializeTransaction t) < 2 ^ 64 ->
  tx_accepted t utxos v spent h us fee -> tx_Inputs t <> [].
Proof.
  intros Ht Hl [_ [R _ _ _ _] _ _ -> Hmin] E. rewrite E in R. apply Forall2_nil_inv_l in R as ->.
  pose proof (MinFee_pos t Hl). pose proof (u64_sum_nonneg _ (outputs_u64 t Ht)).
  csimpl in Hmin. lia.
Qed.

Lemma pool_nonneg m : mempool_ok m -> 0 <= mp_bytes m.
Proof.
  intros Hok. rewrite (mo_bytes _ Hok). apply map_sum_nonneg. intros k v Hv. simpl.
  pose proof (entry_size _ _ _ Hok Hv). lia.
Qed.

(** The messages whose hashes name the entries of the pool. *)
Definition pool_messages (m : Mempool) : list bytes :=
  (fun he => SerializeTransaction (e_Tx he.2)) <$> map_to_list (mp_txs m).

Lemma elem_of_pool_messages m h e :
  mp_txs m !! h = Some e -> SerializeTransaction (e_Tx e) ∈ pool_messages m.
Proof.
  intros H. apply list_elem_of_fmap. exists (h, e). split; [done|]. by apply elem_of_map_to_list.
Qed.

(** A transaction that conflicts with no entry is not in the pool yet. *)
Lemma fresh_hash m t ms :
  collision_free ms -> SerializeTransaction t ∈ ms -> pool_messages m ⊆ ms ->
  mempool_ok m -> tx_wf t -> tx_fits t -> tx_Inputs t <> [] ->
  Forall (fun i => in_key i ∉ dom (mp_spends m)) (tx_Inputs t) ->
  mp_txs m !! tx_Hash t = None.
Proof.
  intros Hc Hms Hsub Hok Ht Hf Hne Hn. destruct (mp_txs m !! tx_Hash t) as [e|] eqn:E; [|done]. exfalso.
  destruct (mo_entry _ Hok _ _ E) as (Hwe & Hfe & Hh & _).
  assert (Heq : e_Tx e = t).
  { apply tx_Hash_inj; try done. eapply collision_free_sub; [|exact Hc].
    intros x. rewrite !elem_of_cons. intros [->|[->|?%not_elem_of_nil]]; [|done|done].
    by eapply Hsub, elem_of_pool_messages. }
  subst t. destruct (tx_Inputs (e_Tx e)) as [|i ins] eqn:Hi; [done|].
  apply Forall_cons in Hn as [Hn _]. apply Hn, elem_of_dom. eexists.
  apply (mo_spends _ Hok). exists e. split; [exact E|]. rewrite Hi. csimpl. set_solver.
Qed.

Definition add_entry (t : Transaction) (fee now : Z) (m : Mempool) : Mempool :=
  mkMempool (<[tx_Hash t := mkEntry t fee (len (SerializeTransaction t)) now]> (mp_txs m))
    (insert_spends (tx_Hash t) (tx_Inputs t) (mp_spends m))
    (mp_maxBytes m) (i64 (mp_bytes m + len (SerializeTransaction t))) (mp_verifier m).

Lemma add_entry_ok t fee now m :
  mempool_ok m -> tx_wf t -> tx_fits t -> tx_Inputs t <> [] -> IsCoinbase t = false ->
  mp_txs m !! tx_Hash t = None ->
  Forall (fun i => in_key i ∉ dom (mp_spends m)) (tx_Inputs t) ->
  mp_bytes m + len (SerializeTransaction t) < 2 ^ 63 ->
  mempool_ok (add_entry t fee now m).
Proof.
  intros Hok Ht Hf Hne Hc Hnew Hn Hsm. pose proof (pool_nonneg m Hok).
  pose proof (SerializeTransaction_length t).
  rewrite Forall_forall in Hn. split; simpl.
  - intros h e [[<- <-]|[_ He]]%lookup_insert_Some; [by split_and! | by apply (mo_entry _ Hok)].
  - intros k h. rewrite insert_spends_lookup. case_decide as Hk.
    + split.
      * intros [= <-]. eexists. rewrite lookup_insert_eq. by split.
      * intros (e & [[<- _]|[Hne' He]]%lookup_insert_Some & Hk'); [done|]. exfalso.
        apply list_elem_of_fmap in Hk as (i & -> & Hi). apply (Hn i Hi), elem_of_dom. eexists.
        apply (mo_spends _ Hok). eauto.
    + rewrite (mo_spends _ Hok). split.
      * intros (e & He & Hk'). exists e. split; [|done]. rewrite lookup_insert_ne by congruence. done.
      * intros (e & [[<- <-]|[_ He]]%lookup_insert_Some & Hk'); [done | eauto].
  - rewrite i64_small by mach. unfold pool_bytes. rewrite map_sum_insert by done. simpl.
    fold (pool_bytes (mp_txs m)). rewrite <- (mo_bytes _ Hok). lia.
  - rewrite i64_small by mach. lia.
Qed.

Lemma spends_shrink m m' :
  mempool_ok m -> mempool_ok m' -> mp_txs m' ⊆ mp_txs m -> dom (mp_spends m') ⊆ dom (mp_spends m).
Proof.
  intros Hok Hok' Hs k. rewrite !elem_of_dom. intros [h Hh]. apply (mo_spends _ Hok') in Hh as (e & He & Hk).
  exists h. apply (mo_spends _ Hok). exists e. split; [|done]. by eapply lookup_weaken.
Qed.

(** What a successful [Add] does. *)
Lemma Add_Ok utxos now range t m m' :
  order_ok range -> reader_wf utxos -> mempool_ok m -> tx_wf t -> tx_fits t ->
  mp_bytes m + len (SerializeTransaction t) < 2 ^ 63 ->
  Add utxos now range t m = (m', Ok tt) ->
  exists m0 us fee,
    tx_accepted t utxos (mp_verifier m) (dom (mp_spends m)) max64 us fee /\
    mempool_ok m0 /\ mp_txs m0 ⊆ mp_txs m /\ mp_maxBytes m0 = mp_maxBytes m /\
    mp_bytes m0 <= mp_bytes m /\
    (mp_bytes m0 + len (SerializeTransaction t) <= mp_maxBytes m \/ mp_txs m0 = ∅) /\
    m' = add_entry t fee now m0.
Proof.
  intros Hr Hrd Hok Ht Hf Hsm. unfold Add.
  destruct (ValidateTransaction t utxos _ _) as [[fee sp]|e] eqn:E; [|done].
  apply ValidateTransactionAt_Ok in E as (us & A & _); [|done..].
  pose proof (SerializeTransaction_length t).
  destruct (evict_loop_exit range (len (SerializeTransaction t)) (S (size (mp_txs m))) m Hr Hok
    ltac:(lia) Hsm ltac:(lia)) as (Hok0 & Hmax & Hv & Hsub & Hle & Hx).
  intros [= <-]. eexists (evict_loop _ range _ m), us, fee. by split_and!.
Qed.

Lemma Add_ok utxos now range t m m' r :
  collision_free (SerializeTransaction t :: pool_messages m) ->
  order_ok range -> reader_wf utxos -> mempool_ok m -> tx_wf t -> tx_fits t ->
  mp_bytes m + len (SerializeTransaction t) < 2 ^ 63 ->
  Add utxos now range t m = (m', r) -> mempool_ok m'.
Proof.
  intros Hcol Hr Hrd Hok Ht Hf Hsm H. destruct r as [[]|e].
  - apply Add_Ok in H as (m0 & us & fee & A & Hok0 & Hsub & _ & Hle & _ & ->); [|done..].
    pose proof (pool_nonneg m Hok).
    assert (Hne : tx_Inputs t <> []) by (eapply accepted_has_inputs; [done | lia | exact A]).
    assert (Hn : Forall (fun i => in_key i ∉ dom (mp_spends m0)) (tx_Inputs t)).
    { eapply Forall_impl; [apply A|]. intros i Hi. pose proof (spends_shrink _ _ Hok Hok0 Hsub).
      set_solver. }
    assert (Hnew : mp_txs m0 !! tx_Hash t = None).
    { apply (fresh_hash m0 t _ Hcol); try done; [set_solver|]. intros x Hx. apply elem_of_cons; right.
      apply list_elem_of_fmap in Hx as ([h e] & -> & Hx). apply elem_of_map_to_list in Hx.
      eapply elem_of_pool_messages, lookup_weaken; done. }
    apply add_entry_ok; try done; [apply A | lia].
  - unfold Add in H. destruct (ValidateTransaction t utxos _ _) as [[fee sp]|e']; [done|].
    by injection H as <- _.
Qed.

(** ** Removing *)

Lemma Remove_ok h m : mempool_ok m -> mempool_ok (Remove h m).
Proof. intros Hok. unfold Remove. destruct (_ !! h) eqn:E; [by apply drop_entry_ok | done]. Qed.

Lemma Remove_lookup h m h' :
  mp_txs (Remove h m) !! h' = if decide (h = h') then None else mp_txs m !! h'.
Proof.
  unfold Remove. destruct (mp_txs m !! h) eqn:E; simpl; case_decide; subst; simplify_map_eq; done.
Qed.

Lemma RemoveMinedBlock_removes b m :
  RemoveMinedBlock b m =
  fold_left (fun m t => Remove (tx_Hash t) m)
    (List.filter (fun t => negb (IsCoinbase t)) (blk_Transactions b)) m.
Proof.
  unfold RemoveMinedBlock. revert m. induction (blk_Transactions b) as [|t txs IH]; intros m; [done|].
  simpl. rewrite IH. by destruct (IsCoinbase t).
Qed.

Lemma RemoveMinedBlock_ok b m : mempool_ok m -> mempool_ok (RemoveMinedBlock b m).
Proof.
  rewrite RemoveMinedBlock_removes. revert m.
  induction (List.filter _ _) as [|t txs IH]; intros m Hok; [done|]. by apply IH, Remove_ok.
Qed.

Lemma RemoveMinedBlock_lookup b m h :
  mp_txs (RemoveMinedBlock b m) !! h =
  if decide (h ∈ tx_Hash <$> List.filter (fun t => negb (IsCoinbase t)) (blk_Transactions b))
  then None else mp_txs m !! h.
Proof.
  rewrite RemoveMinedBlock_removes. revert m.
  induction (List.filter _ _) as [|t txs IH]; intros m; csimpl; [done|].
  rewrite IH, Remove_lookup. repeat case_decide; set_solver.
Qed.

(** ** Fee rates *)

(** The products the comparisons form fit in 64 bits. *)
Definition rates_fit (es : list Entry) : Prop :=
  forall a b, a ∈ es -> b ∈ es ->
    0 < e_Size a < 2 ^ 63 /\ 0 <= e_Fee a /\ e_Fee a * e_Size b < 2 ^ 64.

(** [a] pays at least the rate of [b]. *)
Definition rate_ge (a b : Entry) : Prop := e_Fee b * e_Size a <= e_Fee a * e_Size b.

Lemma rate_products es a b :
  rates_fit es -> a ∈ es -> b ∈ es -> u64 (e_Fee a * u64 (e_Size b)) = e_Fee a * e_Size b.
Proof.
  intros HR Ha Hb. destruct (HR a b Ha Hb) as (? & ? & ?), (HR b a Hb Ha) as (? & ? & ?).
  rewrite (u64_small (e_Size b)) by mach. apply u64_small. unfold is_u64. nia.
Qed.

Lemma higher_rate_spec es a b :
  rates_fit es -> a ∈ es -> b ∈ es -> higher_rate a b = false <-> rate_ge b a.
Proof.
  intros HR Ha Hb. unfold higher_rate, rate_ge.
  rewrite !(rate_products es) by done. rewrite Z.ltb_ge. done.
Qed.

Lemma rate_ge_total a b : rate_ge a b \/ rate_ge b a.
Proof. unfold rate_ge. lia. Qed.

Lemma rate_ge_trans a b c :
  0 < e_Size a -> 0 < e_Size b -> 0 < e_Size c -> rate_ge a b -> rate_ge b c -> rate_ge a c.
Proof.
  unfold rate_ge. intros Ha Hb Hc H1 H2.
  apply (Z.mul_le_mono_pos_r _ _ (e_Size b)); [done|].
  transitivity (e_Fee b * e_Size c * e_Size a); [nia|]. nia.
Qed.

(** The entry [evictLowest] takes out pays no more than any other. *)
Lemma find_low_min es entries low h e :
  rates_fit es -> (forall x, x ∈ entries -> x.2 ∈ es) -> (forall x, low = Some x -> x.2 ∈ es) ->
  find_low entries low = Some (h, e) ->
  (forall x, x ∈ entries -> rate_ge x.2 e) /\ (forall x, low = Some x -> rate_ge x.2 e) /\ e ∈ es.
Proof.
  intros HR. revert low. induction entries as [|[h0 e0] l IH]; intros low He Hlow H; simpl in H.
  - split_and!; [by intros x ?%not_elem_of_nil | | by eapply (Hlow (h, e))].
    intros x Hx. rewrite Hx in H. injection H as ->. unfold rate_ge. simpl. lia.
  - assert (He0 : e0 ∈ es) by (apply (He (h0, e0)); set_solver).
    apply IH in H as (H1 & H2 & H3); [| set_solver |].
    + assert (Hsz : forall x, x ∈ es -> 0 < e_Size x) by (intros x Hx; apply (HR x x Hx Hx)).
      destruct low as [[h' e']|].
      * assert (He' : e' ∈ es) by by eapply (Hlow (h', e')).
        destruct (lower_rate e0 e') eqn:El; specialize (H2 _ eq_refl); simpl in H2.
        -- assert (rate_ge e' e0).
           { destruct (rate_ge_total e' e0) as [?|Hge]; [done|].
             unfold lower_rate in El. unfold rate_ge in *.
             rewrite !(rate_products es) in El by done. breflect. lia. }
           split_and!; [intros x [->|Hx]%elem_of_cons; [done | by apply H1] | | done].
           intros x [= <-]. simpl. by apply (rate_ge_trans _ e0); [apply Hsz..| |].
        -- assert (rate_ge e0 e').
           { unfold lower_rate in El. unfold rate_ge.
             rewrite !(rate_products es) in El by done. breflect. lia. }
           split_and!; [|by intros x [= <-]|done].
           intros x [->|Hx]%elem_of_cons; [|by apply H1]. simpl.
           by apply (rate_ge_trans _ e'); [apply Hsz..| |].
      * specialize (H2 _ eq_refl). simpl in H2.
        split_and!; [intros x [->|Hx]%elem_of_cons; [done | by apply H1] | done | done].
    + intros x Hx. destruct low as [[h' e']|]; [destruct (lower_rate e0 e')|]; simplify_eq; try done.
      by apply (Hlow (h', e')).
Qed.

Lemma slide_perm {A} (less : A -> A -> bool) x l : slide less x l ≡ₚ x :: l.
Proof.
  induction l as [|y l IH]; simpl; [done|]. destruct (less x y); [|done]. rewrite IH. constructor.
Qed.

Lemma slides_perm {A} (less : A -> A -> bool) l acc :
  fold_left (fun acc x => slide less x acc) l acc ≡ₚ l ++ acc.
Proof.
  revert acc. induction l as [|x l IH]; intros acc; simpl; [done|].
  rewrite IH, slide_perm. symmetry. apply Permutation_middle.
Qed.

Lemma sort_Slice_perm {A} (less : A -> A -> bool) l : sort_Slice less l ≡ₚ l.
Proof. unfold sort_Slice. rewrite <- Permutation_rev, slides_perm. by rewrite app_nil_r. Qed.

Lemma slide_sorted es x l :
  rates_fit es -> x ∈ es -> (forall y, y ∈ l -> y ∈ es) ->
  StronglySorted (flip rate_ge) l -> StronglySorted (flip rate_ge) (slide higher_rate x l).
Proof.
  intros HR Hx Hl Hs. induction Hs as [|y l Hs IH Hy]; simpl; [by repeat constructor|].
  assert (Hsz : forall z, z ∈ es -> 0 < e_Size z) by (intros z Hz; apply (HR z z Hz Hz)).
  assert (Hye : y ∈ es) by (apply Hl; set_solver).
  destruct (higher_rate x y) eqn:E.
  - constructor; [apply IH; set_solver|]. rewrite slide_perm. constructor; [|done].
    unfold flip. destruct (rate_ge_total x y) as [?|Hge]; [done|].
    apply (higher_rate_spec es) in Hge; [congruence | done..].
  - assert (Hyx : rate_ge y x) by by apply (higher_rate_spec es).
    constructor; [by constructor|]. constructor; [done|].
    rewrite Forall_forall in Hy |- *. intros z Hz. specialize (Hy z Hz). unfold flip in *.
    assert (z ∈ es) by (apply Hl; set_solver).
    by apply (rate_ge_trans _ y); [apply Hsz..| |].
Qed.

Lemma StronglySorted_rev {A} (R : A -> A -> Prop) l :
  StronglySorted (flip R) l -> StronglySorted R (rev l).
Proof.
  induction 1 as [|x l Hs IH Hx]; simpl; [constructor|].
  assert (Hx' : Forall (fun y => R y x) (rev l)) by (by rewrite <- Permutation_rev).
  clear Hx Hs. induction IH as [|y k Hk IHk Hy]; simpl; [repeat constructor|].
  apply Forall_cons in Hx' as [? ?]. constructor; [by apply IHk|].
  apply Forall_app. split; [done | by constructor].
Qed.

Lemma sort_Slice_sorted es l :
  rates_fit es -> (forall y, y ∈ l -> y ∈ es) -> StronglySorted rate_ge (sort_Slice higher_rate l).
Proof.
  intros HR Hl. apply StronglySorted_rev.
  cut (forall acc, (forall y, y ∈ acc -> y ∈ es) -> StronglySorted (flip rate_ge) acc ->
    StronglySorted (flip rate_ge) (fold_left (fun acc x => slide higher_rate x acc) l acc)).
  { intros H. apply H; [by intros y ?%not_elem_of_nil | constructor]. }
  induction l as [|x l IH]; intros acc Ha Hs; simpl; [done|].
  apply IH; [set_solver | |].
  - intros y. rewrite slide_perm. set_solver.
  - apply (slide_sorted es); [done | set_solver..| done].
Qed.

(** ** Properties *)

(** C13: Adding a transaction within the parser limits, whose serialization hashes
    without collision with those in the pool, keeps the pool invariant on every branch:
    a refusal leaves the pool unchanged and returns the validation error, an acceptance
    records the transaction with its fee, evicts only old entries and ends within the
    byte limit, or with the new transaction alone above it. *)
Theorem pool_add_preserves utxos now range t m m' r :
  collision_free (SerializeTransaction t :: pool_messages m) -> order_ok range -> reader_wf utxos -> mempool_ok m -> tx_wf t -> tx_fits t ->
  mp_bytes m + len (SerializeTransaction t) < 2 ^ 63 ->
  Add utxos now range t m = (m', r) ->
  mempool_ok m' /\
   match r with
   | Err e => m' = m /\ ValidateTransaction t utxos (mp_verifier m) (dom (mp_spends m)) = Err e
   | Ok _ =>
       mp_bytes m' <= Z.max (mp_maxBytes m) (len (SerializeTransaction t)) /\
       mp_txs m' ⊆ <[tx_Hash t := default (mkEntry t 0 0 0) (mp_txs m' !! tx_Hash t)]> (mp_txs m) /\
       exists us fee,
         tx_accepted t utxos (mp_verifier m) (dom (mp_spends m)) max64 us fee /\
         mp_txs m' !! tx_Hash t = Some (mkEntry t fee (len (SerializeTransaction t)) now)
   end.
Proof.
  intros Hcol Hr Hrd Hok Ht Hf Hsm H. split; [by eapply Add_ok|]. destruct r as [[]|e].
  - apply Add_Ok in H as (m0 & us & fee & A & Hok0 & Hsub & Hmax & Hle & Hx & ->); [|done..].
    pose proof (SerializeTransaction_length t). pose proof (pool_nonneg m0 Hok0).
    split_and!.
    + simpl. rewrite i64_small by mach. destruct Hx as [?|Hx]; [lia|].
      assert (mp_bytes m0 = 0); [|lia].
      rewrite (mo_bytes _ Hok0), Hx. apply map_sum_empty.
    + simpl. rewrite lookup_insert_eq. simpl. by apply insert_mono.
    + exists us, fee. split; [done|]. simpl. by rewrite lookup_insert_eq.
  - unfold Add in H. destruct (ValidateTransaction t utxos _ _) as [[fee sp]|e']; [done|].
    by injection H as <- <-.
Qed.

(** Two entries of a well-formed pool that spend the same outpoint are the same entry.
    *)
Theorem pool_no_double_spend m h h' e e' i i' :
  mempool_ok m -> mp_txs m !! h = Some e -> mp_txs m !! h' = Some e' ->
  i ∈ tx_Inputs (e_Tx e) -> i' ∈ tx_Inputs (e_Tx e') ->
  in_PrevTxHash i = in_PrevTxHash i' -> in_OutputIdx i = in_OutputIdx i' -> h = h'.
Proof.
  intros Hok He He' Hi Hi' E1 E2. eapply (pool_no_conflict m h h' e e' (in_key i)); try done.
  - by apply list_elem_of_fmap_2.
  - unfold in_key. rewrite E1, E2. by apply (list_elem_of_fmap_2 in_key).
Qed.

(** RemoveMinedBlock keeps the pool invariant and removes exactly the transactions of
    the block other than coinbases: transactions that conflict with the block stay. *)
Theorem mined_block_leaves_pool b m h :
  mempool_ok m ->
  mempool_ok (RemoveMinedBlock b m) /\
  mp_txs (RemoveMinedBlock b m) !! h =
    if decide (h ∈ tx_Hash <$> List.filter (fun t => negb (IsCoinbase t)) (blk_Transactions b))
    then None else mp_txs m !! h.
Proof. intros Hok. split; [by apply RemoveMinedBlock_ok | apply RemoveMinedBlock_lookup]. Qed.

(** EntriesByFeeRate lists every entry of the pool once, in order of falling fee rate,
    whatever order the map is visited in, as long as the products of fees and sizes fit
    64 bits. *)
Theorem snapshot_by_fee_rate range m :
  order_ok range -> rates_fit (map_to_list (mp_txs m)).*2 ->
  StronglySorted rate_ge (EntriesByFeeRate range m) /\
  EntriesByFeeRate range m ≡ₚ (map_to_list (mp_txs m)).*2.
Proof.
  intros Hr HR. assert (Hp : (range 0%nat (mp_txs m)).*2 ≡ₚ (map_to_list (mp_txs m)).*2)
    by by rewrite (Hr 0%nat (mp_txs m)).
  split; [|by unfold EntriesByFeeRate; rewrite sort_Slice_perm].
  apply (sort_Slice_sorted _ _ HR). intros y. by rewrite Hp.
Qed.

(** Evicting removes an entry whose fee rate is the lowest of the pool, with its spends
    and its size, whatever order the map is visited in, as long as the products of fees
    and sizes fit 64 bits. *)
Theorem eviction_takes_lowest order m m' :
  order ≡ₚ map_to_list (mp_txs m) -> rates_fit (map_to_list (mp_txs m)).*2 ->
  evictLowest order m = Some m' ->
  exists h e, mp_txs m !! h = Some e /\ m' = drop_entry h e m /\
    forall h' e', mp_txs m !! h' = Some e' -> rate_ge e' e.
Proof.
  intros Ho HR. unfold evictLowest. destruct (find_low order None) as [[h e]|] eqn:E; [|done].
  intros [= <-]. exists h, e. pose proof E as Hin. apply find_low_in in Hin as [Hin|?]; [|done].
  apply (find_low_min _ _ _ _ _ HR) in E as (Hmin & _ & _); [| |done].
  - rewrite Ho in Hin. apply elem_of_map_to_list in Hin. split_and!; [done | done |].
    intros h' e' He'. apply (Hmin (h', e')). rewrite Ho. by apply elem_of_map_to_list.
  - intros x Hx. rewrite Ho in Hx. by apply list_elem_of_fmap_2.
Qed.

End Invariant.
