(* ===== verification/Miner.v ===== *)
(** * Miner: the nonce search

    Models [miner/miner.go].  The loop has no bound of its own: [Mine] takes
    fuel and [None] means that the search is still running.  [ctx i] tells
    whether the context is done at the [i]-th check. *)

From S2P Require Import Prelude Encoding Sha256 Params Tx Block Consensus.

Section Miner.
Context {HF : HashFunction}.

Definition set_nonce (b : Block) (nonce : Z) : Block :=
  let h := blk_Header b in
  mkBlock (mkHeader (hdr_Version h) (hdr_PrevHash h) (hdr_MerkleRoot h) (hdr_Timestamp h)
             (hdr_Bits h) nonce (hdr_Height h)) (blk_Transactions b).

Fixpoint Mine (fuel : nat) (ctx : nat -> bool) (i : nat) (block : Block) (target : Z)
    : option (bool * Block) :=
  match fuel with
  | O => None
  | S fuel =>
      if ctx i then Some (false, block)
      else
        let hash := hdr_Hash (blk_Header block) in
        if be_val hash <? target then Some (true, block)
        else Mine fuel ctx (S i) (set_nonce block (u64 (hdr_Nonce (blk_Header block) + 1))) target
  end.

Definition MineWithBits (fuel : nat) (ctx : nat -> bool) (block : Block) : option (bool * Block) :=
  Mine fuel ctx 0 block (CompactToBig (hdr_Bits (blk_Header block))).

(** The block after [k] increments of the nonce. *)
Definition nonce_at (b : Block) (k : nat) : Block :=
  set_nonce b (u64 (hdr_Nonce (blk_Header b) + Z.of_nat k)).

Definition hits (b : Block) (target : Z) : Prop := be_val (hdr_Hash (blk_Header b)) < target.
#[global] Instance hits_dec b target : Decision (hits b target).
Proof. unfold hits. apply _. Defined.

Lemma nonce_at_0 b : is_u64 (hdr_Nonce (blk_Header b)) -> nonce_at b 0 = b.
Proof.
  intros H. unfold nonce_at. rewrite Z.add_0_r, u64_small by done. by destruct b as [[] ?].
Qed.

Lemma nonce_at_step b k :
  set_nonce (nonce_at b k) (u64 (hdr_Nonce (blk_Header (nonce_at b k)) + 1)) = nonce_at b (S k).
Proof.
  unfold nonce_at, set_nonce. simpl. do 2 f_equal. unfold u64.
  rewrite Zplus_mod_idemp_l. f_equal. lia.
Qed.

(** The search returns the first nonce that hits, or stops at the first check
    that finds the context done. *)
Lemma Mine_spec fuel ctx b target k :
  Mine fuel ctx k (nonce_at b k) target =
  match find (fun j => ctx j || bool_decide (hits (nonce_at b j) target)) (seq k fuel) with
  | Some j => Some (negb (ctx j), nonce_at b j)
  | None => None
  end.
Proof.
  revert k. induction fuel as [|fuel IH]; intros k; [done|]. cbn [Mine seq find].
  destruct (ctx k) eqn:Hc; cbn [orb]; [by rewrite Hc|].
  destruct (Z.ltb_spec (be_val (hdr_Hash (blk_Header (nonce_at b k)))) target) as [H|H].
  - rewrite (bool_decide_true (hits _ _)) by exact H. by rewrite Hc.
  - rewrite (bool_decide_false (hits _ _)) by (unfold hits; lia). rewrite nonce_at_step. apply IH.
Qed.

(** Nonces repeat after 2^64 steps. *)
Lemma nonce_at_period b k :
  nonce_at b k = nonce_at b (Z.to_nat (Z.of_nat k mod 2 ^ 64)).
Proof.
  unfold nonce_at, u64. f_equal. rewrite Z2Nat.id by (apply Z.mod_pos_bound; lia).
  by rewrite Zplus_mod_idemp_r.
Qed.

Lemma Mine_hit fuel ctx b target b' :
  is_u64 (hdr_Nonce (blk_Header b)) -> Mine fuel ctx 0 b target = Some (true, b') ->
  hits b' target /\ exists k, b' = nonce_at b k.
Proof.
  intros Hn H. rewrite <- (nonce_at_0 b Hn), Mine_spec in H.
  destruct (find _ _) as [j|] eqn:E; [|done]. apply find_some in E as [_ E].
  destruct (ctx j); [done|]. simpl in *. breflect. split; [|exists j]; congruence.
Qed.

Lemma Mine_stopped fuel ctx b target b' :
  is_u64 (hdr_Nonce (blk_Header b)) -> Mine fuel ctx 0 b target = Some (false, b') ->
  exists i, ctx i = true.
Proof.
  intros Hn H. rewrite <- (nonce_at_0 b Hn), Mine_spec in H.
  destruct (find _ _) as [j|]; [|done]. exists j. by destruct (ctx j).
Qed.

Lemma Mine_running fuel ctx b target :
  is_u64 (hdr_Nonce (blk_Header b)) -> Mine fuel ctx 0 b target = None ->
  forall k, (k < fuel)%nat -> ctx k = false /\ ~ hits (nonce_at b k) target.
Proof.
  intros Hn H k Hk. rewrite <- (nonce_at_0 b Hn), Mine_spec in H.
  destruct (find _ _) eqn:E; [done|].
  pose proof (find_none _ _ E k ltac:(apply in_seq; lia)) as Hno. cbn beta in Hno. breflect. done.
Qed.

(** ** Properties *)

(** A block that mining returns passes the proof-of-work check under the limit and
    differs from the input only in its nonce. *)
Theorem mined_block_has_work fuel ctx b target limit b' :
  is_u64 (hdr_Nonce (blk_Header b)) -> target = CompactToBig (hdr_Bits (blk_Header b)) ->
  0 < target <= limit -> Mine fuel ctx 0 b target = Some (true, b') ->
  CheckProofOfWork (blk_Header b') limit = Ok tt /\
  exists nonce, is_u64 nonce /\ b' = set_nonce b nonce.
Proof.
  intros Hn Ht Hl H. apply Mine_hit in H as [Hh (k & ->)]; [|done]. split.
  - apply CheckProofOfWork_Ok. unfold hits in Hh. simpl in *. rewrite <- Ht. lia.
  - eexists. split; [apply u64_range | done].
Qed.

(** C25: With a context that is never cancelled, mining returns a block if and only if
    some 64-bit nonce hits the target: every nonce is tried. *)
Theorem mining_terminates b target :
  is_u64 (hdr_Nonce (blk_Header b)) ->
  (exists fuel b', Mine fuel (fun _ => false) 0 b target = Some (true, b')) <->
  exists nonce, is_u64 nonce /\ hits (set_nonce b nonce) target.
Proof.
  intros Hn. split.
  - intros (fuel & b' & H). apply Mine_hit in H as [Hh (k & ->)]; [|done].
    eexists. split; [|exact Hh]. apply u64_range.
  - intros (nonce & Hr & Hh).
    set (j := Z.to_nat ((nonce - hdr_Nonce (blk_Header b)) mod 2 ^ 64)).
    assert (Hj : nonce_at b j = set_nonce b nonce).
    { unfold nonce_at, j. f_equal. rewrite Z2Nat.id by (apply Z.mod_pos_bound; lia).
      unfold u64. rewrite Zplus_mod_idemp_r. rewrite Z.mod_small; unfold is_u64 in Hr; lia. }
    exists (S j). rewrite <- (nonce_at_0 b Hn), Mine_spec.
    destruct (find _ (seq 0 (S j))) as [i|] eqn:E; [by eexists|]. exfalso.
    pose proof (find_none _ _ E j ltac:(apply in_seq; lia)) as Hno. cbn beta in Hno.
    rewrite Hj, bool_decide_true in Hno by done. done.
Qed.

End Miner.
