(* ===== verification/Bech32.v ===== *)
(** * Bech32: addresses

    Models [wallet/bech32.go] and the address functions of [wallet/wallet.go]
    ([DecodeAddress], [LockingScriptForAddress]).  A string is its bytes; the
    case mappings of package strings are modelled on ASCII, so the model speaks
    of ASCII strings, which every valid address is. *)

From S2P Require Import Prelude Encoding Sha256 Params Tx Block Consensus.

Definition bech32Charset : bytes := str "qpzry9x8gf2tvdw0s3jn54khce6mua7l".

(** [strings.ToLower], [strings.ToUpper] *)
Definition lower_byte (c : Z) : Z := if (65 <=? c) && (c <=? 90) then c + 32 else c.
Definition upper_byte (c : Z) : Z := if (97 <=? c) && (c <=? 122) then c - 32 else c.
Definition ToLower (s : bytes) : bytes := lower_byte <$> s.
Definition ToUpper (s : bytes) : bytes := upper_byte <$> s.

(** ** Checksum *)

Definition gen : list Z := [0x3b6a57b2; 0x26508e6d; 0x1ea119fa; 0x3d4233dd; 0x2a1462b3].

(** [for i := 0; i < 5; i++ { if (top>>uint(i))&1 == 1 { chk ^= gen[i] } }] *)
Fixpoint xor_gens (i : Z) (gens : list Z) (top chk : Z) : Z :=
  match gens with
  | [] => chk
  | g :: gens =>
      xor_gens (i + 1) gens top
        (if Z.land (Z.shiftr top i) 1 =? 1 then Z.lxor chk g else chk)
  end.

Definition polymod_step (chk v : Z) : Z :=
  let top := Z.shiftr chk 25 in
  xor_gens 0 gen top (Z.lxor (u32 (Z.shiftl (Z.land chk 0x1ffffff) 5)) v).

Definition bech32Polymod (values : bytes) : Z := fold_left polymod_step values 1.

Definition bech32HrpExpand (hrp : bytes) : bytes :=
  ((fun c => Z.shiftr c 5) <$> hrp) ++ [0] ++ ((fun c => Z.land c 31) <$> hrp).

Definition bech32CreateChecksum (hrp data : bytes) : bytes :=
  let values := bech32HrpExpand hrp ++ data in
  let values := values ++ [0; 0; 0; 0; 0; 0] in
  let polymod := Z.lxor (bech32Polymod values) 1 in
  (fun i => u8 (Z.land (Z.shiftr polymod (5 * (5 - i))) 31)) <$> [0; 1; 2; 3; 4; 5].

Definition bech32VerifyChecksum (hrp data : bytes) : bool :=
  bech32Polymod (bech32HrpExpand hrp ++ data) =? 1.

(** ** Encoding and decoding *)

Fixpoint write_chars (combined : bytes) (b : bytes) : result bytes :=
  match combined with
  | [] => Ok b
  | p :: combined =>
      fail_if 32 <=? p with Errorf "invalid bech32 data" ;;
      write_chars combined (b ++ [nth (Z.to_nat p) bech32Charset 0])
  end.

Definition bech32Encode (hrp data : bytes) : result bytes :=
  match hrp with
  | [] => Err (Errorf "empty bech32 hrp")
  | _ => write_chars (data ++ bech32CreateChecksum hrp data) (ToLower hrp ++ [49])
  end.

Fixpoint read_chars (s : bytes) : result bytes :=
  match s with
  | [] => Ok []
  | c :: s =>
      match IndexByte bech32Charset c with
      | None => Err (Errorf "invalid bech32 character")
      | Some idx => data ← read_chars s; Ok (u8 idx :: data)
      end
  end.

Definition bech32Decode (s : bytes) : result (bytes * bytes) :=
  fail_if (len s <? 8) || (negb (bool_decide (ToLower s = s)) && negb (bool_decide (ToUpper s = s)))
    with Errorf "invalid bech32 string" ;;
  let s := ToLower s in
  match split_last 49 s with
  | None => Err (Errorf "invalid bech32 separator")
  | Some (hrp, rest) =>
      fail_if (len hrp <=? 0) || (len s <? len hrp + 7) with Errorf "invalid bech32 separator" ;;
      data ← read_chars rest;
      fail_if negb (bech32VerifyChecksum hrp data) with Errorf "invalid bech32 checksum" ;;
      Ok (hrp, take (length data - 6) data)
  end.

(** ** Regrouping bits *)

(** [for bits >= to { bits -= to; ret = append(...) }]; [bits] below [fuel * to]
    makes the fuel enough. *)
Fixpoint drain (fuel : nat) (acc to maxv : Z) (bits : Z) (ret : bytes) : Z * bytes :=
  match fuel with
  | O => (bits, ret)
  | S fuel =>
      if to <=? bits then
        let bits := bits - to in
        drain fuel acc to maxv bits (ret ++ [u8 (Z.land (Z.shiftr acc bits) maxv)])
      else (bits, ret)
  end.

Fixpoint convert_loop (data : bytes) (from to maxv maxAcc acc bits : Z) (ret : bytes)
    : result (Z * Z * bytes) :=
  match data with
  | [] => Ok (acc, bits, ret)
  | v :: data =>
      fail_if negb (Z.shiftr v from =? 0) with Errorf "invalid bit group" ;;
      let acc := Z.land (Z.lor (u64 (Z.shiftl acc from)) v) maxAcc in
      let '(bits, ret) := drain (Z.to_nat (bits + from)) acc to maxv (bits + from) ret in
      convert_loop data from to maxv maxAcc acc bits ret
  end.

Definition convertBits (data : bytes) (from to : Z) (pad : bool) : result bytes :=
  let maxv := Z.shiftl 1 to - 1 in
  let maxAcc := Z.shiftl 1 (from + to - 1) - 1 in
  '(acc, bits, ret) ← convert_loop data from to maxv maxAcc 0 0 [];
  if pad then
    Ok (if 0 <? bits then ret ++ [u8 (Z.land (u64 (Z.shiftl acc (to - bits))) maxv)] else ret)
  else
    fail_if (from <=? bits) || negb (Z.land (u64 (Z.shiftl acc (to - bits))) maxv =? 0)
      with Errorf "invalid padding" ;;
    Ok ret.

(** ** Addresses *)

Definition DecodeAddress (addr expectedPrefix : bytes) : result bytes :=
  '(hrp, data) ← bech32Decode addr;
  fail_if negb (bool_decide (hrp = expectedPrefix)) with Errorf "wrong address prefix" ;;
  convertBits data 5 8 false.

Definition LockingScriptForAddress (addr prefix : bytes) : result bytes :=
  h ← DecodeAddress addr prefix; Ok (ScriptForPubKeyHash h).

(** [AddressFromPublicKey] after [Hash160]. *)
Definition address_of_hash (hash prefix : bytes) : result bytes :=
  fiveBit ← convertBits hash 8 5 true; bech32Encode prefix fiveBit.

(** The BIP 173 test string with an empty payload. *)
Example bech32_a : bech32Encode (str "a") [] = Ok (str "a12uel5l").
Proof. vm_compute. reflexivity. Qed.
Example address_roundtrip_example :
  (a ← address_of_hash (replicate 20 7) (str "nev"); DecodeAddress a (str "nev")) = Ok (replicate 20 7).
Proof. vm_compute. reflexivity. Qed.

(** ** Regrouping keeps the number *)

(** The number whose base-[2^w] digits are [l], most significant first. *)
Definition val (w : Z) (l : bytes) : Z := fold_left (fun a x => a * 2 ^ w + x) l 0.
Definition digits (w : Z) (l : bytes) : Prop := Forall (fun x => 0 <= x < 2 ^ w) l.

Lemma val_snoc w l x : val w (l ++ [x]) = val w l * 2 ^ w + x.
Proof. unfold val. by rewrite fold_left_app. Qed.

Lemma val_inj w l l' :
  0 <= w -> digits w l -> digits w l' -> length l = length l' -> val w l = val w l' -> l = l'.
Proof.
  intros Hw. revert l'. induction l as [|x l IH] using rev_ind; intros l' Hd Hd' Hlen Hv.
  - by destruct l'.
  - destruct l' as [|y l' _] using rev_ind; [rewrite length_app in Hlen; simpl in Hlen; lia|].
    rewrite !val_snoc in Hv. unfold digits in *. rewrite !Forall_app, !Forall_singleton in *.
    destruct Hd as [Hd Hx], Hd' as [Hd' Hy]. rewrite !length_app in Hlen. simpl in Hlen.
    assert (val w l = val w l' /\ x = y) as [Hv' ->].
    { pose proof (Z.div_mod_unique (2 ^ w) (val w l) (val w l') x y). lia. }
    f_equal. apply IH; [done | done | lia | done].
Qed.

Section Regroup.
Context (from to : Z) (Hfrom : 1 <= from <= 8) (Hto : 1 <= to <= 8).

Abbreviation maxv := (Z.shiftl 1 to - 1).
Abbreviation maxAcc := (Z.shiftl 1 (from + to - 1) - 1).

Lemma land_max a n : 0 <= n -> Z.land a (Z.shiftl 1 n - 1) = a mod 2 ^ n.
Proof.
  intros Hn. rewrite Z.shiftl_mul_pow2, Z.mul_1_l by done.
  rewrite Z.sub_1_r, <- Z.ones_equiv. by apply Z.land_ones.
Qed.

Lemma pow_small n : 0 <= n <= 16 -> 0 < 2 ^ n <= 2 ^ 16.
Proof. intros. split; [apply Z.pow_pos_nonneg; lia | apply Z.pow_le_mono_r; lia]. Qed.

Lemma small_u8 a : u8 (a mod 2 ^ to) = a mod 2 ^ to.
Proof using Hto.
  apply u8_small. pose proof (Z.mod_pos_bound a (2 ^ to) ltac:(apply pow_small; lia)).
  assert (2 ^ to <= 2 ^ 8) by (apply Z.pow_le_mono_r; lia). unfold is_byte. lia.
Qed.

(** [((acc << from) | v) & maxAcc] keeps the low bits exactly. *)
Lemma acc_step acc v bits :
  0 <= acc < 2 ^ (from + to - 1) -> 0 <= v < 2 ^ from -> 0 <= bits < to ->
  let acc' := Z.land (Z.lor (u64 (Z.shiftl acc from)) v) maxAcc in
  0 <= acc' < 2 ^ (from + to - 1) /\
  acc' mod 2 ^ (bits + from) = (acc mod 2 ^ bits) * 2 ^ from + v.
Proof using Hfrom Hto.
  intros Ha Hv Hb acc'.
  pose proof (pow_small from ltac:(lia)). pose proof (pow_small bits ltac:(lia)).
  pose proof (pow_small (from + to - 1) ltac:(lia)) as Hp.
  assert (Hacc' : acc' = (acc * 2 ^ from + v) mod 2 ^ (from + to - 1)).
  { unfold acc'. rewrite land_max by lia. f_equal.
    rewrite u64_small by (rewrite Z.shiftl_mul_pow2 by lia; unfold is_u64; nia).
    rewrite Z.lor_comm, lor_shiftl_add by lia. lia. }
  rewrite Hacc'. split; [apply Z.mod_pos_bound; lia|].
  assert (Hsplit : 2 ^ (from + to - 1) = 2 ^ (bits + from) * 2 ^ (to - 1 - bits))
    by (rewrite <- Z.pow_add_r by lia; f_equal; lia).
  assert (0 < 2 ^ (bits + from)) by (apply pow_small; lia).
  rewrite Z.mod_mod_divide by (rewrite Hsplit; apply Z.divide_factor_l).
  rewrite (Z.add_comm bits), Z.pow_add_r by lia. rewrite Z.rem_mul_r by lia.
  rewrite Z.add_comm, Z.div_add_l, (Z.div_small v), Z.add_0_r by lia.
  rewrite (Z.add_comm (acc * _)), Z_mod_plus_full, (Z.mod_small v) by lia. lia.
Qed.

Definition residue (acc bits : Z) (ret : bytes) : Z := val to ret * 2 ^ bits + acc mod 2 ^ bits.

Lemma drain_spec fuel acc bits ret :
  0 <= bits < Z.of_nat fuel + to -> digits to ret ->
  exists bits' ret', drain fuel acc to maxv bits ret = (bits', ret') /\
    0 <= bits' < to /\ digits to ret' /\ len ret' * to + bits' = len ret * to + bits /\
    residue acc bits' ret' = residue acc bits ret.
Proof using Hto.
  revert bits ret. induction fuel as [|fuel IH]; intros bits ret Hb Hd; simpl.
  - exists bits, ret. split_and!; done || lia.
  - destruct (Z.leb_spec to bits) as [Hle|Hlt]; [|exists bits, ret; split_and!; done || lia].
    rewrite land_max, Z.shiftr_div_pow2, small_u8 by lia.
    set (x := (acc / 2 ^ (bits - to)) mod 2 ^ to).
    assert (Hpt : 0 < 2 ^ to) by (apply pow_small; lia).
    assert (Hpb : 0 < 2 ^ (bits - to)) by (apply Z.pow_pos_nonneg; lia).
    assert (Hx : 0 <= x < 2 ^ to) by (apply Z.mod_pos_bound; lia).
    destruct (IH (bits - to) (ret ++ [x])) as (bits' & ret' & -> & Hb' & Hd' & Hl & Hr); [lia| |].
    { apply Forall_app. split; [done | by apply Forall_singleton]. }
    exists bits', ret'. split_and!; [done | lia | lia | done | |].
    + rewrite Hl, len_app. unfold len at 2. simpl length. lia.
    + rewrite Hr. unfold residue. rewrite val_snoc.
      assert (Hpow : 2 ^ bits = 2 ^ (bits - to) * 2 ^ to) by (rewrite <- Z.pow_add_r by lia; f_equal; lia).
      rewrite Hpow, (Z.rem_mul_r acc) by lia. fold x. lia.
Qed.

Lemma convert_loop_spec data acc bits ret :
  0 <= acc < 2 ^ (from + to - 1) -> 0 <= bits < to -> digits to ret -> digits from data ->
  exists acc' bits' ret', convert_loop data from to maxv maxAcc acc bits ret = Ok (acc', bits', ret') /\
    0 <= acc' < 2 ^ (from + to - 1) /\ 0 <= bits' < to /\ digits to ret' /\
    len ret' * to + bits' = len ret * to + bits + len data * from /\
    residue acc' bits' ret' = fold_left (fun a x => a * 2 ^ from + x) data (residue acc bits ret).
Proof using Hfrom Hto.
  intros Ha Hb Hd Hdata. revert acc bits ret Ha Hb Hd.
  induction Hdata as [|v data Hv _ IH]; intros acc bits ret Ha Hb Hd.
  - exists acc, bits, ret. cbn [fold_left]. split_and!; try (done || lia).
    unfold len at 3. simpl. lia.
  - cbn [convert_loop fold_left]. rewrite Z.shiftr_div_pow2, Z.div_small by lia. cbn [Z.eqb negb].
    destruct (acc_step acc v bits Ha Hv Hb) as [Ha' Hm]. cbv zeta in Ha', Hm.
    set (acc1 := Z.land (Z.lor _ v) maxAcc) in *.
    destruct (drain_spec (Z.to_nat (bits + from)) acc1 (bits + from) ret) as (bits1 & ret1 & -> & Hb1 & Hd1 & Hl1 & Hr1);
      [lia | done |].
    destruct (IH acc1 bits1 ret1) as (acc' & bits' & ret' & -> & Ha2 & Hb2 & Hd2 & Hl2 & Hr2); [done..|].
    exists acc', bits', ret'. split_and!; try (done || lia).
    + rewrite Hl2, Hl1, len_cons. lia.
    + rewrite Hr2, Hr1. f_equal. unfold residue. rewrite Hm, (Z.pow_add_r 2 bits) by lia. lia.
Qed.

End Regroup.

Section RegroupEnds.
Context (from to : Z) (Hfrom : 1 <= from <= 8) (Hto : 1 <= to <= 8).

(** The last group: the remaining bits, shifted up. *)
Lemma last_group acc bits :
  0 <= acc < 2 ^ (from + to - 1) -> 0 <= bits < to ->
  Z.land (u64 (Z.shiftl acc (to - bits))) (Z.shiftl 1 to - 1) = (acc mod 2 ^ bits) * 2 ^ (to - bits).
Proof using Hfrom Hto.
  intros Ha Hb. rewrite land_max by lia.
  pose proof (pow_small (from + to - 1) ltac:(lia)). pose proof (pow_small (to - bits) ltac:(lia)).
  pose proof (pow_small bits ltac:(lia)).
  rewrite Z.shiftl_mul_pow2, u64_small by (lia || (unfold is_u64; nia)).
  replace (2 ^ to) with (2 ^ bits * 2 ^ (to - bits)) by (rewrite <- Z.pow_add_r by lia; f_equal; lia).
  apply Z.mul_mod_distr_r; lia.
Qed.

Lemma convertBits_loop data :
  digits from data ->
  exists acc bits ret,
    convert_loop data from to (Z.shiftl 1 to - 1) (Z.shiftl 1 (from + to - 1) - 1) 0 0 [] = Ok (acc, bits, ret) /\
    0 <= acc < 2 ^ (from + to - 1) /\ 0 <= bits < to /\ digits to ret /\
    len ret * to + bits = len data * from /\
    val to ret * 2 ^ bits + acc mod 2 ^ bits = val from data.
Proof using Hfrom Hto.
  intros Hd. pose proof (pow_small (from + to - 1) ltac:(lia)).
  destruct (convert_loop_spec from to Hfrom Hto data 0 0 []) as (acc & bits & ret & E & Ha & Hb & Hr & Hl & Hv); [lia | lia | constructor | done |].
  exists acc, bits, ret. split_and!; try (done || lia).
Qed.

(** With padding, the groups hold the number shifted up by the padding. *)
Lemma convertBits_pad data :
  digits from data ->
  exists ret p, convertBits data from to true = Ok ret /\ digits to ret /\ 0 <= p < to /\
    len ret * to = len data * from + p /\ val to ret = val from data * 2 ^ p.
Proof using Hfrom Hto.
  intros Hd. destruct (convertBits_loop data Hd) as (acc & bits & ret & E & Ha & Hb & Hr & Hl & Hv).
  unfold convertBits. rewrite E. csimpl. destruct (Z.ltb_spec 0 bits) as [Hpos|Hz].
  - rewrite last_group by done. pose proof (pow_small bits ltac:(lia)) as Hpb.
    pose proof (pow_small (to - bits) ltac:(lia)). pose proof (Z.mod_pos_bound acc (2 ^ bits) ltac:(lia)).
    assert (Hpow : 2 ^ to = 2 ^ bits * 2 ^ (to - bits)) by (rewrite <- Z.pow_add_r by lia; f_equal; lia).
    assert (2 ^ to <= 2 ^ 8) by (apply Z.pow_le_mono_r; lia).
    rewrite u8_small by (unfold is_byte; nia).
    exists (ret ++ [acc mod 2 ^ bits * 2 ^ (to - bits)]), (to - bits). split_and!; [done | | lia | lia | |].
    + apply Forall_app. split; [done|]. apply Forall_singleton. nia.
    + rewrite len_app. unfold len at 2. simpl length. lia.
    + rewrite val_snoc, <- Hv, Hpow. lia.
  - assert (bits = 0) as -> by lia. exists ret, 0. rewrite Z.mod_1_r in Hv. split_and!; try done; lia.
Qed.

(** Without padding, the groups regroup a number whose surplus bits are zero. *)
Lemma convertBits_exact data target p :
  digits from data -> digits to target -> 0 <= p < Z.min from to ->
  len data * from = len target * to + p -> val from data = val to target * 2 ^ p ->
  convertBits data from to false = Ok target.
Proof using Hfrom Hto.
  intros Hd Ht Hp Hlen Hval.
  destruct (convertBits_loop data Hd) as (acc & bits & ret & E & Ha & Hb & Hr & Hl & Hv).
  pose proof (pow_small p ltac:(lia)) as Hpp.
  destruct (Z.div_mod_unique to (len ret) (len target) bits p) as [Hlr ->]; [lia..|].
  pose proof (Z.mod_pos_bound acc (2 ^ p) ltac:(lia)).
  destruct (Z.div_mod_unique (2 ^ p) (val to ret) (val to target) (acc mod 2 ^ p) 0) as [Hvr Hm]; [lia..|].
  unfold convertBits. rewrite E. csimpl. rewrite last_group, Hm, Z.mul_0_l by done.
  rewrite (proj2 (Z.leb_gt _ _)) by lia. simpl. f_equal.
  apply (val_inj to); try done; [lia|]. unfold len in Hlr. lia.
Qed.

End RegroupEnds.

Lemma bytes_digits bs : bytes_wf bs <-> digits 8 bs.
Proof. done. Qed.

Lemma convertBits_roundtrip hash :
  bytes_wf hash ->
  exists five, convertBits hash 8 5 true = Ok five /\ digits 5 five /\
    convertBits five 5 8 false = Ok hash.
Proof.
  intros Hw. destruct (convertBits_pad 8 5 ltac:(lia) ltac:(lia) hash Hw) as (five & p & E & Hd & Hp & Hl & Hv).
  exists five. split_and!; [done | done|].
  apply (convertBits_exact 5 8 ltac:(lia) ltac:(lia) five hash p); try done; lia.
Qed.

(** ** The checksum verifies *)

Lemma lxor_mod n a b : 0 <= n -> Z.lxor a b mod 2 ^ n = Z.lxor (a mod 2 ^ n) (b mod 2 ^ n).
Proof.
  intros Hn. apply Z.bits_inj'. intros k Hk.
  rewrite Z.lxor_spec, !Z.testbit_mod_pow2, Z.lxor_spec by done. by destruct (k <? n).
Qed.

Lemma lxor_range n a b : 0 <= n -> 0 <= a < 2 ^ n -> 0 <= b < 2 ^ n -> 0 <= Z.lxor a b < 2 ^ n.
Proof.
  intros Hn Ha Hb. rewrite <- (Z.mod_small a (2 ^ n)), <- (Z.mod_small b (2 ^ n)), <- lxor_mod by done.
  apply Z.mod_pos_bound. lia.
Qed.

Lemma xor_gens_lxor i gens top chk v :
  xor_gens i gens top (Z.lxor chk v) = Z.lxor (xor_gens i gens top chk) v.
Proof.
  revert i chk. induction gens as [|g gens IH]; intros i chk; simpl; [done|].
  rewrite <- IH. f_equal. destruct (_ =? 1); [|done].
  by rewrite !Z.lxor_assoc, (Z.lxor_comm v).
Qed.

Lemma bit_test top i : 0 <= i -> (Z.land (Z.shiftr top i) 1 =? 1) = Z.testbit top i.
Proof.
  intros Hi. replace (Z.testbit top i) with (Z.testbit (Z.shiftr top i) 0)
    by (rewrite Z.shiftr_spec by done; f_equal; lia).
  change 1 with (Z.ones 1) at 1. rewrite Z.land_ones by done. change (2 ^ 1) with 2.
  rewrite Z.bit0_odd, Zmod_odd. by destruct (Z.odd _).
Qed.

Lemma xor_gens_linear i gens a b :
  0 <= i ->
  xor_gens i gens (Z.lxor a b) 0 = Z.lxor (xor_gens i gens a 0) (xor_gens i gens b 0).
Proof.
  revert i. induction gens as [|g gens IH]; intros i Hi; [done|]. cbn [xor_gens].
  rewrite !bit_test, Z.lxor_spec by done.
  assert (E : forall (c : bool) top, xor_gens (i + 1) gens top (if c then Z.lxor 0 g else 0) =
    Z.lxor (xor_gens (i + 1) gens top 0) (if c then g else 0)).
  { intros c top. destruct c; [apply xor_gens_lxor | by rewrite Z.lxor_0_r]. }
  rewrite !E, IH by lia. apply Z.bits_inj'. intros k _. rewrite !Z.lxor_spec.
  destruct (Z.testbit a i), (Z.testbit b i); simpl; rewrite ?Z.bits_0; by
    destruct (Z.testbit (xor_gens (i + 1) gens a 0) k), (Z.testbit (xor_gens (i + 1) gens b 0) k), (Z.testbit g k).
Qed.

Lemma xor_gens_range i gens top chk :
  Forall (fun g => 0 <= g < 2 ^ 30) gens -> 0 <= chk < 2 ^ 30 -> 0 <= xor_gens i gens top chk < 2 ^ 30.
Proof.
  intros Hg. revert i chk. induction Hg as [|g gens Hg _ IH]; intros i chk Hc; simpl; [done|].
  apply IH. destruct (_ =? 1); [by apply lxor_range | done].
Qed.

Lemma low_part chk : u32 (Z.shiftl (Z.land chk 0x1ffffff) 5) = chk mod 2 ^ 25 * 2 ^ 5.
Proof.
  change 0x1ffffff with (Z.ones 25). rewrite Z.land_ones, Z.shiftl_mul_pow2 by lia.
  pose proof (Z.mod_pos_bound chk (2 ^ 25) ltac:(lia)). apply u32_small. unfold is_u32. lia.
Qed.

Lemma step_value chk v : polymod_step chk v = Z.lxor (polymod_step chk 0) v.
Proof. unfold polymod_step. by rewrite Z.lxor_0_r, xor_gens_lxor. Qed.

Lemma step_linear a b : polymod_step (Z.lxor a b) 0 = Z.lxor (polymod_step a 0) (polymod_step b 0).
Proof.
  unfold polymod_step. rewrite !Z.lxor_0_r, Z.shiftr_lxor.
  assert (E : forall top chk, xor_gens 0 gen top chk = Z.lxor chk (xor_gens 0 gen top 0)).
  { intros top chk. rewrite <- (Z.lxor_0_l chk) at 1. by rewrite xor_gens_lxor, Z.lxor_comm. }
  rewrite !(E _ (u32 _)), xor_gens_linear by lia. rewrite !low_part, <- !Z.shiftl_mul_pow2 by lia.
  rewrite lxor_mod, Z.shiftl_lxor by lia.
  rewrite !Z.lxor_assoc. f_equal. rewrite <- !Z.lxor_assoc. f_equal. apply Z.lxor_comm.
Qed.

Lemma step_small t : 0 <= t < 2 ^ 25 -> polymod_step t 0 = t * 2 ^ 5.
Proof.
  intros Ht. unfold polymod_step. rewrite Z.lxor_0_r, low_part, Z.mod_small by done.
  by rewrite Z.shiftr_div_pow2, Z.div_small by lia.
Qed.

Lemma step_range chk v : 0 <= v < 2 ^ 30 -> 0 <= polymod_step chk v < 2 ^ 30.
Proof.
  intros Hv. apply xor_gens_range; [by_decision|]. apply lxor_range; [lia| |done].
  rewrite low_part. pose proof (Z.mod_pos_bound chk (2 ^ 25) ltac:(lia)). lia.
Qed.

Lemma polymod_range values chk :
  0 <= chk < 2 ^ 30 -> Forall (fun v => 0 <= v < 2 ^ 30) values ->
  0 <= fold_left polymod_step values chk < 2 ^ 30.
Proof.
  intros Hc Hv. revert chk Hc. induction Hv as [|v values Hv _ IH]; intros chk Hc; simpl; [done|].
  by apply IH, step_range.
Qed.

(** Up to six digits enter the state as a number. *)
Lemma polymod_digits vs s t :
  digits 5 vs -> 0 <= t < 2 ^ (30 - 5 * len vs) -> (length vs <= 6)%nat ->
  fold_left polymod_step vs (Z.lxor s t) =
  Z.lxor (fold_left polymod_step (replicate (length vs) 0) s)
    (fold_left (fun a x => a * 2 ^ 5 + x) vs t).
Proof.
  intros Hd. revert s t. induction Hd as [|v vs Hv Hd IH]; intros s t Ht Hl; [done|].
  cbn [fold_left length replicate]. rewrite len_cons in Ht. cbn [length] in Hl.
  pose proof (len_nonneg vs). assert (len vs <= 5) by (unfold len; lia).
  assert (Ht' : t < 2 ^ 25).
  { apply Z.lt_le_trans with (2 ^ (30 - 5 * (1 + len vs))); [lia | apply Z.pow_le_mono_r; lia]. }
  rewrite step_value, step_linear, (step_small t), Z.lxor_assoc by lia.
  replace (Z.lxor (t * 2 ^ 5) v) with (t * 2 ^ 5 + v).
  - apply IH; [|lia]. replace (30 - 5 * len vs) with (30 - 5 * (1 + len vs) + 5) by lia.
    rewrite Z.pow_add_r by lia. lia.
  - rewrite <- Z.shiftl_mul_pow2, Z.add_comm by lia.
    replace (v + Z.shiftl t 5) with (Z.lor v (Z.shiftl t 5))
      by (rewrite lor_shiftl_add, Z.shiftl_mul_pow2 by lia; done).
    rewrite <- Z.lxor_lor, Z.lxor_comm; [done|]. apply Z.bits_inj'. intros k Hk.
    rewrite Z.land_spec, Z.bits_0. destruct (Z.lt_ge_cases k 5).
    + by rewrite Z.shiftl_spec_low, andb_false_r.
    + rewrite <- (Z.mod_small v (2 ^ 5)), Z.testbit_mod_pow2, (proj2 (Z.ltb_ge _ _)) by lia. done.
Qed.

Lemma expand_small hrp : bytes_wf hrp -> Forall (fun v => 0 <= v < 2 ^ 30) (bech32HrpExpand hrp).
Proof.
  intros Hw. unfold bech32HrpExpand. rewrite !Forall_app. split_and!.
  - apply Forall_fmap. eapply Forall_impl; [exact Hw|]. intros c Hc. unfold is_byte in Hc. simpl.
    rewrite Z.shiftr_div_pow2 by lia. split; [apply Z.div_pos; lia|].
    apply Z.le_lt_trans with c; [apply Z.div_le_upper_bound; lia | lia].
  - apply Forall_singleton. lia.
  - apply Forall_fmap, Forall_true. intros c. simpl. change 31 with (Z.ones 5).
    rewrite Z.land_ones by lia. pose proof (Z.mod_pos_bound c (2 ^ 5) ltac:(lia)). lia.
Qed.

Definition split30 (p : Z) : bytes :=
  (fun i => u8 (Z.land (Z.shiftr p (5 * (5 - i))) 31)) <$> [0; 1; 2; 3; 4; 5].

Lemma split30_spec p :
  0 <= p < 2 ^ 30 ->
  digits 5 (split30 p) /\ fold_left (fun a x => a * 2 ^ 5 + x) (split30 p) 0 = p.
Proof.
  intros Hp. assert (E : forall k, 0 <= k ->
    u8 (Z.land (Z.shiftr p k) 31) = (p / 2 ^ k) mod 2 ^ 5).
  { intros k Hk. change 31 with (Z.ones 5). rewrite Z.land_ones, Z.shiftr_div_pow2 by lia.
    pose proof (Z.mod_pos_bound (p / 2 ^ k) (2 ^ 5) ltac:(lia)). apply u8_small. unfold is_byte. lia. }
  unfold split30. csimpl. rewrite !E by lia. split.
  - repeat (apply Forall_cons; split; [apply Z.mod_pos_bound; lia|]). constructor.
  - simpl Z.mul. simpl Z.sub. rewrite Z.pow_0_r, Z.div_1_r.
    change (2 ^ (5 * 5)) with (2 ^ 5 * 2 ^ 20). change (2 ^ 25) with 33554432. change (2 ^ 20) with 1048576.
    change (2 ^ 15) with 32768. change (2 ^ 10) with 1024. change (2 ^ 5) with 32.
    change (2 ^ 30) with 1073741824 in Hp. Z.to_euclidean_division_equations. lia.
Qed.

Lemma checksum_split hrp data :
  bech32CreateChecksum hrp data =
  split30 (Z.lxor (bech32Polymod ((bech32HrpExpand hrp ++ data) ++ replicate 6 0)) 1).
Proof. done. Qed.

(** The checksum of any payload verifies. *)
Lemma checksum_verifies hrp data :
  bytes_wf hrp -> digits 5 data ->
  digits 5 (bech32CreateChecksum hrp data) /\
  bech32VerifyChecksum hrp (data ++ bech32CreateChecksum hrp data) = true.
Proof.
  intros Hw Hd. rewrite checksum_split. set (c := bech32Polymod _).
  assert (Hv : Forall (fun v => 0 <= v < 2 ^ 30) (bech32HrpExpand hrp ++ data)).
  { apply Forall_app. split; [by apply expand_small|].
    eapply Forall_impl; [exact Hd|]. intros v ?; simpl in *; lia. }
  assert (Hc : 0 <= c < 2 ^ 30).
  { apply polymod_range; [lia|]. apply Forall_app. split; [done|]. by apply Forall_replicate. }
  pose proof (lxor_range 30 c 1 ltac:(lia) Hc ltac:(lia)) as Hp.
  destruct (split30_spec _ Hp) as [Hds Hval]. split; [done|].
  unfold bech32VerifyChecksum, bech32Polymod. rewrite app_assoc, fold_left_app.
  set (s := fold_left polymod_step (bech32HrpExpand hrp ++ data) 1).
  rewrite <- (Z.lxor_0_r s), polymod_digits; [|done|done|done].
  rewrite Hval. change (length (split30 _)) with 6%nat.
  assert (Es : fold_left polymod_step (replicate 6 0) s = c)
    by (symmetry; apply fold_left_app).
  rewrite Es, <- Z.lxor_assoc, Z.lxor_nilpotent. done.
Qed.

(** ** Round trip *)

Lemma charset_roundtrip p :
  0 <= p < 2 ^ 5 ->
  let c := nth (Z.to_nat p) bech32Charset 0 in
  IndexByte bech32Charset c = Some p /\ lower_byte c = c /\ c <> 49.
Proof.
  intros Hp. cut (Forall (fun p => IndexByte bech32Charset (nth (Z.to_nat p) bech32Charset 0) = Some p /\
    lower_byte (nth (Z.to_nat p) bech32Charset 0) = nth (Z.to_nat p) bech32Charset 0 /\
    nth (Z.to_nat p) bech32Charset 0 <> 49) (Z.of_nat <$> seq 0 32)).
  { intros H. rewrite Forall_forall in H. apply H. apply list_elem_of_fmap. exists (Z.to_nat p).
    split; [lia|]. apply elem_of_seq. lia. }
  by_decision.
Qed.

#[local] Opaque bech32Charset.

Definition chars (data : bytes) : bytes := (fun p => nth (Z.to_nat p) bech32Charset 0) <$> data.

Lemma write_chars_Ok data b : digits 5 data -> write_chars data b = Ok (b ++ chars data).
Proof.
  intros Hd. revert b. induction Hd as [|p data Hp _ IH]; intros b; csimpl; [by rewrite app_nil_r|].
  rewrite (proj2 (Z.leb_gt _ _)) by lia. rewrite IH, <- app_assoc. done.
Qed.

Lemma read_chars_Ok data : digits 5 data -> read_chars (chars data) = Ok data.
Proof.
  induction 1 as [|p data Hp _ IH]; [done|]. csimpl.
  destruct (charset_roundtrip p Hp) as (-> & _ & _). rewrite IH. csimpl.
  rewrite u8_small by (unfold is_byte; lia). done.
Qed.

Lemma chars_lower data : digits 5 data -> ToLower (chars data) = chars data /\ 49 ∉ chars data.
Proof.
  induction 1 as [|p data Hp _ [IH1 IH2]]; [split; [done | apply not_elem_of_nil]|].
  destruct (charset_roundtrip p Hp) as (_ & Hl & Hne). split.
  - unfold ToLower in *. csimpl. by rewrite Hl, IH1.
  - csimpl. rewrite not_elem_of_cons. split; [congruence | done].
Qed.

Lemma bech32_roundtrip hrp data s :
  bytes_wf hrp -> ToLower hrp = hrp -> digits 5 data ->
  bech32Encode hrp data = Ok s -> bech32Decode s = Ok (hrp, data).
Proof.
  intros Hw Hlow Hd. unfold bech32Encode. destruct hrp as [|c0 hrp0] eqn:Ehrp; [done|].
  rewrite <- Ehrp in *. assert (Hne : 0 < len hrp) by (rewrite Ehrp, len_cons; pose proof (len_nonneg hrp0); lia).
  clear Ehrp. destruct (checksum_verifies hrp data Hw Hd) as [Hdc Hver].
  assert (Hall : digits 5 (data ++ bech32CreateChecksum hrp data)) by by apply Forall_app.
  rewrite write_chars_Ok, Hlow by done. intros [= <-].
  destruct (chars_lower _ Hall) as [Hcl Hcn].
  set (body := chars (data ++ _)) in *.
  assert (Hlen : length body = (length data + 6)%nat).
  { unfold body, chars. rewrite length_fmap, length_app. done. }
  assert (Hs : ToLower ((hrp ++ [49]) ++ body) = (hrp ++ [49]) ++ body).
  { unfold ToLower in *. rewrite !fmap_app, Hlow, Hcl. done. }
  unfold bech32Decode. rewrite Hs, bool_decide_true by done. simpl negb. rewrite andb_false_l, orb_false_r.
  assert (Hl8 : len ((hrp ++ [49]) ++ body) = len hrp + 7 + len data).
  { rewrite !len_app. unfold len. rewrite Hlen. simpl length. lia. }
  pose proof (len_nonneg data).
  rewrite Hl8, (proj2 (Z.ltb_ge _ 8)) by lia. 
  assert (Hsplit : split_last 49 ((hrp ++ [49]) ++ body) = Some (hrp, body))
    by (rewrite <- app_assoc; by apply split_last_app).
  cbv zeta. rewrite Hsplit, (proj2 (Z.leb_gt _ _)), (proj2 (Z.ltb_ge _ _)) by lia.
  simpl orb. cbv iota. unfold body. rewrite read_chars_Ok by done. csimpl. rewrite Hver. simpl. do 2 f_equal.
  rewrite length_app. change (length (bech32CreateChecksum hrp data)) with 6%nat.
  replace (length data + 6 - 6)%nat with (length data) by lia. apply take_app_length.
Qed.

(** Whatever is regrouped consists of bytes. *)
Lemma drain_wf fuel acc to maxv bits ret :
  bytes_wf ret -> bytes_wf (drain fuel acc to maxv bits ret).2.
Proof.
  revert bits ret. induction fuel as [|fuel IH]; intros bits ret Hr; simpl; [done|].
  destruct (to <=? bits); [|done]. apply IH, bytes_wf_app. split; [done|].
  constructor; [apply u8_range | by constructor].
Qed.

Lemma convert_loop_wf data from to maxv maxAcc acc bits ret r :
  bytes_wf ret -> convert_loop data from to maxv maxAcc acc bits ret = Ok r -> bytes_wf r.2.
Proof.
  revert acc bits ret. induction data as [|v data IH]; simpl; intros acc bits ret Hr H; [by inv_ok|].
  destruct (negb _); [done|].
  destruct (drain _ _ _ _ _ _) as [bits' ret'] eqn:E. eapply IH; [|exact H].
  change ret' with (bits', ret').2. rewrite <- E. by apply drain_wf.
Qed.

Lemma DecodeAddress_wf addr prefix h : DecodeAddress addr prefix = Ok h -> bytes_wf h.
Proof.
  unfold DecodeAddress. intros ([hrp data] & _ & H)%bind_Ok. inv_ok. unfold convertBits in H.
  apply bind_Ok in H as ([[acc bits] ret] & Hc & H). inv_ok.
  apply convert_loop_wf in Hc; [done | by constructor].
Qed.

(** ** Properties *)

(** Decoding the address that was encoded from a key hash under a lower-case prefix
    returns the hash, and its locking script is the script of the hash. *)
Theorem address_roundtrip hash prefix addr :
  bytes_wf hash -> bytes_wf prefix -> ToLower prefix = prefix ->
  address_of_hash hash prefix = Ok addr ->
  DecodeAddress addr prefix = Ok hash /\
  LockingScriptForAddress addr prefix = Ok (ScriptForPubKeyHash hash).
Proof.
  intros Hh Hp Hl. unfold address_of_hash.
  destruct (convertBits_roundtrip hash Hh) as (five & -> & Hd & Hback). csimpl. intros H.
  apply bech32_roundtrip in H; [|done..].
  assert (E : DecodeAddress addr prefix = Ok hash).
  { unfold DecodeAddress. rewrite H. csimpl. by rewrite bool_decide_true. }
  split; [done|]. unfold LockingScriptForAddress. by rewrite E.
Qed.
