(* ===== verification/Chain.v ===== *)
(** * Chain: the chain manager

    Models [chain/chain.go]: initialising the chain, reading its tip, building
    and mining blocks, accepting blocks with the fork choice, and rolling back.
    The manager owns the store and shares the mempool with the rest of the node;
    both are part of its state.  The clock, the context and the order of map
    visits are arguments.

    Three loops of the source have no bound of their own (the search of the
    miner, the walk of [reorg] and [RollbackToHeight]): they take fuel, and
    [None] means still running. *)

From S2P Require Import Prelude Encoding Sha256 Params Tx Block Consensus Pebble Storage.
From S2P Require Import Mempool Miner Bech32.

Record Manager := mkManager {
  mg_Store : DB;
  mg_Network : Network;
  mg_Mempool : option Mempool;
  mg_Verifier : SignatureVerifier;
}.

Record TipInfo := mkTipInfo {
  ti_Hash : bytes;
  ti_Height : Z;
  ti_Bits : Z;
  ti_Timestamp : Z;
}.

Record MiningTemplate := mkTemplate {
  mt_PreviousHash : bytes;
  mt_Height : Z;
  mt_Bits : Z;
  mt_Target : bytes;
  mt_Transactions : list bytes;
  mt_Coinbase : Z;
}.

Record MiningSummary := mkSummary {
  ms_Blocks : Z;
  ms_First : TipInfo;
  ms_Last : TipInfo;
}.

(** [big.Int.Text(16)] *)
Definition big_Text16 (z : Z) : bytes :=
  let abs := hex_encode (be_bytes (Z.to_nat (byte_size (Z.abs z))) (Z.abs z)) in
  (if z <? 0 then [45] else []) ++
  (if z =? 0 then str "0" else match abs with 48 :: s => s | s => s end).

Definition set_store (m : Manager) (d : DB) : Manager :=
  mkManager d (mg_Network m) (mg_Mempool m) (mg_Verifier m).

(** [if m.Mempool != nil { m.Mempool.RemoveMinedBlock(b) }] *)
Definition remove_mined {HF : HashFunction} (m : Manager) (b : Block) : Manager :=
  mkManager (mg_Store m) (mg_Network m) (RemoveMinedBlock b <$> mg_Mempool m) (mg_Verifier m).

Section Chain.
Context {HF : HashFunction} {UJ : UTXOJson}.

(** ** Reading the chain *)

Definition tip_info (hash : bytes) (b : Block) : TipInfo :=
  let h := blk_Header b in mkTipInfo (hex_encode hash) (hdr_Height h) (hdr_Bits h) (hdr_Timestamp h).

Definition chain_Tip (m : Manager) : result TipInfo :=
  match Tip (mg_Store m) with
  | Err _ => Err ErrChainUninitialized
  | Ok hash => b ← GetBlock hash (mg_Store m); Ok (tip_info hash b)
  end.

Definition TipBlock (d : DB) : result Block :=
  match Tip d with
  | Err _ => Err ErrChainUninitialized
  | Ok hash => GetBlock hash d
  end.

Definition chain_HeaderByHeight (d : DB) : HeaderByHeight := fun height =>
  hash ← BlockHashByHeight height d; b ← GetBlock hash d; Ok (blk_Header b).

Definition NextBits (m : Manager) (prev : BlockHeader) : result Z :=
  ExpectedBits prev (mg_Network m) (chain_HeaderByHeight (mg_Store m)).

(** ** Initialisation *)

Definition InitGenesis (fuel : nat) (ctx : nat -> bool) (m : Manager)
    : option (Manager * result Block) :=
  match Tip (mg_Store m) with
  | Ok h => Some (m, GetBlock h (mg_Store m))
  | Err _ =>
      let g := CreateGenesisBlock (mg_Network m) in
      match Mine fuel ctx 0 g (PowLimit (mg_Network m)) with
      | None => None
      | Some (false, _) => Some (m, Err ErrCanceled)
      | Some (true, g) =>
          let '(d, r) := ApplyBlock g (mg_Store m) in
          match r with
          | Err e => Some (set_store m d, Err e)
          | Ok _ =>
              let gh := blk_Hash g in
              let '(d, _) := PutTotalWork gh (WorkForBits (hdr_Bits (blk_Header g))) d in
              Some (set_store m d, Ok g)
          end
      end
  end.

(** ** Templates *)

Definition coinbase_message (now : Z) : bytes := str "NEVEL mined at " ++ big_String now.

(** [now] is the clock when the coinbase is built, [now'] when the block is. *)
Definition BuildTemplate (now now' : Z) (range : MapOrder) (minerScript : bytes) (m : Manager)
    : result (Block * MiningTemplate) :=
  prev ← TipBlock (mg_Store m);
  let prevHash := blk_Hash prev in
  let height := u64 (hdr_Height (blk_Header prev) + 1) in
  bits ← NextBits m (blk_Header prev);
  let txs := match mg_Mempool m with Some mp => Snapshot range mp | None => [] end in
  let coinbaseValue := BlockReward height in
  let coinbase := NewCoinbase (coinbase_message now) coinbaseValue minerScript in
  let block := NewBlock now' prevHash height bits (coinbase :: txs) in
  let hashes := (fun t => hex_encode (tx_Hash t)) <$> txs in
  let target := CompactToBig bits in
  Ok (block, mkTemplate (hex_encode prevHash) height bits (big_Text16 target) hashes coinbaseValue).

(** ** Rolling back *)

Fixpoint RollbackToHeight (fuel : nat) (height : Z) (d : DB) : option (DB * result unit) :=
  match fuel with
  | O => None
  | S fuel =>
      match TipBlock d with
      | Err e => Some (d, Err e)
      | Ok tip =>
          if hdr_Height (blk_Header tip) <=? height then Some (d, Ok tt)
          else
            match DisconnectTip d with
            | (d, Err e) => Some (d, Err e)
            | (d, Ok _) => RollbackToHeight fuel height d
            end
      end
  end.

(** ** Reorganisation *)

(** The first loop of [reorg]: from [cur] back to the block whose parent the
    height index names.  Returns that block and the side chain, newest first. *)
Fixpoint collect_side (fuel : nat) (d : DB) (cur : Block) (sideChain : list Block)
    : option (result (Block * list Block)) :=
  match fuel with
  | O => None
  | S fuel =>
      if hdr_Height (blk_Header cur) =? 0 then Some (Ok (cur, sideChain))
      else
        match BlockHashByHeight (u64 (hdr_Height (blk_Header cur) - 1)) d with
        | Err _ => Some (Err (Errorf "reorg: missing height"))
        | Ok mainHash =>
            if bool_decide (mainHash = hdr_PrevHash (blk_Header cur)) then Some (Ok (cur, sideChain))
            else
              match GetBlock (hdr_PrevHash (blk_Header cur)) d with
              | Err _ => Some (Err (Errorf "reorg: missing side block"))
              | Ok parentBlock => collect_side fuel d parentBlock (sideChain ++ [parentBlock])
              end
        end
  end.

(** The work of a block on top of the stored work of its parent. *)
Definition total_work_of (b : Block) (d : DB) : Z :=
  let work := WorkForBits (hdr_Bits (blk_Header b)) in
  if 0 <? hdr_Height (blk_Header b) then
    match TotalWork (hdr_PrevHash (blk_Header b)) d with
    | Ok pw => work + pw
    | Err _ => work
    end
  else work.

(** The second loop, over the side chain oldest first. *)
Fixpoint apply_side (blocks : list Block) (d : DB) : DB * result unit :=
  match blocks with
  | [] => (d, Ok tt)
  | b :: blocks =>
      let '(d, r) := ApplyBlock b d in
      match r with
      | Err _ => (d, Err (Errorf "reorg apply"))
      | Ok _ =>
          let bh := blk_Hash b in
          let '(d, r) := PutTotalWork bh (total_work_of b d) d in
          match r with
          | Err e => (d, Err e)
          | Ok _ => apply_side blocks d
          end
      end
  end.

Definition reorg (fuel : nat) (newTip : Block) (m : Manager) : option (Manager * result unit) :=
  let d := mg_Store m in
  match collect_side fuel d newTip [newTip] with
  | None => None
  | Some (Err e) => Some (m, Err e)
  | Some (Ok (cur, sideChain)) =>
      let h := hdr_Height (blk_Header cur) in
      let forkHeight := if h =? 0 then 0 else u64 (h - 1) in
      match RollbackToHeight fuel forkHeight d with
      | None => None
      | Some (d, Err _) => Some (set_store m d, Err (Errorf "reorg rollback"))
      | Some (d, Ok _) =>
          let '(d, r) := apply_side (rev sideChain) d in
          match r with
          | Err e => Some (set_store m d, Err e)
          | Ok _ => Some (fold_left remove_mined sideChain (set_store m d), Ok tt)
          end
      end
  end.

(** ** Accepting a block *)

(** [prevHeader]: nil for a block of height zero. *)
Definition previous_header (block : Block) (d : DB) : result (option BlockHeader) :=
  if 0 <? hdr_Height (blk_Header block) then
    match GetBlock (hdr_PrevHash (blk_Header block)) d with
    | Err _ => Err (Errorf "previous block not found")
    | Ok prev => Ok (Some (blk_Header prev))
    end
  else Ok None.

Definition validate_block (now : Z) (block : Block) (m : Manager) : result unit :=
  let d := mg_Store m in
  fail_if is_ok (GetBlock (blk_Hash block) d) with Errorf "block already known" ;;
  prevHeader ← previous_header block d;
  _ ← ValidateBlockHeaderWithDifficulty now block prevHeader (mg_Network m) (chain_HeaderByHeight d);
  ValidateBlockTransactions block (Get d) (mg_Verifier m).

Definition ValidateAndApplyBlock (fuel : nat) (now : Z) (block : Block) (m : Manager)
    : option (Manager * result unit) :=
  let blockHash := blk_Hash block in
  let d := mg_Store m in
  match validate_block now block m with
  | Err e => Some (m, Err e)
  | Ok _ =>
      let incomingWork := total_work_of block d in
      match Tip d with
      | Err _ =>
          let '(d, r) := ApplyBlock block d in
          match r with
          | Err e => Some (set_store m d, Err e)
          | Ok _ =>
              let '(d, r) := PutTotalWork blockHash incomingWork d in
              Some (set_store m d, r)
          end
      | Ok currentTipHash =>
          let currentWork := match TotalWork currentTipHash d with Ok w => w | Err _ => 0 end in
          if bool_decide (hdr_PrevHash (blk_Header block) = currentTipHash) then
            let '(d, r) := ApplyBlock block d in
            match r with
            | Err e => Some (set_store m d, Err e)
            | Ok _ =>
                let '(d, r) := PutTotalWork blockHash incomingWork d in
                match r with
                | Err e => Some (set_store m d, Err e)
                | Ok _ => Some (remove_mined (set_store m d) block, Ok tt)
                end
            end
          else if incomingWork <=? currentWork then
            let '(d, r) := PutTotalWork blockHash incomingWork d in
            Some (set_store m d, r)
          else reorg fuel block m
      end
  end.

(** ** Mining *)

(** What one round of mining reads of the world: the clock at its three reads,
    the order of the mempool visit, the context. *)
Record Round := mkRound {
  r_coinbase_now : Z;
  r_header_now : Z;
  r_validate_now : Z;
  r_range : MapOrder;
  r_ctx : nat -> bool;
}.

(** One round of the loop: the mined block and its tip. *)
Definition mine_round (fuel : nat) (rd : Round) (script : bytes) (m : Manager)
    : option (Manager * result TipInfo) :=
  match BuildTemplate (r_coinbase_now rd) (r_header_now rd) (r_range rd) script m with
  | Err e => Some (m, Err e)
  | Ok (block, _) =>
      match Mine fuel (r_ctx rd) 0 block (CompactToBig (hdr_Bits (blk_Header block))) with
      | None => None
      | Some (false, _) => Some (m, Err ErrCanceled)
      | Some (true, block) =>
          match ValidateAndApplyBlock fuel (r_validate_now rd) block m with
          | None => None
          | Some (m, Err e) => Some (m, Err e)
          | Some (m, Ok _) => Some (m, Ok (tip_info (blk_Hash block) block))
          end
      end
  end.

(** The loop over [count] blocks.  [onBlock] receives the listed tips. *)
Fixpoint mine_loop (fuel : nat) (rounds : list Round) (script : bytes) (m : Manager)
    (summary : MiningSummary) (tips : list TipInfo)
    : option (Manager * list TipInfo * MiningSummary * result unit) :=
  match rounds with
  | [] => Some (m, tips, summary, Ok tt)
  | rd :: rounds =>
      match mine_round fuel rd script m with
      | None => None
      | Some (m, Err e) => Some (m, tips, summary, Err e)
      | Some (m, Ok tip) =>
          let first := if ms_Blocks summary =? 0 then tip else ms_First summary in
          mine_loop fuel rounds script m
            (mkSummary (u64 (ms_Blocks summary + 1)) first tip) (tips ++ [tip])
      end
  end.

Definition zero_tip : TipInfo := mkTipInfo [] 0 0 0.
Definition empty_summary : MiningSummary := mkSummary 0 zero_tip zero_tip.

(** [count] is the number of rounds. *)
Definition MineBlocksStreaming (fuel : nat) (rounds : list Round) (address : bytes) (m : Manager)
    : option (Manager * list TipInfo * MiningSummary * result unit) :=
  match rounds with
  | [] => Some (m, [], empty_summary, Err (Errorf "blocks must be greater than zero"))
  | _ =>
      match LockingScriptForAddress address (str (AddressPrefix (mg_Network m))) with
      | Err e => Some (m, [], empty_summary, Err e)
      | Ok script => mine_loop fuel rounds script m empty_summary []
      end
  end.

Definition MineBlocks (fuel : nat) (rounds : list Round) (address : bytes) (m : Manager)
    : option (Manager * list TipInfo * result unit) :=
  match rounds with
  | [] => Some (m, [], Err (Errorf "blocks must be greater than zero"))
  | _ =>
      match MineBlocksStreaming fuel rounds address m with
      | None => None
      | Some (m, mined, _, r) => Some (m, mined, r)
      end
  end.

End Chain.

(** ** Rewards of a range of heights *)

(** [for height := firstHeight; height <= lastHeight; height++] *)
Fixpoint rewards_loop (fuel : nat) (height lastHeight total : Z) : option (result Z) :=
  match fuel with
  | O => None
  | S fuel =>
      if height <=? lastHeight then
        match checked_add total (BlockReward height) with
        | Err e => Some (Err e)
        | Ok total => rewards_loop fuel (u64 (height + 1)) lastHeight total
        end
      else Some (Ok total)
  end.

Definition TotalBlockRewards (fuel : nat) (firstHeight lastHeight : Z) : option (result Z) :=
  if lastHeight <? firstHeight then Some (Ok 0) else rewards_loop fuel firstHeight lastHeight 0.
