(* ===== verification/ChainSpec.v ===== *)
(** * ChainSpec: what the chain manager keeps true

    The main chain as a list of blocks, the invariant that relates it to the
    store, and its preservation by every block the manager accepts.  From it,
    for every run of a node that is offered only blocks of positive height within
    the limits of the parser: the supply bound, and the fact that the manager never
    switches branches. *)

From S2P Require Import Prelude Encoding Sha256 Params Tx Block Consensus Pebble Storage StoreSpec.
From S2P Require Import Ledger Mempool Miner Bech32 Chain.

(** ** Local facts about difficulty *)

Lemma ExpectedBits_ext prev net hbh hbh' :
  0 <= hdr_Height prev -> hdr_Height prev + 1 < 2 ^ 64 ->
  (forall k, 0 <= k <= hdr_Height prev -> hbh k = hbh' k) ->
  ExpectedBits prev net hbh = ExpectedBits prev net hbh'.
Proof.
  intros H0 H1 Hext. unfold ExpectedBits.
  destruct (negb _ || _) eqn:E; [done|]. breflect.
  assert (Hn : u64 (hdr_Height prev + 1) = hdr_Height prev + 1) by (apply u64_small; mach).
  rewrite Hn in *.
  assert (Hge : DifficultyWindow <= hdr_Height prev + 1).
  { assert (0 < DifficultyWindow) by done.
    destruct (Z.lt_ge_cases (hdr_Height prev + 1) DifficultyWindow); [|lia].
    rewrite Z.mod_small in * by lia. lia. }
  assert (0 < DifficultyWindow) by done.
  rewrite (u64_small (_ - _)) by mach. rewrite Hext by lia. done.
Qed.

Lemma WorkForBits_nonneg bits : 0 <= WorkForBits bits.
Proof.
  unfold WorkForBits. destruct (Z.leb_spec (CompactToBig bits) 0); [done|].
  unfold big_Div. rewrite (proj2 (Z.ltb_lt _ _)) by lia. apply Z.div_pos; [|lia]. done.
Qed.

Definition chain_work (bs : list Block) : Z :=
  Zsum ((fun b => WorkForBits (hdr_Bits (blk_Header b))) <$> bs).

Lemma chain_work_app bs bs' : chain_work (bs ++ bs') = chain_work bs + chain_work bs'.
Proof. unfold chain_work. by rewrite fmap_app, Zsum_app. Qed.

Lemma chain_work_nonneg bs : 0 <= chain_work bs.
Proof. apply Zsum_nonneg, Forall_fmap, Forall_true. intros. apply WorkForBits_nonneg. Qed.

Lemma chain_work_take bs n : chain_work (take n bs) <= chain_work bs.
Proof.
  rewrite <- (take_drop n bs) at 2. rewrite chain_work_app.
  pose proof (chain_work_nonneg (drop n bs)). lia.
Qed.

Lemma chain_work_take_S bs n b :
  bs !! n = Some b ->
  chain_work (take (S n) bs) = chain_work (take n bs) + WorkForBits (hdr_Bits (blk_Header b)).
Proof.
  intros H. rewrite (take_S_r _ _ b) by done. rewrite chain_work_app.
  unfold chain_work at 2. simpl. lia.
Qed.

(** ** Rewards of a range of heights *)

Lemma subsidy_mono n m : (n <= m)%nat -> subsidy_below n <= subsidy_below m.
Proof.
  induction 1 as [|m _ IH]; [lia|]. simpl. pose proof (audit_reward_range (Z.of_nat m) ltac:(lia)). lia.
Qed.

Lemma rewards_loop_total fuel height last acc :
  0 <= height <= last + 1 -> last < max64 -> 0 <= acc ->
  acc + subsidy_below (Z.to_nat (last + 1)) - subsidy_below (Z.to_nat height) <= max64 ->
  (Z.to_nat (last + 1 - height) < fuel)%nat ->
  rewards_loop fuel height last acc =
  Some (Ok (acc + subsidy_below (Z.to_nat (last + 1)) - subsidy_below (Z.to_nat height))).
Proof.
  revert height acc. induction fuel as [|fuel IH]; intros height acc Hh Hl Ha Hb Hf; [lia|]. simpl.
  destruct (Z.leb_spec height last) as [Hle|Hgt].
  - assert (Hsub : subsidy_below (Z.to_nat (height + 1)) = subsidy_below (Z.to_nat height) + BlockReward height).
    { rewrite Z2Nat.inj_add, Nat.add_1_r by lia. simpl. by rewrite Z2Nat.id by lia. }
    pose proof (subsidy_mono (Z.to_nat (height + 1)) (Z.to_nat (last + 1)) ltac:(lia)).
    pose proof (BlockReward_range height ltac:(lia)).
    assert (E : checked_add acc (BlockReward height) = Ok (acc + BlockReward height))
      by (apply checked_add_Ok; [mach | mach | split; [done | mach]]).
    rewrite E, u64_small by mach. rewrite IH; [do 2 f_equal; lia | lia | lia | lia | lia | lia].
  - replace (Z.to_nat height) with (Z.to_nat (last + 1)) by lia. do 2 f_equal. lia.
Qed.

(** The exact sum of the rewards of a range that ends below the largest height. *)
Lemma total_rewards_exact fuel first last :
  0 <= first <= last -> last < max64 -> (Z.to_nat (last + 1 - first) < fuel)%nat ->
  TotalBlockRewards fuel first last =
  Some (Ok (subsidy_below (Z.to_nat (last + 1)) - subsidy_below (Z.to_nat first))).
Proof.
  intros Hf Hl Hfuel. unfold TotalBlockRewards. rewrite (proj2 (Z.ltb_ge _ _)) by lia.
  rewrite rewards_loop_total; [do 2 f_equal; lia | lia | done | lia | | done].
  pose proof (subsidy_bound (Z.to_nat (last + 1))) as Hs. pose proof (subsidy_bound (Z.to_nat first)).
  unfold HalvingInterval, InitialReward, UnitsPerNEVEL in Hs. mach.
Qed.

(** For a range that ends at the largest 64-bit height TotalBlockRewards never returns a
    total, since the loop counter wraps around. *)
Theorem total_rewards_never_ends fuel first total :
  is_u64 first -> TotalBlockRewards fuel first max64 <> Some (Ok total).
Proof.
  intros Hf. unfold TotalBlockRewards. rewrite (proj2 (Z.ltb_ge _ _)) by mach.
  generalize 0 as acc. revert first Hf. induction fuel as [|fuel IH]; intros first Hf acc; [done|]. simpl.
  rewrite (proj2 (Z.leb_le _ _)) by mach. destruct (checked_add acc _); [|done].
  apply IH, u64_range.
Qed.

Section ChainSpec.
Context {HF : HashFunction} {UJ : UTXOJson}.

(** ** The main chain *)

Definition hbh_of (bs : list Block) : HeaderByHeight := fun k =>
  match bs !! Z.to_nat k with Some b => Ok (blk_Header b) | None => Err ErrNotFound end.

(** [bs] is the main chain of the store, genesis first. *)
Record chain_inv (net : Network) (cs : gmap skey svalue) (bs : list Block) : Prop := {
  ci_nonempty : bs <> [];
  ci_genesis : forall g, bs !! 0%nat = Some g -> hdr_Bits (blk_Header g) = GenesisBits net;
  ci_height : forall n b, bs !! n = Some b -> hdr_Height (blk_Header b) = Z.of_nat n;
  ci_fits : forall n b, bs !! n = Some b -> block_fits b;
  ci_block : forall n b, bs !! n = Some b -> cs_block cs (blk_Hash b) = Some b;
  ci_index : forall n b, bs !! n = Some b -> cs_index cs (Z.of_nat n) = Some (blk_Hash b);
  ci_work : forall n b, bs !! n = Some b ->
    cs_work cs (blk_Hash b) = Some (chain_work (take (S n) bs));
  ci_link : forall n p b, bs !! n = Some p -> bs !! S n = Some b ->
    hdr_PrevHash (blk_Header b) = blk_Hash p /\
    ExpectedBits (blk_Header p) net (hbh_of bs) = Ok (hdr_Bits (blk_Header b));
  ci_only : forall h b, cs_block cs h = Some b -> b ∈ bs;
  ci_tip : cs_tip cs = blk_Hash <$> last bs;
  ci_supply : total cs <= subsidy_below (length bs);
}.

(** *** What the manager reads *)

Section Reads.
Context (d : DB) (net : Network) (cs : gmap skey svalue) (bs : list Block).
Context (R : represents d cs) (I : chain_inv net cs bs).

Lemma inv_GetBlock h : is_hash h -> GetBlock h d = or_err ErrNotFound (cs_block cs h).
Proof using R I.
  intros Hh. rewrite (GetBlock_spec _ _ _ R Hh). destruct (cs_block cs h) as [b|] eqn:E; [|done]. csimpl.
  pose proof (ci_only _ _ _ I _ _ E) as Hin. apply list_elem_of_lookup in Hin as [n Hn].
  apply (cs_block_ok _ _ _ (rep_ok _ _ R)) in E as [Hwf _].
  apply DeserializeBlock_Serialize; [done|]. by eapply ci_fits.
Qed.

Lemma inv_wf n b : bs !! n = Some b -> block_wf b.
Proof using R I.
  intros Hn. apply (ci_block _ _ _ I) in Hn. by apply (cs_block_ok _ _ _ (rep_ok _ _ R)) in Hn as [? _].
Qed.

Lemma inv_length n b : bs !! n = Some b -> Z.of_nat n < 2 ^ 64.
Proof using R I.
  intros Hn. pose proof (inv_wf n b Hn) as [(_ & _ & _ & _ & _ & _ & Hh) _].
  rewrite (ci_height _ _ _ I n b Hn) in Hh. mach.
Qed.

Lemma inv_HeaderByHeight k :
  0 <= k < Z.of_nat (length bs) -> chain_HeaderByHeight d k = hbh_of bs k.
Proof using R I.
  intros Hk. destruct (lookup_lt_is_Some_2 bs (Z.to_nat k)) as [b Hb]; [lia|].
  unfold chain_HeaderByHeight, hbh_of. rewrite Hb.
  pose proof (inv_length _ _ Hb).
  rewrite (BlockHashByHeight_spec _ _ _ R) by mach.
  pose proof (ci_index _ _ _ I _ _ Hb) as Hi. rewrite Z2Nat.id in Hi by lia. rewrite Hi. csimpl.
  rewrite inv_GetBlock by apply blk_Hash_hash. by rewrite (ci_block _ _ _ I _ _ Hb).
Qed.

Lemma inv_tip_block : exists b, last bs = Some b /\ bs !! pred (length bs) = Some b.
Proof using I.
  pose proof (ci_nonempty _ _ _ I). destruct (last bs) as [b|] eqn:E.
  - exists b. split; [done|]. by rewrite <- last_lookup.
  - by apply last_None in E.
Qed.

Lemma inv_Tip b : last bs = Some b -> Tip d = Ok (blk_Hash b).
Proof using R I. intros E. rewrite (Tip_spec _ _ R), (ci_tip _ _ _ I), E. done. Qed.

Lemma inv_TipBlock b : last bs = Some b -> TipBlock d = Ok b.
Proof using R I.
  intros E. unfold TipBlock. rewrite (inv_Tip b E), inv_GetBlock by apply blk_Hash_hash.
  rewrite last_lookup in E. by rewrite (ci_block _ _ _ I _ _ E).
Qed.

Lemma inv_Height b : last bs = Some b -> Height d = Ok (hdr_Height (blk_Header b)).
Proof using R I.
  intros E. pose proof (inv_TipBlock b E) as HT. unfold TipBlock in HT. unfold Height.
  rewrite (inv_Tip b E) in *. csimpl. by rewrite HT.
Qed.

Lemma inv_TotalWork n b :
  bs !! n = Some b -> TotalWork (blk_Hash b) d = Ok (chain_work (take (S n) bs)).
Proof using R I.
  intros Hn. rewrite (TotalWork_spec _ _ _ R) by apply blk_Hash_hash.
  by rewrite (ci_work _ _ _ I n b Hn).
Qed.

Lemma inv_hash_inj n n' b b' :
  bs !! n = Some b -> bs !! n' = Some b' -> blk_Hash b = blk_Hash b' -> n = n' /\ b = b'.
Proof using I.
  intros Hn Hn' E. pose proof (ci_block _ _ _ I _ _ Hn) as H1. pose proof (ci_block _ _ _ I _ _ Hn') as H2.
  rewrite E, H2 in H1. injection H1 as ->. split; [|done].
  pose proof (ci_height _ _ _ I _ _ Hn). pose proof (ci_height _ _ _ I _ _ Hn'). lia.
Qed.

End Reads.

(** ** Preservation *)

Lemma total_work_entry cs h w : total (<[KWork h := VWork w]> cs) = total cs.
Proof.
  rewrite <- insert_delete_eq, total_insert by apply lookup_delete_eq. rewrite total_delete.
  unfold weight_at. destruct (cs !! KWork h) as [[]|]; unfold weight; simpl; lia.
Qed.

(** Storing the work of a block that is not on the main chain. *)
Lemma inv_put_work net cs bs h w :
  chain_inv net cs bs -> cs_block cs h = None -> chain_inv net (<[KWork h := VWork w]> cs) bs.
Proof.
  intros I Hnew.
  assert (Hne : forall n b, bs !! n = Some b -> h <> blk_Hash b).
  { intros n b Hn ->. by rewrite (ci_block _ _ _ I n b Hn) in Hnew. }
  destruct I as [I1 Ig I2 I3 I4 I5 I6 I7 I8 I9 I10].
  split; try done; unfold cs_block, cs_index, cs_tip, cs_work in *.
  - intros n b Hn. rewrite lookup_insert_ne by done. by eapply I4.
  - intros n b Hn. rewrite lookup_insert_ne by done. by eapply I5.
  - intros n b Hn. rewrite lookup_insert_ne by (intros [= E]; by eapply Hne). by eapply I6.
  - intros h' b'. rewrite lookup_insert_ne by done. apply I8.
  - rewrite lookup_insert_ne by done. apply I9.
  - by rewrite total_work_entry.
Qed.

Lemma hbh_of_app bs bs' k :
  0 <= k < Z.of_nat (length bs) -> hbh_of (bs ++ bs') k = hbh_of bs k.
Proof. intros Hk. unfold hbh_of. by rewrite lookup_app_l by lia. Qed.

(** The links of a chain stay when blocks are appended. *)
Lemma link_app net cs bs bs' n p :
  chain_inv net cs bs -> bs !! n = Some p -> Z.of_nat n + 1 < 2 ^ 64 ->
  ExpectedBits (blk_Header p) net (hbh_of (bs ++ bs')) = ExpectedBits (blk_Header p) net (hbh_of bs).
Proof.
  intros I Hn Hlt. pose proof (ci_height _ _ _ I n p Hn) as Hh. pose proof (lookup_lt_Some _ _ _ Hn).
  apply ExpectedBits_ext; [lia | lia |]. intros k Hk. apply hbh_of_app. lia.
Qed.

Lemma lookup_snoc_cases {A} (l : list A) x n y :
  (l ++ [x]) !! n = Some y <-> l !! n = Some y \/ (n = length l /\ y = x).
Proof.
  rewrite lookup_app_Some. split.
  - intros [?|[Hle H]]; [by left|]. apply list_lookup_singleton_Some in H as [? ->]. right. split; [lia | done].
  - intros [?|[-> ->]]; [by left|]. right. by rewrite Nat.sub_diag.
Qed.

(** A block on top of the tip. *)
Lemma inv_extend net cs bs b p :
  chain_inv net cs bs -> last bs = Some p ->
  block_fits b -> hdr_Height (blk_Header b) = Z.of_nat (length bs) -> Z.of_nat (length bs) < 2 ^ 64 ->
  hdr_PrevHash (blk_Header b) = blk_Hash p -> cs_block cs (blk_Hash b) = None ->
  ExpectedBits (blk_Header p) net (hbh_of bs) = Ok (hdr_Bits (blk_Header b)) ->
  total (a_ApplyBlock b cs) <= total cs + BlockReward (hdr_Height (blk_Header b)) ->
  chain_inv net
    (<[KWork (blk_Hash b) := VWork (chain_work (bs ++ [b]))]> (a_ApplyBlock b cs)) (bs ++ [b]).
Proof.
  intros I Hp Hfit Hh Hlt Hprev Hnew Hbits Htot.
  assert (Hlast : bs !! pred (length bs) = Some p) by by rewrite <- last_lookup.
  assert (Hpos : (0 < length bs)%nat) by (apply lookup_lt_Some in Hlast; lia).
  assert (Hne : forall n b', bs !! n = Some b' -> blk_Hash b' <> blk_Hash b).
  { intros n b' Hn E. rewrite <- E, (ci_block _ _ _ I n b' Hn) in Hnew. done. }
  pose proof I as [I1 Ig I2 I3 I4 I5 I6 I7 I8 I9 I10].
  split; try setoid_rewrite lookup_snoc_cases.
  - by destruct bs.
  - intros g [Hg|[? ->]]; [by apply Ig | lia].
  - intros n b' [Hn|[-> ->]]; [by apply I2 | done].
  - intros n b' [Hn|[-> ->]]; [by eapply I3 | done].
  - intros n b' Hn. unfold cs_block. rewrite lookup_insert_ne by done.
    fold (cs_block (a_ApplyBlock b cs) (blk_Hash b')). rewrite apply_block.
    destruct Hn as [Hn|[-> ->]]; [|by rewrite decide_True].
    rewrite decide_False by by eapply Hne. by eapply I4.
  - intros n b' Hn. unfold cs_index. rewrite lookup_insert_ne by done.
    fold (cs_index (a_ApplyBlock b cs) (Z.of_nat n)). rewrite apply_index, Hh.
    destruct Hn as [Hn|[-> ->]]; [|by rewrite decide_True].
    pose proof (lookup_lt_Some _ _ _ Hn). rewrite decide_False by lia. by apply I5.
  - intros n b' Hn. unfold cs_work. destruct Hn as [Hn|[-> ->]].
    + rewrite lookup_insert_ne by (intros [= E]; by eapply Hne).
      fold (cs_work (a_ApplyBlock b cs) (blk_Hash b')). rewrite apply_work, (I6 n b' Hn).
      rewrite take_app_le by (apply lookup_lt_Some in Hn; lia). done.
    + rewrite lookup_insert_eq. rewrite take_ge; [done|]. rewrite length_app. simpl. lia.
  - intros n p' b' Hp' Hb'. destruct Hb' as [Hb'|[Hn ->]].
    + pose proof (lookup_lt_Some _ _ _ Hb'). destruct Hp' as [Hp'|[? ?]]; [|lia].
      destruct (I7 n p' b' Hp' Hb') as [? ?]. split; [done|].
      by rewrite (link_app net cs bs [b] n p') by (done || lia).
    + destruct Hp' as [Hp'|[? ?]]; [|lia].
      replace n with (pred (length bs)) in Hp' by lia. simplify_eq.
      split; [done|]. by rewrite (link_app net cs bs [b] (pred (length bs)) p) by (done || lia).
  - intros h b'. unfold cs_block. rewrite lookup_insert_ne by done.
    fold (cs_block (a_ApplyBlock b cs) h). rewrite apply_block, elem_of_app. case_decide.
    + intros [= ->]. right. by apply list_elem_of_singleton.
    + intros E. left. by eapply I8.
  - unfold cs_tip. rewrite lookup_insert_ne by done. fold (cs_tip (a_ApplyBlock b cs)).
    rewrite apply_tip, last_snoc. done.
  - rewrite total_work_entry, length_app, Nat.add_1_r. simpl subsidy_below.
    rewrite <- BlockReward_audit, <- Hh. lia.
Qed.

(** ** Accepting a block of positive height *)

Lemma header_checks now b p net hbh :
  ValidateBlockHeaderWithDifficulty now b (Some p) net hbh = Ok tt ->
  hdr_Height (blk_Header b) = u64 (hdr_Height p + 1) /\
  hdr_PrevHash (blk_Header b) = hdr_Hash p /\
  ExpectedBits p net hbh = Ok (hdr_Bits (blk_Header b)) /\
  hdr_MerkleRoot (blk_Header b) = BuildMerkleRoot (blk_Transactions b) /\
  CheckProofOfWork (blk_Header b) (PowLimit net) = Ok tt /\
  hdr_Timestamp (blk_Header b) <= now + 7200.
Proof.
  unfold ValidateBlockHeaderWithDifficulty, ValidateBlockHeader. intros H.
  apply bind_Ok in H as (u & H1 & H2). destruct u. inv_ok. breflect.
  match goal with x : unit |- _ => destruct x end. split_and!; try done. congruence.
Qed.

(** What the validation of a block of positive height establishes: the parent
    is on the main chain, one below. *)
Lemma validated_block now b m cs bs :
  represents (mg_Store m) cs -> chain_inv (mg_Network m) cs bs ->
  block_wf b -> 0 < hdr_Height (blk_Header b) ->
  validate_block now b m = Ok tt ->
  exists n p, bs !! n = Some p /\ hdr_PrevHash (blk_Header b) = blk_Hash p /\
    hdr_Height (blk_Header b) = Z.of_nat (S n) /\ Z.of_nat (S n) < 2 ^ 64 /\
    cs_block cs (blk_Hash b) = None /\
    ExpectedBits (blk_Header p) (mg_Network m) (hbh_of bs) = Ok (hdr_Bits (blk_Header b)) /\
    ValidateBlockTransactions b (Get (mg_Store m)) (mg_Verifier m) = Ok tt.
Proof.
  intros R I Hwf Hpos H. unfold validate_block in H. pose proof (blk_Hash_hash b) as Hhb.
  pose proof Hwf as [(_ & Hph & _ & _ & _ & _ & Hh64) _].
  rewrite (inv_GetBlock _ _ _ _ R I) in H by done.
  destruct (cs_block cs (blk_Hash b)) eqn:Hnew; [done|]. simpl in H.
  unfold previous_header in H. rewrite (proj2 (Z.ltb_lt _ _)) in H by done.
  rewrite (inv_GetBlock _ _ _ _ R I) in H by done.
  destruct (cs_block cs (hdr_PrevHash (blk_Header b))) as [p|] eqn:Hp; [|done]. simpl in H.
  apply bind_Ok in H as ([] & Hhdr & Htx).
  apply header_checks in Hhdr as (Hh & Hprev & Hbits & _).
  pose proof (ci_only _ _ _ I _ _ Hp) as Hin. apply list_elem_of_lookup in Hin as [n Hn].
  pose proof (ci_height _ _ _ I n p Hn) as Hhp. pose proof (inv_length _ _ _ _ R I n p Hn) as Hl.
  rewrite Hhp in Hh.
  assert (Hlt : Z.of_nat n + 1 < 2 ^ 64).
  { destruct (Z.eq_dec (Z.of_nat n + 1) (2 ^ 64)) as [E|]; [|lia].
    rewrite E in Hh. unfold u64 in Hh. rewrite Z.mod_same in Hh by lia. lia. }
  rewrite u64_small in Hh by mach.
  exists n, p. split_and!; try done; try lia.
  rewrite <- Hbits. symmetry. apply ExpectedBits_ext; [lia | lia |].
  intros k Hk. apply (inv_HeaderByHeight _ _ _ _ R I). apply lookup_lt_Some in Hn. lia.
Qed.

Lemma validated_work b m cs bs n p :
  represents (mg_Store m) cs -> chain_inv (mg_Network m) cs bs ->
  bs !! n = Some p -> hdr_PrevHash (blk_Header b) = blk_Hash p -> 0 < hdr_Height (blk_Header b) ->
  total_work_of b (mg_Store m) = chain_work (take (S n) bs) + WorkForBits (hdr_Bits (blk_Header b)).
Proof.
  intros R I Hn Hprev Hpos. unfold total_work_of. rewrite (proj2 (Z.ltb_lt _ _)) by done.
  rewrite Hprev, (inv_TotalWork _ _ _ _ R I n p Hn). lia.
Qed.

(** One block of positive height: rejected, appended to the main chain, or
    recorded as lighter; the manager never reorganises, whatever its fuel. *)
Lemma accept_step fuel now b m cs bs :
  represents (mg_Store m) cs -> chain_inv (mg_Network m) cs bs ->
  block_wf b -> block_fits b -> 0 < hdr_Height (blk_Header b) ->
  exists m' r cs', ValidateAndApplyBlock fuel now b m = Some (m', r) /\
    represents (mg_Store m') cs' /\ mg_Network m' = mg_Network m /\ mg_Verifier m' = mg_Verifier m /\
    match validate_block now b m with
    | Err e => r = Err e /\ m' = m /\ cs' = cs
    | Ok _ =>
        r = Ok tt /\
        if decide (Ok (hdr_PrevHash (blk_Header b)) = Tip (mg_Store m))
        then chain_inv (mg_Network m) cs' (bs ++ [b]) /\
             mg_Mempool m' = RemoveMinedBlock b <$> mg_Mempool m /\
             cs' = <[KWork (blk_Hash b) := VWork (total_work_of b (mg_Store m))]> (a_ApplyBlock b cs) /\
             cs_block cs (blk_Hash b) = None
        else chain_inv (mg_Network m) cs' bs /\ mg_Mempool m' = mg_Mempool m /\
             cs' = <[KWork (blk_Hash b) := VWork (total_work_of b (mg_Store m))]> cs
    end.
Proof.
  intros R I Hwf Hfit Hpos. unfold ValidateAndApplyBlock.
  destruct (validate_block now b m) as [[]|e] eqn:Hv; [|by exists m, (Err e), cs].
  destruct (validated_block _ _ _ _ _ R I Hwf Hpos Hv)
    as (n & p & Hn & Hprev & Hh & Hlt & Hnew & Hbits & Htx).
  pose proof (validated_work b m cs bs n p R I Hn Hprev Hpos) as Hw.
  destruct (inv_tip_block _ _ _ I) as (t & Hlast & Htip).
  rewrite (inv_Tip _ _ _ _ R I t Hlast), (inv_TotalWork _ _ _ _ R I _ t Htip).
  destruct (decide (hdr_PrevHash (blk_Header b) = blk_Hash t)) as [Et|Et].
  - rewrite bool_decide_true by congruence.
    rewrite Hprev in Et. destruct (inv_hash_inj _ _ _ I _ _ _ _ Hn Htip Et) as [-> ->].
    destruct (ApplyBlock_refines _ _ b R Hwf) as (d1 & -> & R1).
    destruct (PutTotalWork_refines d1 _ (blk_Hash b) (total_work_of b (mg_Store m)) R1 (blk_Hash_hash b))
      as (d2 & -> & R2).
    eexists _, _, _. split_and!; [done | exact R2 | done | done | done |].
    rewrite decide_True by congruence. split_and!; [|done..].
    assert (Hlen : S (pred (length bs)) = length bs) by (apply lookup_lt_Some in Htip; lia).
    rewrite Hlen in *. rewrite take_ge in Hw by lia.
    replace (total_work_of b (mg_Store m)) with (chain_work (bs ++ [b]))
      by (rewrite chain_work_app, Hw; unfold chain_work at 2; simpl; lia).
    apply (inv_extend _ _ _ _ t); try done.
    eapply total_apply_accepted; [apply R | done | by apply Get_reads | done].
  - rewrite bool_decide_false by congruence.
    assert (Hc : exists c, bs !! S n = Some c).
    { apply lookup_lt_is_Some_2. apply lookup_lt_Some in Hn as Hlt'.
      destruct (decide (S n = length bs)) as [E|]; [|lia]. exfalso. apply Et.
      rewrite <- E in Htip. simpl in Htip. congruence. }
    destruct Hc as [c Hc]. destruct (ci_link _ _ _ I n p c Hn Hc) as [_ Hbc].
    assert (Ebits : hdr_Bits (blk_Header c) = hdr_Bits (blk_Header b)) by congruence.
    pose proof (chain_work_take_S bs (S n) c Hc) as Hwc. rewrite Ebits in Hwc.
    assert (Hlen : S (pred (length bs)) = length bs) by (apply lookup_lt_Some in Htip; lia).
    rewrite Hlen, take_ge by lia.
    pose proof (chain_work_take bs (S (S n))).
    rewrite (proj2 (Z.leb_le _ _)) by lia.
    destruct (PutTotalWork_refines (mg_Store m) cs (blk_Hash b) (total_work_of b (mg_Store m)) R (blk_Hash_hash b))
      as (d2 & -> & R2).
    eexists _, _, _. split_and!; [done | exact R2 | done | done | done |].
    rewrite decide_False by congruence. split_and!; [by apply inv_put_work | done | done].
Qed.

(** ** Genesis *)

Definition empty_db : DB := mkDB ∅ ∅ [].

Lemma represents_empty : represents empty_db ∅.
Proof.
  split; [done | by intros k v ?%lookup_empty_Some | | by intros name v].
  done.
Qed.

Lemma total_apply_outputs b cs :
  store_ok cs -> block_wf b ->
  total (a_ApplyBlock b cs) <= total cs + Zsum (out_Amount <$> block_outputs (blk_Transactions b)).
Proof.
  intros Hok Hwf. unfold a_ApplyBlock. set (undo := a_undo _ cs).
  assert (Hops : Forall top_ok (t_apply b undo)) by (apply t_apply_ok; [done | by apply a_undo_wf]).
  pose proof (total_tops _ _ Hok Hops) as H1. rewrite weight_t_apply in H1.
  pose proof (total_without_le (t_apply b undo).*1 cs Hok). lia.
Qed.

Lemma genesis_wf net : is_u32 (GenesisBits net) ->
  block_wf (CreateGenesisBlock net) /\ block_fits (CreateGenesisBlock net).
Proof.
  intros Hb. split; [|by_decision]. unfold CreateGenesisBlock, set_merkle. split.
  - cbn [blk_Header]. unfold header_wf. cbn [hdr_Version hdr_PrevHash hdr_MerkleRoot hdr_Timestamp hdr_Bits hdr_Nonce hdr_Height].
    pose proof zero_hash_wf. split_and!; try apply BuildMerkleRoot_hash; try mach; done.
  - apply Forall_singleton. by_decision.
Qed.

Lemma set_nonce_wf b nonce : block_wf b -> is_u64 nonce -> block_wf (set_nonce b nonce).
Proof. intros [(?&?&?&?&?&_&?) Ht] Hn. split; [|done]. unfold header_wf. simpl. by split_and!. Qed.

Lemma genesis_inv net g :
  block_wf g -> block_fits g -> hdr_Height (blk_Header g) = 0 ->
  hdr_Bits (blk_Header g) = GenesisBits net ->
  Zsum (out_Amount <$> block_outputs (blk_Transactions g)) <= BlockReward 0 ->
  chain_inv net (<[KWork (blk_Hash g) := VWork (WorkForBits (hdr_Bits (blk_Header g)))]>
    (a_ApplyBlock g ∅)) [g].
Proof.
  intros Hwf Hfit Hh Hbits Hout. split.
  - done.
  - by intros g' [_ <-]%list_lookup_singleton_Some.
  - by intros n b [-> <-]%list_lookup_singleton_Some.
  - by intros n b [-> <-]%list_lookup_singleton_Some.
  - intros n b [-> <-]%list_lookup_singleton_Some. unfold cs_block. rewrite lookup_insert_ne by done.
    fold (cs_block (a_ApplyBlock g ∅) (blk_Hash g)). by rewrite apply_block, decide_True.
  - intros n b [-> <-]%list_lookup_singleton_Some. unfold cs_index. rewrite lookup_insert_ne by done.
    fold (cs_index (a_ApplyBlock g ∅) (Z.of_nat 0)).
    by rewrite apply_index, decide_True by done.
  - intros n b [-> <-]%list_lookup_singleton_Some. unfold cs_work. rewrite lookup_insert_eq.
    unfold chain_work. simpl. f_equal. lia.
  - by intros n p b _ [? ?]%list_lookup_singleton_Some.
  - intros h b. unfold cs_block. rewrite lookup_insert_ne by done.
    fold (cs_block (a_ApplyBlock g ∅) h). rewrite apply_block. case_decide; [|done].
    intros [= ->]. by apply list_elem_of_singleton.
  - unfold cs_tip. rewrite lookup_insert_ne by done. fold (cs_tip (a_ApplyBlock g ∅)).
    by rewrite apply_tip.
  - rewrite total_work_entry. pose proof (total_apply_outputs g ∅) as H.
    assert (Htot : total ∅ = 0) by done.
    assert (store_ok ∅) by by intros k v ?%lookup_empty_Some.
    specialize (H ltac:(done) Hwf). rewrite Htot in H.
    change (subsidy_below (length [g])) with (0 + BlockReward 0). lia.
Qed.

Lemma InitGenesis_inv fuel ctx net mp v m g :
  is_u32 (GenesisBits net) ->
  InitGenesis fuel ctx (mkManager empty_db net mp v) = Some (m, Ok g) ->
  exists cs, represents (mg_Store m) cs /\ chain_inv net cs [g] /\
    mg_Network m = net /\ mg_Verifier m = v.
Proof.
  intros Hb. unfold InitGenesis. simpl. destruct (genesis_wf net Hb) as [Hwf Hfit].
  destruct (Mine fuel ctx 0 _ (PowLimit net)) as [[[] g']|] eqn:HM; [|done..].
  apply Mine_hit in HM as [_ (k & ->)]; [|done]. set (g' := nonce_at _ k).
  assert (Hwf' : block_wf g') by (by apply set_nonce_wf, u64_range).
  assert (Hfit' : block_fits g') by done.
  destruct (ApplyBlock_refines _ _ g' represents_empty Hwf') as (d1 & -> & R1).
  destruct (PutTotalWork_refines d1 _ (blk_Hash g') (WorkForBits (hdr_Bits (blk_Header g'))) R1 (blk_Hash_hash g'))
    as (d2 & -> & R2).
  intros [= <- <-]. eexists. split_and!; [exact R2 | | done | done].
  by apply genesis_inv.
Qed.

(** ** Runs *)

(** A node that starts with an empty database on a healthy disk and is offered
    blocks of any kind, in any order, from any source: it processed [blocks], first
    to last, accepted or refused.  The mempool may change in between. *)
Inductive offered (net : Network) (v : SignatureVerifier) : list Block -> Manager -> Prop :=
| off_genesis fuel ctx mp m g :
    InitGenesis fuel ctx (mkManager empty_db net mp v) = Some (m, Ok g) -> offered net v [] m
| off_block fuel now blocks b m m' r :
    offered net v blocks m -> block_wf b ->
    ValidateAndApplyBlock fuel now b m = Some (m', r) -> offered net v (blocks ++ [b]) m'
| off_mempool blocks m mp :
    offered net v blocks m ->
    offered net v blocks (mkManager (mg_Store m) (mg_Network m) mp (mg_Verifier m)).

(** The blocks the theorems on runs are about.  The code checks neither: it
    accepts blocks of height 0 ([height_zero_block_replaces_tip]) and blocks that
    its own parser refuses to read back. *)
Definition regular (b : Block) : Prop := block_fits b /\ 0 < hdr_Height (blk_Header b).

(** *** Reachable states *)

(** The states of a run with regular blocks only. *)
Inductive reachable (net : Network) (v : SignatureVerifier) : Manager -> Prop :=
| reach_genesis fuel ctx mp m g :
    InitGenesis fuel ctx (mkManager empty_db net mp v) = Some (m, Ok g) -> reachable net v m
| reach_block fuel now b m m' r :
    reachable net v m -> block_wf b -> block_fits b -> 0 < hdr_Height (blk_Header b) ->
    ValidateAndApplyBlock fuel now b m = Some (m', r) -> reachable net v m'
| reach_mempool m mp :
    reachable net v m ->
    reachable net v (mkManager (mg_Store m) (mg_Network m) mp (mg_Verifier m)).

Lemma offered_reachable net v blocks m :
  offered net v blocks m -> Forall regular blocks -> reachable net v m.
Proof.
  induction 1 as [fuel ctx mp m g HG | fuel now blocks b m m' r _ IH Hwf HV | blocks m mp _ IH].
  - intros _. by eapply reach_genesis.
  - intros [Hbs [[Hfit Hpos] _]%Forall_cons]%Forall_app. eapply reach_block; [by apply IH | done..].
  - intros Hbs. by apply reach_mempool, IH.
Qed.

Lemma reachable_offered net v m :
  reachable net v m -> exists blocks, offered net v blocks m /\ Forall regular blocks.
Proof.
  induction 1 as [fuel ctx mp m g HG | fuel now b m m' r _ (blocks & IH & Hr) Hwf Hfit Hpos HV | m mp _ (blocks & IH & Hr)].
  - exists []. split; [by eapply off_genesis | done].
  - exists (blocks ++ [b]). split; [by eapply off_block|]. apply Forall_app. split; [done|]. by apply Forall_singleton.
  - exists blocks. split; [by apply off_mempool | done].
Qed.

Lemma reachable_inv net v m :
  is_u32 (GenesisBits net) -> reachable net v m ->
  exists cs bs, represents (mg_Store m) cs /\ chain_inv net cs bs /\
    mg_Network m = net /\ mg_Verifier m = v.
Proof.
  intros Hb H. induction H as [fuel ctx mp m g HG | fuel now b m m' r _ IH Hwf Hfit Hpos HV | m mp _ IH].
  - apply InitGenesis_inv in HG as (cs & ?); [|done]. by exists cs, [g].
  - destruct IH as (cs & bs & R & I & Hn & Hv). rewrite <- Hn in I.
    destruct (accept_step fuel now b m cs bs R I Hwf Hfit Hpos) as (m1 & r1 & cs1 & E & R1 & Hn1 & Hv1 & H).
    rewrite E in HV. injection HV as <- <-. exists cs1. rewrite <- Hn.
    destruct (validate_block now b m); [|by destruct H as (_ & -> & ->); exists bs].
    destruct H as [_ H]. destruct (decide _); destruct H as [H _];
      [exists (bs ++ [b]) | exists bs]; split_and!; congruence.
  - destruct IH as (cs & bs & ?). by exists cs, bs.
Qed.

(** Where the tip is after a block of positive height. *)
Lemma accept_tip net v m fuel now b :
  is_u32 (GenesisBits net) -> reachable net v m ->
  block_wf b -> block_fits b -> 0 < hdr_Height (blk_Header b) ->
  exists m' r, ValidateAndApplyBlock fuel now b m = Some (m', r) /\ r = validate_block now b m /\
    Tip (mg_Store m') =
      match r with
      | Ok _ => if decide (Tip (mg_Store m) = Ok (hdr_PrevHash (blk_Header b)))
                then Ok (blk_Hash b) else Tip (mg_Store m)
      | Err _ => Tip (mg_Store m)
      end.
Proof.
  intros Hb H Hwf Hfit Hpos. apply reachable_inv in H as (cs & bs & R & I & Hn & _); [|done].
  rewrite <- Hn in I.
  destruct (accept_step fuel now b m cs bs R I Hwf Hfit Hpos) as (m' & r & cs' & E & R' & _ & _ & H).
  exists m', r. split; [done|]. destruct (validate_block now b m) as [[]|e].
  - destruct H as [-> H]. split; [done|]. destruct (decide _) as [Ht|Ht].
    + destruct H as (I' & _). rewrite decide_True by done.
      apply (inv_Tip _ _ _ _ R' I'). apply last_snoc.
    + destruct H as (I' & _ & _). destruct (inv_tip_block _ _ _ I) as (t & Hl & _).
      rewrite decide_False by (intros Et; by apply Ht).
      by rewrite (inv_Tip _ _ _ _ R' I' t Hl), (inv_Tip _ _ _ _ R I t Hl).
  - by destruct H as (-> & -> & ->).
Qed.

(** *** Balances *)

Lemma Zsum_filter_le (f : UTXO -> bool) us :
  Forall (fun u => 0 <= u_Amount u) us ->
  Zsum (u_Amount <$> List.filter f us) <= Zsum (u_Amount <$> us).
Proof.
  induction 1 as [|u us Hu _ IH]; [done|]. cbn [List.filter]. destruct (f u); csimpl; lia.
Qed.

Lemma utxo_list_wf cs : store_ok cs -> Forall utxo_wf (utxo_list cs).
Proof.
  intros Hok. apply Forall_forall. intros u Hu. unfold utxo_list in Hu.
  apply list_elem_of_fmap in Hu as ([k u'] & -> & Hu). apply elem_of_utxo_entries in Hu as (h & i & _ & Hu).
  by apply cs_utxo_ok in Hu as [? _].
Qed.

(** ** Properties *)

(** C1: On a node that started empty on a healthy disk and was offered any sequence of
    blocks of positive height within the parser limits, accepted or refused, the unspent
    outputs add up to at most the scheduled rewards up to the height of the tip, so to
    at most twice the halving interval times the initial reward, which is below
    MaxSupply. Blocks of height 0, which the code accepts, are not covered: with them
    the bound fails. *)
Theorem reachable_supply net v blocks m :
  is_u32 (GenesisBits net) -> offered net v blocks m -> Forall regular blocks ->
  exists us h, ListUTXOs (mg_Store m) = Ok us /\ Height (mg_Store m) = Ok h /\
    Zsum (u_Amount <$> us) <= subsidy_below (S (Z.to_nat h)) /\
    subsidy_below (S (Z.to_nat h)) <= 2 * HalvingInterval * InitialReward /\
    2 * HalvingInterval * InitialReward <= MaxSupply.
Proof.
  intros Hb Ho Hreg. apply (offered_reachable _ _ _ _ Ho) in Hreg as H.
  apply reachable_inv in H as (cs & bs & R & I & _); [|done].
  destruct (ListUTXOs_spec _ _ R) as (us & Hl & Hp). destruct (inv_tip_block _ _ _ I) as (t & Ht & Htl).
  exists us, (hdr_Height (blk_Header t)). split_and!; [done | by apply (inv_Height _ _ _ _ R I) | | |by vm_compute].
  - rewrite Hp. fold (total cs). pose proof (ci_supply _ _ _ I).
    rewrite (ci_height _ _ _ I _ _ Htl), Nat2Z.id. apply lookup_lt_Some in Htl.
    replace (S (pred (length bs))) with (length bs) by lia. done.
  - pose proof (subsidy_bound (S (Z.to_nat (hdr_Height (blk_Header t))))). lia.
Qed.

(** On every reachable node the balance of a script is the exact sum, without overflow
    error, of the outputs ListUTXOsByScript lists, and these are exactly the stored
    outputs with that script. *)
Theorem reachable_balance net v m script :
  is_u32 (GenesisBits net) -> reachable net v m ->
  exists us, ListUTXOsByScript script (mg_Store m) = Ok us /\
    BalanceByScript script (mg_Store m) = Ok (Zsum (u_Amount <$> us)) /\
    (forall u, u ∈ us <-> u_Script u = script /\
       Get (mg_Store m) (u_TxHash u) (u_OutputIdx u) = Ok u).
Proof.
  intros Hb H. apply reachable_inv in H as (cs & bs & R & I & _); [|done].
  destruct (ListUTXOs_spec _ _ R) as (us & Hl & Hp).
  assert (Hwf : Forall utxo_wf us) by (rewrite Hp; apply utxo_list_wf, R).
  assert (Hamt : Forall (fun u => 0 <= u_Amount u) us)
    by (eapply Forall_impl; [exact Hwf|]; intros u (_ & _ & ? & _); mach).
  set (f := fun u => bool_decide (u_Script u = script)).
  exists (List.filter f us). unfold BalanceByScript, ListUTXOsByScript. rewrite Hl. csimpl.
  split_and!; [done | |].
  - assert (Hu : Forall is_u64 (u_Amount <$> List.filter f us)).
    { apply Forall_fmap, Forall_forall. intros u [Hu _]%list_elem_of_In%filter_In.
      rewrite Forall_forall in Hwf. by apply list_elem_of_In, Hwf in Hu as (_ & _ & ? & _). }
    apply checked_sum_Ok; [mach | done|]. split; [done|]. pose proof (u64_sum_nonneg _ Hu).
    pose proof (Zsum_filter_le f us Hamt) as Hle. rewrite Hp in Hle at 2. fold (total cs) in Hle.
    pose proof (ci_supply _ _ _ I). pose proof (subsidy_bound (length bs)) as Hs.
    unfold HalvingInterval, InitialReward, UnitsPerNEVEL in Hs. mach.
  - intros u. rewrite list_elem_of_In, filter_In, <- list_elem_of_In. unfold f.
    rewrite bool_decide_eq_true.
    enough (u ∈ us <-> Get (mg_Store m) (u_TxHash u) (u_OutputIdx u) = Ok u) by tauto.
    rewrite Hp. unfold utxo_list.
    rewrite list_elem_of_fmap. split.
    + intros ([k u'] & -> & Hu). apply elem_of_utxo_entries in Hu as (h & i & _ & Hu). simpl.
      pose proof (cs_utxo_ok _ _ _ _ (rep_ok _ _ R) Hu) as ((Hh & Hi & _) & <- & <-).
      by rewrite (Get_spec _ _ _ _ R Hh Hi), Hu.
    + intros Hg. pose proof (Get_reader_wf _ _ _ _ Hg) as (Hh & Hi & _).
      rewrite (Get_spec _ _ _ _ R Hh Hi) in Hg.
      destruct (cs_utxo cs _ _) as [u'|] eqn:E; [|done]. injection Hg as ->.
      eexists (_, u). split; [done|]. apply elem_of_utxo_entries. eexists _, _. split; [done | exact E].
Qed.

(** C2: On a node that started empty on a healthy disk and was offered only blocks of
    positive height within the parser limits, processing one more such block always
    returns, its result is that of the validation alone, and the tip either stays or
    moves to that block, whose parent is then the old tip: the reorganisation branch is
    not taken. Histories with a block of height 0, which the code accepts, are not
    covered: after one the reorganisation can be taken. *)
Theorem tip_moves_only_to_children net v blocks m fuel now b :
  is_u32 (GenesisBits net) -> offered net v blocks m -> block_wf b -> Forall regular (blocks ++ [b]) ->
  exists m' r, ValidateAndApplyBlock fuel now b m = Some (m', r) /\
    r = validate_block now b m /\
    (Tip (mg_Store m') = Tip (mg_Store m) \/
     (r = Ok tt /\ Tip (mg_Store m') = Ok (blk_Hash b) /\
      Tip (mg_Store m) = Ok (hdr_PrevHash (blk_Header b)))).
Proof.
  intros Hb Ho Hwf [Hreg [[Hfit Hpos] _]%Forall_cons]%Forall_app.
  apply (offered_reachable _ _ _ _ Ho) in Hreg as H.
  destruct (accept_tip net v m fuel now b Hb H Hwf Hfit Hpos) as (m' & r & E & Hr & Ht).
  exists m', r. split_and!; [done | done|]. rewrite Ht. destruct r as [[]|e]; [|by left].
  case_decide; [right | by left]. by split_and!.
Qed.

End ChainSpec.
