(* ===== verification/Mining.v ===== *)
(** * Mining: blocks the node mines are blocks the node accepts

    Follows one round of [MineBlocksStreaming] with an empty mempool through
    [BuildTemplate], [Mine] and [ValidateAndApplyBlock]. *)

From S2P Require Import Prelude Encoding Sha256 Params Tx Block Consensus Pebble Storage StoreSpec.
From S2P Require Import Ledger Mempool Miner Bech32 Chain ChainSpec.

(** ** Targets *)

(** The parameters of a network are consistent. *)
Definition net_ok (net : Network) : Prop :=
  is_u32 (GenesisBits net) /\ 0 <= CompactToBig (GenesisBits net) <= PowLimit net /\
  PowLimit net < 2 ^ 256.

#[global] Instance net_ok_dec net : Decision (net_ok net).
Proof. unfold net_ok. apply _. Defined.

Lemma networks_ok : net_ok Mainnet /\ net_ok Testnet /\ net_ok Regtest.
Proof. by_decision. Qed.

Lemma pow_256 : 2 ^ 256 < 256 ^ 254.
Proof. done. Qed.

Lemma BigToCompact_u32 n : 0 < n < 256 ^ 254 -> is_u32 (BigToCompact n).
Proof.
  intros Hn. rewrite BigToCompact_arith by done.
  pose proof (byte_size_bound n 254 ltac:(lia) ltac:(lia)) as Hsz.
  destruct (byte_size_spec n ltac:(lia)) as (Hs & _ & _). pose proof (lead3_range n ltac:(lia)) as Hl.
  unfold is_u32. destruct (Z.leb_spec (2 ^ 23) (lead3 n)); [|lia].
  assert (0 <= lead3 n / 256 < 2 ^ 24); [|lia].
  split; [apply Z.div_pos; lia | apply Z.div_lt_upper_bound; lia].
Qed.

Lemma ExpectedBits_limit prev net hbh bits :
  is_u32 (hdr_Bits prev) -> 0 <= CompactToBig (hdr_Bits prev) <= PowLimit net -> PowLimit net < 2 ^ 256 ->
  ExpectedBits prev net hbh = Ok bits -> is_u32 bits /\ 0 <= CompactToBig bits <= PowLimit net.
Proof.
  intros Hu Hold Hlim. unfold ExpectedBits. destruct (negb _ || _); [by intros [= <-]|].
  intros H. apply bind_Ok in H as (first & _ & H). pose proof pow_256.
  set (r0 := Retarget _ _ _) in H.
  assert (Hr0 : 0 <= r0).
  { etrans; [|apply Retarget_bounds; [lia | by vm_compute | by exists 10800]]. apply Z.div_pos; lia. }
  set (r := if PowLimit net <? r0 then PowLimit net else r0) in H.
  assert (Hr : 0 <= r <= PowLimit net) by (unfold r; destruct (Z.ltb_spec (PowLimit net) r0); lia).
  clearbody r r0. injection H as <-. destruct (Z.eq_dec r 0) as [->|].
  - change (BigToCompact 0) with 0. change (CompactToBig 0) with 0. split; [mach | lia].
  - pose proof (CompactToBig_BigToCompact r ltac:(lia)). split; [apply BigToCompact_u32; lia | lia].
Qed.

Lemma ExpectedBits_total prev net hbh :
  0 <= hdr_Height prev -> hdr_Height prev + 1 < 2 ^ 64 ->
  (forall k, 0 <= k <= hdr_Height prev -> exists h, hbh k = Ok h) ->
  exists bits, ExpectedBits prev net hbh = Ok bits.
Proof.
  intros H0 H1 Hall.
  rewrite (ExpectedBits_ext prev net hbh (fun k =>
    if (0 <=? k) && (k <=? hdr_Height prev) then hbh k else Ok prev)); [|done|done|].
  - unfold ExpectedBits. destruct (negb _ || _); [by eexists|].
    set (k := u64 (_ - _)). destruct ((0 <=? k) && (k <=? hdr_Height prev)) eqn:E; [|by eexists].
    breflect. destruct (Hall k) as [h ->]; [lia|]. by eexists.
  - intros k Hk. by rewrite (proj2 (Z.leb_le _ _)), (proj2 (Z.leb_le _ _)) by lia.
Qed.

Section Mining.
Context {HF : HashFunction} {UJ : UTXOJson}.

Section Target.
Context (d : DB) (net : Network) (cs : gmap skey svalue) (bs : list Block).
Context (R : represents d cs) (I : chain_inv net cs bs) (Hnet : net_ok net).

Lemma inv_target n b :
  bs !! n = Some b -> 0 <= CompactToBig (hdr_Bits (blk_Header b)) <= PowLimit net.
Proof using R I Hnet.
  destruct Hnet as (Hg & Hlim & Hpow). revert b. induction n as [|n IH]; intros b Hb.
  - by rewrite (ci_genesis _ _ _ I b Hb).
  - destruct (lookup_lt_is_Some_2 bs n) as [p Hp]; [apply lookup_lt_Some in Hb; lia|].
    destruct (ci_link _ _ _ I n p b Hp Hb) as [_ He]. pose proof (inv_wf _ _ _ _ R I n p Hp) as [Hw _].
    apply ExpectedBits_limit in He as [_ ?]; [done | apply Hw | by apply IH | done].
Qed.

Lemma inv_NextBits p :
  last bs = Some p -> Z.of_nat (length bs) < 2 ^ 64 ->
  exists bits, ExpectedBits (blk_Header p) net (chain_HeaderByHeight d) = Ok bits /\
    ExpectedBits (blk_Header p) net (hbh_of bs) = Ok bits /\
    is_u32 bits /\ 0 <= CompactToBig bits <= PowLimit net.
Proof using R I Hnet.
  intros Hl Hlen. rewrite last_lookup in Hl. pose proof (lookup_lt_Some _ _ _ Hl).
  pose proof (ci_height _ _ _ I _ _ Hl) as Hh.
  assert (Hext : ExpectedBits (blk_Header p) net (chain_HeaderByHeight d) =
                 ExpectedBits (blk_Header p) net (hbh_of bs)).
  { apply ExpectedBits_ext; [lia | lia |]. intros k Hk. apply (inv_HeaderByHeight _ _ _ _ R I). lia. }
  destruct (ExpectedBits_total (blk_Header p) net (hbh_of bs)) as [bits Hbits]; [lia | lia | |].
  { intros k Hk. unfold hbh_of. destruct (lookup_lt_is_Some_2 bs (Z.to_nat k)) as [b ->]; [lia | by eexists]. }
  pose proof (inv_wf _ _ _ _ R I _ p Hl) as [Hw _]. pose proof (inv_target _ p Hl) as Ht.
  destruct (ExpectedBits_limit _ _ _ _ ltac:(apply Hw) Ht ltac:(apply Hnet) Hbits).
  exists bits. by rewrite Hext.
Qed.

(** A block whose height no block of the chain has is known only if it shares
    its hash with another header. *)
Lemma inv_fresh b c :
  Z.of_nat (length bs) <= hdr_Height (blk_Header b) ->
  GetBlock (blk_Hash b) d = Ok c -> blk_Hash c = blk_Hash b /\ blk_Header c <> blk_Header b.
Proof using R I.
  intros Hh. rewrite (inv_GetBlock _ _ _ _ R I) by apply blk_Hash_hash.
  destruct (cs_block cs (blk_Hash b)) as [c'|] eqn:E; [|done]. intros [= ->].
  pose proof (ci_only _ _ _ I _ _ E) as Hin. apply list_elem_of_lookup in Hin as [n Hn].
  apply (cs_block_ok _ _ _ (rep_ok _ _ R)) in E as [_ Hhash]. split; [done|]. intros Hp.
  pose proof (ci_height _ _ _ I n c Hn) as Hn'. rewrite Hp in Hn'. apply lookup_lt_Some in Hn. lia.
Qed.

End Target.

(** ** The template *)

Lemma decimal_length z : 0 <= z < 2 ^ 64 -> len (decimal z) <= 64.
Proof.
  intros Hz. Transparent decimal. unfold decimal, len. Opaque decimal. rewrite length_rev.
  assert (Hd : forall fuel z, (length (Encoding.digits fuel z) <= fuel)%nat).
  { intros fuel. induction fuel as [|fuel IH]; intros y; simpl; [done|].
    destruct (y <? 10); simpl; [lia|]. specialize (IH (y / 10)). lia. }
  specialize (Hd (S (Z.to_nat (Z.log2 z))) z).
  assert (Z.log2 z < 64); [|pose proof (Z.log2_nonneg z); lia].
  destruct (Z.eq_dec z 0) as [->|]; [done|]. apply Z.log2_lt_pow2; lia.
Qed.

Lemma decimal_wf z : 0 <= z -> bytes_wf (decimal z).
Proof.
  intros Hz. eapply Forall_impl; [by apply decimal_digits|]. intros c ?; simpl in *. unfold is_byte. lia.
Qed.

Lemma coinbase_message_ok now :
  is_i64 now -> bytes_wf (coinbase_message now) /\ len (coinbase_message now) <= 100.
Proof.
  intros Hn. unfold coinbase_message, big_String. rewrite bytes_wf_app, len_app.
  change (len (str "NEVEL mined at ")) with 15. unfold is_i64 in Hn.
  destruct (Z.ltb_spec now 0).
  - rewrite len_cons. pose proof (decimal_length (- now) ltac:(lia)).
    split; [|lia]. split; [apply str_wf|]. constructor; [unfold is_byte; lia | apply decimal_wf; lia].
  - pose proof (decimal_length now ltac:(lia)). split; [|lia].
    split; [apply str_wf | by apply decimal_wf].
Qed.

(** The block a round mines on top of [p]. *)
Definition template (now now' : Z) (script : bytes) (p : Block) (bits : Z) : Block :=
  let height := u64 (hdr_Height (blk_Header p) + 1) in
  NewBlock now' (blk_Hash p) height bits
    [NewCoinbase (coinbase_message now) (BlockReward height) script].

Lemma template_wf now now' script p bits nonce :
  is_i64 now -> is_i64 now' -> bytes_wf script -> len script <= max_field -> is_u32 bits -> is_u64 nonce ->
  block_wf (set_nonce (template now now' script p bits) nonce) /\
  block_fits (set_nonce (template now now' script p bits) nonce).
Proof.
  intros Hn Hn' Hs Hl Hb Hno. destruct (coinbase_message_ok now Hn) as [Hmw Hml].
  set (height := u64 (hdr_Height (blk_Header p) + 1)).
  assert (Hh : is_u64 height) by apply u64_range.
  pose proof (BlockReward_range height ltac:(mach)) as Hr.
  assert (Hru : is_u64 (BlockReward height)) by (unfold InitialReward, UnitsPerNEVEL in Hr; mach).
  split.
  - split.
    + pose proof (blk_Hash_hash p). unfold header_wf, template, NewBlock, set_merkle, set_nonce.
      cbn [blk_Header blk_Transactions hdr_Version hdr_PrevHash hdr_MerkleRoot hdr_Timestamp hdr_Bits hdr_Nonce hdr_Height].
      pose proof (BuildMerkleRoot_hash [NewCoinbase (coinbase_message now) (BlockReward height) script]).
      assert (is_u32 1) by mach. tauto.
    + apply Forall_singleton. by apply NewCoinbase_wf.
  - split; [by vm_compute|]. apply Forall_singleton. unfold tx_fits, max_items. simpl.
    unfold len at 1 2. simpl length. split_and!; [lia | lia | |]; apply Forall_singleton.
    + unfold input_fits, max_field. simpl. change (len []) with 0. lia.
    + unfold output_fits. simpl. done.
Qed.

Lemma template_txs_valid now now' script p bits nonce d v :
  block_wf (set_nonce (template now now' script p bits) nonce) ->
  ValidateBlockTransactions (set_nonce (template now now' script p bits) nonce) (Get d) v = Ok tt.
Proof.
  intros Hwf. apply ValidateBlockTransactionsAt_Ok; [apply Get_reader_wf | done|].
  set (height := u64 (hdr_Height (blk_Header p) + 1)).
  assert (Hh : is_u64 height) by apply u64_range.
  pose proof (BlockReward_range height ltac:(mach)) as Hr. unfold InitialReward, UnitsPerNEVEL in Hr.
  exists (NewCoinbase (coinbase_message now) (BlockReward height) script), [], [], 0.
  split; [done | done | constructor | mach |].
  change (hdr_Height (blk_Header (set_nonce (template now now' script p bits) nonce))) with height.
  unfold cb_total, NewCoinbase. csimpl. rewrite u64_small by mach. lia.
Qed.

Lemma template_header_valid now now' script p bits nonce net hbh vnow :
  let b := set_nonce (template now now' script p bits) nonce in
  ExpectedBits (blk_Header p) net hbh = Ok bits -> CompactToBig bits <= PowLimit net ->
  hits b (CompactToBig bits) -> now' <= vnow + 7200 ->
  ValidateBlockHeaderWithDifficulty vnow b (Some (blk_Header p)) net hbh = Ok tt.
Proof.
  intros b Hbits Hlim Hhit Hnow.
  assert (Hpow : CheckProofOfWork (blk_Header b) (PowLimit net) = Ok tt).
  { apply CheckProofOfWork_Ok. change (hdr_Bits (blk_Header b)) with bits. unfold hits in Hhit.
    pose proof (be_val_bound (hdr_Hash (blk_Header b)) ltac:(apply hdr_Hash_hash)). lia. }
  unfold ValidateBlockHeaderWithDifficulty, ValidateBlockHeader. rewrite bool_decide_true by done.
  cbn [negb]. rewrite Hpow. csimpl.
  change (hdr_Timestamp (blk_Header b)) with now'. rewrite (proj2 (Z.ltb_ge _ _)) by lia.
  change (hdr_Height (blk_Header b)) with (u64 (hdr_Height (blk_Header p) + 1)).
  change (hdr_PrevHash (blk_Header b)) with (blk_Hash p). change (hdr_Bits (blk_Header b)) with bits.
  rewrite Z.eqb_refl, bool_decide_true by done. csimpl. rewrite Hbits. csimpl. by rewrite Z.eqb_refl.
Qed.

(** A mined template passes the validation of the node that built it, unless its
    hash is already taken. *)
Lemma template_accepted net cs bs m p bits now now' vnow script nonce :
  represents (mg_Store m) cs -> chain_inv net cs bs -> mg_Network m = net ->
  last bs = Some p -> Z.of_nat (length bs) < 2 ^ 64 ->
  ExpectedBits (blk_Header p) net (chain_HeaderByHeight (mg_Store m)) = Ok bits ->
  CompactToBig bits <= PowLimit net ->
  let b := set_nonce (template now now' script p bits) nonce in
  block_wf b -> hits b (CompactToBig bits) -> now' <= vnow + 7200 ->
  hdr_Height (blk_Header b) = Z.of_nat (length bs) /\
  (validate_block vnow b m = Ok tt \/
   (validate_block vnow b m = Err (Errorf "block already known") /\
    exists c, GetBlock (blk_Hash b) (mg_Store m) = Ok c /\ blk_Header c <> blk_Header b)).
Proof.
  intros R I Hn Hlast Hlen Hbits Hlim b Hwf Hhit Hclock.
  pose proof Hlast as Htip. rewrite last_lookup in Htip. pose proof (lookup_lt_Some _ _ _ Htip).
  assert (Hhb : hdr_Height (blk_Header b) = Z.of_nat (length bs)).
  { change (hdr_Height (blk_Header b)) with (u64 (hdr_Height (blk_Header p) + 1)).
    rewrite (ci_height _ _ _ I _ _ Htip), u64_small by mach. lia. }
  split; [done|].
  unfold validate_block. destruct (GetBlock (blk_Hash b) (mg_Store m)) as [c|e] eqn:Hg.
  { right. split; [done|]. exists c. split; [done|]. by eapply inv_fresh; [exact R | exact I | lia |]. }
  left. csimpl. unfold previous_header. rewrite (proj2 (Z.ltb_lt _ _)) by lia.
  change (hdr_PrevHash (blk_Header b)) with (blk_Hash p).
  rewrite (inv_GetBlock _ _ _ _ R I), (ci_block _ _ _ I _ _ Htip) by apply blk_Hash_hash. csimpl.
  rewrite Hn. unfold b. rewrite (template_header_valid now now' script p bits nonce net _ vnow) by done.
  csimpl. by apply template_txs_valid.
Qed.

(** The round on a reachable node: what it mines and what becomes of it. *)
Lemma mine_round_unfold net cs bs m p bits fuel rd script :
  represents (mg_Store m) cs -> chain_inv net cs bs -> mg_Network m = net -> mg_Mempool m = None ->
  last bs = Some p -> ExpectedBits (blk_Header p) net (chain_HeaderByHeight (mg_Store m)) = Ok bits ->
  mine_round fuel rd script m =
  match Mine fuel (r_ctx rd) 0 (template (r_coinbase_now rd) (r_header_now rd) script p bits)
          (CompactToBig bits) with
  | None => None
  | Some (false, _) => Some (m, Err ErrCanceled)
  | Some (true, block) =>
      match ValidateAndApplyBlock fuel (r_validate_now rd) block m with
      | None => None
      | Some (m, Err e) => Some (m, Err e)
      | Some (m, Ok _) => Some (m, Ok (tip_info (blk_Hash block) block))
      end
  end.
Proof.
  intros R I Hn Hmp Hlast Hbits. unfold mine_round, BuildTemplate.
  rewrite (inv_TipBlock _ _ _ _ R I p Hlast). csimpl. unfold NextBits. rewrite Hn, Hbits, Hmp. done.
Qed.

(** ** Properties *)

(** C3: On a reachable node (started empty on a healthy disk, offered only blocks of
    positive height within the parser limits) with no pool, a script within the parser
    limit and a header time at most two hours ahead of the validation, a mining round
    builds a template on the tip and either runs until its context is cancelled, or
    searches nonces without a hit, or ends with the mined block as the new tip; the node
    refuses its own block only when it already stores a different block under the same
    hash. *)
Theorem mined_blocks_are_accepted net v m fuel rd script h :
  net_ok net -> reachable net v m -> mg_Mempool m = None ->
  Height (mg_Store m) = Ok h -> h + 1 < 2 ^ 64 ->
  is_i64 (r_coinbase_now rd) -> is_i64 (r_header_now rd) ->
  r_header_now rd <= r_validate_now rd + 7200 ->
  bytes_wf script -> len script <= max_field ->
  exists p bits, TipBlock (mg_Store m) = Ok p /\ NextBits m (blk_Header p) = Ok bits /\
  let t := template (r_coinbase_now rd) (r_header_now rd) script p bits in
  match mine_round fuel rd script m with
  | None => forall k, (k < fuel)%nat -> r_ctx rd k = false /\ ~ hits (nonce_at t k) (CompactToBig bits)
  | Some (m', Err e) =>
      m' = m /\
      ((e = ErrCanceled /\ exists k, r_ctx rd k = true) \/
       (e = Errorf "block already known" /\ exists k c,
          GetBlock (blk_Hash (nonce_at t k)) (mg_Store m) = Ok c /\
          blk_Header c <> blk_Header (nonce_at t k)))
  | Some (m', Ok tip) =>
      exists k, TipBlock (mg_Store m') = Ok (nonce_at t k) /\
        tip = tip_info (blk_Hash (nonce_at t k)) (nonce_at t k) /\
        CheckProofOfWork (blk_Header (nonce_at t k)) (PowLimit net) = Ok tt
  end.
Proof.
  intros Hnet Hreach Hmp Hheight Hlt Hn1 Hn2 Hclock Hs Hsl.
  apply reachable_inv in Hreach as (cs & bs & R & I & En & Ev); [|apply Hnet].
  destruct (inv_tip_block _ _ _ I) as (p & Hlast & Htip).
  pose proof (inv_TipBlock _ _ _ _ R I p Hlast) as HT. pose proof (inv_Tip _ _ _ _ R I p Hlast) as HTip.
  assert (Hlen : Z.of_nat (length bs) < 2 ^ 64).
  { rewrite (inv_Height _ _ _ _ R I p Hlast) in Hheight. injection Hheight as <-. rewrite (ci_height _ _ _ I _ _ Htip) in Hlt. apply lookup_lt_Some in Htip. lia. }
  destruct (inv_NextBits _ _ _ _ R I Hnet p Hlast Hlen) as (bits & Hbits & _ & Hbu & Hbt).
  pose proof (mine_round_unfold net cs bs m p bits fuel rd script R I En Hmp Hlast Hbits) as EM.
  set (t := template _ _ script p bits) in *.
  assert (Hnonce : is_u64 (hdr_Nonce (blk_Header t))) by done.
  assert (HNB : NextBits m (blk_Header p) = Ok bits) by (unfold NextBits; by rewrite En).
  destruct (Mine fuel (r_ctx rd) 0 t (CompactToBig bits)) as [[[] b]|] eqn:HM.
  - apply Mine_hit in HM as [Hhit (k & ->)]; [|done].
    destruct (template_wf (r_coinbase_now rd) (r_header_now rd) script p bits
      (u64 (hdr_Nonce (blk_Header t) + Z.of_nat k))) as [Hwf Hfit]; try done; [apply u64_range|].
    destruct (template_accepted net cs bs m p bits (r_coinbase_now rd) (r_header_now rd)
      (r_validate_now rd) script (u64 (hdr_Nonce (blk_Header t) + Z.of_nat k))) as [Hh Hval];
      try done; [lia |].
    fold t in Hwf, Hfit, Hh, Hval. fold (nonce_at t k) in Hwf, Hfit, Hh, Hval.
    exists p, bits. split_and!; [done | done|]. cbv zeta. rewrite EM. clear EM. rewrite <- En in I.
    destruct Hval as [Hval|(Hval & c & Hg & Hne)].
    2: { unfold ValidateAndApplyBlock. rewrite Hval. split; [done|]. right. split; [done|]. by exists k, c. }
    destruct (accept_step fuel (r_validate_now rd) (nonce_at t k) m cs bs R I Hwf Hfit)
      as (m1 & r1 & cs1 & -> & R1 & _ & _ & Hres).
    { rewrite Hh. apply lookup_lt_Some in Htip. lia. }
    rewrite Hval in Hres. destruct Hres as [-> Hres].
    rewrite decide_True in Hres by (by rewrite HTip). destruct Hres as [I1 _].
    exists k. split_and!; [|done|].
    + apply (inv_TipBlock _ _ _ _ R1 I1). apply last_snoc.
    + fold t. apply CheckProofOfWork_Ok. change (hdr_Bits (blk_Header (nonce_at t k))) with bits. unfold hits in Hhit.
      pose proof (be_val_bound (hdr_Hash (blk_Header (nonce_at t k))) ltac:(apply hdr_Hash_hash)). lia.
  - exists p, bits. split_and!; [done | done|]. cbv zeta. rewrite EM. split; [done|]. left.
    split; [done|]. by eapply Mine_stopped.
  - exists p, bits. split_and!; [done | done|]. cbv zeta. rewrite EM. by apply Mine_running.
Qed.

End Mining.
