(* ===== verification/Rollback.v ===== *)
(** * Rollback: undoing accepted blocks

    [RollbackToHeight] after any number of accepted blocks: the tip and the
    UTXO set are those of the earlier chain again.  Stores are compared up to
    their UTXO sets, an equivalence the typed writes respect. *)

From S2P Require Import Prelude Encoding Sha256 Params Tx Block Consensus Pebble Storage StoreSpec.
From S2P Require Import Ledger Mempool Miner Bech32 Chain ChainSpec.

(** ** Stores with the same UTXO set *)

Definition same_utxos (cs cs' : gmap skey svalue) : Prop :=
  forall h i, cs !! KUTXO h i = cs' !! KUTXO h i.

#[global] Instance same_utxos_equivalence : Equivalence same_utxos.
Proof.
  split.
  - by intros cs h i.
  - intros cs cs' H h i. by rewrite H.
  - intros cs1 cs2 cs3 H1 H2 h i. by rewrite H1.
Qed.

#[global] Instance top_apply_proper : Proper (same_utxos ==> (=) ==> same_utxos) top_apply.
Proof.
  intros cs cs' H o ? <- h i. destruct (decide (o.1 = KUTXO h i)) as [E|E].
  - rewrite <- E, !top_apply_eq. done.
  - by rewrite !top_apply_ne.
Qed.

#[global] Instance tops_apply_proper ops : Proper (same_utxos ==> same_utxos) (tops_apply ops).
Proof.
  induction ops as [|o ops IH]; intros cs cs' H; [done|]. apply IH. by apply top_apply_proper.
Qed.

#[global] Instance cs_utxo_proper : Proper (same_utxos ==> (=) ==> (=) ==> (=)) cs_utxo.
Proof. intros cs cs' H h ? <- i ? <-. unfold cs_utxo. by rewrite H. Qed.

Section Rollback.
Context {HF : HashFunction} {UJ : UTXOJson}.

#[global] Instance a_Disconnect_proper b undo : Proper (same_utxos ==> same_utxos) (a_Disconnect b undo).
Proof. intros cs cs' H. unfold a_Disconnect. by rewrite H. Qed.

Lemma same_utxos_work cs h w : same_utxos (<[KWork h := VWork w]> cs) cs.
Proof. intros h' i. by rewrite lookup_insert_ne. Qed.

(** ** Chains grown block by block *)

(** [m] is the state after the manager in state [m0] accepted the blocks [bs],
    each on top of the one before. *)
Inductive grown (m0 : Manager) : list Block -> Manager -> Prop :=
| grown_nil : grown m0 [] m0
| grown_block fuel now bs m b m' :
    grown m0 bs m -> block_wf b -> block_fits b -> 0 < hdr_Height (blk_Header b) ->
    fresh_outputs b (mg_Store m) -> Tip (mg_Store m) = Ok (hdr_PrevHash (blk_Header b)) ->
    ValidateAndApplyBlock fuel now b m = Some (m', Ok tt) ->
    grown m0 (bs ++ [b]) m'.

(** [cs] reads like [cs'] as far as undoing the blocks [bs] is concerned. *)
Record like (bs : list Block) (cs cs' : gmap skey svalue) : Prop := {
  like_utxos : same_utxos cs cs';
  like_tip : cs_tip cs = cs_tip cs';
  like_blocks : forall b, b ∈ bs ->
    cs_block cs (blk_Hash b) = cs_block cs' (blk_Hash b) /\
    cs_undo cs (blk_Hash b) = cs_undo cs' (blk_Hash b);
}.

Lemma like_refl bs cs : like bs cs cs.
Proof. by split. Qed.

(** Undoing the last block leads back to a store like the one before it. *)
Lemma like_disconnect net bs b cs d w :
  store_ok cs -> chain_inv net cs bs -> cs_block cs (blk_Hash b) = None ->
  cs_tip cs = Some (hdr_PrevHash (blk_Header b)) -> hdr_Height (blk_Header b) <> 0 ->
  (forall k, k ∈ output_keys (blk_Transactions b) -> cs !! k = None) ->
  like (bs ++ [b]) d (<[KWork (blk_Hash b) := VWork w]> (a_ApplyBlock b cs)) ->
  like bs (a_Disconnect b (a_undo (blk_Transactions b) cs) d) cs.
Proof.
  intros Hok I Hnew Htip Hh Hfresh [L1 L2 L3]. split.
  - rewrite L1, same_utxos_work. intros h i. by apply disconnect_apply_utxo.
  - rewrite disconnect_tip, Htip. by rewrite (proj2 (Z.eqb_neq _ _)).
  - intros b' Hb'. destruct (L3 b' ltac:(set_solver)) as [L4 L5].
    assert (Hne : blk_Hash b' <> blk_Hash b).
    { apply list_elem_of_lookup in Hb' as [n Hn]. intros E.
      rewrite <- E, (ci_block _ _ _ I n b' Hn) in Hnew. done. }
    unfold cs_block, cs_undo in *. rewrite !disconnect_other by done. rewrite L4, L5.
    rewrite !lookup_insert_ne by done.
    fold (cs_block (a_ApplyBlock b cs) (blk_Hash b')) (cs_undo (a_ApplyBlock b cs) (blk_Hash b')).
    by rewrite apply_block, apply_undo, !decide_False.
Qed.

(** What a successful rollback from [d] leaves, relative to the store [cs0]. *)
Definition rolls_back (d : DB) (cs cs0 : gmap skey svalue) (height : Z) (steps : nat) : Prop :=
  forall fuel, (steps < fuel)%nat ->
  exists d' cs', RollbackToHeight fuel height d = Some (d', Ok tt) /\ represents d' cs' /\
    same_utxos cs' cs0 /\ cs_tip cs' = cs_tip cs0 /\
    (forall h, cs_block cs' h = cs_block cs h).

Lemma rolls_back_base d cs net cs0 bs0 t :
  chain_inv net cs0 bs0 -> last bs0 = Some t -> represents d cs -> like bs0 cs cs0 ->
  rolls_back d cs cs0 (hdr_Height (blk_Header t)) 0.
Proof.
  intros I Hl R [L1 L2 L3] [|fuel] Hf; [lia|]. exists d, cs. split_and!; try done. simpl.
  assert (Ht : cs_tip cs = Some (blk_Hash t)) by (by rewrite L2, (ci_tip _ _ _ I), Hl).
  pose proof Hl as Hn. rewrite last_lookup in Hn.
  assert (Hb : cs_block cs (blk_Hash t) = Some t).
  { destruct (L3 t) as [-> _]; [by eapply list_elem_of_lookup_2|]. by eapply ci_block. }
  unfold TipBlock. rewrite (Tip_spec _ _ R), Ht. simpl.
  rewrite (GetBlock_spec _ _ _ R (blk_Hash_hash t)), Hb. csimpl.
  rewrite DeserializeBlock_Serialize; [|by eapply cs_block_ok; [apply R|] | by eapply ci_fits].
  by rewrite (proj2 (Z.leb_le _ _)) by lia.
Qed.

Lemma rolls_back_step d cs b undo cs0 height steps :
  represents d cs -> cs_tip cs = Some (blk_Hash b) -> cs_block cs (blk_Hash b) = Some b ->
  block_fits b -> cs_undo cs (blk_Hash b) = Some undo -> height < hdr_Height (blk_Header b) ->
  (forall d1, represents d1 (a_Disconnect b undo cs) ->
     rolls_back d1 (a_Disconnect b undo cs) cs0 height steps) ->
  rolls_back d cs cs0 height (S steps).
Proof.
  intros R Ht Hb Hfit Hu Hh Hnext [|fuel] Hf; [lia|]. simpl.
  destruct (DisconnectTip_refines d cs (blk_Hash b) b undo R Ht Hb Hfit Hu) as (d1 & Hd & R1).
  destruct (Hnext d1 R1 fuel ltac:(lia)) as (d' & cs' & HR & R' & Hs & Ht' & Hbl).
  exists d', cs'. split_and!; try done.
  - unfold TipBlock. rewrite (Tip_spec _ _ R), Ht. simpl.
    rewrite (GetBlock_spec _ _ _ R (blk_Hash_hash b)), Hb. csimpl.
    rewrite DeserializeBlock_Serialize; [|by eapply cs_block_ok; [apply R|]|done].
    by rewrite (proj2 (Z.leb_gt _ _)), Hd by lia.
  - intros h. rewrite Hbl. unfold cs_block. by rewrite disconnect_other.
Qed.

Lemma grown_rolls_back m0 cs0 bs0 t bs m :
  represents (mg_Store m0) cs0 -> chain_inv (mg_Network m0) cs0 bs0 -> last bs0 = Some t ->
  grown m0 bs m ->
  exists cs, represents (mg_Store m) cs /\ chain_inv (mg_Network m0) cs (bs0 ++ bs) /\
    mg_Network m = mg_Network m0 /\
    forall d csd, represents d csd -> like (bs0 ++ bs) csd cs ->
      rolls_back d csd cs0 (hdr_Height (blk_Header t)) (length bs).
Proof.
  intros R0 I0 Hl H. induction H as [|fuel now bs m b m' _ IH Hwf Hfit Hpos Hfr Htip HV].
  - exists cs0. rewrite app_nil_r. split_and!; try done. intros d csd R L. by eapply rolls_back_base.
  - destruct IH as (cs & R & I & Hnet & IH).
    pose proof I as I'. rewrite <- Hnet in I'.
    destruct (accept_step fuel now b m cs _ R I' Hwf Hfit Hpos) as (m1 & r1 & cs1 & E & R1 & Hn1 & _ & Hres).
    rewrite E in HV. injection HV as -> ->.
    destruct (validate_block now b m); [|by destruct Hres as [? _]]. destruct Hres as [_ Hres].
    rewrite decide_True in Hres by done. destruct Hres as (I1 & _ & Ecs & Hnew). rewrite Hnet in I1.
    exists cs1. rewrite app_assoc. split_and!; [done | done | congruence |].
    intros d csd Rd L. rewrite length_app, Nat.add_1_r.
    assert (Hin : b ∈ (bs0 ++ bs) ++ [b]) by set_solver.
    destruct (like_blocks _ _ _ L b Hin) as [Lb Lu].
    apply (rolls_back_step d csd b (a_undo (blk_Transactions b) cs)); try done.
    + rewrite (like_tip _ _ _ L), (ci_tip _ _ _ I1). by rewrite last_snoc.
    + rewrite Lb. apply (ci_block _ _ _ I1 (length (bs0 ++ bs))). apply list_lookup_middle. done.
    + rewrite Lu, Ecs. unfold cs_undo. rewrite lookup_insert_ne by done.
      fold (cs_undo (a_ApplyBlock b cs) (blk_Hash b)). by rewrite apply_undo, decide_True.
    + rewrite (ci_height _ _ _ I1 (length (bs0 ++ bs)) b) by (by apply list_lookup_middle).
      pose proof Hl as Hn. rewrite last_lookup in Hn. rewrite (ci_height _ _ _ I0 _ t Hn), length_app.
      apply lookup_lt_Some in Hn. lia.
    + intros d1 R1'. apply IH; [done|]. rewrite Ecs in L.
      eapply (like_disconnect (mg_Network m0)); try done.
      * apply R.
      * rewrite (Tip_spec _ _ R) in Htip. destruct (cs_tip cs); [|done]. by injection Htip as ->.
      * lia.
      * by eapply fresh_outputs_spec.
Qed.

(** ** Properties *)

(** C12: Rolling a reachable node back to the height of an earlier tip, after any number
    of accepted blocks of positive height within the parser limits, each a child of the
    tip that creates only new outputs, succeeds with more fuel than blocks and restores
    the old tip and every unspent output. *)
Theorem rollback_restores net v m0 bs m fuel t :
  is_u32 (GenesisBits net) -> reachable net v m0 -> grown m0 bs m ->
  TipBlock (mg_Store m0) = Ok t -> (length bs < fuel)%nat ->
  exists d', RollbackToHeight fuel (hdr_Height (blk_Header t)) (mg_Store m) = Some (d', Ok tt) /\
    Tip d' = Tip (mg_Store m0) /\
    (forall h i, is_hash h -> is_u32 i -> Get d' h i = Get (mg_Store m0) h i).
Proof.
  intros Hb Hreach Hg HT Hf. apply reachable_inv in Hreach as (cs0 & bs0 & R0 & I0 & Hn & _); [|done].
  destruct (inv_tip_block _ _ _ I0) as (t' & Hl & _).
  rewrite (inv_TipBlock _ _ _ _ R0 I0 t' Hl) in HT. injection HT as ->. rewrite <- Hn in I0.
  destruct (grown_rolls_back m0 cs0 bs0 t bs m R0 I0 Hl Hg) as (cs & R & _ & _ & Hroll).
  destruct (Hroll (mg_Store m) cs R (like_refl _ _) fuel Hf) as (d' & cs' & HR & R' & Hs & Ht & _).
  exists d'. split_and!; [done | |].
  - by rewrite (Tip_spec _ _ R'), (Tip_spec _ _ R0), Ht.
  - intros h i Hh Hi. by rewrite (Get_spec _ _ _ _ R' Hh Hi), (Get_spec _ _ _ _ R0 Hh Hi), Hs.
Qed.

(** A block that was disconnected by a rollback is refused as already known when it is
    offered again. *)
Theorem rolled_back_blocks_stay_known net v m0 bs m fuel t b fuel' now :
  is_u32 (GenesisBits net) -> reachable net v m0 -> grown m0 bs m ->
  TipBlock (mg_Store m0) = Ok t -> (length bs < fuel)%nat -> b ∈ bs ->
  exists d', RollbackToHeight fuel (hdr_Height (blk_Header t)) (mg_Store m) = Some (d', Ok tt) /\
    ValidateAndApplyBlock fuel' now b (set_store m d') =
      Some (set_store m d', Err (Errorf "block already known")).
Proof.
  intros Hb Hreach Hg HT Hf Hin. apply reachable_inv in Hreach as (cs0 & bs0 & R0 & I0 & Hn & _); [|done].
  destruct (inv_tip_block _ _ _ I0) as (t' & Hl & _).
  rewrite (inv_TipBlock _ _ _ _ R0 I0 t' Hl) in HT. injection HT as ->. rewrite <- Hn in I0.
  destruct (grown_rolls_back m0 cs0 bs0 t bs m R0 I0 Hl Hg) as (cs & R & I & _ & Hroll).
  destruct (Hroll (mg_Store m) cs R (like_refl _ _) fuel Hf) as (d' & cs' & HR & R' & _ & _ & Hbl).
  exists d'. split; [done|].
  assert (Hex : exists n, (bs0 ++ bs) !! n = Some b) by (apply list_elem_of_lookup; set_solver).
  destruct Hex as [n Hb'].
  assert (Hk : GetBlock (blk_Hash b) d' = Ok b).
  { rewrite (GetBlock_spec _ _ _ R' (blk_Hash_hash b)), Hbl, (ci_block _ _ _ I n b Hb'). csimpl.
    apply DeserializeBlock_Serialize; [exact (inv_wf _ _ _ _ R I n b Hb') | exact (ci_fits _ _ _ I n b Hb')]. }
  unfold ValidateAndApplyBlock, validate_block. simpl. by rewrite Hk.
Qed.

End Rollback.
