(* ===== verification/Sync.v ===== *)
(** * Sync: header-first synchronisation

    Models [sync/sync.go].  The source of headers and blocks is the interface
    the code declares; the manager advances through [ValidateAndApplyBlock]. *)

From S2P Require Import Prelude Encoding Sha256 Params Tx Block Consensus Pebble Storage StoreSpec.
From S2P Require Import Ledger Mempool Miner Bech32 Chain ChainSpec.

Record HeaderSource := {
  src_Headers : list bytes -> bytes -> result (list BlockHeader);
  src_Block : bytes -> result Block;
}.

Record SyncResult := mkSyncResult {
  sr_Headers : Z;
  sr_Blocks : Z;
  sr_TipHeight : Z;
}.

Section Sync.
Context {HF : HashFunction} {UJ : UTXOJson}.

(** The loop over the headers.  [now] is the clock of each validation, first to
    last. *)
Fixpoint sync_loop (fuel : nat) (now : nat -> Z) (source : HeaderSource) (headers : list BlockHeader)
    (expectedPrev : bytes) (m : Manager) (result : SyncResult)
    : option (Manager * SyncResult * Prelude.result unit) :=
  match headers with
  | [] => Some (m, result, Ok tt)
  | header :: headers =>
      if negb (bool_decide (hdr_PrevHash header = expectedPrev)) then
        Some (m, result, Err (Errorf "non-contiguous header chain"))
      else
        match src_Block source (hdr_Hash header) with
        | Err e => Some (m, result, Err e)
        | Ok block =>
            if negb (bool_decide (hdr_Hash (blk_Header block) = hdr_Hash header)) then
              Some (m, result, Err (Errorf "block/header hash mismatch"))
            else
              match ValidateAndApplyBlock fuel (now (length headers)) block m with
              | None => None
              | Some (m, Err e) => Some (m, result, Err e)
              | Some (m, Ok _) =>
                  sync_loop fuel now source headers (hdr_Hash header) m
                    (mkSyncResult (sr_Headers result) (sr_Blocks result + 1)
                       (hdr_Height (blk_Header block)))
              end
        end
  end.

Definition HeaderFirstSync (fuel : nat) (now : nat -> Z) (source : HeaderSource) (chain : option Manager)
    : option (option Manager * SyncResult * Prelude.result unit) :=
  match chain with
  | None => Some (None, mkSyncResult 0 0 0, Err (Errorf "chain manager required"))
  | Some m =>
      match TipBlock (mg_Store m) with
      | Err e => Some (Some m, mkSyncResult 0 0 0, Err e)
      | Ok tip =>
          match src_Headers source [blk_Hash tip] zero_hash with
          | Err e => Some (Some m, mkSyncResult 0 0 0, Err e)
          | Ok headers =>
              match sync_loop fuel now source headers (blk_Hash tip) m
                      (mkSyncResult (len headers) 0 (hdr_Height (blk_Header tip))) with
              | None => None
              | Some (m, res, r) => Some (Some m, res, r)
              end
          end
      end
  end.

(** ** The loop follows the headers *)

(** What the Go types say of a source. *)
Definition source_typed (source : HeaderSource) : Prop :=
  (forall l s hs, src_Headers source l s = Ok hs -> Forall header_wf hs) /\
  (forall h b, src_Block source h = Ok b -> block_wf b).

(** The block served for a header passes the check of the hash, but it is not
    regular, or its header is another one with the same hash. *)
Definition irregular_at (source : HeaderSource) (headers : list BlockHeader) : Prop :=
  exists h rest b, headers = h :: rest /\ src_Block source (hdr_Hash h) = Ok b /\
    hdr_Hash (blk_Header b) = hdr_Hash h /\ ~ (regular b /\ blk_Header b = h).

#[local] Instance header_eq_dec : EqDecision BlockHeader.
Proof. solve_decision. Defined.
#[local] Instance regular_dec b : Decision (regular b).
Proof. unfold regular. apply _. Defined.

(** The hash of the last header, or the starting point. *)
Definition last_hash_of (headers : list BlockHeader) (start : bytes) : bytes :=
  default start (hdr_Hash <$> last headers).

Lemma last_hash_cons h hs start : last_hash_of (h :: hs) start = last_hash_of hs (hdr_Hash h).
Proof. unfold last_hash_of. rewrite last_cons. by destruct (last hs). Qed.

Lemma validated_unchanged net v m fuel now b m' e :
  is_u32 (GenesisBits net) -> reachable net v m -> block_wf b -> regular b ->
  ValidateAndApplyBlock fuel now b m = Some (m', Err e) -> m' = m.
Proof.
  intros Hb H Hwf [Hfit Hpos] HV. apply reachable_inv in H as (cs & bs & R & I & Hn & _); [|done].
  rewrite <- Hn in I. destruct (accept_step fuel now b m cs bs R I Hwf Hfit Hpos) as (m1 & r & cs' & E & _ & _ & _ & H).
  rewrite HV in E. simplify_eq. destruct (validate_block now b m); [by destruct H | by destruct H as (_ & -> & _)].
Qed.

(** How the loop ends: the headers [done] were followed by regular blocks up to
    the state [m']; then the list is over, or the loop reports an error in that
    state, or the next block is irregular and the loop goes on from there. *)
Definition followed (fuel : nat) (now : nat -> Z) (source : HeaderSource)
    (result : option (Manager * SyncResult * Prelude.result unit))
    (rest : list BlockHeader) (expectedPrev : bytes) (m' : Manager) (res : SyncResult) : Prop :=
  (rest = [] /\ result = Some (m', res, Ok tt)) \/
  (rest <> [] /\ exists e, result = Some (m', res, Err e)) \/
  (irregular_at source rest /\ result = sync_loop fuel now source rest expectedPrev m' res).

Lemma sync_loop_follows net v fuel now source headers start m res :
  is_u32 (GenesisBits net) -> source_typed source -> Forall header_wf headers ->
  reachable net v m -> Tip (mg_Store m) = Ok start ->
  exists done rest m' res', headers = done ++ rest /\ reachable net v m' /\
    Tip (mg_Store m') = Ok (last_hash_of done start) /\
    sr_Blocks res' = sr_Blocks res + len done /\ sr_Headers res' = sr_Headers res /\
    followed fuel now source (sync_loop fuel now source headers start m res) rest (last_hash_of done start) m' res'.
Proof.
  intros Hb [_ Hsrc] Hh. revert start m res.
  induction Hh as [|h headers Hwh _ IH]; intros start m res Hreach Htip.
  { exists [], [], m, res. change (len []) with 0. split_and!; try done; [lia | by left]. }
  assert (Hstop : followed fuel now source (sync_loop fuel now source (h :: headers) start m res) (h :: headers) start m res ->
    exists done rest m' res', h :: headers = done ++ rest /\ reachable net v m' /\
    Tip (mg_Store m') = Ok (last_hash_of done start) /\
    sr_Blocks res' = sr_Blocks res + len done /\ sr_Headers res' = sr_Headers res /\
    followed fuel now source (sync_loop fuel now source (h :: headers) start m res) rest (last_hash_of done start) m' res').
  { intros H. exists [], (h :: headers), m, res. change (len []) with 0. split_and!; try done. lia. }
  revert Hstop. unfold followed at 1. cbn [sync_loop]. intros Hstop.
  destruct (bool_decide (hdr_PrevHash h = start)) eqn:Ep; cbn [negb] in *; [|apply Hstop; right; left; by eauto].
  destruct (src_Block source (hdr_Hash h)) as [b|e] eqn:Eb; [|apply Hstop; right; left; by eauto].
  destruct (bool_decide (hdr_Hash (blk_Header b) = hdr_Hash h)) eqn:Eh; cbn [negb] in *;
    [|apply Hstop; right; left; by eauto]. breflect.
  destruct (decide (regular b /\ blk_Header b = h)) as [[Hreg Hbh]|Hirr].
  2: { apply Hstop. right. right. split; [by exists h, headers, b | done]. }
  pose proof (Hsrc _ _ Eb) as Hwf. destruct Hreg as [Hfit Hpos].
  destruct (accept_tip net v m fuel (now (length headers)) b Hb Hreach Hwf Hfit Hpos) as (m1 & r1 & EV & _ & Ht).
  rewrite EV in *. destruct r1 as [[]|e].
  2: { apply Hstop. right. left. split; [done|]. exists e.
       by rewrite <- (validated_unchanged net v m fuel (now (length headers)) b m1 e Hb Hreach Hwf (conj Hfit Hpos) EV). }
  assert (Hreach1 : reachable net v m1) by (by eapply reach_block).
  rewrite decide_True in Ht by (rewrite Htip, Hbh; congruence).
  change (blk_Hash b) with (hdr_Hash (blk_Header b)) in Ht. rewrite Hbh in Ht.
  destruct (IH (hdr_Hash h) m1 (mkSyncResult (sr_Headers res) (sr_Blocks res + 1) (hdr_Height (blk_Header b)))
    Hreach1 Ht) as (done & rest & m' & res' & Hd & Hr & Hti & Hc & Hhd & Hf).
  exists (h :: done), rest, m', res'. rewrite last_hash_cons, len_cons. simpl in Hc, Hhd.
  split_and!; try done; [by rewrite Hd | lia].
Qed.

(** ** Properties *)

(** C26: On a node that started empty on a healthy disk and was offered only blocks of
    positive height within the parser limits, header-first synchronisation with any
    source processes a prefix of the announced headers in order and has the last header
    of the prefix as its tip. Then it reports success, when the prefix is the whole
    list, or an error, or it goes on from that state with a block that the source serves
    under the right hash but that has height 0, is over the parser limits or has another
    header with that hash; nothing is assumed of the source but the types of its fields.
    *)
Theorem sync_follows_headers net v blocks fuel now source m :
  is_u32 (GenesisBits net) -> source_typed source -> offered net v blocks m -> Forall regular blocks ->
  exists tip, TipBlock (mg_Store m) = Ok tip /\
    match src_Headers source [blk_Hash tip] zero_hash with
    | Err e => exists res, HeaderFirstSync fuel now source (Some m) = Some (Some m, res, Err e)
    | Ok headers => exists done rest m' res,
        headers = done ++ rest /\ reachable net v m' /\
        Tip (mg_Store m') = Ok (last_hash_of done (blk_Hash tip)) /\
        sr_Headers res = len headers /\ sr_Blocks res = len done /\
        ((rest = [] /\ HeaderFirstSync fuel now source (Some m) = Some (Some m', res, Ok tt)) \/
         (rest <> [] /\ exists e, HeaderFirstSync fuel now source (Some m) = Some (Some m', res, Err e)) \/
         (irregular_at source rest /\
          HeaderFirstSync fuel now source (Some m) =
            (fun '(m, res, r) => (Some m, res, r)) <$>
              sync_loop fuel now source rest (last_hash_of done (blk_Hash tip)) m' res))
    end.
Proof.
  intros Hb Hsrc Ho Hreg. apply (offered_reachable _ _ _ _ Ho) in Hreg as Hreach. pose proof Hreach as Hinv.
  apply reachable_inv in Hinv as (cs & bs & R & I & _); [|done].
  destruct (inv_tip_block _ _ _ I) as (t & Hl & _).
  pose proof (inv_TipBlock _ _ _ _ R I t Hl) as HT. pose proof (inv_Tip _ _ _ _ R I t Hl) as HTip.
  exists t. split; [done|]. unfold HeaderFirstSync. rewrite HT.
  destruct (src_Headers source [blk_Hash t] zero_hash) as [headers|e] eqn:Es; [|by eexists].
  pose proof Hsrc as (Hs1 & _).
  destruct (sync_loop_follows net v fuel now source headers (blk_Hash t) m
    (mkSyncResult (len headers) 0 (hdr_Height (blk_Header t))) Hb Hsrc (Hs1 _ _ _ Es) Hreach HTip)
    as (done & rest & m' & res' & Hd & Hre & Hti & Hc & Hhd & Hf).
  exists done, rest, m', res'. simpl in Hc, Hhd. split_and!; try done.
  destruct Hf as [[Hf ->]|[(Hf & e & ->)|[Hf ->]]]; eauto.
  right. right. split; [done|]. by destruct (sync_loop _ _ _ _ _ _ _) as [[[? ?] ?]|].
Qed.

End Sync.
