(* ===== verification/Protection.v ===== *)
(** * Protection: reorganisation policy and height-zero blocks

    Models the policy functions of [chain/protection.go]; its health report is
    in [Health].  The second part follows a
    block whose header claims height zero through [ValidateAndApplyBlock]. *)

From S2P Require Import Prelude Encoding Sha256 Params Tx Block Consensus Pebble Storage StoreSpec.
From S2P Require Import Ledger Mempool Miner Bech32 Chain ChainSpec.

Record ReorgPolicy := mkPolicy {
  rp_MaxDepth : Z;
  rp_RequireMoreWork : bool;
}.

Record ForkChoice := mkForkChoice {
  fc_CurrentWork : Z;
  fc_CandidateWork : Z;
  fc_ReorgDepth : Z;
  fc_Allowed : bool;
  fc_Reason : bytes;
}.

(** The text of the two errors, [err.Error()]. *)
Definition reason_of (e : error) : bytes :=
  match e with
  | ErrReorgTooDeep => str "reorg exceeds configured depth"
  | ErrInsufficientWork => str "candidate chain does not have more accumulated work"
  | _ => []
  end.

(** A nil work is zero.  The error is returned beside the choice. *)
Definition EvaluateForkChoice (currentWork candidateWork : option Z) (reorgDepth : Z)
    (policy : ReorgPolicy) : ForkChoice * option error :=
  let current := default 0 currentWork in
  let candidate := default 0 candidateWork in
  let choice := mkForkChoice current candidate reorgDepth in
  if (0 <? rp_MaxDepth policy) && (rp_MaxDepth policy <? reorgDepth) then
    (choice false (reason_of ErrReorgTooDeep), Some ErrReorgTooDeep)
  else if rp_RequireMoreWork policy && (candidate <=? current) then
    (choice false (reason_of ErrInsufficientWork), Some ErrInsufficientWork)
  else (choice true [], None).

Definition ValidateDifficultyTransition (prev : BlockHeader) (nextBits : Z) (net : Network)
    (headerByHeight : HeaderByHeight) : result unit :=
  expected ← ExpectedBits prev net headerByHeight;
  fail_if negb (nextBits =? expected) with ErrDifficultyAnomaly ;;
  Ok tt.

(** EvaluateForkChoice allows a switch exactly when it returns no error, that is when
    the depth is within the limit of the policy and the candidate has more work if the
    policy requires it; the error and the reason name the rule that failed. *)
Theorem fork_choice_policy current candidate depth policy :
  let '(choice, err) := EvaluateForkChoice current candidate depth policy in
  (fc_Allowed choice = true <-> err = None) /\
  (fc_Allowed choice = true <->
     (rp_MaxDepth policy <= 0 \/ depth <= rp_MaxDepth policy) /\
     (rp_RequireMoreWork policy = true -> default 0 current < default 0 candidate)) /\
  (err = Some ErrReorgTooDeep <-> 0 < rp_MaxDepth policy < depth) /\
  (forall e, err = Some e -> fc_Reason choice = reason_of e /\
     (e = ErrReorgTooDeep \/ e = ErrInsufficientWork)).
Proof.
  unfold EvaluateForkChoice.
  destruct (Z.ltb_spec 0 (rp_MaxDepth policy)), (Z.ltb_spec (rp_MaxDepth policy) depth),
    (rp_RequireMoreWork policy), (Z.leb_spec (default 0 candidate) (default 0 current));
    simpl; (split_and!; [split; intros; simplify_eq; done | split; intros | split; intros | intros e [= <-]; auto]);
    simplify_eq; try (destruct_and?; destruct_or?); try lia; try done; auto with lia.
  all: try (split; [lia | intros; lia]); try (exfalso; lia).
  all: try (match goal with H : true = true -> _ |- _ => specialize (H eq_refl) end; exfalso; lia).
Qed.

(** ** Height-zero blocks *)

Section HeightZero.
Context {HF : HashFunction} {UJ : UTXOJson}.

(** The store after a valid block of height 0 on the tip. *)
Definition zero_store (z : Block) (cs : gmap skey svalue) : gmap skey svalue :=
  <[KWork (blk_Hash z) := VWork (WorkForBits (hdr_Bits (blk_Header z)))]> (a_ApplyBlock z cs).

Lemma zero_store_tip z cs : cs_tip (zero_store z cs) = Some (blk_Hash z).
Proof. unfold cs_tip, zero_store. rewrite lookup_insert_ne by done. apply apply_tip. Qed.

Lemma zero_store_block z cs h :
  cs_block (zero_store z cs) h = if decide (h = blk_Hash z) then Some z else cs_block cs h.
Proof.
  unfold cs_block, zero_store. rewrite lookup_insert_ne by done. apply apply_block.
Qed.


Lemma zero_store_work z cs h :
  cs_work (zero_store z cs) h =
  if decide (h = blk_Hash z) then Some (WorkForBits (hdr_Bits (blk_Header z))) else cs_work cs h.
Proof.
  unfold cs_work, zero_store. destruct (decide (h = blk_Hash z)) as [->|Hne]; [by rewrite lookup_insert_eq|].
  rewrite lookup_insert_ne by congruence. apply apply_work.
Qed.

Lemma zero_TipBlock d z cs :
  represents d (zero_store z cs) -> block_wf z -> block_fits z ->
  Tip d = Ok (blk_Hash z) /\ TipBlock d = Ok z.
Proof.
  intros R Hwf Hfit. assert (HT : Tip d = Ok (blk_Hash z)) by by rewrite (Tip_spec _ _ R), zero_store_tip.
  split; [done|]. unfold TipBlock. rewrite HT. csimpl.
  rewrite (GetBlock_spec _ _ _ R (blk_Hash_hash z)), zero_store_block, decide_True by done. csimpl.
  by rewrite DeserializeBlock_Serialize.
Qed.

Lemma zero_step fuel now z m cs :
  represents (mg_Store m) cs -> Tip (mg_Store m) = Ok (hdr_PrevHash (blk_Header z)) ->
  block_wf z -> hdr_Height (blk_Header z) = 0 -> validate_block now z m = Ok tt ->
  exists m', ValidateAndApplyBlock fuel now z m = Some (m', Ok tt) /\
    represents (mg_Store m') (zero_store z cs) /\ mg_Network m' = mg_Network m /\ mg_Verifier m' = mg_Verifier m.
Proof.
  intros R Htip Hwf Hh Hval. unfold ValidateAndApplyBlock. rewrite Hval, Htip, bool_decide_true by done.
  destruct (ApplyBlock_refines _ _ z R Hwf) as (d1 & -> & R1).
  unfold total_work_of. rewrite Hh. csimpl.
  destruct (PutTotalWork_refines d1 _ (blk_Hash z) (WorkForBits (hdr_Bits (blk_Header z))) R1 (blk_Hash_hash z))
    as (d2 & -> & R2).
  eexists. split; [done|]. by split_and!.
Qed.

(** C39: A block that claims height 0 and names the tip as its parent is accepted
    without any check against its parent and becomes the tip with height 0 and only its
    own work. *)
Theorem height_zero_block_replaces_tip fuel now b m cs tip :
  represents (mg_Store m) cs -> Tip (mg_Store m) = Ok tip ->
  block_wf b -> block_fits b -> hdr_Height (blk_Header b) = 0 -> hdr_PrevHash (blk_Header b) = tip ->
  is_ok (GetBlock (blk_Hash b) (mg_Store m)) = false ->
  ValidateBlockHeader now b None (mg_Network m) = Ok tt ->
  ValidateBlockTransactions b (Get (mg_Store m)) (mg_Verifier m) = Ok tt ->
  exists m', ValidateAndApplyBlock fuel now b m = Some (m', Ok tt) /\
    Tip (mg_Store m') = Ok (blk_Hash b) /\ Height (mg_Store m') = Ok 0 /\
    TotalWork (blk_Hash b) (mg_Store m') = Ok (WorkForBits (hdr_Bits (blk_Header b))).
Proof.
  intros R Htip Hwf Hfit Hh Hprev Hnew Hhdr Htx. subst tip.
  assert (Hval : validate_block now b m = Ok tt).
  { unfold validate_block, previous_header, ValidateBlockHeaderWithDifficulty.
    rewrite Hnew, Hh. csimpl. rewrite Hhdr. csimpl. done. }
  destruct (zero_step fuel now b m cs R Htip Hwf Hh Hval) as (m' & E & R' & _ & _).
  destruct (zero_TipBlock _ _ _ R' Hwf Hfit) as [HT HB].
  exists m'. split_and!; [done | done | |].
  - unfold Height. rewrite HT. csimpl. unfold TipBlock in HB. rewrite HT in HB. csimpl in HB. rewrite HB.
    csimpl. by rewrite Hh.
  - by rewrite (TotalWork_spec _ _ _ R' (blk_Hash_hash b)), zero_store_work, decide_True.
Qed.




End HeightZero.
