(* ===== verification/Json.v ===== *)
(** * Json: texts in JSON

    The part of encoding/json and encoding/base64 that the program uses:
    [json.Marshal] and [json.Unmarshal] of [UTXO] and [[]UTXO] for
    storage/storage.go, and the decoding of integers, strings and structs that
    the key files, the messages and the RPC server share.  A text is
    parsed to a JSON value first; the value is then decoded into the Go type
    field by field, with the rules of package json for nulls, arrays, unknown
    and repeated fields, except that a repeated byte field given as an array of
    nulls keeps no old elements.  Names and case folding are ASCII.  The instance of
    [UTXOJson] at the end discharges what [Storage] relies on. *)

From S2P Require Import Prelude Encoding Sha256 Params Tx Block Consensus Pebble Storage.

Inductive json :=
| JNull
| JBool (b : bool)
| JNum (literal : bytes)
| JStr (s : bytes)
| JArr (vs : list json)
| JObj (fs : list (bytes * json)).

(** ** Printing: the compact form [json.Marshal] writes *)

Definition join (parts : list bytes) : bytes :=
  match parts with
  | [] => []
  | p :: ps => p ++ flat_map (fun q => 44 :: q) ps
  end.

Definition quote (s : bytes) : bytes := 34 :: s ++ [34].

Fixpoint print (v : json) : bytes :=
  match v with
  | JNull => str "null"
  | JBool true => str "true"
  | JBool false => str "false"
  | JNum l => l
  | JStr s => quote s
  | JArr vs => 91 :: join (map print vs) ++ [93]
  | JObj fs => 123 :: join (map (fun kv => quote kv.1 ++ 58 :: print kv.2) fs) ++ [125]
  end.

(** How package json writes an ASCII character inside a string. *)
Definition escape_char (c : Z) : bytes :=
  if (c =? 34) || (c =? 92) then [92; c]
  else if c =? 8 then [92; 98] else if c =? 12 then [92; 102]
  else if c =? 10 then [92; 110] else if c =? 13 then [92; 114] else if c =? 9 then [92; 116]
  else if (c <? 32) || (c =? 60) || (c =? 62) || (c =? 38) then str "\u00" ++ hex_encode [c]
  else [c].
Definition escape (s : bytes) : bytes := flat_map escape_char s.

(** ** Parsing *)

Definition is_ws (c : Z) : bool := (c =? 32) || (c =? 9) || (c =? 10) || (c =? 13).
Fixpoint skip_ws (s : bytes) : bytes :=
  match s with
  | c :: s' => if is_ws c then skip_ws s' else s
  | [] => []
  end.

(** The longest run of digits. *)
Fixpoint span_digits (s : bytes) : bytes * bytes :=
  match s with
  | c :: s' => if is_digit c then let '(d, r) := span_digits s' in (c :: d, r) else ([], s)
  | [] => ([], [])
  end.

(** [-? (0 | [1-9][0-9]* ) (. [0-9]+)? ([eE] [+-]? [0-9]+)?] *)
Definition scan_int (s : bytes) : option (bytes * bytes) :=
  let '(d, r) := span_digits s in
  match d with
  | [] => None
  | 48 :: _ :: _ => Some ([48], drop 1 s)
  | _ => Some (d, r)
  end.
Definition scan_frac (s : bytes) : option (bytes * bytes) :=
  match s with
  | 46 :: s' => let '(d, r) := span_digits s' in
                match d with [] => None | _ => Some (46 :: d, r) end
  | _ => Some ([], s)
  end.
Definition scan_exp (s : bytes) : option (bytes * bytes) :=
  match s with
  | e :: s' =>
      if (e =? 101) || (e =? 69) then
        let '(sign, s'') := match s' with
                            | c :: t => if (c =? 43) || (c =? 45) then ([c], t) else ([], s')
                            | [] => ([], [])
                            end in
        let '(d, r) := span_digits s'' in
        match d with [] => None | _ => Some (e :: sign ++ d, r) end
      else Some ([], s)
  | [] => Some ([], [])
  end.
Definition scan_number (s : bytes) : option (bytes * bytes) :=
  let '(sign, s) := match s with 45 :: t => ([45], t) | _ => ([], s) end in
  '(a, s) ← scan_int s; '(b, s) ← scan_frac s; '(c, s) ← scan_exp s;
  Some (sign ++ a ++ b ++ c, s).

(** UTF-8 of a code point ([utf8.AppendRune]). *)
Definition utf8 (r : Z) : bytes :=
  if r <? 0x80 then [r]
  else if r <? 0x800 then [0xc0 + r / 64; 0x80 + r mod 64]
  else if r <? 0x10000 then [0xe0 + r / 4096; 0x80 + (r / 64) mod 64; 0x80 + r mod 64]
  else [0xf0 + r / 262144; 0x80 + (r / 4096) mod 64; 0x80 + (r / 64) mod 64; 0x80 + r mod 64].

(** [\uXXXX]: four hexadecimal digits. *)
Definition hex4 (s : bytes) : option (Z * bytes) :=
  match s with
  | a :: b :: c :: d :: s =>
      a ← hex_value a; b ← hex_value b; c ← hex_value c; d ← hex_value d;
      Some (((a * 16 + b) * 16 + c) * 16 + d, s)
  | _ => None
  end.

(** A surrogate half must be followed by [\u] and the other half; otherwise it
    decodes to the replacement character. *)
Definition unescape_u (s : bytes) : option (bytes * bytes) :=
  '(r, s) ← hex4 s;
  if (0xd800 <=? r) && (r <? 0xe000) then
    match s with
    | 92 :: 117 :: s' =>
        match hex4 s' with
        | Some (r2, s'') =>
            if (r <? 0xdc00) && (0xdc00 <=? r2) && (r2 <? 0xe000)
            then Some (utf8 (0x10000 + (r - 0xd800) * 1024 + (r2 - 0xdc00)), s'')
            else Some (utf8 0xfffd, s)
        | None => None
        end
    | _ => Some (utf8 0xfffd, s)
    end
  else Some (utf8 r, s).

Definition simple_escape (c : Z) : option Z :=
  match c with
  | 34 => Some 34 | 92 => Some 92 | 47 => Some 47 | 98 => Some 8
  | 102 => Some 12 | 110 => Some 10 | 114 => Some 13 | 116 => Some 9
  | _ => None
  end.

(** The rest of a string literal after the opening quote. *)
Fixpoint scan_string (fuel : nat) (s : bytes) : option (bytes * bytes) :=
  match fuel with
  | O => None
  | S fuel =>
      match s with
      | [] => None
      | 34 :: s => Some ([], s)
      | 92 :: 117 :: s =>
          '(u, s) ← unescape_u s; '(t, s) ← scan_string fuel s; Some (u ++ t, s)
      | 92 :: c :: s =>
          c ← simple_escape c; '(t, s) ← scan_string fuel s; Some (c :: t, s)
      | c :: s =>
          if c <? 32 then None else '(t, s) ← scan_string fuel s; Some (c :: t, s)
      end
  end.

Definition scan_literal (lit : bytes) (v : json) (s : bytes) : option (json * bytes) :=
  if has_prefix lit s then Some (v, drop (length lit) s) else None.

Fixpoint parse_value (fuel : nat) (s : bytes) : option (json * bytes) :=
  match fuel with
  | O => None
  | S fuel =>
      match skip_ws s with
      | [] => None
      | c :: r =>
          if c =? 110 then scan_literal (str "ull") JNull r
          else if c =? 116 then scan_literal (str "rue") (JBool true) r
          else if c =? 102 then scan_literal (str "alse") (JBool false) r
          else if c =? 34 then '(t, r) ← scan_string (S (length r)) r; Some (JStr t, r)
          else if c =? 91 then
            match skip_ws r with
            | 93 :: r => Some (JArr [], r)
            | _ => '(vs, r) ← parse_elements fuel r; Some (JArr vs, r)
            end
          else if c =? 123 then
            match skip_ws r with
            | 125 :: r => Some (JObj [], r)
            | _ => '(fs, r) ← parse_members fuel r; Some (JObj fs, r)
            end
          else '(l, r) ← scan_number (c :: r); Some (JNum l, r)
      end
  end
with parse_elements (fuel : nat) (s : bytes) : option (list json * bytes) :=
  match fuel with
  | O => None
  | S fuel =>
      '(v, s) ← parse_value fuel s;
      match skip_ws s with
      | 44 :: s => '(vs, s) ← parse_elements fuel s; Some (v :: vs, s)
      | 93 :: s => Some ([v], s)
      | _ => None
      end
  end
with parse_members (fuel : nat) (s : bytes) : option (list (bytes * json) * bytes) :=
  match fuel with
  | O => None
  | S fuel =>
      match skip_ws s with
      | 34 :: s =>
          '(k, s) ← scan_string (S (length s)) s;
          match skip_ws s with
          | 58 :: s =>
              '(v, s) ← parse_value fuel s;
              match skip_ws s with
              | 44 :: s => '(fs, s) ← parse_members fuel s; Some ((k, v) :: fs, s)
              | 125 :: s => Some ([(k, v)], s)
              | _ => None
              end
          | _ => None
          end
      | _ => None
      end
  end.

(** A whole text: one value and nothing but space after it.  Every call of the
    parser that does not return consumes a byte, so the length bounds the fuel. *)
Definition parse (s : bytes) : option json :=
  match parse_value (2 * length s + 2) s with
  | Some (v, r) => match skip_ws r with [] => Some v | _ => None end
  | None => None
  end.


(** ** Base 64: [base64.StdEncoding] *)

Definition b64_alphabet : bytes :=
  str "ABCDEFGHIJKLMNOPQRSTUVWXYZabcdefghijklmnopqrstuvwxyz0123456789+/".
Definition b64_char (n : Z) : Z := nth (Z.to_nat n) b64_alphabet 0.
Definition b64_value (c : Z) : option Z :=
  if (65 <=? c) && (c <=? 90) then Some (c - 65)
  else if (97 <=? c) && (c <=? 122) then Some (c - 71)
  else if (48 <=? c) && (c <=? 57) then Some (c + 4)
  else if c =? 43 then Some 62 else if c =? 47 then Some 63 else None.

Fixpoint b64_encode (bs : bytes) : bytes :=
  match bs with
  | x :: y :: z :: bs =>
      b64_char (x / 4) :: b64_char (x mod 4 * 16 + y / 16) ::
      b64_char (y mod 16 * 4 + z / 64) :: b64_char (z mod 64) :: b64_encode bs
  | [x; y] => [b64_char (x / 4); b64_char (x mod 4 * 16 + y / 16); b64_char (y mod 16 * 4); 61]
  | [x] => [b64_char (x / 4); b64_char (x mod 4 * 16); 61; 61]
  | [] => []
  end.

(** Padding ends the text. *)
Fixpoint b64_quads (s : bytes) : option bytes :=
  match s with
  | [] => Some []
  | a :: b :: c :: d :: s =>
      a ← b64_value a; b ← b64_value b;
      if d =? 61 then
        match s with
        | [] =>
            if c =? 61 then Some [a * 4 + b / 16]
            else c ← b64_value c; Some [a * 4 + b / 16; b mod 16 * 16 + c / 4]
        | _ => None
        end
      else
        c ← b64_value c; d ← b64_value d; t ← b64_quads s;
        Some (a * 4 + b / 16 :: b mod 16 * 16 + c / 4 :: c mod 4 * 64 + d :: t)
  | _ => None
  end.
(** New-line characters are skipped. *)
Definition b64_decode (s : bytes) : option bytes :=
  b64_quads (List.filter (fun c => negb ((c =? 10) || (c =? 13))) s).

(** ** Decoding into Go values *)

Definition type_error {A} : result A := Err (Errorf "json: cannot unmarshal").

(** An unsigned integer below [limit]; null leaves the old value. *)
Definition decode_uint (limit old : Z) (v : json) : result Z :=
  match v with
  | JNull => Ok old
  | JNum l => match decimal_value l with
              | Some n => if n <? limit then Ok n else type_error
              | None => type_error
              end
  | _ => type_error
  end.

Definition decode_bool (old : bool) (v : json) : result bool :=
  match v with JNull => Ok old | JBool b => Ok b | _ => type_error end.

(** A Go string: null leaves the old value. *)
Definition decode_string (old : bytes) (v : json) : result bytes :=
  match v with JNull => Ok old | JStr s => Ok s | _ => type_error end.

(** A Go int: digits with an optional sign, in 64 bits. *)
Definition decode_int (old : Z) (v : json) : result Z :=
  match v with
  | JNull => Ok old
  | JNum (45 :: l) =>
      match decimal_value l with
      | Some n => if n <=? 2 ^ 63 then Ok (- n) else type_error
      | None => type_error
      end
  | JNum l =>
      match decimal_value l with
      | Some n => if n <? 2 ^ 63 then Ok n else type_error
      | None => type_error
      end
  | _ => type_error
  end.

(** Fields are stored one after the other. *)
Fixpoint decode_struct {A} (field : A -> bytes * json -> result A) (a : A) (fs : list (bytes * json)) : result A :=
  match fs with
  | [] => Ok a
  | kv :: fs => a ← field a kv; decode_struct field a fs
  end.
Definition decode_object {A} (field : A -> bytes * json -> result A) (zero : A) (v : json) : result A :=
  match v with
  | JNull => Ok zero
  | JObj fs => decode_struct field zero fs
  | _ => type_error
  end.

Fixpoint decode_bytes_list (vs : list json) : result bytes :=
  match vs with
  | [] => Ok []
  | v :: vs => b ← decode_uint (2 ^ 8) 0 v; bs ← decode_bytes_list vs; Ok (b :: bs)
  end.

(** [[]byte]: base 64 text, or an array of numbers. *)
Definition decode_bytes (v : json) : result bytes :=
  match v with
  | JNull => Ok []
  | JStr s => match b64_decode s with Some bs => Ok bs | None => type_error end
  | JArr vs => decode_bytes_list vs
  | _ => type_error
  end.

(** [[32]byte]: surplus elements are dropped, missing ones are zero. *)
Definition decode_hash (old : bytes) (v : json) : result bytes :=
  match v with
  | JNull => Ok old
  | JArr vs => bs ← decode_bytes_list (take 32 vs); Ok (copy32 bs)
  | _ => type_error
  end.

(** Field names match exactly or up to case. *)
Definition fold_case (s : bytes) : bytes := (fun c => if (65 <=? c) && (c <=? 90) then c + 32 else c) <$> s.
Definition is_field (name : bytes) (key : bytes) : bool := bool_decide (fold_case name = fold_case key).

Definition zero_utxo : UTXO := mkUTXO zero_hash 0 0 [] 0 false.

Definition decode_field (u : UTXO) (kv : bytes * json) : result UTXO :=
  let '(k, v) := kv in
  let '(mkUTXO h i a s t c) := u in
  if is_field (str "TxHash") k then h ← decode_hash h v; Ok (mkUTXO h i a s t c)
  else if is_field (str "OutputIdx") k then i ← decode_uint (2 ^ 32) i v; Ok (mkUTXO h i a s t c)
  else if is_field (str "Amount") k then a ← decode_uint (2 ^ 64) a v; Ok (mkUTXO h i a s t c)
  else if is_field (str "Script") k then s ← decode_bytes v; Ok (mkUTXO h i a s t c)
  else if is_field (str "Height") k then t ← decode_uint (2 ^ 64) t v; Ok (mkUTXO h i a s t c)
  else if is_field (str "Coinbase") k then c ← decode_bool c v; Ok (mkUTXO h i a s t c)
  else Ok u.

Fixpoint decode_fields (u : UTXO) (fs : list (bytes * json)) : result UTXO :=
  match fs with
  | [] => Ok u
  | kv :: fs => u ← decode_field u kv; decode_fields u fs
  end.

Definition decode_utxo (v : json) : result UTXO :=
  match v with
  | JNull => Ok zero_utxo
  | JObj fs => decode_fields zero_utxo fs
  | _ => type_error
  end.

Fixpoint decode_utxo_list (vs : list json) : result (list UTXO) :=
  match vs with
  | [] => Ok []
  | v :: vs => u ← decode_utxo v; us ← decode_utxo_list vs; Ok (u :: us)
  end.

Definition decode_utxos (v : json) : result (list UTXO) :=
  match v with
  | JNull => Ok []
  | JArr vs => decode_utxo_list vs
  | _ => type_error
  end.

Definition Unmarshal {A} (decode : json -> result A) (data : bytes) : result A :=
  match parse data with
  | Some v => decode v
  | None => Err (Errorf "json: invalid syntax")
  end.

(** ** Encoding *)

Definition json_string (s : bytes) : json := JStr (escape s).

(** A field with omitempty. *)
Definition omit_string (name : bytes) (s : bytes) : list (bytes * json) :=
  match s with [] => [] | _ => [(name, json_string s)] end.
Definition omit_int (name : bytes) (n : Z) : list (bytes * json) :=
  if n =? 0 then [] else [(name, JNum (decimal n))].

Definition utxo_json (u : UTXO) : json :=
  JObj [(str "TxHash", JArr ((fun b => JNum (decimal b)) <$> u_TxHash u));
        (str "OutputIdx", JNum (decimal (u_OutputIdx u)));
        (str "Amount", JNum (decimal (u_Amount u)));
        (str "Script", JStr (b64_encode (u_Script u)));
        (str "Height", JNum (decimal (u_Height u)));
        (str "Coinbase", JBool (u_Coinbase u))].

Definition MarshalUTXO (u : UTXO) : bytes := print (utxo_json u).
(** A nil slice is null. *)
Definition MarshalUTXOs (us : list UTXO) : bytes :=
  match us with [] => str "null" | _ => print (JArr (utxo_json <$> us)) end.

(** ** Parsing inverts printing *)

(** No digit, point or exponent: a number ends here. *)
Definition stops (rest : bytes) : Prop :=
  match rest with
  | [] => True
  | c :: _ => is_digit c = false /\ c <> 46 /\ c <> 101 /\ c <> 69
  end.

Definition safe_char (c : Z) : Prop := 32 <= c /\ c <> 34 /\ c <> 92.
Definition canonical_number (l : bytes) : Prop :=
  l <> [] /\ Forall (fun c => is_digit c = true) l /\ (head l = Some 48 -> length l = 1%nat).

Fixpoint canonical (v : json) : Prop :=
  match v with
  | JNull | JBool _ => True
  | JNum l => canonical_number l
  | JStr s => Forall safe_char s
  | JArr vs => (fix all vs := match vs with [] => True | v :: vs => canonical v /\ all vs end) vs
  | JObj fs => (fix all fs := match fs with
                              | [] => True
                              | (k, v) :: fs => Forall safe_char k /\ canonical v /\ all fs
                              end) fs
  end.

Lemma canonical_arr vs : canonical (JArr vs) <-> Forall canonical vs.
Proof.
  induction vs as [|v vs IH]; simpl; [by split|]. rewrite Forall_cons. simpl in IH. by rewrite IH.
Qed.
Lemma canonical_obj fs :
  canonical (JObj fs) <-> Forall (fun kv => Forall safe_char kv.1 /\ canonical kv.2) fs.
Proof.
  induction fs as [|[k v] fs IH]; simpl; [by split|]. rewrite Forall_cons. simpl in *. rewrite IH. tauto.
Qed.

Lemma span_digits_app d rest :
  Forall (fun c => is_digit c = true) d -> stops rest -> span_digits (d ++ rest) = (d, rest).
Proof.
  intros Hd Hs. induction Hd as [|c d Hc _ IH]; simpl.
  - destruct rest as [|c r]; [done|]. simpl. by destruct Hs as [-> _].
  - by rewrite Hc, IH.
Qed.

Lemma scan_number_canonical l rest :
  canonical_number l -> stops rest -> scan_number (l ++ rest) = Some (l, rest).
Proof.
  intros (Hne & Hd & Hz) Hs. unfold scan_number.
  destruct l as [|c l]; [done|]. cbn [app]. apply Forall_cons in Hd as Hd'. destruct Hd' as [Hc _].
  assert (Hc45 : c <> 45) by (intros ->; done).
  assert (E1 : match c :: l ++ rest with 45 :: t => ([45], t) | _ => ([], c :: l ++ rest) end
             = ([] : bytes, c :: l ++ rest)).
  { destruct c as [|p|p]; try done. repeat (destruct p as [p|p|]; try done). }
  rewrite E1. unfold scan_int. rewrite (app_comm_cons l), span_digits_app by done.
  assert (E2 : match c :: l with [] => None | 48 :: _ :: _ => Some ([48], drop 1 ((c :: l) ++ rest))
               | _ => Some (c :: l, rest) end = Some (c :: l, rest)).
  { destruct l as [|c' l]; [destruct c as [|p|p]; try done; by repeat (destruct p as [p|p|]; try done)|].
    assert (c <> 48) by (intros ->; by specialize (Hz eq_refl)).
    destruct c as [|p|p]; try done. repeat (destruct p as [p|p|]; try done). }
  cbn [app] in E2 |- *. rewrite E2. csimpl.
  assert (E3 : scan_frac rest = Some ([], rest)).
  { unfold scan_frac. destruct rest as [|x r]; [done|]. destruct Hs as (_ & Hx & _).
    destruct x as [|p|p]; try done. repeat (destruct p as [p|p|]; try done). }
  rewrite E3. csimpl.
  assert (E4 : scan_exp rest = Some ([], rest)).
  { unfold scan_exp. destruct rest as [|x r]; [done|]. destruct Hs as (_ & _ & H1 & H2).
    by rewrite (proj2 (Z.eqb_neq _ _) H1), (proj2 (Z.eqb_neq _ _) H2). }
  rewrite E4. csimpl. by rewrite !app_nil_r.
Qed.

Lemma scan_string_safe fuel s rest :
  Forall safe_char s -> (length s < fuel)%nat -> scan_string fuel (s ++ 34 :: rest) = Some (s, rest).
Proof.
  intros Hs. revert fuel. induction Hs as [|c s (H1 & H2 & H3) _ IH]; intros [|fuel] Hf; try (simpl in Hf; lia); [done|].
  simpl in Hf. cbn [app scan_string].
  assert (E : match c :: s ++ 34 :: rest with
      | [] => None
      | 34 :: s => Some ([], s)
      | 92 :: 117 :: s => '(u, s) ← unescape_u s; '(t, s) ← scan_string fuel s; Some (u ++ t, s)
      | 92 :: c :: s => c ← simple_escape c; '(t, s) ← scan_string fuel s; Some (c :: t, s)
      | c :: s => if c <? 32 then None else '(t, s) ← scan_string fuel s; Some (c :: t, s)
      end = '(t, s) ← scan_string fuel (s ++ 34 :: rest); Some (c :: t, s)).
  { assert (Hlt : (c <? 32) = false) by (apply Z.ltb_ge; lia).
    destruct c as [|p|p]; [lia| |lia]. repeat (destruct p as [p|p|]; try lia; try (by rewrite Hlt)). }
  rewrite E, IH by lia. done.
Qed.

Lemma skip_ws_cons c s : is_ws c = false -> skip_ws (c :: s) = c :: s.
Proof. intros H. simpl. by rewrite H. Qed.

Lemma digit_not_ws c : is_digit c = true -> is_ws c = false.
Proof.
  unfold is_digit, is_ws. intros H. breflect.
  by rewrite !(proj2 (Z.eqb_neq _ _)) by lia.
Qed.

(** A printed value starts with a character that no white space is. *)
Lemma print_head v : canonical v -> exists c r, print v = c :: r /\ is_ws c = false.
Proof.
  destruct v as [|[]|l|s|vs|fs]; simpl; try (eexists _, _; split; [reflexivity | done]).
  intros (Hne & Hd & _). destruct l as [|c l]; [done|]. apply Forall_cons in Hd as [Hc _].
  exists c, l. split; [done | by apply digit_not_ws].
Qed.

Lemma skip_ws_print v rest : canonical v -> skip_ws (print v ++ rest) = print v ++ rest.
Proof.
  intros H. destruct (print_head v H) as (c & r & -> & Hc). by apply skip_ws_cons.
Qed.

Lemma join_cons p ps : ps <> [] -> join (p :: ps) = p ++ 44 :: join ps.
Proof. by destruct ps. Qed.

Lemma parse_number fuel l rest :
  canonical_number l -> stops rest -> parse_value (S fuel) (l ++ rest) = Some (JNum l, rest).
Proof.
  intros Hl Hs. pose proof (scan_number_canonical l rest Hl Hs) as E.
  destruct Hl as (Hne & Hd & _). destruct l as [|c l]; [done|].
  apply Forall_cons in Hd as [Hc _]. cbn [app] in *. cbn [parse_value].
  rewrite skip_ws_cons by by apply digit_not_ws. unfold is_digit in Hc. breflect.
  rewrite !(proj2 (Z.eqb_neq c _)) by lia. rewrite E. done.
Qed.

Definition member (kv : bytes * json) : bytes := quote kv.1 ++ 58 :: print kv.2.

Lemma print_obj fs : print (JObj fs) = 123 :: join (map member fs) ++ [125].
Proof. done. Qed.

(** The three parsers together, by induction on the fuel. *)
Definition parses (fuel : nat) : Prop :=
  (forall v rest, canonical v -> stops rest -> (length (print v) < fuel)%nat ->
     parse_value fuel (print v ++ rest) = Some (v, rest)) /\
  (forall vs rest, vs <> [] -> Forall canonical vs -> (S (length (join (map print vs))) < fuel)%nat ->
     parse_elements fuel (join (map print vs) ++ 93 :: rest) = Some (vs, rest)) /\
  (forall fs rest, fs <> [] -> Forall (fun kv => Forall safe_char kv.1 /\ canonical kv.2) fs ->
     (S (length (join (map member fs))) < fuel)%nat ->
     parse_members fuel (join (map member fs) ++ 125 :: rest) =
     Some (fs, rest)).

Lemma parses_value fuel v rest :
  parses fuel -> canonical v -> stops rest -> (length (print v) < S fuel)%nat ->
  parse_value (S fuel) (print v ++ rest) = Some (v, rest).
Proof.
  intros (_ & IHe & IHm) Hc Hs Hf. destruct v as [|[]|l|s|vs|fs].
  - done.
  - done.
  - done.
  - by apply parse_number.
  - cbn [print] in *. unfold quote in *. rewrite <- app_comm_cons, <- app_assoc. cbn [parse_value].
    rewrite skip_ws_cons by done. cbn [Z.eqb Pos.eqb app].
    rewrite scan_string_safe; [done | done |]. rewrite length_app. simpl. lia.
  - cbn [print] in *. rewrite <- app_comm_cons, <- app_assoc. cbn [parse_value].
    rewrite skip_ws_cons by done. cbn [Z.eqb Pos.eqb app]. rewrite canonical_arr in Hc.
    destruct vs as [|v vs]; [done|].
    assert (Hv : canonical v) by (by apply Forall_cons in Hc as [? _]).
    destruct (print_head v Hv) as (c & r & Hp & Hws).
    assert (E : exists t, join (map print (v :: vs)) ++ 93 :: rest = c :: t /\ c <> 93).
    { exists (r ++ flat_map (fun q => 44 :: q) (map print vs) ++ 93 :: rest). cbn [map join]. rewrite Hp.
      cbn [app]. rewrite app_assoc. split; [done|]. intros ->.
      clear -Hp Hv. destruct v as [|[]|l|s|vs|fs]; try done. destruct Hv as (_ & Hd & _).
      simpl in Hp. rewrite Hp in Hd. by apply Forall_cons in Hd as [? _]. }
    destruct E as (t & E & Hne). rewrite E, skip_ws_cons by done.
    assert (Em : forall (A : Type) (x y : A), match c with 93 => x | _ => y end = y).
    { intros A x y. destruct c as [|p|p]; try done. repeat (destruct p as [p|p|]; try done). }
    rewrite Em, <- E, IHe; [done | done | done |]. cbn [length] in Hf. rewrite length_app in Hf. simpl length in Hf at 2. lia.
  - rewrite print_obj in *. rewrite <- app_comm_cons, <- app_assoc. cbn [parse_value].
    rewrite skip_ws_cons by done. cbn [Z.eqb Pos.eqb app]. rewrite canonical_obj in Hc.
    destruct fs as [|[k v] fs]; [done|].
    assert (E : exists t, join (map member ((k, v) :: fs)) ++ 125 :: rest = 34 :: t).
    { eexists. cbn [map join]. unfold member at 1, quote. cbn [app]. reflexivity. }
    destruct E as (t & E). rewrite E, skip_ws_cons by done. rewrite <- E.
    cbn [Z.eqb Pos.eqb]. rewrite IHm; [done | done | done |].
    cbn [length] in Hf. rewrite length_app in Hf. simpl length in Hf at 2. lia.
Qed.

Lemma parses_elements fuel vs rest :
  parses fuel -> vs <> [] -> Forall canonical vs -> (S (length (join (map print vs))) < S fuel)%nat ->
  parse_elements (S fuel) (join (map print vs) ++ 93 :: rest) = Some (vs, rest).
Proof.
  intros (IHv & IHe & _) Hne Hc Hf. destruct vs as [|v vs]; [done|].
  apply Forall_cons in Hc as [Hv Hvs]. cbn [parse_elements].
  destruct vs as [|v' vs].
  - cbn [map join flat_map] in *. rewrite app_nil_r in *.
    rewrite IHv; [done | done | by split_and! | lia].
  - assert (Hj : join (map print (v :: v' :: vs)) = print v ++ 44 :: join (map print (v' :: vs))) by done.
    rewrite Hj in *. pose proof (IHe (v' :: vs) rest ltac:(done) Hvs) as E2.
    set (J := join (map print (v' :: vs))) in *. rewrite length_app in Hf. cbn [length] in Hf.
    rewrite <- app_assoc, <- app_comm_cons. rewrite IHv; [|done | by split_and! | lia].
    csimpl. by rewrite E2 by lia.
Qed.

Lemma parses_members fuel fs rest :
  parses fuel -> fs <> [] -> Forall (fun kv => Forall safe_char kv.1 /\ canonical kv.2) fs ->
  (S (length (join (map member fs))) < S fuel)%nat ->
  parse_members (S fuel) (join (map member fs) ++ 125 :: rest) =
  Some (fs, rest).
Proof.
  intros (IHv & _ & IHm) Hne Hc Hf. destruct fs as [|[k v] fs]; [done|].
  apply Forall_cons in Hc as [[Hk Hv] Hfs]. simpl in Hk, Hv.
  set (tail := match fs with [] => 125 :: rest
    | _ => 44 :: join (map member fs) ++ 125 :: rest end).
  assert (Hstop : stops tail) by (unfold tail; destruct fs; by split_and!).
  assert (E : join (map member ((k, v) :: fs)) ++ 125 :: rest =
    34 :: k ++ 34 :: 58 :: print v ++ tail).
  { unfold tail. destruct fs as [|kv fs]; cbn [map join flat_map]; unfold member at 1, quote; cbn [app fst snd];
      repeat (rewrite <- ?app_assoc, <- ?app_comm_cons; cbn [app]); done. }
  rewrite E. cbn [parse_members]. rewrite skip_ws_cons by done.
  rewrite scan_string_safe; [|done | rewrite length_app; simpl; lia]. csimpl.
  assert (Hlen : (length (print v) < fuel)%nat).
  { cbn [map join] in Hf. unfold member at 1, quote in Hf. rewrite !length_app in Hf.
    cbn [length fst snd] in Hf. rewrite length_app in Hf. lia. }
  rewrite IHv by done. unfold tail. destruct fs as [|kv fs]; [done|]. cbv iota.
  pose proof (IHm (kv :: fs) rest ltac:(done) Hfs) as E2.
  assert (Hj : join (map member ((k, v) :: kv :: fs)) = member (k, v) ++ 44 :: join (map member (kv :: fs))) by done.
  rewrite Hj, length_app in Hf. cbn [length] in Hf.
  set (J := join (map member (kv :: fs))) in *. clearbody J. clear E tail Hstop. csimpl. by rewrite E2 by lia.
Qed.

Lemma parses_all fuel : parses fuel.
Proof.
  induction fuel as [|fuel IH]; [split_and!; intros; lia|]. split_and!; intros.
  - by apply parses_value.
  - by apply parses_elements.
  - by apply parses_members.
Qed.

(** The text of a canonical value parses back to it. *)
Lemma parse_print v : canonical v -> parse (print v) = Some v.
Proof.
  intros Hc. unfold parse. rewrite <- (app_nil_r (print v)) at 2.
  destruct (parses_all (2 * length (print v) + 2)) as (Hv & _). rewrite Hv; [done | done | done | lia].
Qed.

(** ** Canonical texts of UTXOs *)

Lemma digits_head fuel z :
  0 <= z < 2 ^ Z.of_nat fuel -> last (Encoding.digits fuel z) = Some 48 -> z = 0.
Proof.
  revert z. induction fuel as [|fuel IH]; intros z Hz; [simpl in *; lia|]. cbn [Encoding.digits].
  rewrite Nat2Z.inj_succ, Z.pow_succ_r in Hz by lia.
  destruct (Z.ltb_spec z 10); [intros [= E]; lia|].
  assert (Hq : 1 <= z / 10) by (apply Z.div_le_lower_bound; lia).
  assert (Hlt : z / 10 < 2 ^ Z.of_nat fuel) by (apply Z.div_lt_upper_bound; lia).
  destruct (Encoding.digits fuel (z / 10)) as [|x l] eqn:E.
  - destruct fuel; [simpl in Hlt; lia|]. cbn [Encoding.digits] in E. by destruct (z / 10 <? 10).
  - rewrite last_cons_cons. intros Hl. rewrite <- E in Hl. apply IH in Hl; lia.
Qed.

Lemma decimal_canonical z : 0 <= z -> canonical_number (decimal z).
Proof.
  intros Hz. pose proof (decimal_digits z Hz) as Hd. split_and!.
  - intros E. pose proof (decimal_roundtrip z Hz) as Hr. by rewrite E in Hr.
  - eapply Forall_impl; [exact Hd|]. intros c Hc. simpl in Hc. unfold is_digit.
    by rewrite (proj2 (Z.leb_le _ _)), (proj2 (Z.leb_le _ _)) by lia.
  - Transparent decimal. unfold decimal. Opaque decimal. rewrite rev_alt.
    fold (reverse (Encoding.digits (S (Z.to_nat (Z.log2 z))) z)). rewrite head_reverse. intros H.
    apply digits_head in H as ->; [done|]. split; [done|].
    rewrite Nat2Z.inj_succ, Z2Nat.id by apply Z.log2_nonneg.
    destruct (Z.eq_dec z 0) as [->|]; [done|]. apply Z.log2_spec. lia.
Qed.

Lemma b64_value_char n : 0 <= n < 64 -> b64_value (b64_char n) = Some n /\ safe_char (b64_char n) /\
  b64_char n <> 61 /\ negb ((b64_char n =? 10) || (b64_char n =? 13)) = true.
Proof.
  intros Hn. cut (Forall (fun n => b64_value (b64_char n) = Some n /\
    (32 <= b64_char n /\ b64_char n <> 34 /\ b64_char n <> 92) /\ b64_char n <> 61 /\
    negb ((b64_char n =? 10) || (b64_char n =? 13)) = true) (Z.of_nat <$> seq 0 64)).
  { intros H. rewrite Forall_forall in H. apply H, list_elem_of_fmap. exists (Z.to_nat n).
    split; [lia|]. apply elem_of_seq. lia. }
  by_decision.
Qed.

Lemma b64_encode_safe bs : bytes_wf bs ->
  Forall safe_char (b64_encode bs) /\
  List.filter (fun c => negb ((c =? 10) || (c =? 13))) (b64_encode bs) = b64_encode bs.
Proof.
  assert (H61 : safe_char 61) by (unfold safe_char; lia).
  assert (K : forall n, 0 <= n < 64 -> safe_char (b64_char n) /\
    negb ((b64_char n =? 10) || (b64_char n =? 13)) = true) by (intros n Hn; by destruct (b64_value_char n Hn) as (_ & ? & _ & ?)).
  remember (length bs) as n eqn:En. revert bs En. induction (lt_wf n) as [n _ IH]. intros bs -> Hw.
  destruct bs as [|x [|y [|z bs]]]; [done|..]; unfold bytes_wf in Hw; rewrite !Forall_cons in Hw; unfold is_byte in Hw.
  - destruct (K (x / 4)) as [? F1]; [Z.to_euclidean_division_equations; lia|].
    destruct (K (x mod 4 * 16)) as [? F2]; [Z.to_euclidean_division_equations; lia|].
    cbn [b64_encode List.filter]. rewrite F1, F2. cbn [Z.eqb Pos.eqb orb negb].
    split; [repeat (apply Forall_cons; split; [done|]); constructor | done].
  - destruct (K (x / 4)) as [? F1]; [Z.to_euclidean_division_equations; lia|].
    destruct (K (x mod 4 * 16 + y / 16)) as [? F2]; [Z.to_euclidean_division_equations; lia|].
    destruct (K (y mod 16 * 4)) as [? F3]; [Z.to_euclidean_division_equations; lia|].
    cbn [b64_encode List.filter]. rewrite F1, F2, F3. cbn [Z.eqb Pos.eqb orb negb].
    split; [repeat (apply Forall_cons; split; [done|]); constructor | done].
  - destruct (K (x / 4)) as [? F1]; [Z.to_euclidean_division_equations; lia|].
    destruct (K (x mod 4 * 16 + y / 16)) as [? F2]; [Z.to_euclidean_division_equations; lia|].
    destruct (K (y mod 16 * 4 + z / 64)) as [? F3]; [Z.to_euclidean_division_equations; lia|].
    destruct (K (z mod 64)) as [? F4]; [Z.to_euclidean_division_equations; lia|].
    destruct (IH (length bs) ltac:(simpl; lia) bs eq_refl ltac:(apply Hw)) as [Hs Hf].
    cbn [b64_encode List.filter]. rewrite F1, F2, F3, F4, Hf. split; [|done].
    by repeat (apply Forall_cons; split; [done|]).
Qed.

(** Regrouping 8-bit and 6-bit digits is a matter of divisions by constants. *)
Ltac by_division := Z.to_euclidean_division_equations; lia.

Lemma b64_roundtrip bs : bytes_wf bs -> b64_decode (b64_encode bs) = Some bs.
Proof.
  intros Hw. unfold b64_decode. destruct (b64_encode_safe bs Hw) as [_ ->].
  assert (K : forall n, 0 <= n < 64 -> b64_value (b64_char n) = Some n /\ (b64_char n =? 61) = false).
  { intros n Hn. destruct (b64_value_char n Hn) as (? & _ & ? & _). split; [done | by apply Z.eqb_neq]. }
  remember (length bs) as n eqn:En. revert bs En Hw. induction (lt_wf n) as [n _ IH]. intros bs -> Hw.
  destruct bs as [|x [|y [|z bs]]]; [done|..]; unfold bytes_wf in Hw; rewrite !Forall_cons in Hw;
    unfold is_byte in Hw; cbn [b64_encode b64_quads].
  - destruct (K (x / 4)) as [-> _]; [by_division|].
    destruct (K (x mod 4 * 16)) as [-> _]; [by_division|].
    csimpl. do 2 f_equal. by_division.
  - destruct (K (x / 4)) as [-> _]; [by_division|].
    destruct (K (x mod 4 * 16 + y / 16)) as [-> _]; [by_division|].
    destruct (K (y mod 16 * 4)) as [E3 ->]; [by_division|].
    csimpl. rewrite E3. csimpl. f_equal. repeat f_equal; by_division.
  - destruct (K (x / 4)) as [-> _]; [by_division|].
    destruct (K (x mod 4 * 16 + y / 16)) as [-> _]; [by_division|].
    destruct (K (y mod 16 * 4 + z / 64)) as [-> _]; [by_division|].
    destruct (K (z mod 64)) as [-> ->]; [by_division|].
    csimpl. rewrite (IH (length bs) ltac:(simpl; lia) bs eq_refl ltac:(apply Hw)). csimpl.
    do 2 f_equal; [by_division|]. f_equal; [by_division|]. f_equal. by_division.
Qed.

Lemma b64_value_range c n : b64_value c = Some n -> 0 <= n < 64.
Proof.
  unfold b64_value. intros H. repeat case_match; breflect; simplify_eq; lia.
Qed.

Lemma b64_quads_wf s bs : b64_quads s = Some bs -> bytes_wf bs.
Proof.
  remember (length s) as n eqn:En. revert s bs En. induction (lt_wf n) as [n _ IH]. intros s bs ->.
  destruct s as [|a [|b [|c [|d s]]]]; try done; [intros [= <-]; constructor|]. cbn [b64_quads]. intros H.
  apply bind_Some in H as (a' & Ha & H). apply bind_Some in H as (b' & Hb & H).
  apply b64_value_range in Ha, Hb. destruct (d =? 61).
  - destruct s; [|done]. destruct (c =? 61).
    + injection H as <-. repeat constructor; by_division.
    + apply bind_Some in H as (c' & Hc & H). apply b64_value_range in Hc.
      injection H as <-. repeat constructor; by_division.
  - apply bind_Some in H as (c' & Hc & H). apply bind_Some in H as (d' & Hd & H).
    apply bind_Some in H as (t & Ht & H). apply b64_value_range in Hc, Hd. injection H as <-.
    pose proof (IH (length s) ltac:(simpl; lia) s t eq_refl Ht).
    repeat (apply Forall_cons; split; [unfold is_byte; by_division|]). done.
Qed.

(** ** Decoding inverts encoding *)

Lemma decode_uint_decimal limit old z :
  0 <= z < limit -> decode_uint limit old (JNum (decimal z)) = Ok z.
Proof.
  intros Hz. unfold decode_uint. rewrite decimal_roundtrip by lia. by rewrite (proj2 (Z.ltb_lt _ _)) by lia.
Qed.

Lemma decode_bytes_list_decimals bs :
  bytes_wf bs -> decode_bytes_list ((fun b => JNum (decimal b)) <$> bs) = Ok bs.
Proof.
  induction 1 as [|b bs Hb _ IH]; [done|]. cbn [fmap list_fmap decode_bytes_list].
  rewrite decode_uint_decimal by apply Hb. csimpl. by rewrite IH.
Qed.

Lemma decode_struct_app {A} (field : A -> bytes * json -> result A) a b fs gs :
  decode_struct field a fs = Ok b -> decode_struct field a (fs ++ gs) = decode_struct field b gs.
Proof.
  revert a. induction fs as [|kv fs IH]; intros a H; simpl in H |- *; [by injection H as <-|].
  apply bind_Ok in H as (a' & -> & H). csimpl. by apply IH.
Qed.

Lemma decode_struct_cons {A} (field : A -> bytes * json -> result A) a a' kv fs :
  field a kv = Ok a' -> decode_struct field a (kv :: fs) = decode_struct field a' fs.
Proof. intros H. cbn [decode_struct]. by rewrite H. Qed.

Lemma utxo_canonical u : utxo_wf u -> canonical (utxo_json u).
Proof.
  intros ((Hl & Hh) & Hi & Ha & Hs & Ht). apply canonical_obj. unfold utxo_json.
  assert (Hk : forall s, forallb (fun c => (32 <=? c) && negb (c =? 34) && negb (c =? 92)) (str s) = true ->
    Forall safe_char (str s)).
  { intros s E. rewrite forallb_forall in E. apply Forall_forall. intros c Hc%list_elem_of_In.
    specialize (E c Hc). breflect. unfold safe_char. lia. }
  repeat (apply Forall_cons; split; [split; [by apply Hk|]|]); [..|constructor]; cbn [snd].
  - apply canonical_arr, Forall_fmap. eapply Forall_impl; [exact Hh|]. intros b Hb.
    apply decimal_canonical. apply Hb.
  - apply decimal_canonical. mach.
  - apply decimal_canonical. mach.
  - by apply b64_encode_safe.
  - apply decimal_canonical. mach.
  - done.
Qed.

Lemma ok_bind {A B} (a : A) (f : A -> result B) : (Ok a ≫= f) = f a.
Proof. done. Qed.

(** The fields by name. *)
Section Fields.
Context (h : bytes) (i a : Z) (s : bytes) (t : Z) (c : bool) (v : json).
Abbreviation u := (mkUTXO h i a s t c).
Lemma field_TxHash :
  decode_field u (str "TxHash", v) = h ← decode_hash h v; Ok (mkUTXO h i a s t c).
Proof. reflexivity. Qed.
Lemma field_OutputIdx :
  decode_field u (str "OutputIdx", v) = i ← decode_uint (2 ^ 32) i v; Ok (mkUTXO h i a s t c).
Proof. reflexivity. Qed.
Lemma field_Amount :
  decode_field u (str "Amount", v) = a ← decode_uint (2 ^ 64) a v; Ok (mkUTXO h i a s t c).
Proof. reflexivity. Qed.
Lemma field_Script :
  decode_field u (str "Script", v) = s ← decode_bytes v; Ok (mkUTXO h i a s t c).
Proof. reflexivity. Qed.
Lemma field_Height :
  decode_field u (str "Height", v) = t ← decode_uint (2 ^ 64) t v; Ok (mkUTXO h i a s t c).
Proof. reflexivity. Qed.
Lemma field_Coinbase :
  decode_field u (str "Coinbase", v) = c ← decode_bool c v; Ok (mkUTXO h i a s t c).
Proof. reflexivity. Qed.
End Fields.

Lemma decode_utxo_json u : utxo_wf u -> decode_utxo (utxo_json u) = Ok u.
Proof.
  intros ((Hl & Hh) & Hi & Ha & Hs & Ht). destruct u as [h i a s t c].
  cbn [u_TxHash u_OutputIdx u_Amount u_Script u_Height u_Coinbase] in *.
  unfold utxo_json, decode_utxo. cbn [u_TxHash u_OutputIdx u_Amount u_Script u_Height u_Coinbase].
  assert (E1 : decode_hash zero_hash (JArr ((fun b => JNum (decimal b)) <$> h)) = Ok h).
  { unfold decode_hash. rewrite take_ge by (rewrite length_fmap; lia).
    rewrite decode_bytes_list_decimals by done. csimpl. f_equal. unfold copy32.
    rewrite Hl, take_ge by lia. apply app_nil_r. }
  assert (E4 : decode_bytes (JStr (b64_encode s)) = Ok s) by (unfold decode_bytes; by rewrite b64_roundtrip).
  unfold zero_utxo. cbn [decode_fields].
  rewrite field_TxHash, E1, ok_bind, ok_bind, field_OutputIdx, decode_uint_decimal by mach.
  rewrite ok_bind, ok_bind, field_Amount, decode_uint_decimal by mach.
  rewrite ok_bind, ok_bind, field_Script, E4, ok_bind, ok_bind, field_Height, decode_uint_decimal by mach.
  by rewrite ok_bind, ok_bind, field_Coinbase.
Qed.

Lemma utxo_list_json us :
  Forall utxo_wf us -> decode_utxo_list (utxo_json <$> us) = Ok us.
Proof.
  induction 1 as [|u us Hu _ IH]; [done|]. cbn [fmap list_fmap decode_utxo_list].
  rewrite decode_utxo_json by done. csimpl. by rewrite IH.
Qed.

(** ** Decoding yields values of the Go types *)

Lemma decimal_value_nonneg s n : decimal_value s = Some n -> 0 <= n.
Proof.
  intros H. assert (Hn : n = digits_val (rev s) /\ forallb is_digit s = true).
  { unfold decimal_value in H. destruct s as [|c s]; [done|].
    destruct (forallb is_digit (c :: s)) eqn:E; [|done]. by injection H as <-. }
  destruct Hn as [-> E]. rewrite forallb_forall in E.
  assert (Hd : forall x, In x (rev s) -> is_digit x = true) by (intros x Hx; by apply E, in_rev).
  clear E H. induction (rev s) as [|x l IH]; [done|]. cbn [digits_val].
  pose proof (Hd x (or_introl eq_refl)) as Hx. unfold is_digit in Hx. breflect.
  assert (0 <= digits_val l) by (apply IH; intros y Hy; apply Hd; by right). lia.
Qed.

Lemma decode_uint_range limit old v z :
  0 <= old < limit -> decode_uint limit old v = Ok z -> 0 <= z < limit.
Proof.
  intros Ho. unfold decode_uint. destruct v; try done; [by intros [= <-]|].
  destruct (decimal_value literal) as [n|] eqn:E; [|done]. destruct (Z.ltb_spec n limit); [|done].
  intros [= <-]. split; [|done]. eapply decimal_value_nonneg. exact E.
Qed.

Lemma decode_bytes_list_wf vs bs : decode_bytes_list vs = Ok bs -> bytes_wf bs.
Proof.
  revert bs. induction vs as [|v vs IH]; intros bs H; simpl in H; [injection H as <-; constructor|].
  inv_ok. constructor; [eapply decode_uint_range; [|done]; lia | by apply IH].
Qed.

Lemma decode_bytes_wf v bs : decode_bytes v = Ok bs -> bytes_wf bs.
Proof.
  destruct v; try done; simpl; [intros [= <-]; constructor| |apply decode_bytes_list_wf].
  destruct (b64_decode s) eqn:E; [|done]. intros [= <-]. by eapply b64_quads_wf.
Qed.

Lemma copy32_wf bs : bytes_wf bs -> is_hash (copy32 bs).
Proof.
  intros H. unfold copy32. split.
  - rewrite length_app, length_take, length_replicate. lia.
  - apply bytes_wf_app. split; [by apply bytes_wf_take|]. by apply Forall_replicate.
Qed.

Lemma decode_hash_wf old v h : is_hash old -> decode_hash old v = Ok h -> is_hash h.
Proof.
  intros Ho. destruct v; try done; simpl; [by intros [= <-]|]. intros H. inv_ok.
  apply copy32_wf. by eapply decode_bytes_list_wf.
Qed.

Lemma decode_field_wf u kv u' : utxo_wf u -> decode_field u kv = Ok u' -> utxo_wf u'.
Proof.
  intros (Hh & Hi & Ha & Hs & Ht). destruct u as [h i a s t c], kv as [k v]; simpl in *.
  unfold utxo_wf, is_u32, is_u64 in *. intros H.
  repeat match type of H with (if ?b then _ else _) = _ => destruct b end; inv_ok; simpl;
    repeat match goal with
    | H : decode_uint _ _ _ = Ok _ |- _ => apply decode_uint_range in H; [|lia]
    | H : decode_hash _ _ = Ok _ |- _ => apply decode_hash_wf in H; [|done]
    | H : decode_bytes _ = Ok _ |- _ => apply decode_bytes_wf in H
    end; done.
Qed.

Lemma zero_utxo_wf : utxo_wf zero_utxo.
Proof. by_decision. Qed.

Lemma decode_fields_wf fs u u' : utxo_wf u -> decode_fields u fs = Ok u' -> utxo_wf u'.
Proof.
  revert u. induction fs as [|kv fs IH]; intros u Hu H; simpl in H; [by injection H as <-|].
  inv_ok. eapply IH; [|done]. by eapply decode_field_wf.
Qed.

Lemma decode_utxo_wf v u : decode_utxo v = Ok u -> utxo_wf u.
Proof.
  destruct v; try done; simpl; [intros [= <-]; apply zero_utxo_wf|].
  apply decode_fields_wf, zero_utxo_wf.
Qed.

Lemma decode_utxo_list_wf vs us : decode_utxo_list vs = Ok us -> Forall utxo_wf us.
Proof.
  revert us. induction vs as [|v vs IH]; intros us H; simpl in H; [injection H as <-; constructor|].
  inv_ok. constructor; [by eapply decode_utxo_wf | by apply IH].
Qed.

(** ** Text that JSON writes as it is *)

Definition plain_char (c : Z) : Prop :=
  32 <= c <= 126 /\ c <> 34 /\ c <> 92 /\ c <> 60 /\ c <> 62 /\ c <> 38.
Definition plain_text (s : bytes) : Prop := Forall plain_char s.
#[export] Instance plain_char_dec c : Decision (plain_char c).
Proof. unfold plain_char. apply _. Defined.

Lemma plain_safe s : plain_text s -> Forall safe_char s.
Proof. intros Hs. eapply Forall_impl; [exact Hs|]. intros c H. unfold plain_char in H. unfold safe_char. lia. Qed.

Lemma plain_wf s : plain_text s -> bytes_wf s.
Proof. intros Hs. eapply Forall_impl; [exact Hs|]. intros c H. unfold plain_char in H. unfold is_byte. lia. Qed.

Lemma escape_plain s : plain_text s -> escape s = s.
Proof.
  unfold escape. induction 1 as [|c s (Hr & H1 & H2 & H3 & H4 & H5) _ IH]; [done|].
  cbn [flat_map]. rewrite IH. unfold escape_char.
  rewrite !(proj2 (Z.eqb_neq _ _)) by lia. by rewrite (proj2 (Z.ltb_ge _ _)) by lia.
Qed.

Lemma plain_app s t : plain_text (s ++ t) <-> plain_text s /\ plain_text t.
Proof. apply Forall_app. Qed.

Lemma plain_hex bs : bytes_wf bs -> plain_text (hex_encode bs).
Proof.
  assert (Forall (fun n => Forall plain_char (hex_encode [n])) (Z.of_nat <$> seq 0 256)) as H by by_decision.
  rewrite Forall_forall in H. induction 1 as [|b bs Hb _ IH]; [constructor|].
  change (hex_encode (b :: bs)) with (hex_encode [b] ++ hex_encode bs). apply plain_app. split; [|done].
  apply H, list_elem_of_fmap. exists (Z.to_nat b). unfold is_byte in Hb. split; [lia|]. apply elem_of_seq. lia.
Qed.

Lemma decode_string_json old s : plain_text s -> decode_string old (json_string s) = Ok s.
Proof. intros Hs. unfold json_string. by rewrite escape_plain. Qed.

(** ** The instance *)

Lemma UTXO_roundtrip u : utxo_wf u -> Unmarshal decode_utxo (MarshalUTXO u) = Ok u.
Proof.
  intros Hu. unfold Unmarshal, MarshalUTXO. rewrite parse_print by by apply utxo_canonical.
  by apply decode_utxo_json.
Qed.

Lemma UTXOs_roundtrip us : Forall utxo_wf us -> Unmarshal decode_utxos (MarshalUTXOs us) = Ok us.
Proof.
  intros Hu. destruct us as [|u us]; [done|]. unfold Unmarshal, MarshalUTXOs.
  rewrite parse_print; [by apply utxo_list_json|].
  apply canonical_arr, Forall_fmap. eapply Forall_impl; [exact Hu|]. apply utxo_canonical.
Qed.

Lemma Unmarshal_wf {A} (P : A -> Prop) decode bs a :
  (forall v a, decode v = Ok a -> P a) -> Unmarshal decode bs = Ok a -> P a.
Proof. intros H. unfold Unmarshal. destruct (parse bs); [apply H | done]. Qed.

Lemma decode_utxos_wf v us : decode_utxos v = Ok us -> Forall utxo_wf us.
Proof. destruct v; try done; simpl; [intros [= <-]; constructor | apply decode_utxo_list_wf]. Qed.

Definition go_json : UTXOJson := {|
  json_Marshal := MarshalUTXO;
  json_Unmarshal := Unmarshal decode_utxo;
  json_MarshalList := MarshalUTXOs;
  json_UnmarshalList := Unmarshal decode_utxos;
  json_roundtrip := UTXO_roundtrip;
  json_list_roundtrip := UTXOs_roundtrip;
  json_wf bs u := Unmarshal_wf utxo_wf decode_utxo bs u decode_utxo_wf;
  json_list_wf bs us := Unmarshal_wf (Forall utxo_wf) decode_utxos bs us decode_utxos_wf |}.

(** The JSON text stored for an output, or for the undo list of a block, decodes to the
    value that was encoded. *)
Theorem stored_json_roundtrip us :
  Forall utxo_wf us ->
  Unmarshal decode_utxos (MarshalUTXOs us) = Ok us /\
  Forall (fun u => Unmarshal decode_utxo (MarshalUTXO u) = Ok u) us.
Proof.
  intros Hu. split; [by apply UTXOs_roundtrip|].
  eapply Forall_impl; [exact Hu|]. apply UTXO_roundtrip.
Qed.
