(* ===== verification/Peers.v ===== *)
(** * Peers: the peer table and the message frames

    Models [p2p/p2p.go], [p2p/hardening.go] and [p2p/node.go] up to the socket:
    the table of peers with its limits, scores and bans, the rate limiter, and
    the frames that messages travel in.

    The mutex of the node makes each operation one step.  An instant
    ([time.Time]) is the number of nanoseconds since the zero time.  A
    connection is an identity and the remote address; what was written to it is
    part of the state of the node, together with the outcomes of the next writes
    ([WOk] once the list is used up). *)

From S2P Require Import Prelude Encoding Sha256 Params Tx Block Consensus Pebble Storage Json.

(** ** Data *)

Definition MsgVersion : bytes := str "version".
Definition MsgVerAck : bytes := str "verack".
Definition MsgPing : bytes := str "ping".
Definition MsgPong : bytes := str "pong".
Definition MsgInv : bytes := str "inv".
Definition MsgGetData : bytes := str "getdata".
Definition MsgTx : bytes := str "tx".
Definition MsgBlock : bytes := str "block".
Definition MsgHeaders : bytes := str "headers".
Definition MsgGetHeaders : bytes := str "getheaders".
Definition MsgGetAddr : bytes := str "getaddr".
Definition MsgAddr : bytes := str "addr".
Definition MsgMempool : bytes := str "mempool".
Definition MsgReject : bytes := str "reject".
Definition MsgPeers : bytes := str "peers".

(** A nil payload is [None]. *)
Record Message := mkMessage { msg_Type : bytes; msg_Payload : option bytes }.

Record PeerInfo := mkPeerInfo { pi_ID : bytes; pi_Address : bytes; pi_LastSeen : Z }.

(** Durations are in nanoseconds. *)
Record Config := mkConfig {
  cfg_NetworkID : bytes;
  cfg_ListenAddrs : list bytes;
  cfg_Seeds : list bytes;
  cfg_MaxPeers : Z;
  cfg_MaxMessageBytes : Z;
  cfg_MaxPeersPerIP : Z;
  cfg_PeerRateLimit : Z;
  cfg_PeerRateWindow : Z;
  cfg_BanScore : Z;
  cfg_BanDuration : Z;
}.

Definition MaxMessageBytes : Z := 4 * 1024 * 1024.
Definition DefaultPeerRateLimit : Z := 120.
Definition DefaultPeerRateWindow : Z := 60 * 1000000000.
Definition DefaultBanScore : Z := -100.
Definition DefaultBanDuration : Z := 3600 * 1000000000.

Record peerStats := mkStats { ps_WindowStart : Z; ps_Messages : Z }.

Record Conn := mkConn { conn_id : nat; conn_RemoteAddr : bytes }.

(** The outcome of a write: everything, or an error after some bytes. *)
Inductive write_outcome :=
| WOk
| WFail (sent : nat).

Record Node := mkNode {
  nd_cfg : Config;
  nd_peers : gmap bytes Conn;
  nd_scores : gmap bytes Z;
  nd_banned : gmap bytes Z;
  nd_stats : gmap bytes peerStats;
  nd_closed : list nat;
  nd_wire : gmap nat bytes;
  nd_writes : list write_outcome;
}.

(** [NewNode]: values that are not set get their defaults. *)
Definition normalise (cfg : Config) : Config :=
  mkConfig (cfg_NetworkID cfg) (cfg_ListenAddrs cfg) (cfg_Seeds cfg)
    (if cfg_MaxPeers cfg <=? 0 then 32 else cfg_MaxPeers cfg)
    (if cfg_MaxMessageBytes cfg <=? 0 then MaxMessageBytes else cfg_MaxMessageBytes cfg)
    (cfg_MaxPeersPerIP cfg)
    (if cfg_PeerRateLimit cfg <=? 0 then DefaultPeerRateLimit else cfg_PeerRateLimit cfg)
    (if cfg_PeerRateWindow cfg <=? 0 then DefaultPeerRateWindow else cfg_PeerRateWindow cfg)
    (if cfg_BanScore cfg =? 0 then DefaultBanScore else cfg_BanScore cfg)
    (if cfg_BanDuration cfg <=? 0 then DefaultBanDuration else cfg_BanDuration cfg).

Definition NewNode (cfg : Config) (writes : list write_outcome) : Node :=
  mkNode (normalise cfg) ∅ ∅ ∅ ∅ [] ∅ writes.

Definition set_peers (n : Node) (peers : gmap bytes Conn) (closed : list nat) : Node :=
  mkNode (nd_cfg n) peers (nd_scores n) (nd_banned n) (nd_stats n) closed (nd_wire n) (nd_writes n).

(** ** Hosts *)

Definition contains (s : bytes) (c : Z) : bool := bool_decide (c ∈ s).

(** [net.SplitHostPort]: the port starts after the last colon; a host with
    colons is in brackets. *)
Definition SplitHostPort (hostport : bytes) : option (bytes * bytes) :=
  match split_last 58 hostport with
  | None => None
  | Some (before, port) =>
      if bool_decide (head hostport = Some 91) then
        match IndexByte hostport 93 with
        | None => None
        | Some e =>
            if negb (e + 1 =? len before) then None
            else if contains (drop 1 hostport) 91 then None
            else if contains (drop (Z.to_nat (e + 1)) hostport) 93 then None
            else Some (take (Z.to_nat (e - 1)) (drop 1 hostport), port)
        end
      else if contains before 58 || contains hostport 91 || contains hostport 93 then None
      else Some (before, port)
  end.

Definition peerHost (id : bytes) : bytes :=
  match SplitHostPort id with
  | Some (host, _) => host
  | None => id
  end.

Example peerHost_port : peerHost (str "10.0.0.1:5000") = str "10.0.0.1".
Proof. reflexivity. Qed.
Example peerHost_brackets : peerHost (str "[fe80::1]:6000") = str "fe80::1".
Proof. reflexivity. Qed.
Example peerHost_bare : peerHost (str "fe80::1") = str "fe80::1".
Proof. reflexivity. Qed.

(** ** The peer table *)

Definition PeerCount (n : Node) : Z := Z.of_nat (size (nd_peers n)).

(** [for peer := range n.peers { if peerHost(peer) == host { count++ } }] *)
Definition host_count (host : bytes) (peers : gmap bytes Conn) : Z :=
  Z.of_nat (size (filter (fun kv => peerHost kv.1 = host) peers)).

Definition IsBanned (now : Z) (peer : bytes) (n : Node) : bool :=
  match nd_banned n !! peer with
  | Some until => now <? until
  | None => false
  end.

Definition addPeer (now : Z) (id : bytes) (conn : Conn) (n : Node) : Node * bool :=
  if IsBanned now id n then (n, false)
  else if cfg_MaxPeers (nd_cfg n) <=? PeerCount n then (n, false)
  else if (0 <? cfg_MaxPeersPerIP (nd_cfg n)) &&
          (cfg_MaxPeersPerIP (nd_cfg n) <=? host_count (peerHost id) (nd_peers n)) then (n, false)
  else (set_peers n (<[id := conn]> (nd_peers n)) (nd_closed n), true).

(** [if conn := n.peers[id]; conn != nil { conn.Close() }; delete(n.peers, id)] *)
Definition removePeer (id : bytes) (n : Node) : Node :=
  set_peers n (delete id (nd_peers n))
    (match nd_peers n !! id with
     | Some conn => conn_id conn :: nd_closed n
     | None => nd_closed n
     end).

Definition Score (peer : bytes) (n : Node) : Z := default 0 (nd_scores n !! peer).

Definition ReportPeer (now : Z) (peer : bytes) (delta : Z) (n : Node) : Node :=
  let score := i64 (Score peer n + delta) in
  let scored := mkNode (nd_cfg n) (nd_peers n) (<[peer := score]> (nd_scores n)) (nd_banned n)
                  (nd_stats n) (nd_closed n) (nd_wire n) (nd_writes n) in
  if score <=? cfg_BanScore (nd_cfg n) then
    removePeer peer
      (mkNode (nd_cfg n) (nd_peers n) (<[peer := score]> (nd_scores n))
         (<[peer := now + cfg_BanDuration (nd_cfg n)]> (nd_banned n))
         (nd_stats n) (nd_closed n) (nd_wire n) (nd_writes n))
  else scored.

(** ** The rate limiter *)

(** [time.Time.Sub] saturates. *)
Definition Sub (t u : Z) : Z := Z.max (- 2 ^ 63) (Z.min (2 ^ 63 - 1) (t - u)).

Definition allowPeerMessage (id : bytes) (now : Z) (n : Node) : Node * bool :=
  let st := default (mkStats 0 0) (nd_stats n !! id) in
  let st := if (ps_WindowStart st =? 0) ||
               (cfg_PeerRateWindow (nd_cfg n) <=? Sub now (ps_WindowStart st))
            then mkStats now 0 else st in
  let st := mkStats (ps_WindowStart st) (i64 (ps_Messages st + 1)) in
  (mkNode (nd_cfg n) (nd_peers n) (nd_scores n) (nd_banned n) (<[id := st]> (nd_stats n))
     (nd_closed n) (nd_wire n) (nd_writes n),
   ps_Messages st <=? cfg_PeerRateLimit (nd_cfg n)).

(** ** Frames *)

Definition knownMessageTypes : list bytes :=
  [MsgVersion; MsgVerAck; MsgPing; MsgPong; MsgInv; MsgGetData;
   MsgTx; MsgBlock; MsgHeaders; MsgGetHeaders; MsgMempool; MsgReject].

Definition validateMessage (msg : Message) : result unit :=
  fail_if negb (bool_decide (msg_Type msg ∈ knownMessageTypes)) with Errorf "unknown message type" ;;
  Ok tt.

Definition message_json (msg : Message) : json :=
  JObj [(str "type", JStr (escape (msg_Type msg)));
        (str "payload", match msg_Payload msg with
                        | None => JNull
                        | Some bs => JStr (b64_encode bs)
                        end)].

Definition decode_message_field (msg : Message) (kv : bytes * json) : result Message :=
  let '(k, v) := kv in
  if is_field (str "type") k then
    match v with
    | JNull => Ok msg
    | JStr s => Ok (mkMessage s (msg_Payload msg))
    | _ => type_error
    end
  else if is_field (str "payload") k then
    match v with
    | JNull => Ok (mkMessage (msg_Type msg) None)
    | _ => bs ← decode_bytes v; Ok (mkMessage (msg_Type msg) (Some bs))
    end
  else Ok msg.

Fixpoint decode_message_fields (msg : Message) (fs : list (bytes * json)) : result Message :=
  match fs with
  | [] => Ok msg
  | kv :: fs => msg ← decode_message_field msg kv; decode_message_fields msg fs
  end.

Definition decode_message (v : json) : result Message :=
  match v with
  | JNull => Ok (mkMessage [] None)
  | JObj fs => decode_message_fields (mkMessage [] None) fs
  | _ => type_error
  end.

(** One write to a connection. *)
Definition conn_Write (conn : Conn) (data : bytes) (n : Node) : Node * result unit :=
  let '(o, os) := match nd_writes n with [] => (WOk, []) | o :: os => (o, os) end in
  let sent := match o with WOk => data | WFail k => take k data end in
  let old := default [] (nd_wire n !! conn_id conn) in
  (mkNode (nd_cfg n) (nd_peers n) (nd_scores n) (nd_banned n) (nd_stats n) (nd_closed n)
     (<[conn_id conn := old ++ sent]> (nd_wire n)) os,
   match o with WOk => Ok tt | WFail _ => Err (Errorf "write") end).

Definition writeMessage (conn : Conn) (msg : Message) (n : Node) : Node * result unit :=
  let payload := print (message_json msg) in
  if MaxMessageBytes <? len payload then (n, Err (Errorf "message too large"))
  else
    let '(n, r) := conn_Write conn (be_bytes 4 (u32 (len payload))) n in
    match r with
    | Err e => (n, Err e)
    | Ok _ => conn_Write conn payload n
    end.

(** The rest of a frame after its size was checked. *)
Definition readFrame (sz : Z) (r : bytes) : result (Message * bytes) :=
  '(payload, r) ← readFull (Z.to_nat sz) r;
  msg ← Unmarshal decode_message payload;
  _ ← validateMessage msg;
  Ok (msg, r).

Definition readMessage (reader : bytes) : result (Message * bytes) :=
  '(header, r) ← readFull 4 reader;
  let sz := be_val header in
  fail_if (sz =? 0) || (MaxMessageBytes <? sz) with Errorf "invalid message size" ;;
  readFrame sz r.

Definition readMessageLimit (reader : bytes) (maxBytes : Z) : result (Message * bytes) :=
  '(header, r) ← readFull 4 reader;
  let sz := be_val header in
  let maxBytes := if maxBytes <=? 0 then MaxMessageBytes else maxBytes in
  fail_if (sz =? 0) || (u32 maxBytes <? sz) with Errorf "invalid message size" ;;
  readFrame sz r.

Definition readPeerMessage (id : bytes) (now : Z) (reader : bytes) (n : Node)
    : Node * result (Message * bytes) :=
  let '(n, ok) := allowPeerMessage id now n in
  if negb ok then (n, Err (Errorf "peer rate limited"))
  else
    (n, '(msg, r) ← readMessageLimit reader (cfg_MaxMessageBytes (nd_cfg n));
        _ ← validateMessage msg; Ok (msg, r)).

Definition Send (peer : bytes) (msg : Message) (n : Node) : Node * result unit :=
  match nd_peers n !! peer with
  | None => (n, Err (Errorf "peer not connected"))
  | Some conn => writeMessage conn msg n
  end.

(** [Broadcast] and [BroadcastExcept] visit the peers in the given order and
    ignore the errors of the single sends. *)
Definition send_all (msg : Message) (peers : list bytes) (n : Node) : Node :=
  fold_left (fun n peer => (Send peer msg n).1) peers n.

(** The order in which the map of peers is visited. *)
Definition PeerOrder : Type := gmap bytes Conn -> list bytes.
Definition peer_order_ok (order : PeerOrder) : Prop := forall m, order m ≡ₚ (map_to_list m).*1.

Definition Broadcast (order : PeerOrder) (msg : Message) (n : Node) : Node :=
  send_all msg (order (nd_peers n)) n.

Definition BroadcastExcept (order : PeerOrder) (msg : Message) (excludeID : bytes) (n : Node) : Node :=
  send_all msg (List.filter (fun id => negb (bool_decide (id = excludeID))) (order (nd_peers n))) n.

(** ** Connecting *)

(** A connection that [Listen] accepts. *)
Definition accept (now : Z) (conn : Conn) (n : Node) : Node * bool :=
  let '(n, ok) := addPeer now (conn_RemoteAddr conn) conn n in
  if ok then (n, true)
  else (set_peers n (nd_peers n) (conn_id conn :: nd_closed n), false).

(** [Connect]: [now] and [now'] are the clock at the two checks of the ban,
    [dial] is what [net.DialTimeout] returns. *)
Definition Connect (now now' : Z) (address : bytes) (dial : result Conn) (n : Node)
    : Node * result unit :=
  if IsBanned now address n then (n, Err (Errorf "peer is banned"))
  else
    match dial with
    | Err e => (n, Err e)
    | Ok conn =>
        let '(n, ok) := addPeer now' address conn n in
        if ok then Send address (mkMessage MsgVersion (Some (cfg_NetworkID (nd_cfg n)))) n
        else (set_peers n (nd_peers n) (conn_id conn :: nd_closed n),
              Err (Errorf "peer limit reached"))
    end.

(** What the network does during a sequence of dials: the clock and the result
    of the [i]-th dial. *)
Record Dials := mkDials { dl_now : nat -> Z; dl_now' : nat -> Z; dl_dial : nat -> bytes -> result Conn }.

(** [Bootstrap]; [done_ i] tells whether the context is done before seed [i]. *)
Fixpoint bootstrap_loop (dials : Dials) (done_ : nat -> bool) (i : nat) (seeds : list bytes) (n : Node)
    : Node :=
  match seeds with
  | [] => n
  | seed :: seeds =>
      if done_ i then n
      else
        let '(n, r) := Connect (dl_now dials i) (dl_now' dials i) seed (dl_dial dials i seed) n in
        let n := match r with
                 | Err _ => n
                 | Ok _ => (Send seed (mkMessage MsgGetAddr None) n).1
                 end in
        bootstrap_loop dials done_ (S i) seeds n
  end.
Definition Bootstrap (dials : Dials) (done_ : nat -> bool) (n : Node) : Node :=
  bootstrap_loop dials done_ 0 (cfg_Seeds (nd_cfg n)) n.

(** One tick of [PeriodicDiscovery]. *)
Definition discovery_tick (order : PeerOrder) (n : Node) : Node :=
  send_all (mkMessage MsgGetAddr None) (order (nd_peers n)) n.

(** [[]string] *)
Fixpoint decode_string_list (vs : list json) : result (list bytes) :=
  match vs with
  | [] => Ok []
  | v :: vs =>
      s ← match v with JNull => Ok [] | JStr s => Ok s | _ => type_error end;
      ss ← decode_string_list vs; Ok (s :: ss)
  end.
Definition decode_strings (v : json) : result (list bytes) :=
  match v with
  | JNull => Ok []
  | JArr vs => decode_string_list vs
  | _ => type_error
  end.

Fixpoint addr_loop (dials : Dials) (i : nat) (addrs : list bytes) (n : Node) : Node :=
  match addrs with
  | [] => n
  | addr :: addrs =>
      if cfg_MaxPeers (nd_cfg n) <=? PeerCount n then n
      else
        let n := if bool_decide (is_Some (nd_peers n !! addr)) then n
                 else (Connect (dl_now dials i) (dl_now' dials i) addr (dl_dial dials i addr) n).1 in
        addr_loop dials (S i) addrs n
  end.
Definition HandleAddrMessage (dials : Dials) (payload : option bytes) (n : Node) : Node :=
  match Unmarshal decode_strings (default [] payload) with
  | Err _ => n
  | Ok addrs => addr_loop dials 0 addrs n
  end.

Definition AddrPayload (order : PeerOrder) (n : Node) : bytes :=
  print (JArr ((fun id => JStr (escape id)) <$> order (nd_peers n))).

(** ** Runs of the peer table *)

(** The operations on the table, each at one instant; a dial may have begun
    before it.  [Bootstrap],
    [HandleAddrMessage], [PeriodicDiscovery], [readLoop] and the handler are
    sequences of them. *)
Inductive peer_step (now : Z) (n : Node) : Node -> Prop :=
| step_accept conn : peer_step now n (accept now conn n).1
| step_connect before address dial : peer_step now n (Connect before now address dial n).1
| step_remove id : peer_step now n (removePeer id n)
| step_report peer delta : peer_step now n (ReportPeer now peer delta n)
| step_read id reader : peer_step now n (readPeerMessage id now reader n).1
| step_send peer msg : peer_step now n (Send peer msg n).1.

(** A run with a clock that does not go back. *)
Inductive runs : Z -> Node -> Z -> Node -> Prop :=
| runs_nil t n : runs t n t n
| runs_step t n t' n' t'' n'' :
    t <= t' -> peer_step t' n n' -> runs t' n' t'' n'' -> runs t n t'' n''.

(** What a run keeps true of the table. *)
Record table_ok (now : Z) (n : Node) : Prop := {
  to_limit : PeerCount n <= cfg_MaxPeers (nd_cfg n);
  to_per_ip : forall host, 0 < cfg_MaxPeersPerIP (nd_cfg n) ->
    host_count host (nd_peers n) <= cfg_MaxPeersPerIP (nd_cfg n);
  to_banned : forall peer until, nd_banned n !! peer = Some until -> now < until ->
    nd_peers n !! peer = None;
}.

(** The table is untouched. *)
Definition same_table (n n' : Node) : Prop :=
  nd_cfg n' = nd_cfg n /\ nd_peers n' = nd_peers n /\ nd_banned n' = nd_banned n.

Lemma same_table_ok now n n' : same_table n n' -> table_ok now n -> table_ok now n'.
Proof.
  intros (E1 & E2 & E3) [H1 H2 H3]. split; unfold PeerCount; rewrite ?E1, ?E2, ?E3; done.
Qed.

Lemma conn_Write_table conn data n : same_table n (conn_Write conn data n).1.
Proof. unfold conn_Write. by destruct (nd_writes n). Qed.

Lemma Send_table peer msg n : same_table n (Send peer msg n).1.
Proof.
  unfold Send. destruct (nd_peers n !! peer) as [conn|]; [|done]. unfold writeMessage.
  destruct (MaxMessageBytes <? _); [done|].
  destruct (conn_Write conn _ n) as [n1 r] eqn:E.
  pose proof (conn_Write_table conn (be_bytes 4 (u32 (len (print (message_json msg))))) n) as T.
  rewrite E in T. destruct r; [|done].
  pose proof (conn_Write_table conn (print (message_json msg)) n1) as T'.
  unfold same_table in *. simpl in *. intuition congruence.
Qed.

Lemma host_count_insert host id conn peers :
  host_count host (<[id := conn]> peers) <=
    host_count host peers + if decide (peerHost id = host) then 1 else 0.
Proof.
  unfold host_count. rewrite map_filter_insert. simpl. case_decide.
  - rewrite map_size_insert. destruct (filter _ peers !! id); simpl; lia.
  - assert (filter (fun kv => peerHost kv.1 = host) (delete id peers) ⊆
            filter (fun kv => peerHost kv.1 = host) peers) as S.
    { apply map_filter_subseteq_mono, delete_subseteq. }
    apply map_subseteq_size in S. lia.
Qed.

Lemma removePeer_ok now id n : table_ok now n -> table_ok now (removePeer id n).
Proof.
  intros [H1 H2 H3]. split; simpl.
  - unfold PeerCount in *. simpl.
    pose proof (map_subseteq_size _ _ (delete_subseteq (nd_peers n) id)). lia.
  - intros host Hp. specialize (H2 host Hp). unfold host_count in *.
    pose proof (map_subseteq_size _ _ (map_filter_subseteq_mono (fun kv => peerHost kv.1 = host) _ _
      (delete_subseteq (nd_peers n) id))). lia.
  - intros peer until Hb Ht. apply lookup_delete_None. right. by apply (H3 peer until).
Qed.

Lemma close_table n c : same_table n (set_peers n (nd_peers n) c).
Proof. done. Qed.

Lemma addPeer_ok now id conn n : table_ok now n -> table_ok now (addPeer now id conn n).1.
Proof.
  intros Hok. unfold addPeer. destruct (IsBanned now id n) eqn:Eb; [done|].
  destruct (Z.leb_spec (cfg_MaxPeers (nd_cfg n)) (PeerCount n)); [done|].
  destruct (_ && _) eqn:Eip; [done|]. destruct Hok as [H1 H2 H3]. split; simpl.
  - unfold PeerCount in *. simpl. rewrite map_size_insert. destruct (nd_peers n !! id); simpl; lia.
  - intros host Hp. specialize (H2 host Hp). pose proof (host_count_insert host id conn (nd_peers n)) as Hc.
    rewrite (proj2 (Z.ltb_lt _ _) Hp) in Eip. simpl in Eip. apply Z.leb_gt in Eip.
    case_decide; [subst|]; lia.
  - intros peer until Hb Ht. rewrite lookup_insert_None. split; [by apply (H3 peer until)|].
    intros <-. unfold IsBanned in Eb. rewrite Hb in Eb. apply Z.ltb_ge in Eb. lia.
Qed.

Lemma addPeer_table now id conn n : (addPeer now id conn n).2 = false -> (addPeer now id conn n).1 = n.
Proof. unfold addPeer. by repeat case_match. Qed.

Lemma ReportPeer_ok now peer delta n : table_ok now n -> table_ok now (ReportPeer now peer delta n).
Proof.
  intros Hok. unfold ReportPeer. destruct (_ <=? _); [|by apply (same_table_ok now n)].
  destruct (removePeer_ok now peer n Hok) as [H1 H2 H3]. split; simpl; [done..|].
  intros p until. rewrite lookup_insert_Some. intros [[-> _]|[Hne Hb]] Ht.
  - apply lookup_delete_eq.
  - by apply (H3 p until).
Qed.

Lemma readPeerMessage_table id now reader n : same_table n (readPeerMessage id now reader n).1.
Proof. unfold readPeerMessage, allowPeerMessage. simpl. by destruct (negb _). Qed.

Lemma Connect_ok before now address dial n :
  table_ok now n -> table_ok now (Connect before now address dial n).1.
Proof.
  intros Hok. unfold Connect. destruct (IsBanned before address n); [done|].
  destruct dial as [conn|e]; [|done].
  pose proof (addPeer_ok now address conn n Hok) as Ha.
  destruct (addPeer now address conn n) as [n1 []] eqn:E; simpl in Ha.
  - eapply same_table_ok; [apply Send_table | done].
  - by eapply same_table_ok; [apply close_table|].
Qed.

Lemma accept_ok now conn n : table_ok now n -> table_ok now (accept now conn n).1.
Proof.
  intros Hok. unfold accept. pose proof (addPeer_ok now (conn_RemoteAddr conn) conn n Hok) as Ha.
  destruct (addPeer now _ conn n) as [n1 []]; [done|]. by eapply same_table_ok; [apply close_table|].
Qed.

Lemma peer_step_ok now n n' : peer_step now n n' -> table_ok now n -> table_ok now n'.
Proof.
  intros [conn|before address dial|id|peer delta|id reader|peer msg] Hok;
    auto using accept_ok, Connect_ok, removePeer_ok, ReportPeer_ok.
  - eapply same_table_ok; [apply readPeerMessage_table | done].
  - eapply same_table_ok; [apply Send_table | done].
Qed.

Lemma table_ok_later t t' n : t <= t' -> table_ok t n -> table_ok t' n.
Proof. intros Ht [H1 H2 H3]. split; [done..|]. intros p u Hb Hu. apply (H3 p u); [done | lia]. Qed.

Lemma runs_ok t n t' n' : runs t n t' n' -> table_ok t n -> table_ok t' n'.
Proof.
  induction 1 as [|t n t1 n1 t2 n2 Ht Hs _ IH]; [done|]. intros Hok. apply IH.
  eapply peer_step_ok; [done|]. by eapply table_ok_later.
Qed.

Lemma peer_step_cfg now n n' : peer_step now n n' -> nd_cfg n' = nd_cfg n.
Proof.
  intros [conn|before address dial|id|peer delta|id reader|peer msg]; try done.
  - unfold accept, addPeer. by repeat case_match; simplify_eq.
  - unfold Connect, addPeer. repeat case_match; simplify_eq; try done. etrans; [apply Send_table | done].
  - unfold ReportPeer. by destruct (_ <=? _).
  - apply readPeerMessage_table.
  - apply Send_table.
Qed.

Lemma NewNode_ok t cfg writes : table_ok t (NewNode cfg writes).
Proof.
  split; simpl.
  - change (PeerCount (NewNode cfg writes)) with 0. destruct (Z.leb_spec (cfg_MaxPeers cfg) 0); lia.
  - intros host Hp. unfold host_count. rewrite map_filter_empty, map_size_empty. lia.
  - done.
Qed.

(** A ban does not end early. *)
Lemma peer_step_banned now n n' peer until :
  peer_step now n n' -> until <= now + cfg_BanDuration (nd_cfg n) ->
  (exists u, nd_banned n !! peer = Some u /\ until <= u) ->
  exists u, nd_banned n' !! peer = Some u /\ until <= u.
Proof.
  intros [conn|before address dial|id|p delta|id reader|p msg] Hu Hb; try done.
  - unfold accept, addPeer. by repeat case_match; simplify_eq.
  - unfold Connect, addPeer. repeat case_match; simplify_eq; try done.
    match goal with |- context [Send ?p ?m ?n] => destruct (Send_table p m n) as (_ & _ & ->) end. done.
  - unfold ReportPeer. destruct (_ <=? _); [|done]. simpl. destruct (decide (p = peer)) as [->|Hne].
    + rewrite lookup_insert_eq. by eexists.
    + by rewrite lookup_insert_ne.
  - by destruct (readPeerMessage_table id now reader n) as (_ & _ & ->).
  - by destruct (Send_table p msg n) as (_ & _ & ->).
Qed.

Lemma runs_banned t n t' n' peer until :
  runs t n t' n' -> until <= t + cfg_BanDuration (nd_cfg n) ->
  (exists u, nd_banned n !! peer = Some u /\ until <= u) ->
  exists u, nd_banned n' !! peer = Some u /\ until <= u.
Proof.
  induction 1 as [|t n t1 n1 t2 n2 Ht Hs _ IH]; [done|]. intros Hu Hb. apply IH.
  - rewrite (peer_step_cfg _ _ _ Hs). lia.
  - eapply peer_step_banned; [done | lia | done].
Qed.

(** ** The rate limiter *)

(** The answers to a sequence of messages of one peer. *)
Fixpoint answers (id : bytes) (times : list Z) (n : Node) : list bool :=
  match times with
  | [] => []
  | now :: times =>
      let '(n, ok) := allowPeerMessage id now n in ok :: answers id times n
  end.

Definition allowed (bs : list bool) : Z := Z.of_nat (length (List.filter (fun b => b) bs)).

Lemma allowed_cons b bs : allowed (b :: bs) = (if b then 1 else 0) + allowed bs.
Proof. unfold allowed. destruct b; cbn [List.filter length]; lia. Qed.

Lemma allowed_nonneg bs : 0 <= allowed bs.
Proof. unfold allowed. lia. Qed.

Lemma allow_fresh id now n st :
  nd_stats n !! id = Some st -> 0 < ps_WindowStart st -> 0 <= ps_Messages st < 2 ^ 63 - 1 ->
  ps_WindowStart st <= now < ps_WindowStart st + cfg_PeerRateWindow (nd_cfg n) ->
  cfg_PeerRateWindow (nd_cfg n) < 2 ^ 63 ->
  (allowPeerMessage id now n).2 = (ps_Messages st + 1 <=? cfg_PeerRateLimit (nd_cfg n)) /\
  nd_stats (allowPeerMessage id now n).1 !! id = Some (mkStats (ps_WindowStart st) (ps_Messages st + 1)) /\
  nd_cfg (allowPeerMessage id now n).1 = nd_cfg n.
Proof.
  intros E Hs Hm Hw Hd. unfold allowPeerMessage. rewrite E.
  change (default (mkStats 0 0) (Some st)) with st.
  rewrite (proj2 (Z.eqb_neq _ _)) by lia.
  rewrite (proj2 (Z.leb_gt _ _)) by (unfold Sub; lia). cbn [orb ps_Messages ps_WindowStart fst snd nd_stats nd_cfg].
  rewrite i64_small by mach. rewrite lookup_insert_eq. done.
Qed.

Lemma allow_reset id now n :
  let st := default (mkStats 0 0) (nd_stats n !! id) in
  ps_WindowStart st = 0 \/ cfg_PeerRateWindow (nd_cfg n) <= Sub now (ps_WindowStart st) ->
  (allowPeerMessage id now n).2 = (1 <=? cfg_PeerRateLimit (nd_cfg n)) /\
  nd_stats (allowPeerMessage id now n).1 !! id = Some (mkStats now 1) /\
  nd_cfg (allowPeerMessage id now n).1 = nd_cfg n.
Proof.
  intros st H. unfold allowPeerMessage. fold st.
  replace ((ps_WindowStart st =? 0) || (cfg_PeerRateWindow (nd_cfg n) <=? Sub now (ps_WindowStart st)))
    with true.
  - cbn [ps_Messages ps_WindowStart fst snd nd_stats nd_cfg]. rewrite lookup_insert_eq. done.
  - symmetry. apply orb_true_iff. destruct H; [left; by apply Z.eqb_eq | right; by apply Z.leb_le].
Qed.

(** Inside one window the limit, less what was counted before. *)
Lemma answers_window id times n st :
  nd_stats n !! id = Some st -> 0 < ps_WindowStart st ->
  0 <= ps_Messages st -> ps_Messages st + len times < 2 ^ 63 ->
  0 <= cfg_PeerRateLimit (nd_cfg n) -> cfg_PeerRateWindow (nd_cfg n) < 2 ^ 63 ->
  Forall (fun t => ps_WindowStart st <= t < ps_WindowStart st + cfg_PeerRateWindow (nd_cfg n)) times ->
  allowed (answers id times n) =
    Z.min (len times) (Z.max 0 (cfg_PeerRateLimit (nd_cfg n) - ps_Messages st)).
Proof.
  revert n st. induction times as [|now times IH]; intros n st E Hs Hm Hl Hlim Hd Ht.
  { change (allowed _) with 0. change (len []) with 0. lia. }
  rewrite len_cons in Hl |- *. apply Forall_cons in Ht as [Hnow Ht]. cbn [answers].
  pose proof (len_nonneg times).
  destruct (allow_fresh id now n st E Hs ltac:(lia) Hnow Hd) as (E1 & E2 & E3).
  destruct (allowPeerMessage id now n) as [n' ok]. cbn [fst snd] in *. rewrite allowed_cons.
  specialize (IH n' _ E2). rewrite E3 in IH. cbn [ps_Messages ps_WindowStart] in IH.
  specialize (IH Hs ltac:(lia) ltac:(lia) Hlim Hd Ht). rewrite E1.
  destruct (Z.leb_spec (ps_Messages st + 1) (cfg_PeerRateLimit (nd_cfg n))); lia.
Qed.

(** The counters of the peer were set before the messages and do not overflow. *)
Definition stats_ok (id : bytes) (times : list Z) (n : Node) : Prop :=
  let st := default (mkStats 0 0) (nd_stats n !! id) in
  0 <= ps_WindowStart st /\ 0 <= ps_Messages st /\ ps_Messages st + len times < 2 ^ 63 /\
  Forall (fun t => ps_WindowStart st <= t) times.

(** In a stretch of time no longer than the window, at most twice the limit:
    the window changes once at most. *)
Lemma answers_twice id times n a :
  0 < a -> 0 <= cfg_PeerRateLimit (nd_cfg n) -> 0 < cfg_PeerRateWindow (nd_cfg n) < 2 ^ 63 ->
  stats_ok id times n ->
  StronglySorted Z.le times ->
  Forall (fun t => a <= t < a + cfg_PeerRateWindow (nd_cfg n)) times ->
  allowed (answers id times n) <=
    Z.max 0 (cfg_PeerRateLimit (nd_cfg n) - ps_Messages (default (mkStats 0 0) (nd_stats n !! id))) +
    cfg_PeerRateLimit (nd_cfg n).
Proof.
  intros Ha Hlim Hw. revert n Hlim Hw. induction times as [|now times IH]; intros n Hlim Hw Hst Hsort Ht.
  { change (allowed _) with 0. lia. }
  unfold stats_ok in Hst. cbv zeta in Hst. set (st := default (mkStats 0 0) (nd_stats n !! id)) in *.
  destruct Hst as (Hs & Hm & Hl & Hge). rewrite len_cons in Hl. pose proof (len_nonneg times).
  apply Forall_cons in Hge as [Hge Hge'], Ht as [Hnow Ht]. apply StronglySorted_inv in Hsort as [Hsort Hle].
  cbn [answers].
  destruct (decide (ps_WindowStart st = 0 \/ cfg_PeerRateWindow (nd_cfg n) <= Sub now (ps_WindowStart st)))
    as [Hr|Hr].
  - destruct (allow_reset id now n Hr) as (E1 & E2 & E3).
    destruct (allowPeerMessage id now n) as [n' ok]. cbn [fst snd] in *. rewrite allowed_cons.
    pose proof (answers_window id times n' _ E2) as HA. rewrite E3 in HA. cbn [ps_Messages ps_WindowStart] in HA.
    specialize (HA ltac:(lia) ltac:(lia) ltac:(lia) Hlim ltac:(lia)).
    assert (Forall (fun t => now <= t < now + cfg_PeerRateWindow (nd_cfg n)) times) as HF.
    { rewrite Forall_forall in *. intros t Hin. specialize (Ht t Hin). specialize (Hle t Hin). lia. }
    specialize (HA HF). rewrite E1. destruct (Z.leb_spec 1 (cfg_PeerRateLimit (nd_cfg n))); lia.
  - apply Decidable.not_or in Hr as [Hs0 Hr].
    assert (E : nd_stats n !! id = Some st).
    { unfold st in Hs0 |- *. by destruct (nd_stats n !! id). }
    assert (now < ps_WindowStart st + cfg_PeerRateWindow (nd_cfg n)) by (unfold Sub in Hr; lia).
    destruct (allow_fresh id now n st E ltac:(lia) ltac:(lia) ltac:(lia) ltac:(lia)) as (E1 & E2 & E3).
    destruct (allowPeerMessage id now n) as [n' ok]. cbn [fst snd] in *. rewrite allowed_cons.
    specialize (IH n'). unfold stats_ok in IH. rewrite E3, E2 in IH.
    change (default (mkStats 0 0) (Some (mkStats (ps_WindowStart st) (ps_Messages st + 1))))
      with (mkStats (ps_WindowStart st) (ps_Messages st + 1)) in IH.
    cbn [ps_Messages ps_WindowStart] in IH.
    specialize (IH Hlim Hw ltac:(split_and!; [lia | lia | lia | done]) Hsort Ht).
    rewrite E1. destruct (Z.leb_spec (ps_Messages st + 1) (cfg_PeerRateLimit (nd_cfg n))); lia.
Qed.

(** ** Frames *)

(** The bytes of a message on the wire. *)
Definition frame (msg : Message) : bytes :=
  let payload := print (message_json msg) in be_bytes 4 (u32 (len payload)) ++ payload.

Lemma known_types_plain t :
  t ∈ knownMessageTypes -> escape t = t /\ Forall (fun c => 32 <= c /\ c <> 34 /\ c <> 92) t.
Proof.
  intros Ht. cut (Forall (fun t => escape t = t /\ Forall (fun c => 32 <= c /\ c <> 34 /\ c <> 92) t)
    knownMessageTypes); [|by_decision].
  intros H. rewrite Forall_forall in H. by apply H.
Qed.

Lemma message_canonical msg :
  msg_Type msg ∈ knownMessageTypes -> bytes_wf (default [] (msg_Payload msg)) ->
  canonical (message_json msg).
Proof.
  intros Ht Hp. destruct (known_types_plain _ Ht) as [Ee Es]. apply canonical_obj. unfold message_json.
  rewrite Ee. apply Forall_cons. split; [split; [|exact Es]|apply Forall_singleton; split].
  - cbn [fst]. unfold safe_char. by_decision.
  - cbn [fst]. unfold safe_char. by_decision.
  - cbn [snd]. destruct (msg_Payload msg) as [bs|]; [by apply b64_encode_safe | done].
Qed.

Lemma decode_message_json msg :
  msg_Type msg ∈ knownMessageTypes -> bytes_wf (default [] (msg_Payload msg)) ->
  decode_message (message_json msg) = Ok msg.
Proof.
  intros Ht Hp. destruct (known_types_plain _ Ht) as [Ee _]. unfold message_json. rewrite Ee.
  destruct msg as [t [bs|]]; cbn [msg_Type msg_Payload] in *; [|done].
  unfold decode_message. cbn [decode_message_fields].
  change (decode_message_field (mkMessage [] None) (str "type", JStr t)) with (Ok (mkMessage t None)).
  rewrite ok_bind.
  change (decode_message_field (mkMessage t None) (str "payload", JStr (b64_encode bs)))
    with (b ← decode_bytes (JStr (b64_encode bs)); Ok (mkMessage t (Some b))).
  unfold decode_bytes. rewrite b64_roundtrip by done. done.
Qed.

Lemma print_message_length msg : 0 < len (print (message_json msg)).
Proof. unfold message_json, len. cbn [print length]. lia. Qed.

Lemma readFrame_print msg rest :
  msg_Type msg ∈ knownMessageTypes -> bytes_wf (default [] (msg_Payload msg)) ->
  readFrame (len (print (message_json msg))) (print (message_json msg) ++ rest) = Ok (msg, rest).
Proof.
  intros Ht Hp. unfold readFrame, len. rewrite Nat2Z.id, readFull_app by done. rewrite ok_bind.
  unfold Unmarshal. rewrite parse_print by by apply message_canonical.
  rewrite decode_message_json, ok_bind by done. unfold validateMessage.
  by rewrite bool_decide_eq_true_2.
Qed.

Lemma conn_Write_ok conn data n :
  nd_writes n = [] ->
  (conn_Write conn data n).2 = Ok tt /\ nd_writes (conn_Write conn data n).1 = [] /\
  nd_wire (conn_Write conn data n).1 =
    <[conn_id conn := default [] (nd_wire n !! conn_id conn) ++ data]> (nd_wire n).
Proof. intros E. unfold conn_Write. by rewrite E. Qed.

(** A message that is not too large goes out as one frame. *)
Lemma writeMessage_ok conn msg n :
  nd_writes n = [] -> len (print (message_json msg)) <= MaxMessageBytes ->
  (writeMessage conn msg n).2 = Ok tt /\ nd_writes (writeMessage conn msg n).1 = [] /\
  nd_wire (writeMessage conn msg n).1 =
    <[conn_id conn := default [] (nd_wire n !! conn_id conn) ++ frame msg]> (nd_wire n).
Proof.
  intros Hn Hl. unfold writeMessage. rewrite (proj2 (Z.ltb_ge _ _)) by lia.
  destruct (conn_Write_ok conn (be_bytes 4 (u32 (len (print (message_json msg))))) n Hn) as (E1 & E2 & E3).
  destruct (conn_Write conn _ n) as [n1 r]. cbn [fst snd] in *. subst r.
  destruct (conn_Write_ok conn (print (message_json msg)) n1 E2) as (F1 & F2 & F3).
  split; [done|]. split; [done|]. rewrite F3, E3, lookup_insert_eq, insert_insert_eq.
  cbn [default from_option id]. unfold frame. by rewrite <- app_assoc.
Qed.

Lemma readMessageLimit_frame msg rest maxBytes :
  msg_Type msg ∈ knownMessageTypes -> bytes_wf (default [] (msg_Payload msg)) ->
  len (print (message_json msg)) <= u32 (if maxBytes <=? 0 then MaxMessageBytes else maxBytes) ->
  readMessageLimit (frame msg ++ rest) maxBytes = Ok (msg, rest).
Proof.
  intros Ht Hp Hl. pose proof (print_message_length msg) as Hpos.
  set (lim := u32 (if maxBytes <=? 0 then MaxMessageBytes else maxBytes)) in *.
  assert (Hu : is_u32 (len (print (message_json msg)))).
  { pose proof (u32_range (if maxBytes <=? 0 then MaxMessageBytes else maxBytes)). mach. }
  unfold readMessageLimit, frame. cbv zeta. rewrite <- app_assoc, readFull_app by apply be_bytes_length.
  rewrite ok_bind, u32_small, be_roundtrip by mach. fold lim.
  rewrite (proj2 (Z.eqb_neq _ _)) by lia. rewrite (proj2 (Z.ltb_ge _ _)) by lia.
  by apply readFrame_print.
Qed.

(** ** Theorems *)

(** C28: Whatever sequence of connections, reports, messages and disconnections a node
    goes through, it has at most its maximum of peers, at most its limit of peers per
    host, and no peer that is banned at that time. *)
Theorem peer_table_bounded cfg writes t t' n :
  runs t (NewNode cfg writes) t' n ->
  PeerCount n <= cfg_MaxPeers (normalise cfg) /\
  (0 < cfg_MaxPeersPerIP cfg -> forall host, host_count host (nd_peers n) <= cfg_MaxPeersPerIP cfg) /\
  (forall peer, IsBanned t' peer n = true -> nd_peers n !! peer = None).
Proof.
  intros Hr. assert (Ec : nd_cfg n = normalise cfg).
  { enough (forall n0, runs t n0 t' n -> nd_cfg n = nd_cfg n0) as H by by rewrite (H _ Hr).
    clear Hr. induction 1 as [|t n0 t1 n1 t2 n2 _ Hs _ IH]; [done|]. by rewrite IH, (peer_step_cfg _ _ _ Hs). }
  destruct (runs_ok _ _ _ _ Hr (NewNode_ok t cfg writes)) as [H1 H2 H3]. rewrite Ec in *.
  split; [done|]. split; [intros Hp host; by apply H2|].
  intros peer Hb. unfold IsBanned in Hb. destruct (nd_banned n !! peer) as [u|] eqn:E; [|done].
  apply (H3 peer u E). by apply Z.ltb_lt.
Qed.

(** A peer whose score falls to the ban score is disconnected, and until the ban is over
    it is not connected and dialling it is refused, whatever happens in between. *)
Theorem banned_peer_stays_out t0 cfg writes t n peer delta t' n' :
  runs t0 (NewNode cfg writes) t n ->
  i64 (Score peer n + delta) <= cfg_BanScore (nd_cfg n) ->
  runs t (ReportPeer t peer delta n) t' n' ->
  t' < t + cfg_BanDuration (nd_cfg n) ->
  nd_peers n' !! peer = None /\ IsBanned t' peer n' = true /\
  forall now' dial, Connect t' now' peer dial n' = (n', Err (Errorf "peer is banned")).
Proof.
  intros Hr0 Hs Hr Ht.
  pose proof (runs_ok _ _ _ _ Hr0 (NewNode_ok t0 cfg writes)) as Hok.
  pose proof (runs_ok _ _ _ _ Hr (ReportPeer_ok t peer delta n Hok)) as [_ _ Hb].
  assert (Hc : nd_cfg (ReportPeer t peer delta n) = nd_cfg n) by (unfold ReportPeer; by destruct (_ <=? _)).
  destruct (runs_banned _ _ _ _ peer (t + cfg_BanDuration (nd_cfg n)) Hr) as (u & Eu & Hu).
  - rewrite Hc. lia.
  - exists (t + cfg_BanDuration (nd_cfg n)). split; [|lia]. unfold ReportPeer.
    rewrite (proj2 (Z.leb_le _ _)) by done. simpl. apply lookup_insert_eq.
  - assert (HB : IsBanned t' peer n' = true) by (unfold IsBanned; rewrite Eu; apply Z.ltb_lt; lia).
    split; [apply (Hb peer u Eu); lia|]. split; [done|]. intros now' dial. unfold Connect. by rewrite HB.
Qed.

(** In any stretch of time no longer than the rate window at most twice the limit of
    messages of a peer is allowed, and for a peer without history exactly the first
    messages up to the limit. *)
Theorem rate_limit_bound id times n a :
  0 < a -> 0 <= cfg_PeerRateLimit (nd_cfg n) -> 0 < cfg_PeerRateWindow (nd_cfg n) < 2 ^ 63 ->
  stats_ok id times n ->
  StronglySorted Z.le times ->
  Forall (fun t => a <= t < a + cfg_PeerRateWindow (nd_cfg n)) times ->
  allowed (answers id times n) <= 2 * cfg_PeerRateLimit (nd_cfg n) /\
  (nd_stats n !! id = None ->
   allowed (answers id times n) = Z.min (len times) (cfg_PeerRateLimit (nd_cfg n))).
Proof.
  intros Ha Hl Hw Hst Hs Ht. split.
  - pose proof (answers_twice id times n a Ha Hl Hw Hst Hs Ht). destruct Hst as (_ & ? & _). lia.
  - intros E. destruct times as [|now times]; [change (allowed _) with 0; change (len []) with 0; lia|].
    unfold stats_ok in Hst. rewrite E in Hst. change (default (mkStats 0 0) None) with (mkStats 0 0) in Hst.
    cbn [ps_WindowStart ps_Messages] in Hst. destruct Hst as (_ & _ & Hn & _).
    rewrite len_cons in *. pose proof (len_nonneg times).
    apply Forall_cons in Ht as [Hnow Ht]. apply StronglySorted_inv in Hs as [_ Hle]. cbn [answers].
    destruct (allow_reset id now n) as (E1 & E2 & E3); [rewrite E; by left|].
    destruct (allowPeerMessage id now n) as [n' ok]. cbn [fst snd] in *. rewrite allowed_cons.
    pose proof (answers_window id times n' _ E2) as HA. rewrite E3 in HA. cbn [ps_Messages ps_WindowStart] in HA.
    rewrite HA, E1; [|lia..|].
    + destruct (Z.leb_spec 1 (cfg_PeerRateLimit (nd_cfg n))); lia.
    + rewrite Forall_forall in *. intros t Hin. specialize (Ht t Hin). specialize (Hle t Hin). lia.
Qed.

(** C38: The frame written for a message of a known type within the size limits is read
    back as that message by both readers, with the bytes after it left over. *)
Theorem frame_roundtrip conn msg n rest :
  validateMessage msg = Ok tt -> bytes_wf (default [] (msg_Payload msg)) ->
  nd_writes n = [] -> 0 < cfg_MaxMessageBytes (nd_cfg n) < 2 ^ 32 ->
  len (print (message_json msg)) <= Z.min MaxMessageBytes (cfg_MaxMessageBytes (nd_cfg n)) ->
  exists f, (writeMessage conn msg n).2 = Ok tt /\
    nd_wire (writeMessage conn msg n).1 !! conn_id conn =
      Some (default [] (nd_wire n !! conn_id conn) ++ f) /\
    readMessage (f ++ rest) = Ok (msg, rest) /\
    readMessageLimit (f ++ rest) (cfg_MaxMessageBytes (nd_cfg n)) = Ok (msg, rest).
Proof.
  intros Hv Hp Hw Hm Hl. assert (Ht : msg_Type msg ∈ knownMessageTypes).
  { unfold validateMessage in Hv. by destruct (bool_decide_reflect (msg_Type msg ∈ knownMessageTypes)). }
  exists (frame msg). destruct (writeMessage_ok conn msg n Hw ltac:(lia)) as (E1 & _ & E3).
  split; [done|]. split; [rewrite E3; apply lookup_insert_eq|].
  assert (E : forall r, readMessage r = readMessageLimit r 0) by done. rewrite E. unfold MaxMessageBytes in *.
  split; (apply readMessageLimit_frame; [done..|]).
  - change (0 <=? 0) with true. cbv iota. unfold MaxMessageBytes. rewrite u32_small by mach. lia.
  - rewrite (proj2 (Z.leb_gt _ _)), u32_small by mach. lia.
Qed.
