(* ===== verification/Relay.v ===== *)
(** * Relay: the message handler

    Models [p2p/handler.go] and the reading loop of [p2p/node.go]: what a node
    does with each message of a peer.  The state is the node and the chain
    manager.  Encoding and decoding of payloads ([encoding/json] on blocks,
    transactions, header requests and headers) is a parameter, [Codec]: the
    theorems hold for any decoder. *)

From S2P Require Import Prelude Encoding Sha256 Params Tx Block Consensus Pebble Storage StoreSpec.
From S2P Require Import Ledger Mempool Miner Bech32 Chain ChainSpec Sync Json Peers.

Record Net := mkNet { nt_Node : Node; nt_Manager : Manager }.

Record Codec := mkCodec {
  cd_block : bytes -> result Block;
  cd_tx : bytes -> result Transaction;
  cd_getheaders : bytes -> result (list bytes * bytes);
  cd_headers : list BlockHeader -> bytes;
}.

(** What handling a message reads of the world. *)
Record World := mkWorld {
  w_fuel : nat;
  w_now : Z;
  w_now_seconds : Z;
  w_peers : PeerOrder;
  w_pool : MapOrder;
  w_dials : Dials;
}.

(** A handler returns, is still working, or crashes the process. *)
Inductive handled :=
| Handled (s : Net) (r : result unit)
| Working
| Crashed.

Definition set_node (s : Net) (n : Node) : Net := mkNet n (nt_Manager s).
Definition set_manager (s : Net) (m : Manager) : Net := mkNet (nt_Node s) m.

Section Relay.
Context {HF : HashFunction} {UJ : UTXOJson}.

(** ** Serving headers *)

(** The first block of the locator that the store has. *)
Fixpoint locate (locator : list bytes) (d : DB) : Z :=
  match locator with
  | [] => 0
  | hash :: locator =>
      match GetBlock hash d with
      | Ok b => u64 (hdr_Height (blk_Header b) + 1)
      | Err _ => locate locator d
      end
  end.

Definition maxHeaders : nat := 2000.

(** At most [n] headers from height [h] on. *)
Fixpoint gather (n : nat) (h tipHeight : Z) (stop : bytes) (d : DB) : list BlockHeader :=
  match n with
  | O => []
  | S n =>
      if tipHeight <? h then []
      else
        match chain_HeaderByHeight d h with
        | Err _ => []
        | Ok bh =>
            bh :: if bool_decide (hdr_Hash bh = stop) then []
                  else gather n (u64 (h + 1)) tipHeight stop d
        end
  end.

Definition gatherHeaders (locator : list bytes) (stop : bytes) (m : Manager) : result (list BlockHeader) :=
  tip ← TipBlock (mg_Store m);
  Ok (gather maxHeaders (locate locator (mg_Store m)) (hdr_Height (blk_Header tip)) stop (mg_Store m)).

(** ** The handler *)

Definition reply (s : Net) (peer : PeerInfo) (msg : Message) : handled :=
  let '(n, r) := Send (pi_ID peer) msg (nt_Node s) in Handled (set_node s n) r.

(** [Handler]: one case per message type, in the order of the source. *)
Definition handle (cd : Codec) (w : World) (peer : PeerInfo) (msg : Message) (s : Net) : handled :=
  let payload := default [] (msg_Payload msg) in
  if bool_decide (msg_Type msg = MsgVersion) then reply s peer (mkMessage MsgVerAck None)
  else if bool_decide (msg_Type msg = MsgGetAddr) then
    reply s peer (mkMessage MsgAddr (Some (AddrPayload (w_peers w) (nt_Node s))))
  else if bool_decide (msg_Type msg = MsgAddr) then
    Handled (set_node s (HandleAddrMessage (w_dials w) (msg_Payload msg) (nt_Node s))) (Ok tt)
  else if bool_decide (msg_Type msg = MsgBlock) then
    match cd_block cd payload with
    | Err e => Handled (set_node s (ReportPeer (w_now w) (pi_ID peer) (-10) (nt_Node s))) (Err e)
    | Ok b =>
        match ValidateAndApplyBlock (w_fuel w) (w_now_seconds w) b (nt_Manager s) with
        | None => Working
        | Some (m, Err _) => Handled (set_manager s m) (Ok tt)
        | Some (m, Ok _) =>
            Handled (mkNet (BroadcastExcept (w_peers w) msg (pi_ID peer) (nt_Node s)) m) (Ok tt)
        end
    end
  else if bool_decide (msg_Type msg = MsgTx) then
    match cd_tx cd payload with
    | Err e => Handled (set_node s (ReportPeer (w_now w) (pi_ID peer) (-10) (nt_Node s))) (Err e)
    | Ok t =>
        let m := nt_Manager s in
        match mg_Mempool m with
        | None => Crashed
        | Some mp =>
            let '(mp, r) := Add (Get (mg_Store m)) (w_now w) (w_pool w) t mp in
            let m := mkManager (mg_Store m) (mg_Network m) (Some mp) (mg_Verifier m) in
            match r with
            | Err _ => Handled (set_manager s m) (Ok tt)
            | Ok _ =>
                Handled (mkNet (BroadcastExcept (w_peers w) msg (pi_ID peer) (nt_Node s)) m) (Ok tt)
            end
        end
    end
  else if bool_decide (msg_Type msg = MsgGetHeaders) then
    match cd_getheaders cd payload with
    | Err e => Handled s (Err e)
    | Ok (locator, stop) =>
        match gatherHeaders locator stop (nt_Manager s) with
        | Err e => Handled s (Err e)
        | Ok headers => reply s peer (mkMessage MsgHeaders (Some (cd_headers cd headers)))
        end
    end
  else if bool_decide (msg_Type msg = MsgPing) then
    reply s peer (mkMessage MsgPong (msg_Payload msg))
  else Handled s (Ok tt).

(** ** The reading loop *)

(** [readLoop] on a connection that delivers [reader] and then ends.  [w i] is
    the world at round [i]; a nil handler is [None]. *)
Fixpoint readLoop (fuel : nat) (handler : option (World -> PeerInfo -> Message -> Net -> handled))
    (w : nat -> World) (i : nat) (conn : Conn) (reader : bytes) (s : Net) : handled :=
  match fuel with
  | O => Working
  | S fuel =>
      let id := conn_RemoteAddr conn in
      let '(n, r) := readPeerMessage id (w_now (w i)) reader (nt_Node s) in
      match r with
      | Err _ =>
          Handled (set_node s (removePeer id (ReportPeer (w_now (w i)) id (-25) n))) (Ok tt)
      | Ok (msg, reader) =>
          match handler with
          | None => readLoop fuel handler w (S i) conn reader (set_node s n)
          | Some h =>
              match h (w i) (mkPeerInfo id id (w_now (w i))) msg (set_node s n) with
              | Working => Working
              | Crashed => Crashed
              | Handled s (Ok _) => readLoop fuel handler w (S i) conn reader s
              | Handled s (Err _) =>
                  readLoop fuel handler w (S i) conn reader
                    (set_node s (ReportPeer (w_now (w i)) id (-10) (nt_Node s)))
              end
          end
      end
  end.

(** ** Lemmas: serving headers *)

(** Each header names the one before it. *)
Fixpoint linked (prev : bytes) (hs : list BlockHeader) : Prop :=
  match hs with
  | [] => True
  | h :: hs => hdr_PrevHash h = prev /\ linked (hdr_Hash h) hs
  end.

Lemma gather_length n h tipHeight stop d : (length (gather n h tipHeight stop d) <= n)%nat.
Proof.
  revert h. induction n as [|n IH]; intros h; cbn [gather]; [done|].
  destruct (tipHeight <? h); simpl; [lia|]. destruct (chain_HeaderByHeight d h) as [bh|]; simpl; [|lia].
  destruct (bool_decide _); simpl; [lia|]. specialize (IH (u64 (h + 1))). lia.
Qed.

Lemma locate_known l hash locator d b :
  Forall (fun h => is_ok (GetBlock h d) = false) l -> GetBlock hash d = Ok b ->
  locate (l ++ hash :: locator) d = u64 (hdr_Height (blk_Header b) + 1).
Proof.
  induction 1 as [|h l Hh _ IH]; intros Hb; cbn [app locate]; [by rewrite Hb|].
  destruct (GetBlock h d); [done | by apply IH].
Qed.

(** From the block at position [k] of the main chain on. *)
Lemma gather_spec d net cs bs n k p tip stop :
  represents d cs -> chain_inv net cs bs -> bs !! k = Some p -> last bs = Some tip ->
  hdr_Height (blk_Header tip) + 1 < 2 ^ 64 ->
  let hs := gather n (Z.of_nat k + 1) (hdr_Height (blk_Header tip)) stop d in
  linked (blk_Hash p) hs /\
  (forall h, h ∈ hs -> chain_HeaderByHeight d (hdr_Height h) = Ok h) /\
  (length hs = n \/ (hs <> [] /\ last_hash_of hs (blk_Hash p) = stop) \/
   last_hash_of hs (blk_Hash p) = blk_Hash tip).
Proof.
  intros R I Hk Hl Ht. rewrite last_lookup in Hl. pose proof (ci_height _ _ _ I _ _ Hl) as Hth.
  pose proof (lookup_lt_Some _ _ _ Hl). revert k p Hk. induction n as [|n IH]; intros k p Hk; cbn [gather].
  { cbv zeta. split_and!; [done | by intros h ?%not_elem_of_nil | by left]. }
  destruct (Z.ltb_spec (hdr_Height (blk_Header tip)) (Z.of_nat k + 1)) as [Hlt|Hge]; cbv zeta.
  - pose proof (lookup_lt_Some _ _ _ Hk). assert (k = pred (length bs)) as -> by lia.
    rewrite Hl in Hk. injection Hk as ->.
    split_and!; [done | by intros h ?%not_elem_of_nil | by right; right].
  - destruct (lookup_lt_is_Some_2 bs (S k)) as [b Hb]; [lia|].
    assert (Eh : chain_HeaderByHeight d (Z.of_nat k + 1) = Ok (blk_Header b)).
    { rewrite (inv_HeaderByHeight _ _ _ _ R I) by lia. unfold hbh_of.
      replace (Z.to_nat (Z.of_nat k + 1)) with (S k) by lia. by rewrite Hb. }
    rewrite Eh. pose proof (ci_height _ _ _ I _ _ Hb) as Hh.
    destruct (ci_link _ _ _ I _ _ _ Hk Hb) as [Hp _].
    rewrite u64_small by mach. specialize (IH (S k) b Hb). cbv zeta in IH.
    replace (Z.of_nat (S k) + 1) with (Z.of_nat k + 1 + 1) in IH by lia.
    assert (Hhead : chain_HeaderByHeight d (hdr_Height (blk_Header b)) = Ok (blk_Header b)).
    { rewrite Hh. by replace (Z.of_nat (S k)) with (Z.of_nat k + 1) by lia. }
    rewrite !last_hash_cons. cbn [length linked].
    destruct (bool_decide_reflect (hdr_Hash (blk_Header b) = stop)) as [Es|_].
    + split_and!; [done | done | by intros h ->%list_elem_of_singleton | by right; left].
    + destruct IH as (I1 & I2 & I3). split_and!; [done | exact I1 | |].
      * intros h [->|Hin]%elem_of_cons; [exact Hhead | by apply I2].
      * destruct I3 as [E|[[_ E]|E]]; [left; congruence | by right; left | by right; right].
Qed.

(** ** Lemmas: broadcasting *)

(** No two peers share a connection. *)
Definition conns_distinct (n : Node) : Prop :=
  forall a b ca cb, nd_peers n !! a = Some ca -> nd_peers n !! b = Some cb ->
    conn_id ca = conn_id cb -> a = b.

(** What a peer has received. *)
Definition received (n : Node) (conn : Conn) : bytes := default [] (nd_wire n !! conn_id conn).

Lemma Send_received peer msg n :
  nd_writes n = [] -> len (print (message_json msg)) <= MaxMessageBytes -> conns_distinct n ->
  nd_writes (Send peer msg n).1 = [] /\
  forall id conn, nd_peers n !! id = Some conn ->
    received (Send peer msg n).1 conn =
    received n conn ++ (if decide (id = peer) then frame msg else []).
Proof.
  intros Hw Hl Hd. unfold Send. destruct (nd_peers n !! peer) as [c|] eqn:E.
  - destruct (writeMessage_ok c msg n Hw Hl) as (_ & E2 & E3). split; [done|].
    intros id conn Hi. unfold received. rewrite E3. case_decide as Hid.
    + subst id. rewrite E in Hi. injection Hi as ->. by rewrite lookup_insert_eq.
    + rewrite lookup_insert_ne, app_nil_r; [done|]. intros Ec. by apply Hid, (Hd id peer conn c).
  - split; [done|]. intros id conn Hi. case_decide as Hid; [congruence|]. by rewrite app_nil_r.
Qed.

Lemma send_all_received msg ids n :
  nd_writes n = [] -> len (print (message_json msg)) <= MaxMessageBytes -> conns_distinct n -> NoDup ids ->
  same_table n (send_all msg ids n) /\
  forall id conn, nd_peers n !! id = Some conn ->
    received (send_all msg ids n) conn =
    received n conn ++ (if decide (id ∈ ids) then frame msg else []).
Proof.
  intros Hw Hl Hd Hn. revert n Hw Hd. induction Hn as [|x ids Hx _ IH]; intros n Hw Hd.
  { split; [done|]. intros id conn Hi. rewrite decide_False by apply not_elem_of_nil. by rewrite app_nil_r. }
  change (send_all msg (x :: ids) n) with (send_all msg ids (Send x msg n).1).
  destruct (Send_received x msg n Hw Hl Hd) as [Hw' Hr]. destruct (Send_table x msg n) as (T1 & T2 & T3).
  destruct (IH (Send x msg n).1 Hw') as [(S1 & S2 & S3) HR]; [unfold conns_distinct; by rewrite T2|].
  split; [unfold same_table; intuition congruence|]. intros id conn Hi.
  rewrite (HR id conn) by by rewrite T2. rewrite (Hr id conn Hi), <- app_assoc. f_equal.
  repeat case_decide; subst; cbn [app]; rewrite ?app_nil_r; try done; set_solver.
Qed.

Lemma BroadcastExcept_received order msg except n :
  peer_order_ok order -> nd_writes n = [] -> len (print (message_json msg)) <= MaxMessageBytes ->
  conns_distinct n ->
  same_table n (BroadcastExcept order msg except n) /\
  forall id conn, nd_peers n !! id = Some conn ->
    received (BroadcastExcept order msg except n) conn =
    received n conn ++ (if decide (id = except) then [] else frame msg).
Proof.
  intros Ho Hw Hl Hd. unfold BroadcastExcept.
  set (ids := List.filter _ _).
  assert (Hin : forall id, id ∈ ids <-> id <> except /\ is_Some (nd_peers n !! id)).
  { intros id. unfold ids. rewrite list_elem_of_In, filter_In, <- list_elem_of_In, (Ho (nd_peers n)).
    rewrite negb_true_iff, bool_decide_eq_false, list_elem_of_fmap. split.
    - intros [([i c] & -> & Hc%elem_of_map_to_list) Hne]. split; [done | by eexists].
    - intros [Hne [c Hc]]. split; [|done]. exists (id, c). split; [done | by apply elem_of_map_to_list]. }
  assert (Hnd : NoDup ids).
  { unfold ids. apply NoDup_ListNoDup, List.NoDup_filter, NoDup_ListNoDup. rewrite (Ho (nd_peers n)).
    apply NoDup_fst_map_to_list. }
  destruct (send_all_received msg ids n Hw Hl Hd Hnd) as [T HR]. split; [done|].
  intros id conn Hi. rewrite (HR id conn Hi). f_equal.
  destruct (decide (id = except)) as [->|Hne].
  - rewrite decide_False; [done|]. rewrite Hin. by intros [].
  - rewrite decide_True; [done|]. rewrite Hin. split; [done | by eexists].
Qed.

(** ** Lemmas: the reading loop *)

(** Every message takes its size field off the stream. *)
Lemma readPeerMessage_shorter id now reader n msg r :
  (readPeerMessage id now reader n).2 = Ok (msg, r) -> (length r + 4 <= length reader)%nat.
Proof.
  unfold readPeerMessage. destruct (allowPeerMessage id now n) as [n' ok]. destruct ok; [|done].
  cbn [negb snd]. unfold readMessageLimit, readFrame. intros H.
  do 3 (inv_ok; repeat match goal with p : (_ * _)%type |- _ => destruct p end).
  repeat match goal with H : readFull _ _ = Ok _ |- _ => apply readFull_Ok in H as [-> ?] end.
  rewrite !length_app. lia.
Qed.

(** The loop ends when the stream does, whatever the handler answers: the length
    of the stream is enough fuel. *)
Lemma reading_loop_ends h w i conn reader s :
  (forall w peer msg s, h w peer msg s <> Working) ->
  readLoop (S (length reader)) (Some h) w i conn reader s <> Working.
Proof.
  intros Hh. assert (H : forall fuel, (length reader < fuel)%nat ->
    readLoop fuel (Some h) w i conn reader s <> Working); [|apply H; lia].
  intros fuel. revert i reader s. induction fuel as [|fuel IH]; intros i reader s Hf; [lia|].
  cbn [readLoop]. pose proof (readPeerMessage_shorter (conn_RemoteAddr conn) (w_now (w i)) reader (nt_Node s)) as Hs.
  destruct (readPeerMessage _ _ reader _) as [n [[msg r]|e]]; [|done]. cbn [snd] in Hs.
  specialize (Hs msg r eq_refl). pose proof (Hh (w i) (mkPeerInfo (conn_RemoteAddr conn) (conn_RemoteAddr conn) (w_now (w i))) msg (set_node s n)) as Hne.
  destruct (h _ _ msg _) as [s' [u|e]| |]; [apply IH; lia | apply IH; lia | by destruct Hne | done].
Qed.

Lemma getaddr_refused rest maxBytes :
  is_ok (readMessageLimit (frame (mkMessage MsgGetAddr None) ++ rest) maxBytes) = false.
Proof.
  unfold readMessageLimit, frame. cbv zeta. rewrite <- app_assoc, readFull_app by apply be_bytes_length.
  rewrite ok_bind. set (payload := print (message_json (mkMessage MsgGetAddr None))).
  assert (El : be_val (be_bytes 4 (u32 (len payload))) = len payload) by (vm_compute; reflexivity).
  rewrite El. destruct (_ || _); [done|]. unfold readFrame, len. rewrite Nat2Z.id, readFull_app by done.
  rewrite ok_bind. assert (Eu : Unmarshal decode_message payload = Ok (mkMessage MsgGetAddr None))
    by (vm_compute; reflexivity).
  rewrite Eu, ok_bind. done.
Qed.

(** ** Theorems *)

(** C27: A node that started empty on a healthy disk and was offered only blocks of
    positive height within the parser limits, below the last 64-bit height, answers a
    header request with at most 2000 headers of its main chain that follow, one linked
    to the next, the first block of the locator it knows; the answer ends at the limit,
    at the stop hash or at the tip. After a block of height 0 this need not hold. *)
Theorem served_headers_link net v blocks m height l hash locator stop b :
  is_u32 (GenesisBits net) -> offered net v blocks m -> Forall regular blocks ->
  Height (mg_Store m) = Ok height -> height + 1 < 2 ^ 64 -> is_hash hash ->
  Forall (fun h => is_ok (GetBlock h (mg_Store m)) = false) l -> GetBlock hash (mg_Store m) = Ok b ->
  exists hs, gatherHeaders (l ++ hash :: locator) stop m = Ok hs /\
    len hs <= 2000 /\ linked hash hs /\
    (forall h, h ∈ hs -> chain_HeaderByHeight (mg_Store m) (hdr_Height h) = Ok h) /\
    (len hs = 2000 \/ (hs <> [] /\ last_hash_of hs hash = stop) \/
     Tip (mg_Store m) = Ok (last_hash_of hs hash)).
Proof.
  intros Hb Ho Hreg Hh Hlt Hhash Hl Hg. apply (offered_reachable _ _ _ _ Ho) in Hreg as Hr. apply reachable_inv in Hr as (cs & bs & R & I & _); [|done].
  destruct (inv_tip_block _ _ _ I) as (tip & Ht & Htl).
  rewrite (inv_Height _ _ _ _ R I tip Ht) in Hh. injection Hh as <-.
  pose proof Hg as Hc. rewrite (inv_GetBlock _ _ _ _ R I) in Hc by done.
  destruct (cs_block cs hash) as [b'|] eqn:Ec; [|done]. injection Hc as ->.
  pose proof (ci_only _ _ _ I _ _ Ec) as [k Hk]%list_elem_of_lookup.
  apply (cs_block_ok _ _ _ (rep_ok _ _ R)) in Ec as [_ Ehash].
  pose proof (ci_height _ _ _ I _ _ Hk) as Hbh.
  assert (Z.of_nat k <= hdr_Height (blk_Header tip)).
  { rewrite (ci_height _ _ _ I _ _ Htl). apply lookup_lt_Some in Hk. lia. }
  unfold gatherHeaders. rewrite (inv_TipBlock _ _ _ _ R I tip Ht), ok_bind.
  rewrite (locate_known l hash locator _ b Hl Hg), Hbh, u64_small by mach.
  eexists. split; [reflexivity|].
  destruct (gather_spec _ _ _ _ maxHeaders k b tip stop R I Hk Ht Hlt) as (H1 & H2 & H3).
  pose proof (gather_length maxHeaders (Z.of_nat k + 1) (hdr_Height (blk_Header tip)) stop (mg_Store m)) as H4.
  rewrite Ehash in *. unfold len. assert (E2000 : Z.of_nat maxHeaders = 2000) by reflexivity.
  split; [lia|]. split; [done|]. split; [done|].
  destruct H3 as [E|[E|E]]; [left; by rewrite E | by right; left | right; right].
  by rewrite (inv_Tip _ _ _ _ R I tip Ht), E.
Qed.

(** Handling a block message applies the block to the chain; a refused block sends
    nothing and leaves the peer table alone, an accepted one is written as one frame to
    every connected peer but the sender. *)
Theorem accepted_blocks_are_relayed cd w peer msg s b :
  msg_Type msg = MsgBlock -> cd_block cd (default [] (msg_Payload msg)) = Ok b ->
  peer_order_ok (w_peers w) -> nd_writes (nt_Node s) = [] ->
  len (print (message_json msg)) <= MaxMessageBytes -> conns_distinct (nt_Node s) ->
  match ValidateAndApplyBlock (w_fuel w) (w_now_seconds w) b (nt_Manager s) with
  | None => handle cd w peer msg s = Working
  | Some (m, Err _) => handle cd w peer msg s = Handled (mkNet (nt_Node s) m) (Ok tt)
  | Some (m, Ok _) => exists n,
      handle cd w peer msg s = Handled (mkNet n m) (Ok tt) /\ same_table (nt_Node s) n /\
      forall id conn, nd_peers (nt_Node s) !! id = Some conn ->
        received n conn = received (nt_Node s) conn ++ (if decide (id = pi_ID peer) then [] else frame msg)
  end.
Proof.
  intros Ht Hc Ho Hw Hl Hd. unfold handle. rewrite Ht, Hc.
  change (bool_decide (MsgBlock = MsgVersion)) with false.
  change (bool_decide (MsgBlock = MsgGetAddr)) with false.
  change (bool_decide (MsgBlock = MsgAddr)) with false.
  rewrite bool_decide_eq_true_2 by done. cbv iota.
  destruct (ValidateAndApplyBlock _ _ b _) as [[m [[]|e]]|]; [|done..].
  eexists. split; [reflexivity|]. by apply BroadcastExcept_received.
Qed.

(** A peer list request is refused before it reaches the handler: the reading loop
    reports the sender with 25 points, removes it and ends, whatever the configuration
    and the handler. *)
Theorem getaddr_ends_connection fuel h w i conn rest s :
  exists n,
    readLoop (S fuel) h w i conn (frame (mkMessage MsgGetAddr None) ++ rest) s =
      Handled (mkNet n (nt_Manager s)) (Ok tt) /\
    nd_peers n !! conn_RemoteAddr conn = None /\
    Score (conn_RemoteAddr conn) n = i64 (Score (conn_RemoteAddr conn) (nt_Node s) - 25).
Proof.
  cbn [readLoop]. set (peer := conn_RemoteAddr conn). set (now := w_now (w i)).
  set (reader := frame _ ++ rest).
  assert (Hn : exists n e, readPeerMessage peer now reader (nt_Node s) = (n, Err e) /\
    nd_scores n = nd_scores (nt_Node s)).
  { unfold readPeerMessage. destruct (allowPeerMessage peer now (nt_Node s)) as [n ok] eqn:E.
    assert (Es : nd_scores n = nd_scores (nt_Node s)) by (unfold allowPeerMessage in E; by injection E as <- _).
    destruct ok; [|by eexists _, _]. cbn [negb].
    pose proof (getaddr_refused rest (cfg_MaxMessageBytes (nd_cfg n))) as Hr. fold reader in Hr.
    destruct (readMessageLimit reader _) as [x|e]; [done | by eexists _, e]. }
  destruct Hn as (n & e & -> & Es). eexists. split; [reflexivity|].
  split; [apply lookup_delete_eq|]. unfold ReportPeer.
  assert (E : Score peer n = Score peer (nt_Node s)) by (unfold Score; by rewrite Es).
  rewrite E. destruct (_ <=? _); unfold Score; simpl; by rewrite lookup_insert_eq.
Qed.

End Relay.
