(* ===== verification/Float64.v ===== *)
(** * Float64: the floating-point numbers of the program

    What the program uses of float64: [Duration.Seconds] in the health report and
    the JSON numbers of the token endpoints.  A non-negative float is a fraction;
    [float64] rounds to nearest, ties to even; [ParseFloat] reads the literals of
    JSON and [FormatFloat] writes the shortest digits that read back, as package
    json prints them. *)

From S2P Require Import Prelude Encoding Json.

(** ** Rounding *)

(** A non-negative float as a fraction. *)
Definition frac : Type := Z * Z.

(** The quotient rounded to the nearest integer, ties to even. *)
Definition round_even (n d : Z) : Z :=
  let q := n / d in
  let r := n mod d in
  if 2 * r <? d then q else if d <? 2 * r then q + 1 else if Z.even q then q else q + 1.

(** The exponent [e] with [2^e <= n/d < 2^(e+1)], for positive [n] and [d]. *)
Definition exponent (n d : Z) : Z :=
  let k := Z.log2 n - Z.log2 d in
  if (if 0 <=? k then d * 2 ^ k <=? n else d <=? n * 2 ^ (- k)) then k else k - 1.

(** The float64 nearest to [n/d], without the upper limit. *)
Definition float64 (n d : Z) : frac :=
  if n =? 0 then (0, 1)
  else
    let e := Z.max (exponent n d - 52) (- 1074) in
    if 0 <=? e then (round_even n (d * 2 ^ e) * 2 ^ e, 1)
    else (round_even (n * 2 ^ (- e)) d, 2 ^ (- e)).

(** [int64(f)] *)
Definition truncate (f : frac) : Z := f.1 / f.2.

(** ** Rounding does not cross an integer *)

Lemma round_even_le n d k : 0 < d -> n <= k * d -> round_even n d <= k.
Proof.
  intros Hd H. unfold round_even. pose proof (Z.div_mod n d ltac:(lia)) as E.
  pose proof (Z.mod_pos_bound n d Hd). repeat case_match; breflect; nia.
Qed.
Lemma round_even_ge n d k : 0 < d -> k * d <= n -> k <= round_even n d.
Proof.
  intros Hd H. unfold round_even. assert (k <= n / d) by (apply Z.div_le_lower_bound; lia).
  repeat case_match; lia.
Qed.

Lemma exponent_small n d : 0 < n -> 0 < d -> n < 2 ^ 52 * d -> exponent n d < 52.
Proof.
  intros Hn Hd H. unfold exponent. pose proof (Z.log2_spec n Hn) as [Hl Hu]. pose proof (Z.log2_spec d Hd) as [Hl' Hu'].
  pose proof (Z.log2_nonneg n). pose proof (Z.log2_nonneg d).
  destruct (Z.leb_spec 0 (Z.log2 n - Z.log2 d)) as [Hk|Hk].
  - destruct (Z.leb_spec (d * 2 ^ (Z.log2 n - Z.log2 d)) n) as [Hle|Hgt].
    + destruct (Z_lt_le_dec (Z.log2 n - Z.log2 d) 52) as [|Hbig]; [done|].
      assert (2 ^ 52 <= 2 ^ (Z.log2 n - Z.log2 d)) by (apply Z.pow_le_mono_r; lia). nia.
    + destruct (Z_lt_le_dec (Z.log2 n - Z.log2 d - 1) 52) as [|Hbig]; [done|].
      assert (2 ^ (Z.log2 n) = 2 ^ (Z.log2 n - Z.log2 d - 1) * 2 ^ (Z.succ (Z.log2 d))) as E
        by (rewrite <- Z.pow_add_r by lia; f_equal; lia).
      assert (2 ^ 52 <= 2 ^ (Z.log2 n - Z.log2 d - 1)) by (apply Z.pow_le_mono_r; lia). nia.
  - case_match; lia.
Qed.

(** A fraction between two neighbouring integers rounds to a fraction between them. *)
Lemma float64_between n d lo :
  0 < d -> 0 <= lo -> lo * d <= n <= (lo + 1) * d -> n < 2 ^ 52 * d ->
  let '(n', d') := float64 n d in 0 < d' /\ lo * d' <= n' <= (lo + 1) * d'.
Proof.
  intros Hd Hlo Hb Hs. unfold float64. destruct (Z.eqb_spec n 0) as [->|Hn]; [nia|].
  pose proof (exponent_small n d ltac:(nia) Hd Hs) as He.
  rewrite (proj2 (Z.leb_gt _ _)) by lia. set (w := 2 ^ (- Z.max (exponent n d - 52) (- 1074))).
  assert (0 < w) by (apply Z.pow_pos_nonneg; lia). split; [done|].
  split; [apply round_even_ge | apply round_even_le]; nia.
Qed.

(** ** Literals *)

(** A finite float64: its sign and its magnitude. *)
Record Float := mkFloat { fl_negative : bool; fl_abs : frac }.

Definition parse_signed (s : bytes) : Z :=
  match s with
  | 45 :: s => - default 0 (decimal_value s)
  | 43 :: s => default 0 (decimal_value s)
  | _ => default 0 (decimal_value s)
  end.

(** Sign, digits as an integer, power of ten of a literal the scanner accepts. *)
Definition literal_parts (l : bytes) : bool * Z * Z :=
  let '(neg, l) := match l with 45 :: t => (true, t) | _ => (false, l) end in
  let '(a, l) := span_digits l in
  let '(b, l) := match l with 46 :: t => span_digits t | _ => ([], l) end in
  let e := match l with _ :: t => parse_signed t | [] => 0 end in
  (neg, default 0 (decimal_value (a ++ b)), e - len b).

Definition pow10_frac (m e : Z) : frac := if 0 <=? e then (m * 10 ^ e, 1) else (m, 10 ^ (- e)).

(** [strconv.ParseFloat(l, 64)]; [None]: out of range.  Exponents far outside the
    range are decided from the number of digits. *)
Definition ParseFloat (l : bytes) : option Float :=
  let '(neg, m, e) := literal_parts l in
  let size := e + len (decimal m) in
  if m =? 0 then Some (mkFloat neg (0, 1))
  else if 400 <? size then None
  else if size <? - 400 then Some (mkFloat neg (0, 1))
  else
    let '(n, d) := pow10_frac m e in
    let '(n, d) := float64 n d in
    if 2 ^ 1024 * d <=? n then None else Some (mkFloat neg (n, d)).

Definition frac_eqb (f g : frac) : bool := f.1 * g.2 =? g.1 * f.2.

(** The power of ten of the first digit of a positive fraction. *)
Definition exponent10 (f : frac) : Z :=
  let k := exponent f.1 f.2 * 30103 / 100000 in
  let ge e := if 0 <=? e then f.2 * 10 ^ e <=? f.1 else f.2 <=? f.1 * 10 ^ (- e) in
  if ge (k + 1) then k + 1 else if ge k then k else k - 1.

(** The shortest digits that round to the float, the nearest of that length:
    [digits * 10 ^ e]. *)
Fixpoint shortest (more : nat) (f : frac) (k n : Z) : Z * Z :=
  let e := k - n + 1 in
  let lo := if 0 <=? e then f.1 / (f.2 * 10 ^ e) else f.1 * 10 ^ (- e) / f.2 in
  let twice_rest := if 0 <=? e then 2 * (f.1 - lo * (f.2 * 10 ^ e)) - f.2 * 10 ^ e
                    else 2 * (f.1 * 10 ^ (- e) - lo * f.2) - f.2 in
  let reads c := let '(n, d) := pow10_frac c e in frac_eqb (float64 n d) f in
  let nearest := if twice_rest <? 0 then lo else if 0 <? twice_rest then lo + 1
                 else if Z.even lo then lo else lo + 1 in
  let other := if nearest =? lo then lo + 1 else lo in
  if reads nearest then (nearest, e)
  else if reads other then (other, e)
  else match more with O => (nearest, e) | S more => shortest more f k (n + 1) end.

Fixpoint strip_zeros (fuel : nat) (c e : Z) : Z * Z :=
  match fuel with
  | O => (c, e)
  | S fuel => if c mod 10 =? 0 then strip_zeros fuel (c / 10) (e + 1) else (c, e)
  end.

(** Formats 'f' and 'e' of the digits [s] with the point after [pos] of them. *)
Definition format_f (s : bytes) (pos : Z) : bytes :=
  if pos <=? 0 then str "0." ++ replicate (Z.to_nat (- pos)) 48 ++ s
  else if len s <=? pos then s ++ replicate (Z.to_nat (pos - len s)) 48
  else take (Z.to_nat pos) s ++ [46] ++ drop (Z.to_nat pos) s.
Definition format_e (s : bytes) (pos : Z) : bytes :=
  let e := pos - 1 in
  match s with
  | c :: rest =>
      [c] ++ (match rest with [] => [] | _ => 46 :: rest end) ++ [101; if e <? 0 then 45 else 43] ++ decimal (Z.abs e)
  | [] => []
  end.

(** How package json writes a float64; [1e-06] is written [1e-6]. *)
Definition FormatFloat (f : Float) : bytes :=
  (if fl_negative f then [45] else []) ++
  let a := fl_abs f in
  if a.1 =? 0 then [48]
  else
    let '(c, e) := shortest 16 a (exponent10 a) 1 in
    let '(c, e) := strip_zeros 20 c e in
    let s := decimal c in
    let small := float64 1 (10 ^ 6) in
    if (a.1 * small.2 <? small.1 * a.2) || (10 ^ 21 * a.2 <=? a.1) then format_e s (len s + e) else format_f s (len s + e).

(** A float64 field of a JSON text; null keeps the old value. *)
Definition decode_float (old : Float) (v : json) : result Float :=
  match v with
  | JNull => Ok old
  | JNum l => match ParseFloat l with Some f => Ok f | None => type_error end
  | _ => type_error
  end.
Definition float_json (f : Float) : json := JNum (FormatFloat f).
Definition zero_float : Float := mkFloat false (0, 1).

Example float_texts :
  (fun s => FormatFloat <$> ParseFloat (str s)) <$>
    ["690000"; "0.1"; "-2.50"; "0.30000000000000004"; "1e21"; "1e-7"; "123456789.125"; "5e-324";
     "1.7976931348623157e308"; "9007199254740993"; "-0"; "1e20"; "0.000001"]
  = Some <$> (str <$>
    ["690000"; "0.1"; "-2.5"; "0.30000000000000004"; "1e+21"; "1e-7"; "123456789.125"; "5e-324";
     "1.7976931348623157e+308"; "9007199254740992"; "-0"; "100000000000000000000"; "0.000001"]).
Proof. vm_compute. reflexivity. Qed.
Example float_overflow : ParseFloat (str "1e309") = None /\ ParseFloat (str "1e99999999999") = None.
Proof. vm_compute. done. Qed.
