(* ===== verification/Health.v ===== *)
(** * Health: the health report of the chain

    Models AssessHealth of chain/protection.go.  Times are nanoseconds since the
    Unix epoch; [Duration.Seconds] is a float64, rounded as IEEE 754 rounds, so the
    reported age can be one second more than the age rounded down. *)

From S2P Require Import Prelude Encoding Sha256 Params Tx Block Consensus Pebble Storage Mempool Bech32 Miner Chain Json Peers Float64.

(** [d.Seconds()]: [float64(sec) + float64(nsec)/1e9], for [0 <= d]. *)
Definition Seconds (d : Z) : frac :=
  let sec := d / 10 ^ 9 in
  let nsec := d mod 10 ^ 9 in
  let '(n, m) := float64 nsec (10 ^ 9) in
  float64 (sec * m + n) m.
(** ** The report *)

(** [time.Unix(sec, 0)]: the internal clock counts seconds from year 1 and wraps. *)
Definition time_Unix (sec : Z) : Z := (i64 (sec + 62135596800) - 62135596800) * 10 ^ 9.

Record HealthThresholds := mkThresholds {
  ht_MaxTipAge : Z;
  ht_MaxReorgDepth : Z;
  ht_MinPeerCount : Z;
  ht_MinHashrateWork : option Z;
}.

Record HealthReport := mkHealth {
  hr_TipHeight : Z;
  hr_TipAgeSeconds : Z;
  hr_PeerCount : Z;
  hr_Alerts : list bytes;
}.

Definition AssessHealth (tip : TipInfo) (peers : Z) (thresholds : HealthThresholds) (now : Z) : HealthReport :=
  let age := Sub now (time_Unix (ti_Timestamp tip)) in
  let age := if age <? 0 then 0 else age in
  let alerts := if (0 <? ht_MaxTipAge thresholds) && (ht_MaxTipAge thresholds <? age)
                then [str "stale_tip"] else [] in
  let alerts := if (0 <? ht_MinPeerCount thresholds) && (peers <? ht_MinPeerCount thresholds)
                then alerts ++ [str "low_peer_count"] else alerts in
  mkHealth (ti_Height tip) (truncate (Seconds age)) peers alerts.

(** ** The bounds of the age *)

Lemma seconds_bound d : 0 <= d < 2 ^ 63 -> d / 10 ^ 9 <= truncate (Seconds d) <= d / 10 ^ 9 + 1.
Proof.
  intros Hd. unfold Seconds, truncate. set (sec := d / 10 ^ 9). set (nsec := d mod 10 ^ 9).
  assert (0 <= sec < 2 ^ 34) as Hsec.
  { unfold sec. split; [apply Z.div_pos; lia | apply Z.div_lt_upper_bound; lia]. }
  assert (0 <= nsec < 10 ^ 9) as Hns by (apply Z.mod_pos_bound; lia). clearbody sec nsec.
  pose proof (float64_between nsec (10 ^ 9) 0 ltac:(lia) ltac:(lia) ltac:(lia) ltac:(lia)) as H1.
  destruct (float64 nsec (10 ^ 9)) as [n m]. destruct H1 as [Hm Hn].
  pose proof (float64_between (sec * m + n) m sec ltac:(lia) ltac:(lia) ltac:(nia) ltac:(nia)) as H2.
  destruct (float64 (sec * m + n) m) as [n' m']. cbn [fst snd]. destruct H2 as [Hm' Hn']. split.
  - apply Z.div_le_lower_bound; lia.
  - apply Z.lt_succ_r, Z.div_lt_upper_bound; nia.
Qed.

Lemma Sub_range t u : - 2 ^ 63 <= Sub t u < 2 ^ 63.
Proof. unfold Sub. lia. Qed.

Lemma alerts_spec (stale low : bool) :
  let alerts := if stale then [str "stale_tip"] else [] in
  let alerts := if low then alerts ++ [str "low_peer_count"] else alerts in
  (str "stale_tip" ∈ alerts <-> stale = true) /\ (str "low_peer_count" ∈ alerts <-> low = true) /\ NoDup alerts.
Proof. cbv zeta. destruct stale, low; by_decision. Qed.

(** The alerts of the health report name exactly the thresholds that are crossed, each
    once, and the age it reports is the age of the tip in seconds, rounded by less than
    a second. *)
Theorem health_report tip peers thresholds now :
  let age := Z.max 0 (Sub now (time_Unix (ti_Timestamp tip))) in
  let report := AssessHealth tip peers thresholds now in
  (str "stale_tip" ∈ hr_Alerts report <-> 0 < ht_MaxTipAge thresholds < age) /\
  (str "low_peer_count" ∈ hr_Alerts report <-> 0 < ht_MinPeerCount thresholds /\ peers < ht_MinPeerCount thresholds) /\
  NoDup (hr_Alerts report) /\
  age / 10 ^ 9 <= hr_TipAgeSeconds report <= age / 10 ^ 9 + 1.
Proof.
  cbv zeta. unfold AssessHealth. cbn [hr_Alerts hr_TipAgeSeconds].
  pose proof (Sub_range now (time_Unix (ti_Timestamp tip))) as Hr. set (d := Sub now _) in *. clearbody d.
  assert ((if d <? 0 then 0 else d) = Z.max 0 d) as -> by (destruct (Z.ltb_spec d 0); lia).
  set (stale := _ && (_ <? Z.max 0 d)). set (low := _ && (peers <? _)).
  destruct (alerts_spec stale low) as (-> & -> & Hnd). unfold stale, low.
  rewrite !andb_true_iff, !Z.ltb_lt. split_and!; [done | done | exact Hnd | apply seconds_bound; lia..].
Qed.

Example health_rounds_up :
  truncate (Seconds (8589934592 * 10 ^ 9 + 999999999)) = 8589934593.
Proof. vm_compute. reflexivity. Qed.
