(* ===== verification/Primes.v ===== *)
(** * Primes: congruences and primality certificates

    The curve of wallet/secp256k1.go works modulo two 256-bit numbers, and the
    code relies on both being prime: ModInverse has no result otherwise, and the
    square root of unmarshalCompressed is a power only modulo a prime.  This
    file proves what the wallet needs for that: congruence as a setoid, and
    Pocklington's criterion in an executable form, [certify], which checks a list
    of certificates and returns numbers that are all prime.  Primes, modular
    inverses and Fermat's little theorem are those of the Standard Library
    ([Z.prime], [Z.invmod], [Z.fermat_nz]). *)

From Stdlib Require Export Zdivisibility Zcong.
From Stdlib Require Import Znumtheory.
From Stdlib.Zmod Require Import ZmodInv.
From S2P Require Import Prelude.

(** ** Congruence modulo a number *)

Definition cong (n a b : Z) : Prop := a mod n = b mod n.

Section Congruence.
Context (n : Z).

#[export] Instance cong_equiv : Equivalence (cong n).
Proof. split; unfold cong; [intros ?|intros ???|intros ?????]; congruence. Qed.
#[export] Instance cong_add : Proper (cong n ==> cong n ==> cong n) Z.add.
Proof. intros a b E c d F. unfold cong in *. by rewrite Zplus_mod, E, F, <- Zplus_mod. Qed.
#[export] Instance cong_mul : Proper (cong n ==> cong n ==> cong n) Z.mul.
Proof. intros a b E c d F. unfold cong in *. by rewrite Zmult_mod, E, F, <- Zmult_mod. Qed.
#[export] Instance cong_sub : Proper (cong n ==> cong n ==> cong n) Z.sub.
Proof. intros a b E c d F. unfold cong in *. by rewrite Zminus_mod, E, F, <- Zminus_mod. Qed.

Lemma cong_pow a b k : 0 <= k -> cong n a b -> cong n (a ^ k) (b ^ k).
Proof.
  intros Hk E. revert k Hk. apply natlike_ind; [done|]. intros k Hk IH.
  rewrite !Z.pow_succ_r by done. by rewrite IH, E.
Qed.

Lemma mod_cong a : cong n (a mod n) a.
Proof. apply Zmod_mod. Qed.

(** A congruence is a divisibility. *)
Lemma cong_divide a b : n <> 0 -> cong n a b <-> (n | a - b).
Proof. intros Hn. unfold cong. rewrite Z.cong_iff_0. by apply Z.mod_divide. Qed.

Lemma cong_eq a b : 0 <= a < n -> 0 <= b < n -> cong n a b -> a = b.
Proof. unfold cong. intros Ha Hb. by rewrite !Z.mod_small by done. Qed.

Lemma cong_1_pow a k : 0 <= k -> cong n a 1 -> cong n (a ^ k) 1.
Proof. intros Hk E. rewrite (cong_pow a 1 k Hk E). by rewrite Z.pow_1_l. Qed.
End Congruence.

Lemma cong_divisor n m a b : n <> 0 -> m <> 0 -> (m | n) -> cong n a b -> cong m a b.
Proof. intros Hn Hm Hd. rewrite !cong_divide by done. by apply Z.divide_trans. Qed.

(** ** Prime divisors *)

Lemma prime_divisor n : 1 < n -> exists r, Z.prime r /\ (r | n).
Proof.
  intros Hn. assert (0 <= n) as H0 by lia. revert n H0 Hn.
  apply (Zlt_0_ind (fun n => 1 < n -> exists r, Z.prime r /\ (r | n))).
  intros n IH _ Hn.
  destruct (prime_dec n) as [Hp|Hnp].
  { exists n. split; [|apply Z.divide_refl]. split; [lia|]. intros m Hm Hd.
    apply prime_divisors with (a := m) in Hp; [lia | done]. }
  destruct (not_prime_divide n Hn Hnp) as (d & Hd & Hdn).
  destruct (IH d ltac:(lia) ltac:(lia)) as (r & Hr & Hrd).
  exists r. split; [done | by apply Z.divide_trans with d].
Qed.

(** A number with no small prime divisor is prime. *)
Lemma prime_by_divisors n :
  1 < n -> (forall r, Z.prime r -> (r | n) -> n < r * r) -> Z.prime n.
Proof.
  intros Hn Hr. split; [done|]. intros d Hd [e ->].
  assert (1 < e) by nia.
  destruct (Z.le_ge_cases d e).
  - destruct (prime_divisor d ltac:(lia)) as (r & Hp & Hrd).
    pose proof (Hr r Hp (Z.divide_mul_r _ _ _ Hrd)).
    apply Z.divide_pos_le in Hrd; [|lia]. destruct Hp. nia.
  - destruct (prime_divisor e ltac:(lia)) as (r & Hp & Hre).
    pose proof (Hr r Hp (Z.divide_mul_l _ _ _ Hre)).
    apply Z.divide_pos_le in Hre; [|lia]. destruct Hp. nia.
Qed.

Definition Zprod (l : list Z) : Z := foldr Z.mul 1 l.

Lemma prime_not_divide_prod q qs :
  Z.prime q -> Forall Z.prime qs -> q ∉ qs -> ~ (q | Zprod qs).
Proof.
  intros Hq Hqs. induction Hqs as [|p qs Hp Hqs IH]; simpl; intros Hn Hd.
  - apply Z.divide_1_r in Hd. destruct Hq. lia.
  - apply not_elem_of_cons in Hn as [Hne Hn].
    apply Z.divide_prime_mul in Hd as [Hd|Hd]; [|by apply IH | done].
    by apply Hne, Z.divide_prime_prime.
Qed.

(** Distinct primes that divide a number divide it together. *)
Lemma prod_divides qs m :
  NoDup qs -> Forall Z.prime qs -> Forall (fun q => (q | m)) qs -> (Zprod qs | m).
Proof.
  intros Hnd Hp Hd. induction qs as [|q qs IH]; simpl; [apply Z.divide_1_l|].
  apply NoDup_cons in Hnd as [Hq Hnd]. apply Forall_cons in Hp as [Hpq Hp].
  apply Forall_cons in Hd as [Hqm Hd].
  destruct IH as [k ->]; [done..|].
  apply Z.mul_divide_mono_r.
  apply Z.divide_prime_mul in Hqm as [?|Hqm]; [done| |done].
  by apply prime_not_divide_prod in Hqm.
Qed.

(** ** Pocklington's criterion *)

(** Two powers that are 1, of coprime exponents, make the base 1. *)
Lemma coprime_exponents r b q m :
  0 < q -> 0 < m -> Z.coprime q m -> cong r (b ^ q) 1 -> cong r (b ^ m) 1 -> cong r b 1.
Proof.
  intros Hq Hm [u [v E]]%Z.Bezout_coprime_iff Eq Em.
  set (k := Z.abs u + Z.abs v).
  assert (cong r (b ^ ((u + k * m) * q)) 1) as H1.
  { rewrite Z.mul_comm, Z.pow_mul_r by nia. apply cong_1_pow; [nia | done]. }
  assert (cong r (b ^ ((k * q - v) * m)) 1) as H2.
  { rewrite Z.mul_comm, Z.pow_mul_r by nia. apply cong_1_pow; [nia | done]. }
  replace ((u + k * m) * q) with (1 + (k * q - v) * m) in H1 by lia.
  rewrite Z.pow_add_r, Z.pow_1_r in H1 by nia.
  by rewrite H2, Z.mul_1_r in H1.
Qed.

Lemma power_unit n r a k :
  1 < n -> 0 < k -> Z.prime r -> (r | n) -> cong n (a ^ k) 1 -> a mod r <> 0.
Proof.
  intros Hn Hk Hr Hrn E Ha.
  apply (cong_divisor n r) in E; [|lia | destruct Hr; lia | done].
  assert (cong r a 0) as H0 by by rewrite <- (mod_cong r a), Ha.
  apply (cong_pow r a 0 k ltac:(lia)) in H0. rewrite Z.pow_0_l in H0 by done.
  rewrite E in H0. apply cong_eq in H0; destruct Hr; lia.
Qed.

Lemma pocklington_step n a q r :
  1 < n -> Z.prime q -> (q | n - 1) -> cong n (a ^ (n - 1)) 1 ->
  Z.coprime (a ^ ((n - 1) / q) - 1) n ->
  Z.prime r -> (r | n) -> (q | r - 1).
Proof.
  intros Hn Hq [m Em] E1 Hco Hr Hrn.
  assert (1 < q) by by destruct Hq. assert (1 < r) by by destruct Hr.
  rewrite Em, Z.div_mul in Hco by lia. assert (0 < m) by nia.
  destruct (Znumtheory.Zdivide_dec q (r - 1)) as [|Hnd]; [done|exfalso].
  assert (cong r (a ^ m) 1) as E.
  { apply coprime_exponents with q (r - 1); [lia..| |
      | unfold cong; rewrite Z.fermat_nz; [by rewrite Z.mod_small by lia | done |] ].
    - by apply Z.coprime_prime_l.
    - rewrite <- Z.pow_mul_r, <- Em by lia. by apply (cong_divisor n r); [lia..| |].
    - apply (power_unit n r (a ^ m) q); [lia..| done | done |].
      by rewrite <- Z.pow_mul_r, <- Em by lia. }
  apply cong_divide in E; [|lia].
  pose proof (Z.gcd_greatest _ _ _ E Hrn) as Hr1. rewrite Hco in Hr1.
  apply Z.divide_1_r in Hr1. lia.
Qed.

Theorem pocklington n a qs :
  1 < n -> NoDup qs -> Forall Z.prime qs -> n < Zprod qs * Zprod qs ->
  cong n (a ^ (n - 1)) 1 ->
  Forall (fun q => (q | n - 1) /\ Z.coprime (a ^ ((n - 1) / q) - 1) n) qs ->
  Z.prime n.
Proof.
  intros Hn Hnd Hqs Hbig E1 Hq. apply prime_by_divisors; [done|]. intros r Hr Hrn.
  assert (Zprod qs | r - 1) as Hd.
  { apply prod_divides; [done..|]. apply Forall_forall. intros q Hin.
    rewrite Forall_forall in Hq. rewrite Forall_forall in Hqs.
    destruct (Hq q Hin) as [? ?]. by apply (pocklington_step n a); [| apply Hqs | ..]. }
  apply Z.divide_pos_le in Hd; [|destruct Hr; lia].
  assert (0 <= Zprod qs); [|nia].
  clear -Hqs. induction Hqs as [|q qs [] _ IH]; simpl; [lia | nia].
Qed.

(** ** The checker *)

(** Powers by repeated squaring, reduced by any function that keeps residues. *)
Fixpoint pow_red (red : Z -> Z) (a : Z) (e : positive) : Z :=
  match e with
  | xH => a
  | xO e => let r := pow_red red a e in red (r * r)
  | xI e => let r := pow_red red a e in red (r * r * a)
  end.

Lemma pow_red_cong n red a e :
  (forall x, cong n (red x) x) -> cong n (pow_red red a e) (a ^ Z.pos e).
Proof.
  intros Hr. induction e as [e IH|e IH|]; simpl pow_red.
  - rewrite Hr, IH. replace (Z.pos e~1) with (Z.pos e + Z.pos e + 1) by lia.
    by rewrite !Z.pow_add_r, Z.pow_1_r by lia.
  - rewrite Hr, IH. replace (Z.pos e~0) with (Z.pos e + Z.pos e) by lia.
    by rewrite Z.pow_add_r by lia.
  - by rewrite Z.pow_1_r.
Qed.

(** Reduction modulo [2^k - c]: the bits above [k] count [c] each. *)
Definition fold_bits (k c x : Z) : Z := Z.land x (Z.ones k) + Z.shiftr x k * c.

Lemma fold_bits_cong k c x : 0 <= k -> cong (2 ^ k - c) (fold_bits k c x) x.
Proof.
  intros Hk. unfold fold_bits. rewrite Z.land_ones, Z.shiftr_div_pow2 by done.
  pose proof (Z.div_mod x (2 ^ k) ltac:(lia)) as E.
  unfold cong. rewrite Z.cong_iff_ex. exists (- (x / 2 ^ k)). lia.
Qed.

(** Reduction by an approximate quotient, with the reciprocal of [n] to [2 k] bits. *)
Definition sub_quotient (n k mu x : Z) : Z :=
  x - Z.shiftr (Z.shiftr x (k - 1) * mu) (k + 1) * n.

Lemma sub_quotient_cong n k mu x : cong n (sub_quotient n k mu x) x.
Proof.
  unfold sub_quotient, cong. rewrite Z.cong_iff_ex.
  exists (- Z.shiftr (Z.shiftr x (k - 1) * mu) (k + 1)). lia.
Qed.

(** The way to reduce modulo [n]: by folding when [n] is close below a power of
    two, by an approximate quotient otherwise. *)
Definition reducer (n : Z) : Z -> Z :=
  let k := Z.log2_up n in let c := 2 ^ k - n in
  if 2 * Z.log2 c <? k + 4 then fun x => fold_bits k c (fold_bits k c (fold_bits k c x))
  else let mu := 2 ^ (2 * (k + 8)) / n in sub_quotient n (k + 8) mu.

Lemma reducer_cong n x : cong n (reducer n x) x.
Proof.
  unfold reducer. destruct (_ <? _); [|apply sub_quotient_cong].
  pose proof (Z.log2_up_nonneg n).
  pose proof (fun y => fold_bits_cong (Z.log2_up n) (2 ^ Z.log2_up n - n) y ltac:(done)) as H1.
  replace (2 ^ Z.log2_up n - (2 ^ Z.log2_up n - n)) with n in H1 by lia.
  by rewrite !H1.
Qed.

(** A number and primes that divide its predecessor; 2 serves as the base. *)
Record certificate := { c_n : Z; c_factors : list Z }.

Definition pow_mod (n a e : Z) : Z :=
  match e with Z.pos e => pow_red (reducer n) a e mod n | _ => 0 end.

Lemma pow_mod_cong n a e : 0 < e -> cong n (pow_mod n a e) (a ^ e).
Proof.
  intros He. destruct e as [|e|e]; [lia| |lia]. simpl pow_mod.
  rewrite mod_cong. apply pow_red_cong, reducer_cong.
Qed.

(** Each factor is known to be prime, divides [n-1], and the power of the base
    it gives is not 1 modulo any divisor of [n]. *)
Definition check_factor (known : list Z) (c : certificate) (q : Z) : bool :=
  let n := c.(c_n) in
  bool_decide (q ∈ known) && (1 <? q) && ((n - 1) mod q =? 0)
  && (Z.gcd (pow_mod n 2 ((n - 1) / q) - 1) n =? 1).

Definition check_certificate (known : list Z) (c : certificate) : bool :=
  let n := c.(c_n) in
  (1 <? n) && bool_decide (NoDup c.(c_factors))
  && (n <? Zprod c.(c_factors) * Zprod c.(c_factors))
  && (pow_mod n 2 (n - 1) =? 1) && forallb (check_factor known c) c.(c_factors).

(** Trial division, for the small primes the certificates start from. *)
Fixpoint no_divisor (fuel : nat) (d n : Z) : bool :=
  match fuel with
  | O => false
  | S fuel => if n <? d * d then true else negb (n mod d =? 0) && no_divisor fuel (d + 1) n
  end.

Definition small_prime (n : Z) : bool := (1 <? n) && no_divisor (Z.to_nat (Z.sqrt n)) 2 n.

Fixpoint certify (known : list Z) (cs : list certificate) : list Z :=
  match cs with
  | [] => known
  | c :: cs => if check_certificate known c then certify (c.(c_n) :: known) cs else known
  end.

Lemma check_certificate_prime known c :
  Forall Z.prime known -> check_certificate known c = true -> Z.prime c.(c_n).
Proof.
  intros Hk H. unfold check_certificate in H.
  apply andb_true_iff in H as [H Hf]. breflect.
  rewrite forallb_forall in Hf. rewrite Forall_forall in Hk.
  apply (pocklington _ 2 c.(c_factors)); [done..| | done | |].
  - apply Forall_forall. intros q Hq%list_elem_of_In%Hf. unfold check_factor in Hq. breflect.
    by apply Hk.
  - rewrite <- pow_mod_cong by lia. unfold cong. f_equal. done.
  - apply Forall_forall. intros q Hq%list_elem_of_In%Hf. unfold check_factor in Hq. breflect.
    match goal with H : (_ - 1) mod q = 0 |- _ => apply Z.mod_divide in H as Hd; [|lia] end.
    split; [done|]. set (n := c.(c_n)) in *.
    assert (0 < (n - 1) / q).
    { apply Z.div_str_pos. apply Z.divide_pos_le in Hd; lia. }
    pose proof (pow_mod_cong n 2 ((n - 1) / q) ltac:(done)) as E.
    apply cong_divide in E; [|lia]. destruct E as [k E].
    unfold Z.coprime.
    rewrite !(Z.gcd_comm _ n) in *.
    match goal with H : Z.gcd n _ = 1 |- _ => etransitivity; [|exact H] end.
    rewrite <- (Z.gcd_add_mult_diag_r n (2 ^ ((n - 1) / q) - 1) k). f_equal. lia.
Qed.

Lemma no_divisor_spec fuel d n r :
  no_divisor fuel d n = true -> 1 < d -> d <= r -> r * r <= n -> ~ (r | n).
Proof.
  revert d. induction fuel as [|fuel IH]; simpl; intros d H Hd Hr Hsq Hdiv; [done|].
  destruct (Z.ltb_spec n (d * d)); [nia|]. breflect.
  destruct (decide (d = r)) as [->|].
  - apply Z.mod_divide in Hdiv; [done | lia].
  - by apply (IH (d + 1)) in Hdiv; [| done | lia..].
Qed.

Lemma small_prime_prime n : small_prime n = true -> Z.prime n.
Proof.
  unfold small_prime. intros H. breflect. apply prime_by_divisors; [done|].
  intros r [Hr _] Hrn. destruct (Z.le_gt_cases (r * r) n); [|done].
  by eapply (no_divisor_spec _ 2 n r) in Hrn; [| done | lia..].
Qed.

(** Whatever the certificates are, the numbers that pass are prime. *)
Lemma certify_primes known cs :
  Forall (fun n => small_prime n = true) known -> Forall Z.prime (certify known cs).
Proof.
  intros Hk%(Forall_impl _ Z.prime); [|apply small_prime_prime].
  revert known Hk. induction cs as [|c cs IH]; simpl; intros known Hk; [done|].
  destruct (check_certificate known c) eqn:E; [|done].
  apply IH. constructor; [|done]. by apply check_certificate_prime in E.
Qed.

(** ** The primes of secp256k1 *)

Definition field_prime : Z := 2 ^ 256 - 2 ^ 32 - 977.
Definition order_prime : Z := 0xFFFFFFFFFFFFFFFFFFFFFFFFFFFFFFFEBAAEDCE6AF48A03BBFD25E8CD0364141.

Definition field_certificates : list certificate :=
  [ {| c_n := 107590001; c_factors := [53; 29; 7] |};
    {| c_n := 20113; c_factors := [419] |};
    {| c_n := 1206781; c_factors := [20113] |};
    {| c_n := 7240687; c_factors := [1206781] |};
    {| c_n := 96557; c_factors := [239; 101] |};
    {| c_n := 255515944373312847190720520512484175977;
       c_factors := [107590001; 7240687; 96557; 41201] |};
    {| c_n := 205115282021455665897114700593932402728804164701536103180137503955397371;
       c_factors := [255515944373312847190720520512484175977] |};
    {| c_n := field_prime;
       c_factors := [205115282021455665897114700593932402728804164701536103180137503955397371] |} ].

Definition order_certificates : list certificate :=
  [ {| c_n := 28181; c_factors := [1409] |};
    {| c_n := 545358713; c_factors := [28181] |};
    {| c_n := 305873; c_factors := [2731] |};
    {| c_n := 44706919; c_factors := [9349] |};
    {| c_n := 120233; c_factors := [113; 19] |};
    {| c_n := 29047611873442575647497758179; c_factors := [545358713; 305873; 293] |};
    {| c_n := 341948486974166000522343609283189; c_factors := [29047611873442575647497758179] |};
    {| c_n := 174723607534414371449; c_factors := [44706919; 120233] |};
    {| c_n := order_prime;
       c_factors := [341948486974166000522343609283189; 174723607534414371449] |} ].

(** A number is prime when it is the last of certificates that all pass. *)
Definition certified (known : list Z) (cs : list certificate) (n : Z) : bool :=
  forallb small_prime known && bool_decide (head (certify known cs) = Some n).

Lemma certified_prime known cs n : certified known cs n = true -> Z.prime n.
Proof.
  unfold certified. intros [Hs Hh]%andb_true_iff. apply bool_decide_eq_true in Hh.
  pose proof (certify_primes known cs) as H. destruct (certify known cs) as [|m ms]; [done|].
  simplify_eq/=. eapply Forall_inv, H. apply Forall_forall. intros x Hx.
  rewrite forallb_forall in Hs. by apply Hs, list_elem_of_In.
Qed.

Lemma field_prime_prime : Z.prime field_prime.
Proof.
  apply (certified_prime [53; 29; 7; 419; 239; 101; 41201] field_certificates).
  vm_compute. reflexivity.
Qed.

Lemma order_prime_prime : Z.prime order_prime.
Proof.
  apply (certified_prime [1409; 2731; 293; 9349; 113; 19] order_certificates).
  vm_compute. reflexivity.
Qed.
