(* ===== verification/Curve.v ===== *)
(** * Curve: the group law of y^2 = x^3 + b

    wallet/secp256k1.go adds points by chords and tangents.  This file proves,
    over the field of integers modulo a prime, that this addition is an abelian
    group on the points of the curve, the point at infinity ([None], the nil of
    the code) included.  Associativity goes through two symmetric relations:
    three points on a line, counted with multiplicity ([on_line]), and four
    points on a parabola ([on_parabola]).  Two lines, through A, B, -S and
    through S, C, -U, make a parabola through A, B, C, -U ([lines_parabola]), and
    a parabola with the line of any two of its points gives the other line back
    ([parabola_line]); since a parabola does not order its points, both ways to
    add three points give the same sum. *)

From Stdlib Require Export Zmod.
From Stdlib Require Import Field.
From S2P Require Import Prelude Primes.

#[local] Open Scope Zmod_scope.

Section Group.
Context (p : Z) (Hp : Z.prime p).
Abbreviation F := (Zmod p).
Context (b : F).

#[local] Set Default Proof Using "All".

Add Field zmod_field : (Zmod.field_theory p Hp).

#[export] Instance Zmod_eq_dec : EqDecision F.
Proof using.
  refine (fun x y => cast_if (decide (Zmod.to_Z x = Zmod.to_Z y))).
  - by apply Zmod.to_Z_inj.
  - congruence.
Defined.

(** ** Linear combinations *)

Lemma minus_zero (x y : F) : x - y = 0 -> x = y.
Proof. intros E. rewrite <- (Zmod.add_0_l y), <- E. ring. Qed.
Lemma minus_nonzero (x y : F) : x <> y -> x - y <> 0.
Proof. intros H E. by apply H, minus_zero. Qed.
Lemma cancel (a x y : F) : a <> 0 -> a * x = a * y -> x = y.
Proof. intros Ha. apply (Zmod.mul_cancel_l_prime _ _ _ Hp Ha). Qed.

(** An equation that is a combination of others, with the cofactors given. *)
Lemma lc1 (x y : F) c1 u1 v1 : u1 = v1 -> x - y = c1 * (u1 - v1) -> x = y.
Proof. intros -> E. apply minus_zero. rewrite E. ring. Qed.
Lemma lc2 (x y : F) c1 u1 v1 c2 u2 v2 :
  u1 = v1 -> u2 = v2 -> x - y = c1 * (u1 - v1) + c2 * (u2 - v2) -> x = y.
Proof. intros -> -> E. apply minus_zero. rewrite E. ring. Qed.
Lemma lc3 (x y : F) c1 u1 v1 c2 u2 v2 c3 u3 v3 :
  u1 = v1 -> u2 = v2 -> u3 = v3 ->
  x - y = c1 * (u1 - v1) + c2 * (u2 - v2) + c3 * (u3 - v3) -> x = y.
Proof. intros -> -> -> E. apply minus_zero. rewrite E. ring. Qed.

(** ** Points *)

Definition affine : Type := F * F.
Definition point : Type := option affine.

Definition on_affine (A : affine) : Prop := A.2 * A.2 = A.1 * A.1 * A.1 + b.
Definition on_curve (A : point) : Prop := match A with None => True | Some A => on_affine A end.

Definition opposite (A : affine) : affine := (A.1, - A.2).
Definition neg (A : point) : point := opposite <$> A.

(** The sum of two points of a line of slope [l]. *)
Definition third (l : F) (A B : affine) : affine :=
  let x3 := l * l - A.1 - B.1 in (x3, l * (A.1 - x3) - A.2).

Definition dbl (A : point) : point :=
  match A with
  | None => None
  | Some A => if decide (A.2 = 0) then None
              else Some (third ((1 + 1 + 1) * (A.1 * A.1) * Zmod.inv ((1 + 1) * A.2)) A A)
  end.

Definition add (A B : point) : point :=
  match A, B with
  | None, B => B
  | A, None => A
  | Some A, Some B =>
      if decide (A.1 = B.1) then
        if decide (A.2 + B.2 = 0) then None else dbl (Some A)
      else Some (third ((B.2 - A.2) * Zmod.inv (B.1 - A.1)) A B)
  end.

(** ** Lines and parabolas *)

(** The line y = l x + m meets the curve in A, B and C, with multiplicity: the
    coefficients of x^3 + b - (l x + m)^2 are those of (x-xA)(x-xB)(x-xC). *)
Record on_line (l m : F) (A B C : affine) : Prop := {
  line_A : A.2 = l * A.1 + m;
  line_B : B.2 = l * B.1 + m;
  line_C : C.2 = l * C.1 + m;
  line_2 : A.1 + B.1 + C.1 = l * l;
  line_1 : A.1 * B.1 + A.1 * C.1 + B.1 * C.1 = - (l * m + l * m);
  line_0 : A.1 * B.1 * C.1 = m * m - b;
}.

(** The parabola t y = x^2 + q x + r meets the curve in A, B, C and D. *)
Record on_parabola (t q r : F) (A B C D : affine) : Prop := {
  par_t : t <> 0;
  par_A : t * A.2 = A.1 * A.1 + q * A.1 + r;
  par_B : t * B.2 = B.1 * B.1 + q * B.1 + r;
  par_C : t * C.2 = C.1 * C.1 + q * C.1 + r;
  par_D : t * D.2 = D.1 * D.1 + q * D.1 + r;
  par_3 : A.1 + B.1 + C.1 + D.1 = t * t - (q + q);
  par_2 : (A.1 * B.1 + A.1 * C.1 + A.1 * D.1) + (B.1 * C.1 + B.1 * D.1 + C.1 * D.1)
          = q * q + (r + r);
  par_1 : (A.1 * B.1 * C.1 + A.1 * B.1 * D.1) + (A.1 * C.1 * D.1 + B.1 * C.1 * D.1)
          = - (q * r + q * r);
  par_0 : A.1 * B.1 * C.1 * D.1 = r * r - t * t * b;
}.

(** Close an equation that is one of the hypotheses up to the ring laws. *)
Ltac on_coords :=
  simpl in *; first [ring | match goal with H : _ = _ |- _ = _ => apply (lc1 _ _ 1 _ _ H); ring end].

Lemma line_swap l m A B C : on_line l m A B C -> on_line l m B A C.
Proof. intros []. split; try done; on_coords. Qed.
Lemma line_rotate l m A B C : on_line l m A B C -> on_line l m B C A.
Proof. intros []. split; try done; on_coords. Qed.
Lemma line_opposite l m A B C :
  on_line l m A B C -> on_line (- l) (- m) (opposite A) (opposite B) (opposite C).
Proof.
  intros [HA HB HC ???]. split; simpl; rewrite ?HA, ?HB, ?HC; on_coords.
Qed.
Lemma parabola_rotate t q r A B C D : on_parabola t q r A B C D -> on_parabola t q r B C A D.
Proof. intros []. split; try done; on_coords. Qed.

Lemma opposite_involutive A : opposite (opposite A) = A.
Proof. destruct A as [x y]. unfold opposite. simpl. f_equal. ring. Qed.

(** The points of a line that count are on the curve. *)
Lemma line_on_curve l m A B C : on_line l m A B C -> on_affine C.
Proof.
  intros [_ _ HC H2 H1 H0]. unfold on_affine. rewrite HC. destruct A as [x1 ?], B as [x2 ?], C as [x3 ?].
  simpl in *. apply (lc3 _ _ (- (x3 * x3)) _ _ x3 _ _ (-(1)) _ _ H2 H1 H0). ring.
Qed.

(** Two lines, the second through the opposite of the third point of the first,
    make a parabola. *)
Lemma lines_parabola l m k n A B S C D :
  k + l <> 0 -> on_line l m A B (opposite S) -> on_line k n S C D ->
  on_parabola (k + l) ((k + l) * l - (A.1 + B.1)) ((k + l) * m + A.1 * B.1) A B C D.
Proof.
  destruct A as [x1 y1], B as [x2 y2], S as [s ys], C as [x3 y3], D as [u yu].
  intros Ht [HA HB HS L2 L1 L0] [KS KC KD K2 K1 K0]. simpl in *.
  assert (n = - m - (k + l) * s) as -> by (apply (lc2 _ _ (-(1)) _ _ (-(1)) _ _ HS KS); ring).
  assert (x3 + u = x1 + x2 + (k + l) * (k - l)) as R1
    by (apply (lc2 _ _ 1 _ _ (-(1)) _ _ K2 L2); ring).
  assert (x3 * u = x1 * x2 - (k + l) * (- m - (k + l) * s - m)) as R0
    by (apply (lc3 _ _ 1 _ _ (-(1)) _ _ (- s) _ _ K1 L1 R1); ring).
  split; simpl; subst y1 y2 y3 yu; [done | ring | ring | | | | | |].
  - apply (lc2 _ _ (- x3) _ _ 1 _ _ R1 R0). ring.
  - apply (lc2 _ _ (- u) _ _ 1 _ _ R1 R0). ring.
  - apply (lc1 _ _ 1 _ _ R1). ring.
  - apply (lc3 _ _ (x1 + x2) _ _ 1 _ _ ((k + l) * (k + l)) _ _ R1 R0 L2). ring.
  - apply (lc3 _ _ (x1 * x2) _ _ (x1 + x2) _ _ ((k + l) * (k + l)) _ _ R1 R0 L1). ring.
  - apply (lc2 _ _ (x1 * x2) _ _ ((k + l) * (k + l)) _ _ R0 L0). ring.
Qed.

(** A tangent has the slope of the curve. *)
Lemma tangent_slope l m A C : on_line l m A A C -> l * (A.2 + A.2) = (1 + 1 + 1) * (A.1 * A.1).
Proof.
  destruct A as [x y], C as [s ys]. intros [HA _ _ L2 L1 _]. simpl in *. subst y.
  apply (lc2 _ _ (- (x + x)) _ _ 1 _ _ L2 L1). ring.
Qed.

Lemma same_x l m A B C : on_line l m A B C -> A.1 = B.1 -> A = B.
Proof.
  destruct A as [x y], B as [x' y']. intros [HA HB _ _ _ _] E. simpl in *. congruence.
Qed.

(** Where a parabola and a line share two points, the line fixes the parabola. *)
Lemma parabola_slope t q r l m A B C D S :
  on_parabola t q r A B C D -> on_line l m A B S -> B <> opposite A ->
  q = t * l - (A.1 + B.1) /\ r = t * m + A.1 * B.1.
Proof.
  intros HP HL Hne.
  assert (q = t * l - (A.1 + B.1)) as Eq.
  { destruct (decide (A.1 = B.1)) as [E|E].
    - destruct (same_x _ _ _ _ _ HL E). pose proof (tangent_slope _ _ _ _ HL) as T.
      destruct HP as [Ht HA _ _ _ P3 P2 P1 _]. destruct A as [x y], C as [x3 y3], D as [u yu]. simpl in *.
      apply (cancel (t * (y + y))).
      { intros [?|Hy]%(Zmod.mul_0_iff_prime Hp); [done|]. apply Hne. unfold opposite. simpl.
        f_equal. apply (lc1 _ _ 1 _ _ Hy). ring. }
      assert ((1 + 1 + 1) * (t * t * (x * x))
              - (1 + 1) * ((x * x + q * x + r) * (x + x + q)) = 0) as HD
        by (apply (lc3 _ _ (- ((1 + 1 + 1) * (x * x))) _ _ (x + x) _ _ (-(1)) _ _ P3 P2 P1); ring).
      apply (lc3 _ _ ((1 + 1) * (q + x + x)) _ _ (-(1)) _ _ (- (t * t)) _ _ HA HD T). ring.
    - destruct HP as [_ HA HB _ _ _ _ _ _], HL as [LA LB _ _ _ _].
      apply (cancel (A.1 - B.1)); [by apply minus_nonzero|]. rewrite LA in HA. rewrite LB in HB.
      apply (lc2 _ _ (-(1)) _ _ 1 _ _ HA HB). ring. }
  split; [done|]. subst q. destruct HP as [_ HA _ _ _ _ _ _ _], HL as [LA _ _ _ _ _].
  rewrite LA in HA. apply (lc1 _ _ (-(1)) _ _ HA). ring.
Qed.

(** A parabola and the line of two of its points give the line of the others. *)
Lemma parabola_line t q r l m A B C D S :
  on_parabola t q r A B C D -> on_line l m A B (opposite S) -> B <> opposite A ->
  on_line (t - l) (- m - t * S.1) S C D.
Proof.
  intros HP HL Hne. destruct (parabola_slope _ _ _ _ _ _ _ _ _ _ HP HL Hne) as [-> ->].
  destruct A as [x1 y1], B as [x2 y2], S as [s ys], C as [x3 y3], D as [u yu].
  destruct HP as [Ht _ _ HC HD P3 P2 P1 P0], HL as [_ _ HS L2 L1 L0]. simpl in *.
  assert (x3 + u = x1 + x2 + t * (t - l - l)) as R1 by (apply (lc1 _ _ 1 _ _ P3); ring).
  assert (x3 * u = x1 * x2 - t * (- m - t * s - m)) as R0
    by (apply (lc3 _ _ 1 _ _ (- (x1 + x2)) _ _ (- (t * t)) _ _ P2 R1 L2); ring).
  split; simpl.
  - apply (lc1 _ _ (-(1)) _ _ HS). ring.
  - apply (cancel t); [done|]. apply (lc3 _ _ 1 _ _ x3 _ _ (-(1)) _ _ HC R1 R0). ring.
  - apply (cancel t); [done|]. apply (lc3 _ _ 1 _ _ u _ _ (-(1)) _ _ HD R1 R0). ring.
  - apply (lc2 _ _ 1 _ _ 1 _ _ R1 L2). ring.
  - apply (lc3 _ _ s _ _ 1 _ _ 1 _ _ R1 R0 L1). ring.
  - apply (lc2 _ _ s _ _ 1 _ _ R0 L0). ring.
Qed.

(** ** Addition is the third point of a line *)

Context (two_nz : (1 + 1 : F) <> 0) (three_nz : (1 + 1 + 1 : F) <> 0) (b_nz : b <> 0).

Lemma slope_mul (n d : F) : d <> 0 -> n * Zmod.inv d * d = n.
Proof.
  intros Hd. rewrite <- Zmod.mul_assoc, (Zmod.mul_inv_same_l_prime d Hp Hd). apply Zmod.mul_1_r.
Qed.

Lemma double_nz (y : F) : y <> 0 -> (1 + 1) * y <> 0.
Proof. intros Hy [?|?]%(Zmod.mul_0_iff_prime Hp); contradiction. Qed.

Lemma opposite_eq A B : A.1 = B.1 -> A.2 + B.2 = 0 -> B = opposite A.
Proof.
  destruct A as [x y], B as [x' y']. simpl. intros -> E. unfold opposite. simpl. f_equal.
  apply (lc1 _ _ 1 _ _ E). ring.
Qed.

Lemma opposite_sym A B : B = opposite A -> A = opposite B.
Proof. intros ->. by rewrite opposite_involutive. Qed.

(** Points of the curve with the same abscissa are equal or opposite. *)
Lemma same_abscissa A B :
  on_affine A -> on_affine B -> A.1 = B.1 -> A.2 + B.2 <> 0 -> A = B.
Proof.
  destruct A as [x y], B as [x' y']. unfold on_affine. simpl. intros HA HB <- Hs. f_equal.
  apply (cancel (y + y')); [done|]. apply (lc2 _ _ 1 _ _ (-(1)) _ _ HA HB). ring.
Qed.

Lemma third_line l m A B :
  on_affine A -> A.2 = l * A.1 + m -> B.2 = l * B.1 + m ->
  A.1 * A.1 + A.1 * B.1 + B.1 * B.1 = l * l * (A.1 + B.1) + (l * m + l * m) ->
  on_line l m A B (opposite (third l A B)).
Proof.
  destruct A as [x1 y1], B as [x2 y2]. unfold on_affine. simpl. intros HA -> -> E.
  split; simpl; [done | done | ring | ring | |].
  - apply (lc1 _ _ (-(1)) _ _ E). ring.
  - apply (lc2 _ _ (- x1) _ _ (-(1)) _ _ E HA). ring.
Qed.

Lemma add_line A B :
  on_affine A -> on_affine B -> B <> opposite A ->
  exists S l m, add (Some A) (Some B) = Some S /\ on_line l m A B (opposite S).
Proof.
  intros HA HB Hne. simpl. destruct (decide (A.1 = B.1)) as [E|E].
  - destruct (decide (A.2 + B.2 = 0)) as [E'|E']; [by destruct Hne; apply opposite_eq|].
    destruct (same_abscissa A B HA HB E E').
    destruct (decide (A.2 = 0)) as [E0|E0]; [destruct E'; rewrite E0; ring|].
    set (l := _ * Zmod.inv _). exists (third l A A), l, (A.2 - l * A.1). split; [done|].
    assert (l * ((1 + 1) * A.2) = (1 + 1 + 1) * (A.1 * A.1)) as El
      by (apply slope_mul, double_nz; assumption).
    apply third_line; [done | ring | ring |].
    apply (lc1 _ _ (-(1)) _ _ El). ring.
  - set (l := _ * Zmod.inv _). exists (third l A B), l, (A.2 - l * A.1). split; [done|].
    assert (B.1 - A.1 <> 0) as Hd by by apply minus_nonzero.
    assert (l * (B.1 - A.1) = B.2 - A.2) as El by (apply slope_mul; assumption).
    apply third_line; [done | ring | apply (lc1 _ _ (-(1)) _ _ El); ring |].
    apply (cancel (B.1 - A.1)); [done|]. unfold on_affine in HA, HB.
    apply (lc3 _ _ (-(1)) _ _ 1 _ _ (- (B.2 + A.2 + l * (B.1 - A.1))) _ _ HB HA El). ring.
Qed.

(** No line but a vertical one meets a point and its opposite. *)
Lemma line_not_opposite l m A C : ~ on_line l m A (opposite A) C.
Proof.
  intros HL. assert (A.2 = 0) as E0.
  { destruct HL as [HA HB _ _ _ _]. simpl in HB. apply (cancel (1 + 1)); [done|].
    apply (lc2 _ _ 1 _ _ (-(1)) _ _ HA HB). ring. }
  assert (opposite A = A) as EA.
  { destruct A as [x y]. unfold opposite. simpl in *. rewrite E0. f_equal. ring. }
  rewrite EA in HL. pose proof (tangent_slope _ _ _ _ HL) as T. rewrite E0 in T.
  assert (A.1 = 0) as Ex.
  { assert ((1 + 1 + 1) * (A.1 * A.1) = 0) as T' by (rewrite <- T; ring).
    apply (Zmod.mul_0_iff_prime Hp) in T' as [?|[?|?]%(Zmod.mul_0_iff_prime Hp)]; done. }
  destruct HL as [HA _ _ _ _ H0]. rewrite Ex in H0, HA. rewrite E0 in HA. apply b_nz.
  apply (lc2 _ _ (- m) _ _ 1 _ _ HA H0). ring.
Qed.

Lemma add_opposite A : add (Some A) (Some (opposite A)) = None.
Proof.
  unfold opposite. simpl. rewrite decide_True by done. rewrite decide_True; [done | ring].
Qed.

Lemma line_add l m A B C : on_line l m A B C -> add (Some A) (Some B) = Some (opposite C).
Proof.
  intros HL.
  assert (B <> opposite A) as Hne by (intros ->; by apply line_not_opposite in HL).
  destruct (add_line A B) as (S & l' & m' & HS & HL').
  { by eapply line_on_curve, line_rotate. }
  { by eapply line_on_curve, line_rotate, line_rotate. }
  { done. }
  rewrite HS. f_equal.
  assert (l' = l) as ->.
  { destruct (decide (A.1 = B.1)) as [E|E].
    - destruct (same_x _ _ _ _ _ HL E).
      apply (cancel (A.2 + A.2)); [intros E'; apply Hne; by apply opposite_eq|].
      apply (lc2 _ _ 1 _ _ (-(1)) _ _ (tangent_slope _ _ _ _ HL') (tangent_slope _ _ _ _ HL)). ring.
    - apply (cancel (A.1 - B.1)); [by apply minus_nonzero|].
      destruct HL as [HA HB _ _ _ _], HL' as [HA' HB' _ _ _ _].
      assert (l' * (A.1 - B.1) = A.2 - B.2) as E1 by (rewrite HA', HB'; ring).
      assert (l * (A.1 - B.1) = A.2 - B.2) as E2 by (rewrite HA, HB; ring).
      apply (lc2 _ _ 1 _ _ (-(1)) _ _ E1 E2). ring. }
  assert (m' = m) as ->.
  { destruct HL as [HA _ _ _ _ _], HL' as [HA' _ _ _ _ _].
    apply (lc2 _ _ (-(1)) _ _ 1 _ _ HA' HA). ring. }
  destruct HL as [_ _ HC H2 _ _], HL' as [_ _ HC' H2' _ _].
  destruct S as [s ys], C as [c yc]. simpl in *.
  assert (s = c) as -> by (apply (lc2 _ _ 1 _ _ (-(1)) _ _ H2' H2); ring).
  unfold opposite. simpl. f_equal. apply (lc2 _ _ (-(1)) _ _ 1 _ _ HC' HC). ring.
Qed.

(** ** The group laws *)

Lemma opposite_on_curve A : on_affine (opposite A) <-> on_affine A.
Proof. unfold on_affine. destruct A as [x y]. simpl. split; intros E; apply (lc1 _ _ 1 _ _ E); ring. Qed.

Lemma neg_on_curve A : on_curve A -> on_curve (neg A).
Proof. destruct A as [A|]; [|done]. apply opposite_on_curve. Qed.

Lemma neg_neg A : neg (neg A) = A.
Proof. destruct A as [A|]; [|done]. simpl. by rewrite opposite_involutive. Qed.

Lemma add_on_curve A B : on_curve A -> on_curve B -> on_curve (add A B).
Proof.
  destruct A as [A|], B as [B|]; try done. intros HA HB.
  destruct (decide (B = opposite A)) as [->|Hne]; [by rewrite add_opposite|].
  destruct (add_line A B HA HB Hne) as (S & l & m & -> & HL).
  apply opposite_on_curve. by apply line_on_curve in HL.
Qed.

Lemma add_0_r A : add A None = A.
Proof. by destruct A. Qed.
Lemma add_0_l A : add None A = A.
Proof. done. Qed.

Lemma add_neg A : add A (neg A) = None.
Proof. destruct A as [A|]; [|done]. apply add_opposite. Qed.

Lemma add_comm A B : on_curve A -> on_curve B -> add A B = add B A.
Proof.
  destruct A as [A|], B as [B|]; try done. intros HA HB.
  destruct (decide (B = opposite A)) as [->|Hne].
  { rewrite add_opposite. rewrite <- (opposite_involutive A) at 2. by rewrite add_opposite. }
  destruct (add_line A B HA HB Hne) as (S & l & m & -> & HL).
  apply line_swap, line_add in HL. by rewrite HL, opposite_involutive.
Qed.

(** Adding a point and then its opposite changes nothing. *)
Lemma add_cancel A C : on_curve A -> on_curve C -> add A (add (neg A) C) = C.
Proof.
  destruct A as [A|]; [|done]. destruct C as [C|]; [|intros; apply add_neg]. intros HA HC.
  destruct (decide (C = A)) as [->|Hne].
  { rewrite (add_comm (neg _)), add_neg; [apply add_0_r | by apply neg_on_curve | done]. }
  destruct (add_line (opposite A) C) as (D & l & m & HD & HL);
    [by apply opposite_on_curve | done | by rewrite opposite_involutive |].
  simpl neg. rewrite HD. apply line_opposite in HL. rewrite !opposite_involutive in HL.
  apply line_rotate, line_rotate, line_swap, line_add in HL. by rewrite HL, opposite_involutive.
Qed.

Lemma add_neg_distr A B : on_curve A -> on_curve B -> neg (add A B) = add (neg A) (neg B).
Proof.
  destruct A as [A|], B as [B|]; try done. intros HA HB. simpl neg at 2 3.
  destruct (decide (B = opposite A)) as [->|Hne].
  { rewrite add_opposite. by rewrite add_opposite. }
  destruct (add_line A B HA HB Hne) as (S & l & m & -> & HL).
  apply line_opposite in HL. by rewrite (line_add _ _ _ _ _ HL), opposite_involutive.
Qed.

(** Two lines that meet the third point of one with opposite slopes are the same
    line, reflected. *)
Lemma opposite_slopes l m k n A B S C D :
  k + l = 0 -> on_line l m A B (opposite S) -> on_line k n S C D ->
  C = opposite A \/ C = opposite B.
Proof.
  destruct A as [x1 y1], B as [x2 y2], S as [s ys], C as [x3 y3], D as [u yu].
  intros Ht [HA HB HS L2 L1 L0] [KS KC KD K2 K1 K0]. unfold opposite. simpl in *.
  assert (k = - l) as -> by (apply (lc1 _ _ 1 _ _ Ht); ring).
  assert (n = - m) as -> by (apply (lc2 _ _ (-(1)) _ _ (-(1)) _ _ HS KS); ring).
  assert (x3 + u = x1 + x2) as R1 by (apply (lc2 _ _ 1 _ _ (-(1)) _ _ K2 L2); ring).
  assert (x3 * u = x1 * x2) as R0
    by (apply (lc3 _ _ 1 _ _ (-(1)) _ _ (- s) _ _ K1 L1 R1); ring).
  assert ((x3 - x1) * (x3 - x2) = 0) as E by (apply (lc2 _ _ x3 _ _ (-(1)) _ _ R1 R0); ring).
  apply (Zmod.mul_0_iff_prime Hp) in E as [->%minus_zero| ->%minus_zero];
    [left | right]; f_equal; subst; ring.
Qed.

Lemma add_assoc A B C :
  on_curve A -> on_curve B -> on_curve C -> add A (add B C) = add (add A B) C.
Proof.
  destruct A as [A|]; [|done]. destruct B as [B|]; [|done].
  destruct C as [C|]; [|intros; by rewrite !add_0_r]. intros HA HB HC.
  destruct (decide (B = opposite A)) as [->|Hab].
  { rewrite add_opposite. apply (add_cancel (Some A) (Some C)); done. }
  destruct (decide (C = opposite B)) as [->|Hbc].
  { rewrite add_opposite. symmetry. rewrite (add_comm (add _ _)), (add_comm (Some A)).
    - rewrite <- (opposite_involutive B) at 2.
      apply (add_cancel (Some (opposite B)) (Some A)); [by apply opposite_on_curve | done].
    - done.
    - done.
    - by apply (add_on_curve (Some A) (Some B)).
    - done. }
  destruct (add_line A B HA HB Hab) as (S & l & m & ES & HS).
  destruct (add_line B C HB HC Hbc) as (T & l' & m' & ET & HT).
  rewrite ES, ET.
  assert (on_affine S) as HSc by by apply opposite_on_curve; eapply line_on_curve.
  assert (on_affine T) as HTc by by apply opposite_on_curve; eapply line_on_curve.
  destruct (decide (C = opposite S)) as [->|Hsc].
  { rewrite add_opposite. apply line_rotate in HS as HS'. apply line_add in HS' as E.
    rewrite ET in E. simplify_eq. apply add_opposite. }
  destruct (add_line S C HSc HC Hsc) as (U & k & n & EU & HU). rewrite EU.
  destruct (decide (k + l = 0)) as [Hk|Hk].
  { destruct (opposite_slopes _ _ _ _ _ _ _ _ _ Hk HS HU) as [->| ->]; [|done].
    rewrite <- EU, <- ES, <- ET. rewrite (add_comm (Some B)), (add_comm (add _ _)).
    - transitivity (Some B); [by apply (add_cancel (Some A) (Some B))|].
      rewrite <- (opposite_involutive A) at 2. symmetry.
      by apply (add_cancel (Some (opposite A)) (Some B)).
    - by apply (add_on_curve (Some A) (Some B)).
    - done.
    - done.
    - done. }
  pose proof (lines_parabola _ _ _ _ _ _ _ _ _ Hk HS HU) as HP.
  apply parabola_rotate in HP.
  pose proof (parabola_line _ _ _ _ _ _ _ _ _ _ HP HT Hbc) as HL.
  apply line_swap, line_add in HL. by rewrite HL, opposite_involutive.
Qed.

(** On the curve, doubling is adding a point to itself. *)
Lemma dbl_add A : dbl A = add A A.
Proof.
  destruct A as [A|]; [|done]. unfold add. rewrite decide_True by done.
  destruct (decide (A.2 + A.2 = 0)) as [E|E]; [|done].
  unfold dbl. rewrite decide_True; [done|].
  apply (cancel (1 + 1)); [done|].
  apply (lc1 _ _ 1 _ _ E). ring.
Qed.

(** ** Multiples of a point *)

Definition times (n : nat) (A : point) : point := Nat.iter n (add A) None.

Section Times.
Context (A : point) (HA : on_curve A).

Lemma times_on_curve n : on_curve (times n A).
Proof. induction n as [|n IH]; [done|]. by apply add_on_curve. Qed.

Lemma times_add n k : times (n + k) A = add (times n A) (times k A).
Proof.
  induction n as [|n IH]; [done|]. simpl. rewrite IH.
  apply add_assoc; [done | apply times_on_curve..].
Qed.

Lemma times_1 : times 1 A = A.
Proof. apply add_0_r. Qed.
End Times.

Lemma times_0_point n : times n None = None.
Proof. induction n as [|n IH]; [done|]. simpl. done. Qed.

Lemma times_mul A n k : on_curve A -> times (n * k) A = times n (times k A).
Proof. intros HA. induction n as [|n IH]; [done|]. simpl. by rewrite times_add, IH. Qed.

(** A point whose [m]-th multiple is infinity has multiples modulo [m]. *)
Lemma times_mod A n m : on_curve A -> times m A = None -> m <> 0%nat -> times (n mod m) A = times n A.
Proof.
  intros HA Hm Hz. rewrite (Nat.div_mod_eq n m) at 2.
  rewrite times_add, Nat.mul_comm, times_mul, Hm, times_0_point; done.
Qed.
End Group.
