(* ===== verification/Secp256k1.v ===== *)
(** * Secp256k1: the curve of the wallet

    Models wallet/secp256k1.go.  A point is [None] (the code's nil, nil) or a
    pair of integers; every function computes on unreduced integers and reduces
    where the code does.  The outer [option] of [Add] and [ScalarMult] is a
    panic: [Add] of two nil points dereferences nil.  The methods take the curve
    parameters [c], and their correctness is proved for any parameters that
    satisfy [ValidCurve]: on the points that [IsOnCurve] accepts, [Add] is the
    group law of [Curve] and [ScalarMult] the repeated addition.  The instance
    for the parameters of [initSecp256k1] rests on the certificates of
    [Primes]. *)

From S2P Require Import Prelude Encoding Primes Curve.

(** ** The code *)

(** crypto/elliptic's CurveParams. *)
Record CurveParams := {
  P : Z;
  N : Z;
  B : Z;
  Gx : Z;
  Gy : Z;
  BitSize : Z;
}.

Definition secp256k1 : CurveParams := {|
  P := 0xFFFFFFFFFFFFFFFFFFFFFFFFFFFFFFFFFFFFFFFFFFFFFFFFFFFFFFFEFFFFFC2F;
  N := 0xFFFFFFFFFFFFFFFFFFFFFFFFFFFFFFFEBAAEDCE6AF48A03BBFD25E8CD0364141;
  B := 7;
  Gx := 0x79BE667EF9DCBBAC55A06295CE870B07029BFCDB2DCE28D959F2815B16F81798;
  Gy := 0x483ADA7726A3C4655DA4FBFC0E1108A8FD17B448A68554199C47D08FFB10D4B8;
  BitSize := 256;
|}.

(** [z.ModInverse(g, n)] of math/big: the inverse, or [z] unchanged. *)
Definition ModInverse (z g n : Z) : Z :=
  if Z.gcd g n =? 1 then Z.invmod g n else z.

Definition Point : Type := option (Z * Z).

Section Code.
Context (c : CurveParams).

Definition IsOnCurve (A : Point) : bool :=
  match A with
  | None => false
  | Some (x, y) =>
      if (x <? 0) || (y <? 0) || (c.(P) <=? x) || (c.(P) <=? y) then false
      else (y * y) mod c.(P) =? (x * x * x + c.(B)) mod c.(P)
  end.

Definition Double (A : Point) : Point :=
  match A with
  | None => None
  | Some (x1, y1) =>
      if y1 =? 0 then None
      else
        let p := c.(P) in
        let num := 3 * (x1 * x1) in
        let den := (2 * y1) mod p in
        let den := ModInverse den den p in
        let lambda := (num * den) mod p in
        let x3 := (lambda * lambda - 2 * x1) mod p in
        let y3 := (lambda * (x1 - x3) - y1) mod p in
        Some (x3, y3)
  end.

Definition Add (A1 A2 : Point) : option Point :=
  match A1 with
  | None => match A2 with None => None | Some _ => Some A2 end
  | Some (x1, y1) =>
      match A2 with
      | None => Some A1
      | Some (x2, y2) =>
          let p := c.(P) in
          if x1 =? x2 then
            if (y1 + y2) mod p =? 0 then Some None
            else Some (Double A1)
          else
            let num := y2 - y1 in
            let den := (x2 - x1) mod p in
            let den := ModInverse den den p in
            let lambda := (num * den) mod p in
            let x3 := (lambda * lambda - x1 - x2) mod p in
            let y3 := (lambda * (x1 - x3) - y1) mod p in
            Some (Some (x3, y3))
      end
  end.

(** One round of the inner loop of ScalarMult. *)
Definition mult_bit (A : Point) (byteVal : Z) (acc : Point) (bitNum : Z) : option Point :=
  let acc := match acc with Some _ => Double acc | None => None end in
  if negb (Z.land byteVal (Z.shiftl 1 bitNum) =? 0) then Add acc A else Some acc.

(** [for bitNum := 7; bitNum >= 0; bitNum--] *)
Definition mult_byte (A : Point) (acc : Point) (byteVal : Z) : option Point :=
  foldl (fun r bitNum => acc ← r; mult_bit A byteVal acc bitNum) (Some acc)
    [7; 6; 5; 4; 3; 2; 1; 0].

Definition ScalarMult (A : Point) (k : bytes) : option Point :=
  foldl (fun r byteVal => acc ← r; mult_byte A acc byteVal) (Some None) k.

Definition ScalarBaseMult (k : bytes) : option Point := ScalarMult (Some (c.(Gx), c.(Gy))) k.

(** *** The specification

    The sum of two points, which is Add except that nil + nil is nil, and the
    multiples of a point by repeated addition. *)
Definition plus (A1 A2 : Point) : Point := default None (Add A1 A2).
Definition multiple (n : Z) (A : Point) : Point := Nat.iter (Z.to_nat n) (plus A) None.
End Code.

(** ** Correctness *)

Class ValidCurve (c : CurveParams) : Prop := {
  vc_prime : Z.prime c.(P);
  vc_P : 3 < c.(P);
  vc_B : 0 < c.(B) < c.(P);
  vc_G : IsOnCurve c (Some (c.(Gx), c.(Gy))) = true;
}.

Section Correct.
Context (c : CurveParams) {VC : ValidCurve c}.
#[local] Set Default Proof Using "All".

#[local] Arguments Zmod.of_Z : simpl never.
#[local] Arguments Zmod.unsigned : simpl never.
#[local] Arguments Zmod.add : simpl never.
#[local] Arguments Zmod.sub : simpl never.
#[local] Arguments Zmod.mul : simpl never.
#[local] Arguments Zmod.inv : simpl never.
#[local] Arguments Zmod.zero : simpl never.
#[local] Arguments Zmod.one : simpl never.

Abbreviation p := c.(P).
Abbreviation F := (Zmod p).
Abbreviation b := (Zmod.of_Z p c.(B)).

(** A point with reduced coordinates, its image in the field and back. *)
Definition reduced (A : Point) : Prop :=
  match A with None => True | Some (x, y) => 0 <= x < p /\ 0 <= y < p end.
Definition lift (A : Point) : Curve.point p :=
  (fun '(x, y) => (Zmod.of_Z p x, Zmod.of_Z p y)) <$> A.
Definition drop_mod (A : Curve.point p) : Point :=
  (fun '(x, y) => (Zmod.to_Z x, Zmod.to_Z y)) <$> A.

Lemma p_pos : 1 < p.
Proof. apply vc_prime. Qed.

Lemma to_Z_reduced (x : F) : 0 <= Zmod.to_Z x < p.
Proof. pose proof (Zmod.to_Z_range x). pose proof p_pos. lia. Qed.

Lemma drop_reduced A : reduced (drop_mod A).
Proof. destruct A as [[x y]|]; [|done]. split; apply to_Z_reduced. Qed.

Lemma lift_drop A : lift (drop_mod A) = A.
Proof. destruct A as [[x y]|]; [|done]. simpl. by rewrite !Zmod.of_Z_to_Z. Qed.

Lemma drop_lift A : reduced A -> drop_mod (lift A) = A.
Proof.
  destruct A as [[x y]|]; [|done]. intros [Hx Hy]. simpl.
  by rewrite !Zmod.to_Z_of_Z, !Z.mod_small.
Qed.

Lemma of_Z_eq x y : Zmod.of_Z p x = Zmod.of_Z p y <-> cong p x y.
Proof. apply Zmod.of_Z_inj. Qed.

Lemma of_Z_reduced x y : 0 <= x < p -> 0 <= y < p -> Zmod.of_Z p x = Zmod.of_Z p y <-> x = y.
Proof. intros Hx Hy. rewrite of_Z_eq. split; [by apply cong_eq | by intros ->]. Qed.

Lemma of_Z_zero x : Zmod.of_Z p x = Zmod.zero <-> x mod p = 0.
Proof. unfold Zmod.zero. rewrite of_Z_eq. unfold cong. by rewrite Zmod_0_l. Qed.

Lemma of_Z_2 : Zmod.of_Z p 2 = Zmod.add Zmod.one Zmod.one.
Proof. unfold Zmod.one. by rewrite <- Zmod.of_Z_add. Qed.
Lemma of_Z_3 : Zmod.of_Z p 3 = Zmod.add (Zmod.add Zmod.one Zmod.one) Zmod.one.
Proof. unfold Zmod.one. by rewrite <- !Zmod.of_Z_add. Qed.

(** ModInverse is the inverse of the field, and keeps 0. *)
Lemma of_Z_ModInverse d :
  Zmod.of_Z p (ModInverse (d mod p) (d mod p) p) = Zmod.inv (Zmod.of_Z p d).
Proof.
  unfold ModInverse. destruct (Z.eqb_spec (Z.gcd (d mod p) p) 1) as [E|E].
  - apply Zmod.to_Z_inj. rewrite Zmod.to_Z_inv, !Zmod.to_Z_of_Z. by rewrite Z.mod_invmod.
  - assert (d mod p = 0) as E0.
    { destruct (decide (d mod p = 0)) as [|Hd]; [done|]. destruct E. rewrite Z.gcd_comm.
      apply Z.coprime_prime_l; [apply vc_prime|]. intros H%Z.mod_divide; [|pose proof p_pos; lia].
      by rewrite Zmod_mod in H. }
    apply of_Z_zero in E0 as E1. rewrite E1, Zmod.inv_0, E0. done.
Qed.

(** The coordinates the code computes from a slope. *)
Lemma third_drop lam x1 y1 x2 y2 :
  let x3 := (lam * lam - x1 - x2) mod p in
  Some (x3, (lam * (x1 - x3) - y1) mod p)
  = drop_mod (Some (Curve.third p (Zmod.of_Z p lam) (Zmod.of_Z p x1, Zmod.of_Z p y1)
                                                  (Zmod.of_Z p x2, Zmod.of_Z p y2))).
Proof.
  unfold drop_mod, Curve.third. simpl. repeat f_equal.
  - by rewrite <- Zmod.of_Z_mul, <- !Zmod.of_Z_sub, Zmod.to_Z_of_Z.
  - rewrite <- (Zmod.of_Z_mul lam lam), <- (Zmod.of_Z_sub (lam * lam) x1),
      <- (Zmod.of_Z_sub (lam * lam - x1) x2), <- (Zmod.of_Z_mod (lam * lam - x1 - x2)).
    by rewrite <- !Zmod.of_Z_sub, <- Zmod.of_Z_mul, <- Zmod.of_Z_sub, Zmod.to_Z_of_Z.
Qed.

Lemma Double_lift A : reduced A -> Double c A = drop_mod (Curve.dbl p (lift A)).
Proof.
  destruct A as [[x y]|]; [|done]. intros [Hx Hy]. unfold Double, Curve.dbl. simpl lift. cbv beta iota.
  simpl snd. destruct (Z.eqb_spec y 0) as [->|Hy0].
  { rewrite decide_True; [done|]. by apply of_Z_zero, Zmod_0_l. }
  rewrite decide_False; [|rewrite of_Z_zero, Z.mod_small; done].
  replace (2 * x) with (x + x) by lia. rewrite Z.sub_add_distr.
  rewrite (third_drop _ x y x y). simpl fst. do 3 f_equal.
  rewrite Zmod.of_Z_mod, Zmod.of_Z_mul, of_Z_ModInverse.
  by rewrite !Zmod.of_Z_mul, of_Z_2, of_Z_3.
Qed.

Lemma Add_lift A1 A2 :
  reduced A1 -> reduced A2 -> A1 <> None \/ A2 <> None ->
  Add c A1 A2 = Some (drop_mod (Curve.add p (lift A1) (lift A2))).
Proof.
  intros H1 H2 Hn. destruct A1 as [[x1 y1]|], A2 as [[x2 y2]|].
  - destruct H1 as [Hx1 Hy1], H2 as [Hx2 Hy2]. unfold Add, Curve.add. simpl lift. cbv beta iota.
    simpl fst. simpl snd. destruct (Z.eqb_spec x1 x2) as [<-|Hx].
    + rewrite decide_True by done.
      destruct (Z.eqb_spec ((y1 + y2) mod p) 0) as [E|E].
      * rewrite decide_True; [done|]. by rewrite <- Zmod.of_Z_add, of_Z_zero.
      * rewrite decide_False by by rewrite <- Zmod.of_Z_add, of_Z_zero.
        f_equal. by apply (Double_lift (Some (x1, y1))).
    + rewrite decide_False by by rewrite of_Z_reduced. f_equal.
      rewrite (third_drop _ x1 y1 x2 y2). do 3 f_equal.
      by rewrite Zmod.of_Z_mod, Zmod.of_Z_mul, of_Z_ModInverse, !Zmod.of_Z_sub.
  - simpl. by rewrite <- (drop_lift _ H1) at 1.
  - change (Some (Some (x2, y2)) = Some (drop_mod (lift (Some (x2, y2))))). by rewrite drop_lift.
  - by destruct Hn.
Qed.

Lemma IsOnCurve_spec A :
  IsOnCurve c A = true <-> A <> None /\ reduced A /\ Curve.on_curve p b (lift A).
Proof.
  destruct A as [[x y]|]; simpl; [|naive_solver]. unfold Curve.on_affine. simpl.
  rewrite <- !Zmod.of_Z_mul, <- Zmod.of_Z_add, of_Z_eq. unfold cong.
  destruct (_ || _) eqn:E.
  - split; [done|]. intros (_ & [Hx Hy] & _). exfalso.
    apply orb_true_iff in E as [[[E|E]%orb_true_iff|E]%orb_true_iff|E]; breflect; lia.
  - breflect. rewrite Z.eqb_eq. naive_solver lia.
Qed.

(** ** The group of the points of the curve *)

Lemma two_nz : (Zmod.add Zmod.one Zmod.one : F) <> Zmod.zero.
Proof. pose proof vc_P. rewrite <- of_Z_2, of_Z_zero, Z.mod_small; lia. Qed.
Lemma three_nz : (Zmod.add (Zmod.add Zmod.one Zmod.one) Zmod.one : F) <> Zmod.zero.
Proof. pose proof vc_P. rewrite <- of_Z_3, of_Z_zero, Z.mod_small; lia. Qed.
Lemma b_nz : b <> Zmod.zero.
Proof. pose proof vc_B. rewrite of_Z_zero, Z.mod_small; lia. Qed.

(** A point of the group: nil, or a pair that IsOnCurve accepts. *)
Definition valid (A : Point) : Prop := reduced A /\ Curve.on_curve p b (lift A).

Lemma valid_spec A : valid A <-> A = None \/ IsOnCurve c A = true.
Proof.
  rewrite IsOnCurve_spec. unfold valid. destruct A as [A|]; [naive_solver|]. simpl. naive_solver.
Qed.

Lemma valid_drop Q : Curve.on_curve p b Q -> valid (drop_mod Q).
Proof. intros HQ. split; [apply drop_reduced | by rewrite lift_drop]. Qed.

Lemma lift_inj A1 A2 : valid A1 -> valid A2 -> lift A1 = lift A2 -> A1 = A2.
Proof. intros [H1 _] [H2 _] E. by rewrite <- (drop_lift A1), <- (drop_lift A2), E. Qed.

Lemma plus_drop A1 A2 :
  reduced A1 -> reduced A2 -> plus c A1 A2 = drop_mod (Curve.add p (lift A1) (lift A2)).
Proof.
  intros H1 H2. unfold plus. destruct A1 as [A1|], A2 as [A2|];
    [rewrite Add_lift; try done; by left | rewrite Add_lift; try done; by left
    | rewrite Add_lift; try done; by right | done].
Qed.

Lemma lift_plus A1 A2 :
  reduced A1 -> reduced A2 -> lift (plus c A1 A2) = Curve.add p (lift A1) (lift A2).
Proof. intros H1 H2. by rewrite plus_drop, lift_drop. Qed.

Lemma valid_plus A1 A2 : valid A1 -> valid A2 -> valid (plus c A1 A2).
Proof.
  intros [R1 H1] [R2 H2]. rewrite plus_drop by done. apply valid_drop.
  by apply (Curve.add_on_curve p vc_prime b two_nz three_nz b_nz).
Qed.

Lemma Add_plus A1 A2 :
  valid A1 -> valid A2 -> A1 <> None \/ A2 <> None -> Add c A1 A2 = Some (plus c A1 A2).
Proof. intros [H1 _] [H2 _] Hn. unfold plus. by rewrite (Add_lift _ _ H1 H2 Hn). Qed.

Lemma plus_comm A1 A2 : valid A1 -> valid A2 -> plus c A1 A2 = plus c A2 A1.
Proof.
  intros [R1 H1] [R2 H2]. rewrite !plus_drop by done. f_equal.
  by apply (Curve.add_comm p vc_prime b two_nz three_nz b_nz).
Qed.

Lemma plus_assoc A1 A2 A3 :
  valid A1 -> valid A2 -> valid A3 -> plus c A1 (plus c A2 A3) = plus c (plus c A1 A2) A3.
Proof.
  intros V1 V2 V3. pose proof (valid_plus _ _ V1 V2) as [? _]. pose proof (valid_plus _ _ V2 V3) as [? _].
  destruct V1 as [R1 H1], V2 as [R2 H2], V3 as [R3 H3].
  rewrite (plus_drop A1 (plus c A2 A3)), (plus_drop (plus c A1 A2) A3), !lift_plus by done. f_equal.
  by apply (Curve.add_assoc p vc_prime b two_nz three_nz b_nz).
Qed.

Lemma iter_drop n A : reduced A -> Nat.iter n (plus c A) None = drop_mod (Curve.times p n (lift A)).
Proof.
  intros HA. induction n as [|n IH]; [done|]. simpl. rewrite IH, plus_drop, lift_drop; [done..|].
  apply drop_reduced.
Qed.

Lemma multiple_drop n A : reduced A -> multiple c n A = drop_mod (Curve.times p (Z.to_nat n) (lift A)).
Proof. apply iter_drop. Qed.

Lemma valid_multiple n A : valid A -> valid (multiple c n A).
Proof.
  intros [R HA]. rewrite multiple_drop by done. apply valid_drop.
  by apply (Curve.times_on_curve p vc_prime b two_nz three_nz b_nz).
Qed.

Lemma multiple_add n k A :
  valid A -> 0 <= n -> 0 <= k -> multiple c (n + k) A = plus c (multiple c n A) (multiple c k A).
Proof.
  intros V Hn Hk. pose proof (valid_multiple n A V) as [? _]. pose proof (valid_multiple k A V) as [? _].
  destruct V as [R HA]. rewrite plus_drop by done.
  rewrite !multiple_drop, Z2Nat.inj_add, !lift_drop by done. f_equal.
  by apply (Curve.times_add p vc_prime b two_nz three_nz b_nz).
Qed.

Lemma multiple_mul n k A :
  valid A -> 0 <= n -> 0 <= k -> multiple c (n * k) A = multiple c n (multiple c k A).
Proof.
  intros V Hn Hk. pose proof (valid_multiple k A V) as [? _]. destruct V as [R HA].
  rewrite (multiple_drop n) by done. rewrite !multiple_drop, Z2Nat.inj_mul, lift_drop by done.
  f_equal. by apply (Curve.times_mul p vc_prime b two_nz three_nz b_nz).
Qed.

Lemma plus_nil_l A : plus c None A = A.
Proof. by destruct A. Qed.
Lemma plus_nil_r A : plus c A None = A.
Proof. by destruct A as [[]|]. Qed.

Lemma multiple_nil n : multiple c n None = None.
Proof. unfold multiple. induction (Z.to_nat n) as [|j IH]; [done|]. simpl. by rewrite IH. Qed.

Lemma multiple_mod n m A :
  valid A -> 0 <= n -> 0 < m -> multiple c m A = None -> multiple c (n mod m) A = multiple c n A.
Proof.
  intros HA Hn Hm E. pose proof (Z.div_pos n m Hn Hm). pose proof (Z.mod_pos_bound n m Hm).
  rewrite (Z.div_mod n m) at 2 by lia.
  rewrite multiple_add, Z.mul_comm, multiple_mul, E by (done || nia).
  by rewrite multiple_nil, plus_nil_l.
Qed.

Lemma multiple_1 A : multiple c 1 A = A.
Proof. apply plus_nil_r. Qed.

(** ** Scalar multiplication *)

Lemma land_bit v i : 0 <= i -> negb (Z.land v (Z.shiftl 1 i) =? 0) = Z.testbit v i.
Proof.
  intros Hi. rewrite Z.shiftl_1_l. destruct (Z.testbit v i) eqn:E.
  - apply negb_true_iff, Z.eqb_neq. intros H.
    apply (f_equal (fun z => Z.testbit z i)) in H.
    by rewrite Z.land_spec, Z.pow2_bits_true, E, Z.testbit_0_l in H by done.
  - apply negb_false_iff, Z.eqb_eq, Z.bits_inj'. intros j Hj.
    rewrite Z.land_spec, Z.pow2_bits_eqb, Z.testbit_0_l by done.
    destruct (Z.eqb_spec i j) as [->|]; [by rewrite E | apply andb_false_r].
Qed.

Lemma Double_multiple n A :
  valid A -> 0 <= n -> Double c (multiple c n A) = multiple c (2 * n) A.
Proof.
  intros V Hn. pose proof (valid_multiple n A V) as [R' H']. 
  replace (2 * n) with (n + n) by lia. rewrite multiple_add by done.
  rewrite Double_lift, plus_drop by done. f_equal.
  apply (Curve.dbl_add p vc_prime b two_nz three_nz b_nz).
Qed.

Lemma mult_bit_multiple A v n i :
  valid A -> A <> None -> 0 <= n -> 0 <= i ->
  mult_bit c A v (multiple c n A) i = Some (multiple c (2 * n + Z.b2z (Z.testbit v i)) A).
Proof.
  intros V HA Hn Hi. unfold mult_bit. rewrite land_bit by done.
  assert (match multiple c n A with Some _ => Double c (multiple c n A) | None => None end
          = multiple c (2 * n) A) as ->.
  { rewrite <- Double_multiple by done. by destruct (multiple c n A). }
  destruct (Z.testbit v i); simpl Z.b2z; [|by rewrite Z.add_0_r].
  rewrite multiple_add, multiple_1 by (done || lia).
  apply Add_plus; [by apply valid_multiple | done | by right].
Qed.

(** The bits of a byte, from the top. *)
Lemma byte_bits v :
  is_byte v ->
  forall n, foldl (fun n i => 2 * n + Z.b2z (Z.testbit v i)) n [7; 6; 5; 4; 3; 2; 1; 0] = 256 * n + v.
Proof.
  intros Hv n. simpl foldl.
  assert (Forall (fun v => foldl (fun n i => 2 * n + Z.b2z (Z.testbit v i)) 0
                             [7; 6; 5; 4; 3; 2; 1; 0] = v) (seqZ 0 256)) as H by by_decision.
  rewrite Forall_forall in H. specialize (H v ltac:(apply elem_of_seqZ; unfold is_byte in Hv; lia)).
  simpl in H. lia.
Qed.

Lemma mult_byte_multiple A v n :
  valid A -> A <> None -> 0 <= n -> is_byte v ->
  mult_byte c A (multiple c n A) v = Some (multiple c (256 * n + v) A).
Proof.
  intros V HA Hn Hv. rewrite <- byte_bits by done. unfold mult_byte.
  assert (Forall (fun i => 0 <= i) [7; 6; 5; 4; 3; 2; 1; 0]) as Hi by by_decision.
  revert n Hn. induction Hi as [|i l Hi _ IH]; intros n Hn; [done|].
  simpl foldl. rewrite mult_bit_multiple by done. apply IH.
  destruct (Z.testbit v i); simpl; lia.
Qed.

(** ScalarMult never panics on a point of the curve, and is the multiple. *)
Lemma ScalarMult_multiple A k :
  valid A -> A <> None -> bytes_wf k -> ScalarMult c A k = Some (multiple c (be_val k) A).
Proof.
  intros V HA. unfold ScalarMult. induction k as [|v k IH] using rev_ind; [done|].
  intros [Hk Hv]%bytes_wf_app. rewrite foldl_app, IH by done. simpl foldl.
  rewrite be_val_snoc. apply mult_byte_multiple; [done..| |by apply Forall_inv in Hv].
  apply be_val_bound, Hk.
Qed.

(** A point and the point below it. *)
Definition minus (A : Point) : Point :=
  match A with None => None | Some (x, y) => Some (x, (- y) mod p) end.

Lemma lift_minus A : lift (minus A) = Curve.neg p (lift A).
Proof.
  destruct A as [[x y]|]; [|done]. simpl. unfold Curve.opposite. simpl.
  by rewrite Zmod.of_Z_mod, Zmod.of_Z_opp.
Qed.

Lemma valid_minus A : valid A -> valid (minus A).
Proof.
  intros [R H]. split.
  - destruct A as [[x y]|]; [|done]. destruct R as [Hx Hy]. split; [done|].
    apply Z.mod_pos_bound. pose proof p_pos. lia.
  - rewrite lift_minus. by apply (Curve.neg_on_curve p vc_prime b two_nz three_nz b_nz).
Qed.

Lemma plus_minus A : valid A -> plus c A (minus A) = None.
Proof.
  intros V. pose proof (valid_minus A V) as [R' _]. destruct V as [R _].
  rewrite plus_drop, lift_minus by done. by rewrite (Curve.add_neg p vc_prime b two_nz three_nz b_nz).
Qed.
End Correct.
