(* ===== verification/BasePoint.v ===== *)
(** * BasePoint: the parameters of secp256k1 are valid, and N is the order of G

    The signatures of the wallet reduce scalars modulo N, which is right only
    because N times the base point is the point at infinity.  That is a
    computation of 256 doublings; [run_chain] redoes it with the slope of every
    chord and tangent given, so that no inverse is computed, and is proved to
    follow the group law.  The slopes are computed once, by [slopes]. *)

From S2P Require Import Prelude Encoding Primes Curve Secp256k1.

#[export] Instance secp256k1_valid : ValidCurve secp256k1.
Proof.
  split; [exact field_prime_prime | by vm_compute | by vm_compute | by vm_compute].
Qed.

Lemma secp256k1_order_prime : Z.prime secp256k1.(N).
Proof. exact order_prime_prime. Qed.

(** ** Chains of doublings and additions with given slopes *)

Section Chain.
Context (c : CurveParams) {VC : ValidCurve c}.
Context (canon : Z -> Z) (Hcanon : forall x, cong c.(P) (canon x) x).
#[local] Set Default Proof Using "All".

Abbreviation p := c.(P).
Abbreviation b := (Zmod.of_Z p c.(B)).
Abbreviation G := (Some (c.(Gx), c.(Gy))).

Definition zero_mod (x : Z) : bool := canon x =? 0.
(** A canonical representative that is not 0. *)
Definition unit_mod (x : Z) : bool := (0 <? canon x) && (canon x <? p).

Definition hint_third (l : Z) (A1 A2 : Z * Z) : Z * Z :=
  let x3 := canon (l * l - A1.1 - A2.1) in (x3, canon (l * (A1.1 - x3) - A1.2)).

Definition hint_double (l : Z) (A : Z * Z) : option (Z * Z) :=
  if zero_mod (l * (2 * A.2) - 3 * (A.1 * A.1)) && unit_mod A.2 then Some (hint_third l A A) else None.

Definition hint_add (l : Z) (A1 A2 : Z * Z) : option (Z * Z) :=
  if zero_mod (l * (A2.1 - A1.1) - (A2.2 - A1.2)) && unit_mod (A2.1 - A1.1)
  then Some (hint_third l A1 A2) else None.

(** One signed binary digit, with the slope of the doubling and of the addition. *)
Definition chain_step (A : Z * Z) '((d, ld, la) : Z * Z * Z) : option (Z * Z) :=
  A2 ← hint_double ld A;
  if d =? 0 then Some A2
  else if d =? 1 then hint_add la A2 (c.(Gx), c.(Gy))
  else if d =? -1 then hint_add la A2 (c.(Gx), - c.(Gy))
  else None.

Fixpoint run_chain (A : Z * Z) (hs : list (Z * Z * Z)) : option (Z * Z) :=
  match hs with [] => Some A | h :: hs => A ← chain_step A h; run_chain A hs end.

Definition chain_value (n : Z) (hs : list (Z * Z * Z)) : Z :=
  foldl (fun n h => 2 * n + h.1.1) n hs.

Lemma zero_mod_cong a d : zero_mod (a - d) = true -> Zmod.of_Z p a = Zmod.of_Z p d.
Proof.
  unfold zero_mod. intros E%Z.eqb_eq. apply (of_Z_eq c). apply cong_divide.
  { pose proof (p_pos c). lia. }
  pose proof (Hcanon (a - d)) as H. rewrite E in H. symmetry in H.
  apply cong_divide in H; [|pose proof (p_pos c); lia]. by rewrite Z.sub_0_r in H.
Qed.

Lemma unit_mod_nz a : unit_mod a = true -> Zmod.of_Z p a <> Zmod.zero.
Proof.
  unfold unit_mod. intros H E%(of_Z_zero c). breflect.
  pose proof (Hcanon a) as Hc. unfold cong in Hc. rewrite E, Z.mod_small in Hc; lia.
Qed.

Lemma hint_third_lift l A1 A2 :
  lift c (Some (hint_third l A1 A2))
  = Some (Curve.third p (Zmod.of_Z p l) (Zmod.of_Z p A1.1, Zmod.of_Z p A1.2)
                                         (Zmod.of_Z p A2.1, Zmod.of_Z p A2.2)).
Proof.
  destruct A1 as [x1 y1], A2 as [x2 y2].
  rewrite <- (lift_drop c (Some _)), <- (third_drop c).
  assert (forall x, Zmod.of_Z p (canon x) = Zmod.of_Z p (x mod p)) as Hof.
  { intros x. apply (of_Z_eq c). by rewrite Hcanon, mod_cong. }
  unfold hint_third. cbn -[Zmod.of_Z]. do 2 f_equal; [apply Hof|].
  rewrite Hof, !Zmod.of_Z_mod, !Zmod.of_Z_sub, !Zmod.of_Z_mul, !Zmod.of_Z_sub.
  by rewrite Hof.
Qed.

Lemma slope_unique (l n d : Zmod p) :
  d <> Zmod.zero -> Zmod.mul l d = n -> Zmod.mul n (Zmod.inv d) = l.
Proof.
  intros Hd <-. rewrite <- Zmod.mul_assoc, (Zmod.mul_inv_same_r_prime d vc_prime Hd).
  apply Zmod.mul_1_r.
Qed.

Lemma hint_double_lift l A A' :
  hint_double l A = Some A' -> lift c (Some A') = Curve.dbl p (lift c (Some A)).
Proof.
  unfold hint_double. destruct (_ && _) eqn:E; [|done]. intros [= <-].
  apply andb_true_iff in E as [E%zero_mod_cong Hu%unit_mod_nz].
  rewrite hint_third_lift. destruct A as [x y]. cbn -[Zmod.of_Z Zmod.one Zmod.zero Zmod.inv Zmod.mul Zmod.add] in *.
  rewrite decide_False by done. do 2 f_equal. symmetry. apply slope_unique.
  - by apply (Curve.double_nz p vc_prime b (two_nz c) (three_nz c) (b_nz c)).
  - by rewrite <- (of_Z_3 c), <- (of_Z_2 c), <- !Zmod.of_Z_mul.
Qed.

Lemma hint_add_lift l A1 A2 A' :
  hint_add l A1 A2 = Some A' ->
  lift c (Some A') = Curve.add p (lift c (Some A1)) (lift c (Some A2)).
Proof.
  unfold hint_add. destruct (_ && _) eqn:E; [|done]. intros [= <-].
  apply andb_true_iff in E as [E%zero_mod_cong Hu%unit_mod_nz].
  rewrite hint_third_lift. destruct A1 as [x1 y1], A2 as [x2 y2].
  rewrite Zmod.of_Z_mul, !Zmod.of_Z_sub in E. rewrite Zmod.of_Z_sub in Hu.
  cbn -[Zmod.of_Z Zmod.one Zmod.zero Zmod.inv Zmod.mul Zmod.add Zmod.sub] in *.
  rewrite decide_False.
  - do 2 f_equal. symmetry. by apply slope_unique.
  - intros Ex. apply Hu. rewrite Ex. apply Zmod.sub_same.
Qed.

Lemma G_valid : valid c G.
Proof. apply (valid_spec c). right. apply vc_G. Qed.

(** What a run computes are multiples of the base point. *)
Definition at_multiple (n : Z) (A : Z * Z) : Prop := lift c (Some A) = lift c (multiple c n G).

Lemma lift_double n : 0 <= n -> Curve.dbl p (lift c (multiple c n G)) = lift c (multiple c (2 * n) G).
Proof.
  intros Hn. rewrite <- (Double_multiple c) by (apply G_valid || done).
  rewrite (Double_lift c), (lift_drop c); [done|]. apply (valid_multiple c), G_valid.
Qed.

Lemma minus_multiple n :
  0 <= n -> plus c (multiple c (n + 1) G) (minus c G) = multiple c n G.
Proof.
  intros Hn. pose proof G_valid as HG. pose proof (valid_multiple c n _ HG) as Hm.
  rewrite (multiple_add c), (multiple_1 c) by (done || lia).
  rewrite <- (plus_assoc c) by (done || by apply (valid_minus c)).
  by rewrite (plus_minus c), (plus_nil_r c).
Qed.

Lemma chain_step_correct n A h A' :
  0 < n -> at_multiple n A -> chain_step A h = Some A' -> at_multiple (2 * n + h.1.1) A'.
Proof.
  intros Hn HA H. destruct h as [[d ld] la]. unfold chain_step in H. unfold at_multiple in *.
  pose proof G_valid as HG.
  apply bind_Some in H as (A2 & H2%hint_double_lift & H). rewrite HA, lift_double in H2 by lia.
  cbn [fst snd]. destruct (Z.eqb_spec d 0) as [->|]; [simplify_eq; by rewrite Z.add_0_r|].
  destruct (Z.eqb_spec d 1) as [->|].
  { apply hint_add_lift in H. rewrite H, H2, (multiple_add c), (multiple_1 c) by (done || lia).
    symmetry. apply (lift_plus c); [apply (valid_multiple c), HG | apply HG]. }
  destruct (Z.eqb_spec d (-1)) as [->|]; [|done].
  apply hint_add_lift in H. rewrite H, H2.
  rewrite <- (minus_multiple (2 * n + -1)) by lia.
  replace (2 * n + -1 + 1) with (2 * n) by lia.
  rewrite (lift_plus c); [|apply (valid_multiple c), HG | apply (valid_minus c), HG].
  f_equal. rewrite (lift_minus c). simpl. unfold Curve.opposite. simpl.
  by rewrite Zmod.of_Z_opp.
Qed.

Lemma run_chain_correct n A hs A' :
  0 < n -> at_multiple n A -> run_chain A hs = Some A' -> at_multiple (chain_value n hs) A'.
Proof.
  revert n A. induction hs as [|h hs IH]; simpl; intros n A Hn HA H; [by simplify_eq|].
  apply bind_Some in H as (A1 & H1 & H).
  assert (-1 <= h.1.1).
  { destruct h as [[d ld] la]. unfold chain_step in H1. apply bind_Some in H1 as (? & _ & H1).
    simpl. repeat case_match; breflect; simplify_eq; lia. }
  eapply IH; [|by eapply chain_step_correct | done]. lia.
Qed.

(** A chain that ends one step before [m], at the opposite of G. *)
Definition check_order (m : Z) (hs : list (Z * Z * Z)) : bool :=
  (0 <? m) && (chain_value 1 hs =? m - 1)
  && match run_chain (c.(Gx), c.(Gy)) hs with
     | Some A => zero_mod (A.1 - c.(Gx)) && zero_mod (A.2 - (- c.(Gy)))
     | None => false
     end.

Lemma check_order_correct m hs : check_order m hs = true -> multiple c m G = None.
Proof.
  unfold check_order. destruct (run_chain _ _) as [A'|] eqn:Hr; [|by rewrite andb_false_r].
  intros [[Hm Hv]%andb_true_iff [E1%zero_mod_cong E2%zero_mod_cong]%andb_true_iff]%andb_true_iff.
  pose proof G_valid as HG. breflect.
  apply (run_chain_correct 1) in Hr; [|lia|unfold at_multiple; by rewrite (multiple_1 c)].
  rewrite Hv in Hr. replace m with ((m - 1) + 1) by lia.
  rewrite (multiple_add c), (multiple_1 c) by (done || lia).
  assert (multiple c (m - 1) G = minus c G) as ->.
  { apply (lift_inj c); [by apply (valid_multiple c) | by apply (valid_minus c)|].
    rewrite <- Hr, (lift_minus c). destruct A' as [x y]. simpl in *. unfold Curve.opposite. simpl.
    by rewrite E1, E2, Zmod.of_Z_opp. }
  rewrite (plus_comm c) by (done || by apply (valid_minus c)). by apply (plus_minus c).
Qed.
End Chain.

(** ** The order of the base point *)

Definition fold_canon (x : Z) : Z :=
  let y := fold_bits 256 (2 ^ 32 + 977) (fold_bits 256 (2 ^ 32 + 977) x) in
  if secp256k1.(P) <=? y then y - secp256k1.(P) else y.

Lemma fold_canon_cong x : cong secp256k1.(P) (fold_canon x) x.
Proof.
  assert (forall y, cong secp256k1.(P) (fold_bits 256 (2 ^ 32 + 977) y) y) as Hf.
  { intros y. apply (fold_bits_cong 256 (2 ^ 32 + 977)). done. }
  unfold fold_canon. cbv zeta. destruct (_ <=? _); [|by rewrite !Hf].
  rewrite !Hf. unfold cong. rewrite Z.cong_iff_ex. exists (-1). lia.
Qed.

(** The signed binary digits of [n], from the bottom, with few nonzero ones. *)
Fixpoint signed_digits (fuel : nat) (n : Z) : list Z :=
  match fuel with
  | O => []
  | S fuel =>
      if n <=? 1 then []
      else let d := if Z.even n then 0 else 2 - n mod 4 in d :: signed_digits fuel ((n - d) / 2)
  end.

Definition inverse (x : Z) : Z := Z.invmod x secp256k1.(P).

(** The slopes of the chain for [ds], computed with inverses. *)
Fixpoint slopes (A : Z * Z) (ds : list Z) : list (Z * Z * Z) :=
  match ds with
  | [] => []
  | d :: ds =>
      let c := secp256k1 in
      let ld := fold_canon (3 * (A.1 * A.1) * inverse (2 * A.2)) in
      let A2 := hint_third fold_canon ld A A in
      if d =? 0 then (d, ld, 0) :: slopes A2 ds
      else
        let gy := d * c.(Gy) in
        let la := fold_canon ((gy - A2.2) * inverse (c.(Gx) - A2.1)) in
        (d, ld, la) :: slopes (hint_third fold_canon la A2 (c.(Gx), gy)) ds
  end.

Definition order_chain : list (Z * Z * Z) :=
  Eval vm_compute in
    slopes (secp256k1.(Gx), secp256k1.(Gy)) (rev (signed_digits 300 (secp256k1.(N) - 1))).

Lemma order_checked : check_order secp256k1 fold_canon secp256k1.(N) order_chain = true.
Proof. vm_compute. reflexivity. Qed.

(** N times the base point is the point at infinity. *)
Lemma base_point_order :
  multiple secp256k1 secp256k1.(N) (Some (secp256k1.(Gx), secp256k1.(Gy))) = None.
Proof.
  exact (check_order_correct secp256k1 fold_canon fold_canon_cong secp256k1.(N) order_chain
           order_checked).
Qed.
