(* ===== verification/Ecdsa.v ===== *)
(** * Ecdsa: crypto/ecdsa on a curve that is not built in

    wallet/wallet.go signs and verifies through ecdsa.Sign and ecdsa.Verify.  For
    a curve that the library does not know, such as the one of
    wallet/secp256k1.go, both take the generic path: signLegacy and verifyLegacy,
    which call back into the curve's ScalarBaseMult, ScalarMult and Add.  The
    signature travels between them as two integers; its DER encoding, which the
    library adds and removes on the way, is left out.  The source of randomness is
    the list of bytes it will deliver.  [None] is a panic: verifyLegacy asks for
    the sign of the sum's coordinates, which the wallet's curve returns as nil for
    the point at infinity. *)

From S2P Require Import Prelude Encoding Primes Curve Secp256k1.

Section Code.
Context (c : CurveParams).

(** The number of bytes of the order. *)
Definition order_bytes : nat := Z.to_nat ((BitLen c.(N) + 7) / 8).

(** randFieldElement: numbers of that size until one is in [1, N-1]. *)
Fixpoint randFieldElement (fuel : nat) (rand : bytes) : result (Z * bytes) :=
  match fuel with
  | O => Err ErrEOF
  | S fuel =>
      '(b, rand) ← readFull order_bytes rand;
      let excess := Z.of_nat order_bytes * 8 - BitLen c.(N) in
      let b := if 0 <? excess
               then match b with [] => [] | b0 :: b => Z.shiftr b0 excess :: b end else b in
      let k := be_val b in
      if negb (k =? 0) && (k <? c.(N)) then Ok (k, rand) else randFieldElement fuel rand
  end.

Definition hashToInt (hash : bytes) : Z :=
  let orderBits := BitLen c.(N) in
  let hash := if Z.of_nat order_bytes <? len hash then take order_bytes hash else hash in
  let ret := be_val hash in
  let excess := len hash * 8 - orderBits in
  if 0 <? excess then Z.shiftr ret excess else ret.

Record PrivateKey := mkPrivateKey { D : Z; X : Point }.

(** generateLegacy: the key and the rest of the randomness. *)
Definition GenerateKey (rand : bytes) : option (result (PrivateKey * bytes)) :=
  match randFieldElement (S (length rand)) rand with
  | Err e => Some (Err e)
  | Ok (k, rand) =>
      A ← ScalarBaseMult c (big_bytes k);
      Some (Ok (mkPrivateKey k A, rand))
  end.

(** One attempt of signLegacy with the nonce [k]: [None] a panic, [Some None] a
    zero to be retried. *)
Definition sign_nonce (priv : PrivateKey) (hash : bytes) (k : Z) : option (option (Z * Z)) :=
  let kInv := ModInverse 0 k c.(N) in
  A ← ScalarBaseMult c (big_bytes k);
  '(x, _) ← A;
  let r := x mod c.(N) in
  if r =? 0 then Some None
  else
    let e := hashToInt hash in
    let s := ((priv.(D) * r + e) * kInv) mod c.(N) in
    if s =? 0 then Some None else Some (Some (r, s)).

Fixpoint signLegacy (fuel : nat) (priv : PrivateKey) (hash : bytes) (rand : bytes)
  : option (result (Z * Z * bytes)) :=
  match fuel with
  | O => Some (Err ErrEOF)
  | S fuel =>
      match randFieldElement (S (length rand)) rand with
      | Err e => Some (Err e)
      | Ok (k, rand) =>
          o ← sign_nonce priv hash k;
          match o with
          | Some (r, s) => Some (Ok (r, s, rand))
          | None => signLegacy fuel priv hash rand
          end
      end
  end.

Definition Sign (priv : PrivateKey) (hash : bytes) (rand : bytes) : option (result (Z * Z * bytes)) :=
  signLegacy (S (length rand)) priv hash rand.

Definition Verify (pub : Point) (hash : bytes) (r s : Z) : option bool :=
  if (r <=? 0) || (s <=? 0) then Some false
  else if (c.(N) <=? r) || (c.(N) <=? s) then Some false
  else
    let e := hashToInt hash in
    let w := ModInverse 0 s c.(N) in
    let u1 := (e * w) mod c.(N) in
    let u2 := (r * w) mod c.(N) in
    A1 ← ScalarBaseMult c (big_bytes u1);
    A2 ← ScalarMult c pub (big_bytes u2);
    A ← Add c A1 A2;
    '(x, y) ← A;
    if (x =? 0) && (y =? 0) then Some false
    else Some (x mod c.(N) =? r).
End Code.

(** ** Correctness *)

Class SigningCurve (c : CurveParams) : Prop := {
  sc_valid :: ValidCurve c;
  sc_prime : Z.prime c.(N);
  sc_order : multiple c c.(N) (Some (c.(Gx), c.(Gy))) = None;
}.

Section Correct.
Context (c : CurveParams) {SC : SigningCurve c}.
#[local] Set Default Proof Using "All".

Abbreviation n := c.(N).
Abbreviation G := (Some (c.(Gx), c.(Gy))).

Lemma n_pos : 1 < n.
Proof. apply sc_prime. Qed.

Lemma G_point : valid c G.
Proof. apply (valid_spec c). right. apply vc_G. Qed.

Lemma multiple_G_mod k : 0 <= k -> multiple c (k mod n) G = multiple c k G.
Proof. intros Hk. apply (multiple_mod c); [apply G_point | done | pose proof n_pos; lia | apply sc_order]. Qed.

Lemma multiple_G_cong j k :
  0 <= j -> 0 <= k -> cong n j k -> multiple c j G = multiple c k G.
Proof. intros Hj Hk E. rewrite <- (multiple_G_mod j), <- (multiple_G_mod k) by done. by rewrite E. Qed.

(** The inverse modulo the order. *)
Lemma ModInverse_order z k : k mod n <> 0 -> cong n (ModInverse z k n * k) 1 /\ 0 <= ModInverse z k n < n.
Proof.
  intros Hk. pose proof n_pos. unfold ModInverse.
  assert (Z.gcd k n = 1) as E.
  { rewrite Z.gcd_comm. apply Z.coprime_prime_l; [apply sc_prime|].
    intros Hd%Z.mod_divide; [done | lia]. }
  rewrite E. simpl. split.
  - unfold cong. rewrite Z.invmod_coprime by (done || lia). by rewrite Z.mod_small by lia.
  - apply Z.mod_pos_bound. lia.
Qed.

(** The order of the base point is exactly [n]. *)
Lemma multiple_G_nil k : 0 <= k -> multiple c k G = None <-> k mod n = 0.
Proof.
  intros Hk. pose proof n_pos. rewrite <- multiple_G_mod by done. split.
  - intros E. destruct (decide (k mod n = 0)) as [|Hnz]; [done|exfalso].
    destruct (ModInverse_order 0 (k mod n)) as [Hi Hr]; [by rewrite Zmod_mod|].
    pose proof (Z.mod_pos_bound k n ltac:(lia)).
    assert (multiple c (ModInverse 0 (k mod n) n * (k mod n)) G = None) as E1.
    { rewrite (multiple_mul c), E by (apply G_point || lia). apply (multiple_nil c). }
    rewrite (multiple_G_cong _ 1), (multiple_1 c) in E1 by (lia || done). done.
  - by intros ->.
Qed.

Lemma zero_not_valid : ~ valid c (Some (0, 0)).
Proof.
  intros [?|H]%(valid_spec c); [done|]. pose proof vc_B. unfold IsOnCurve in H.
  destruct (_ || _); [done|]. breflect. simpl in H. rewrite Zmod_0_l, Z.mod_small in H by lia. lia.
Qed.

Lemma hashToInt_nonneg hash : bytes_wf hash -> 0 <= hashToInt c hash.
Proof.
  intros Hh. unfold hashToInt. cbv zeta.
  assert (forall h, bytes_wf h -> 0 <= be_val h) as Hb by (intros h H; by apply be_val_bound).
  destruct (0 <? _); [apply Z.shiftr_nonneg|]; apply Hb; destruct (_ <? _); auto with nevel.
Qed.

Lemma valid_point k : multiple c k G <> None -> IsOnCurve c (multiple c k G) = true.
Proof.
  intros Hn. pose proof (valid_multiple c k _ G_point) as [?|?]%(valid_spec c); done.
Qed.

(** What the numbers of a signature stand for. *)
Definition sum_point (pub : Point) (e r s : Z) : Point :=
  let w := ModInverse 0 s n in
  plus c (multiple c ((e * w) mod n) G) (multiple c ((r * w) mod n) pub).

Definition in_order (r : Z) : Prop := 1 <= r < n.

(** Verify on a key of the curve: false out of range, a panic when the sum is the
    point at infinity, and the comparison of its abscissa with [r] otherwise. *)
Lemma Verify_spec pub hash r s :
  IsOnCurve c pub = true ->
  Verify c pub hash r s =
    if decide (in_order r /\ in_order s) then
      match sum_point pub (hashToInt c hash) r s with
      | None => None
      | Some (x, _) => Some (x mod n =? r)
      end
    else Some false.
Proof.
  intros Hp. pose proof n_pos. unfold Verify, in_order.
  destruct (_ || _) eqn:E1.
  { rewrite decide_False; [done|]. apply orb_true_iff in E1 as [E|E]; breflect; lia. }
  destruct ((n <=? r) || (n <=? s)) eqn:E2.
  { rewrite decide_False; [done|]. apply orb_true_iff in E2 as [E|E]; breflect; lia. }
  breflect. rewrite decide_True by lia. cbv zeta.
  set (u1 := (hashToInt c hash * ModInverse 0 s n) mod n).
  set (u2 := (r * ModInverse 0 s n) mod n).
  assert (0 <= u1) by (apply Z.mod_pos_bound; lia). assert (0 <= u2) by (apply Z.mod_pos_bound; lia).
  assert (valid c pub) as Hv by (apply (valid_spec c); by right).
  assert (pub <> None) as Hn by by apply (IsOnCurve_spec c) in Hp as [? _].
  unfold ScalarBaseMult. rewrite !(ScalarMult_multiple c) by (done || apply G_point || apply big_bytes_wf).
  rewrite !be_val_big_bytes by done. cbn [mbind option_bind].
  unfold sum_point. fold u1 u2.
  destruct (decide (multiple c u1 G = None /\ multiple c u2 pub = None)) as [[E1 E2]|Hne].
  { by rewrite E1, E2. }
  rewrite (Add_plus c); [|by apply (valid_multiple c), G_point | by apply (valid_multiple c) |].
  2: { destruct (multiple c u1 G); [by left|]. destruct (multiple c u2 pub); [by right|]. tauto. }
  cbn [mbind option_bind].
  destruct (plus c _ _) as [[x y]|] eqn:E; [|done]. cbn [mbind option_bind].
  destruct ((x =? 0) && (y =? 0)) eqn:Exy; [exfalso|done].
  breflect. subst x y. apply zero_not_valid. rewrite <- E.
  apply (valid_plus c); apply (valid_multiple c); [apply G_point | done].
Qed.

(** The sum for the public key of [d], as one multiple of the base point. *)
Lemma sum_point_multiple d e r s :
  0 <= d -> 0 <= e -> in_order r -> in_order s ->
  sum_point (multiple c d G) e r s = multiple c ((e + r * d) * ModInverse 0 s n) G.
Proof.
  intros Hd He [Hr1 Hr2] [Hs1 Hs2]. pose proof n_pos. pose proof G_point as HG.
  destruct (ModInverse_order 0 s) as [_ Hw]; [rewrite Z.mod_small; lia|].
  set (w := ModInverse 0 s n) in *. unfold sum_point. fold w.
  rewrite <- (multiple_mul c) by (done || apply Z.mod_pos_bound; lia).
  rewrite <- (multiple_add c) by (done || (try apply Z.mul_nonneg_nonneg); try apply Z.mod_pos_bound; lia).
  apply multiple_G_cong; [|nia|].
  - pose proof (Z.mod_pos_bound (e * w) n ltac:(lia)). pose proof (Z.mod_pos_bound (r * w) n ltac:(lia)). nia.
  - rewrite !mod_cong. unfold cong. f_equal. lia.
Qed.

(** A signature that [sign_nonce] makes is accepted for the key it was made with. *)
Lemma sign_nonce_verifies priv hash k r s :
  0 <= D priv -> X priv = multiple c (D priv) G -> X priv <> None -> bytes_wf hash ->
  1 <= k < n -> sign_nonce c priv hash k = Some (Some (r, s)) ->
  Verify c (X priv) hash r s = Some true.
Proof.
  intros Hd HX Hne Hh Hk. pose proof n_pos. pose proof G_point as HG. unfold sign_nonce.
  unfold ScalarBaseMult. rewrite (ScalarMult_multiple c) by (done || apply big_bytes_wf).
  rewrite be_val_big_bytes by lia. cbn [mbind option_bind].
  destruct (multiple c k G) as [[x y]|] eqn:Ek; [|done]. cbn [mbind option_bind].
  destruct (Z.eqb_spec (x mod n) 0) as [|Hr]; [done|].
  set (e := hashToInt c hash). cbv zeta.
  set (ki := ModInverse 0 k n).
  destruct (Z.eqb_spec (((D priv * (x mod n) + e) * ki) mod n) 0) as [|Hs]; [done|].
  intros [= <- <-].
  pose proof (Z.mod_pos_bound x n ltac:(lia)) as Hrb.
  set (s := ((D priv * (x mod n) + e) * ki) mod n) in *.
  pose proof (Z.mod_pos_bound ((D priv * (x mod n) + e) * ki) n ltac:(lia)) as Hsb. fold s in Hsb.
  rewrite Verify_spec; [|rewrite HX in Hne |- *; by apply valid_point].
  rewrite decide_True by (unfold in_order; lia).
  assert (0 <= e) by (apply hashToInt_nonneg, Hh).
  fold e. rewrite HX, sum_point_multiple by (unfold in_order; lia).
  destruct (ModInverse_order 0 s) as [Hw Hwb]; [rewrite Z.mod_small; lia|].
  destruct (ModInverse_order 0 k) as [Hki Hkib]; [rewrite Z.mod_small; lia|].
  fold ki in Hki, Hkib. set (w := ModInverse 0 s n) in *.
  rewrite (multiple_G_cong _ k), Ek; [by rewrite Z.eqb_refl | nia | lia |].
  transitivity ((e + x mod n * D priv) * w * (ki * k)).
  { rewrite Hki. unfold cong. f_equal. ring. }
  transitivity (w * s * k).
  { unfold s. rewrite (mod_cong n ((D priv * (x mod n) + e) * ki)). unfold cong. f_equal. ring. }
  rewrite Hw. unfold cong. f_equal. ring.
Qed.

Lemma shift_byte b0 k : is_byte b0 -> 0 <= k -> is_byte (Z.shiftr b0 k).
Proof.
  unfold is_byte. intros H Hk. rewrite Z.shiftr_div_pow2 by done.
  pose proof (Z.pow_pos_nonneg 2 k ltac:(lia) Hk). split; [apply Z.div_pos; lia|].
  eapply Z.le_lt_trans; [apply Z.div_le_upper_bound with (q := b0)|]; nia.
Qed.

Lemma randFieldElement_range fuel rand k rest :
  bytes_wf rand -> randFieldElement c fuel rand = Ok (k, rest) -> in_order k /\ bytes_wf rest.
Proof.
  revert rand. induction fuel as [|fuel IH]; intros rand Hw H; [done|]. simpl in H.
  apply bind_Ok in H as ([b rand'] & Hb & H). apply readFull_Ok in Hb as [-> _].
  apply bytes_wf_app in Hw as [Hb Hr].
  destruct (negb _ && _) eqn:E; [|by apply (IH rand')]. simplify_eq. split; [|done].
  breflect. unfold in_order. split; [|done].
  match goal with H : be_val ?x <> 0 |- _ => assert (0 <= be_val x); [|lia] end.
  apply be_val_bound. destruct (0 <? _) eqn:Ex; [|done]. breflect.
  destruct b as [|b0 b]; [done|]. apply Forall_cons in Hb as [Hb0 Hb].
  constructor; [apply shift_byte; [done | lia] | done].
Qed.

(** A private key whose public point was computed from it. *)
Definition key_ok (priv : PrivateKey) : Prop :=
  0 <= D priv /\ X priv = multiple c (D priv) G /\ X priv <> None.

Lemma sign_nonce_no_panic priv hash k : in_order k -> sign_nonce c priv hash k <> None.
Proof.
  intros [Hk1 Hk2]. pose proof n_pos. unfold sign_nonce, ScalarBaseMult.
  rewrite (ScalarMult_multiple c) by (done || apply G_point || apply big_bytes_wf).
  rewrite be_val_big_bytes by lia. cbn [mbind option_bind].
  destruct (multiple c k G) as [[x y]|] eqn:Ek.
  - cbn [mbind option_bind]. by repeat case_match.
  - apply multiple_G_nil in Ek; [|lia]. rewrite Z.mod_small in Ek; lia.
Qed.

(** What is left of the randomness after a draw, and how a draw fails. *)
Lemma randFieldElement_reads fuel rand :
  match randFieldElement c fuel rand with
  | Ok (_, rest) => exists used, rand = used ++ rest
  | Err e => e = ErrEOF \/ e = ErrUnexpectedEOF
  end.
Proof.
  revert rand. induction fuel as [|fuel IH]; intros rand; cbn [randFieldElement]; [by left|].
  destruct (readFull _ rand) as [[b rest]|e] eqn:Eb; csimpl.
  - apply readFull_Ok in Eb as [-> _]. destruct (negb _ && _); [by exists b|].
    specialize (IH rest). destruct (randFieldElement c fuel rest) as [[k r]|e]; [|done].
    destruct IH as [used ->]. exists (b ++ used). by rewrite app_assoc.
  - by apply readFull_Err in Eb.
Qed.

(** The same of a signature. *)
Lemma signLegacy_reads fuel priv hash rand :
  match signLegacy c fuel priv hash rand with
  | None => True
  | Some (Ok (_, _, rest)) => exists used, rand = used ++ rest
  | Some (Err e) => e = ErrEOF \/ e = ErrUnexpectedEOF
  end.
Proof.
  revert rand. induction fuel as [|fuel IH]; intros rand; cbn [signLegacy]; [by left|].
  pose proof (randFieldElement_reads (S (length rand)) rand) as Hr.
  destruct (randFieldElement _ _ _) as [[k rest]|e]; [|done]. destruct Hr as [used ->].
  destruct (sign_nonce c priv hash k) as [[[r s]|]|]; cbn [mbind option_bind]; [by exists used | |done].
  specialize (IH rest). destruct (signLegacy _ _ _ _ rest) as [[[[r s] rest']|e]|]; [|done..].
  destruct IH as [used' ->]. exists (used ++ used'). by rewrite app_assoc.
Qed.

(** Sign ends without a panic, and what it returns is accepted. *)
Lemma signLegacy_verifies fuel priv hash rand :
  key_ok priv -> bytes_wf hash -> bytes_wf rand ->
  match signLegacy c fuel priv hash rand with
  | None => False
  | Some (Err _) => True
  | Some (Ok (r, s, rest)) =>
      in_order r /\ in_order s /\ Verify c (X priv) hash r s = Some true /\ bytes_wf rest
  end.
Proof.
  intros (Hd & HX & Hne) Hh. revert rand. induction fuel as [|fuel IH]; intros rand Hw; [done|].
  cbn [signLegacy]. destruct (randFieldElement _ _ _) as [[k rest]|] eqn:Er; [|done].
  apply randFieldElement_range in Er as [Hk Hrest]; [|done].
  destruct (sign_nonce c priv hash k) as [o|] eqn:Es; [|by apply sign_nonce_no_panic in Es].
  cbn [mbind option_bind]. destruct o as [[r s]|]; [|by apply IH].
  apply (sign_nonce_verifies priv hash k) in Es as Ev; [|done..].
  assert (IsOnCurve c (X priv) = true) as Hon by (rewrite HX in Hne |- *; by apply valid_point).
  rewrite Verify_spec in Ev by done. destruct (decide _) as [[]|]; [|done].
  split_and!; try done. rewrite Verify_spec by done. by rewrite decide_True.
Qed.

(** The signature with r = - e / d makes the verification of the key [d] panic. *)
Definition crash_r (d : Z) (e : Z) : Z := (- e * ModInverse 0 d n) mod n.

Lemma crash_r_panics d hash s :
  0 <= d -> d mod n <> 0 -> bytes_wf hash -> hashToInt c hash mod n <> 0 -> in_order s ->
  in_order (crash_r d (hashToInt c hash)) /\
  Verify c (multiple c d G) hash (crash_r d (hashToInt c hash)) s = None.
Proof.
  intros Hd Hdn Hh He Hs. pose proof n_pos. set (e := hashToInt c hash) in *.
  destruct (ModInverse_order 0 d Hdn) as [Hi Hib]. unfold crash_r. set (di := ModInverse 0 d n) in *.
  pose proof (Z.mod_pos_bound (- e * di) n ltac:(lia)) as Hr.
  assert (cong n (e + (- e * di) mod n * d) 0) as Ez.
  { rewrite (mod_cong n (- e * di)). replace (e + - e * di * d) with (e - e * (di * d)) by ring.
    rewrite Hi. unfold cong. f_equal. lia. }
  assert (in_order ((- e * di) mod n)) as Hr'.
  { unfold in_order. split; [|lia]. destruct (decide ((- e * di) mod n = 0)) as [E|]; [|lia].
    rewrite E in Ez. exfalso. apply He. unfold cong in Ez. rewrite Z.mul_0_l, Z.add_0_r in Ez.
    by rewrite Ez, Zmod_0_l. }
  split; [done|].
  assert (multiple c d G <> None) as Hne by by rewrite multiple_G_nil.
  rewrite Verify_spec by by apply valid_point. fold e. rewrite decide_True by done.
  assert (0 <= e) by by apply hashToInt_nonneg.
  rewrite sum_point_multiple by done.
  destruct (ModInverse_order 0 s) as [_ Hw]; [unfold in_order in Hs; rewrite Z.mod_small; lia|].
  assert (multiple c ((e + (- e * di) mod n * d) * ModInverse 0 s n) G = None) as ->; [|done].
  apply multiple_G_nil; [unfold in_order in Hr'; nia|].
  rewrite <- (Zmod_0_l n). change (cong n ((e + (- e * di) mod n * d) * ModInverse 0 s n) 0).
  by rewrite Ez.
Qed.
End Correct.
