(* ===== verification/Ripemd160.v ===== *)
(** * Ripemd160: the digest of addresses

    Models wallet/ripemd160.go and Hash160 of wallet/wallet.go.  Words are
    [uint32] values with their wrap-around; the two lines of a block are records
    of five words.  The padding loop runs on fuel, and [pad_loop_ends] shows that
    64 rounds are enough and leave a whole number of blocks, so that no word is
    read past the end of the data. *)

From S2P Require Import Prelude Encoding Sha256.

Definition r1 : list Z :=
  [ 0; 1; 2; 3; 4; 5; 6; 7; 8; 9; 10; 11; 12; 13; 14; 15;
    7; 4; 13; 1; 10; 6; 15; 3; 12; 0; 9; 5; 2; 14; 11; 8;
    3; 10; 14; 4; 9; 15; 8; 1; 2; 7; 0; 6; 13; 11; 5; 12;
    1; 9; 11; 10; 0; 8; 12; 4; 13; 3; 7; 15; 14; 5; 6; 2;
    4; 0; 5; 9; 7; 12; 2; 10; 14; 1; 3; 8; 11; 6; 15; 13 ].
Definition r2 : list Z :=
  [ 5; 14; 7; 0; 9; 2; 11; 4; 13; 6; 15; 8; 1; 10; 3; 12;
    6; 11; 3; 7; 0; 13; 5; 10; 14; 15; 8; 12; 4; 9; 1; 2;
    15; 5; 1; 3; 7; 14; 6; 9; 11; 8; 12; 2; 10; 0; 4; 13;
    8; 6; 4; 1; 3; 11; 15; 0; 5; 12; 2; 13; 9; 7; 10; 14;
    12; 15; 10; 4; 1; 5; 8; 7; 6; 2; 13; 14; 0; 3; 9; 11 ].
Definition s1 : list Z :=
  [ 11; 14; 15; 12; 5; 8; 7; 9; 11; 13; 14; 15; 6; 7; 9; 8;
    7; 6; 8; 13; 11; 9; 7; 15; 7; 12; 15; 9; 11; 7; 13; 12;
    11; 13; 6; 7; 14; 9; 13; 15; 14; 8; 13; 6; 5; 12; 7; 5;
    11; 12; 14; 15; 14; 15; 9; 8; 9; 14; 5; 6; 8; 6; 5; 12;
    9; 15; 5; 11; 6; 8; 13; 12; 5; 12; 13; 14; 11; 8; 5; 6 ].
Definition s2 : list Z :=
  [ 8; 9; 9; 11; 13; 15; 15; 5; 7; 7; 8; 11; 14; 14; 12; 6;
    9; 13; 15; 7; 12; 8; 9; 11; 7; 7; 12; 7; 6; 15; 13; 11;
    9; 7; 15; 11; 8; 6; 6; 14; 12; 13; 5; 14; 13; 13; 7; 5;
    15; 5; 8; 11; 14; 14; 6; 14; 6; 9; 12; 9; 12; 5; 15; 8;
    8; 5; 12; 9; 12; 5; 14; 6; 8; 13; 6; 5; 15; 13; 11; 11 ].

Definition bitsRotateLeft32 (x k : Z) : Z :=
  Z.lor (u32 (Z.shiftl x k)) (Z.shiftr x (32 - k)).

(** [^x] on uint32 *)
Definition not32 (x : Z) : Z := max32 - x.

Definition ripemdF (j x y z : Z) : Z :=
  if j <? 16 then Z.lxor (Z.lxor x y) z
  else if j <? 32 then Z.lor (Z.land x y) (Z.land (not32 x) z)
  else if j <? 48 then Z.lxor (Z.lor x (not32 y)) z
  else if j <? 64 then Z.lor (Z.land x z) (Z.land y (not32 z))
  else Z.lxor x (Z.lor y (not32 z)).

Definition ripemdK1 (j : Z) : Z :=
  if j <? 16 then 0
  else if j <? 32 then 0x5a827999
  else if j <? 48 then 0x6ed9eba1
  else if j <? 64 then 0x8f1bbcdc
  else 0xa953fd4e.

Definition ripemdK2 (j : Z) : Z :=
  if j <? 16 then 0x50a28be6
  else if j <? 32 then 0x5c4dd124
  else if j <? 48 then 0x6d703ef3
  else if j <? 64 then 0x7a6d76e9
  else 0.

(** The five words h0..h4, and the five of a line. *)
Record five := Five { v0 : Z; v1 : Z; v2 : Z; v3 : Z; v4 : Z }.

Definition ripemd_init : five := Five 0x67452301 0xefcdab89 0x98badcfe 0x10325476 0xc3d2e1f0.

(** [tab[j]] *)
Definition at_index (tab : list Z) (j : Z) : Z := nth (Z.to_nat j) tab 0.

(** One assignment of a line: the function of round [f], the word, the constant
    and the rotation are those of round [j]. *)
Definition line_step (f j k word shift : Z) (l : five) : five :=
  let '(Five a b c d e) := l in
  let t := u32 (bitsRotateLeft32 (u32 (a + ripemdF f b c d + word + k)) shift + e) in
  Five e t b (bitsRotateLeft32 c 10) d.

(** One iteration of [for j := 0; j < 80; j++] on both lines. *)
Definition ripemd_round (x : list Z) (ll : five * five) (j : Z) : five * five :=
  (line_step j j (ripemdK1 j) (at_index x (at_index r1 j)) (at_index s1 j) ll.1,
   line_step (79 - j) j (ripemdK2 j) (at_index x (at_index r2 j)) (at_index s2 j) ll.2).

(** [x[i] = binary.LittleEndian.Uint32(data[i*4:])] *)
Definition block_words (data : bytes) : list Z :=
  (fun i => le_val (take 4 (drop (i * 4) data))) <$> seq 0 16.

Definition ripemd_block (h : five) (data : bytes) : five :=
  let x := block_words data in
  let ll := foldl (ripemd_round x) (h, h) (seqZ 0 80) in
  let '(Five a b c d e) := ll.1 in
  let '(Five aa bb cc dd ee) := ll.2 in
  Five (u32 (v1 h + c + dd)) (u32 (v2 h + d + ee)) (u32 (v3 h + e + aa))
       (u32 (v4 h + a + bb)) (u32 (v0 h + b + cc)).

(** [for len(data)%64 != 56 { data = append(data, 0) }] *)
Fixpoint pad_loop (fuel : nat) (data : bytes) : option bytes :=
  match fuel with
  | O => None
  | S fuel => if len data mod 64 =? 56 then Some data else pad_loop fuel (data ++ [0])
  end.

(** [for len(data) > 0 { ...; data = data[64:] }] *)
Fixpoint block_loop (fuel : nat) (h : five) (data : bytes) : option five :=
  match fuel, data with
  | _, [] => Some h
  | O, _ => None
  | S fuel, _ => block_loop fuel (ripemd_block h data) (drop 64 data)
  end.

Definition ripemd_out (h : five) : bytes :=
  le_bytes 4 (v0 h) ++ le_bytes 4 (v1 h) ++ le_bytes 4 (v2 h) ++ le_bytes 4 (v3 h) ++ le_bytes 4 (v4 h).

(** [None]: a loop has not ended on its fuel. *)
Definition ripemd_fuel (fuel : nat) (msg : bytes) : option bytes :=
  let bitLen := u64 (len msg * 8) in
  data ← pad_loop 64 (msg ++ [0x80]);
  h ← block_loop fuel ripemd_init (data ++ le_bytes 8 bitLen);
  Some (ripemd_out h).

Definition ripemd160Digest (msg : bytes) : bytes :=
  default [] (ripemd_fuel (S (S (length msg))) msg).

(** ** The loops end *)

Lemma pad_loop_ends data :
  exists z, pad_loop 64 data = Some (data ++ replicate z 0) /\ (z < 64)%nat
            /\ ((length data + z) mod 64 = 56)%nat.
Proof.
  set (z := ((56 + 64 - length data mod 64) mod 64)%nat).
  assert (z < 64)%nat as Hz by (apply Nat.mod_upper_bound; lia).
  assert ((length data + z) mod 64 = 56)%nat as Hm.
  { unfold z. pose proof (Nat.mod_upper_bound (length data) 64 ltac:(lia)).
    rewrite Nat.Div0.add_mod_idemp_r.
    pose proof (Nat.div_mod_eq (length data) 64) as E.
    replace (length data + (56 + 64 - length data mod 64))%nat
      with (56 + (length data / 64 + 1) * 64)%nat by lia.
    by rewrite Nat.Div0.mod_add. }
  exists z. split; [|done]. clearbody z.
  assert (forall n fuel d, (n < 64)%nat -> (n < fuel)%nat -> ((length d + n) mod 64 = 56)%nat ->
            pad_loop fuel d = Some (d ++ replicate n 0)) as H; [|by apply H].
  clear data z Hz Hm. induction n as [|n IH]; intros fuel d Hn Hf Hm; (destruct fuel as [|fuel]; [lia|]);
    simpl; unfold len.
  - rewrite Nat.add_0_r in Hm. rewrite app_nil_r.
    replace (Z.of_nat (length d) mod 64) with 56; [done|].
    apply (f_equal Z.of_nat) in Hm. by rewrite Nat2Z.inj_mod in Hm.
  - destruct (Z.eqb_spec (Z.of_nat (length d) mod 64) 56) as [E|_].
    + exfalso. apply (f_equal Z.of_nat) in Hm. rewrite Nat2Z.inj_mod, Nat2Z.inj_add in Hm.
      rewrite <- Zplus_mod_idemp_l in Hm. change (Z.of_nat 64) with 64 in Hm. rewrite E in Hm.
      Z.div_mod_to_equations. lia.
    + rewrite IH; [by rewrite <- app_assoc | lia | lia |].
      rewrite length_app. simpl. by replace (length d + 1 + n)%nat with (length d + S n)%nat by lia.
Qed.

Lemma block_words_take data : block_words (take 64 data) = block_words data.
Proof.
  unfold block_words. apply list_fmap_ext. intros i x Hx%lookup_seq. f_equal.
  rewrite skipn_firstn_comm, take_take. f_equal. lia.
Qed.

Lemma ripemd_block_take h data : ripemd_block h (take 64 data) = ripemd_block h data.
Proof. unfold ripemd_block. by rewrite block_words_take. Qed.

Lemma block_loop_blocks n fuel h data :
  length data = (64 * n)%nat -> (n <= fuel)%nat ->
  block_loop fuel h data = Some (foldl ripemd_block h (blocks n data)).
Proof.
  revert fuel h data. induction n as [|n IH]; intros fuel h data Hl Hf.
  { apply length_zero_iff_nil in Hl as ->. by destruct fuel. }
  destruct fuel as [|fuel]; [lia|]. destruct data as [|v data]; [simpl in Hl; lia|].
  set (d := v :: data) in *. change (block_loop (S fuel) h d) with
    (block_loop fuel (ripemd_block h d) (drop 64 d)).
  rewrite IH; [|rewrite length_drop; lia | lia].
  change (blocks (S n) d) with (take 64 d :: blocks n (drop 64 d)). cbn [foldl].
  by rewrite ripemd_block_take.
Qed.

(** The message with its padding: 0x80, [z] zeros, the length in bits. *)
Definition ripemd_padded (msg : bytes) (z : nat) : bytes :=
  msg ++ [0x80] ++ replicate z 0 ++ le_bytes 8 (u64 (len msg * 8)).

Lemma ripemd_padded_length msg z :
  length (ripemd_padded msg z) = (length msg + 1 + z + 8)%nat.
Proof.
  unfold ripemd_padded. rewrite !length_app, length_replicate, le_bytes_length. simpl. lia.
Qed.

(** Both loops end, with the zeros that fill the last block, and the digest is
    the fold of the compression over the blocks of the padded message. *)
Lemma ripemd160_fold msg :
  exists z n, (z < 64)%nat /\ length (ripemd_padded msg z) = (64 * n)%nat /\
    ripemd160Digest msg = ripemd_out (foldl ripemd_block ripemd_init (blocks n (ripemd_padded msg z))).
Proof.
  destruct (pad_loop_ends (msg ++ [0x80])) as (z & Hp & Hz & Hm).
  rewrite length_app in Hm. cbn [length] in Hm.
  set (n := ((length msg + 1 + z) / 64 + 1)%nat).
  assert (length (ripemd_padded msg z) = (64 * n)%nat) as Hl.
  { rewrite ripemd_padded_length. unfold n.
    pose proof (Nat.div_mod_eq (length msg + 1 + z) 64). lia. }
  exists z, n. split; [done|]. split; [done|].
  unfold ripemd160Digest, ripemd_fuel. rewrite Hp. cbn [mbind option_bind].
  assert (((msg ++ [0x80]) ++ replicate z 0) ++ le_bytes 8 (u64 (len msg * 8)) = ripemd_padded msg z)
    as -> by (unfold ripemd_padded; by rewrite <- !app_assoc).
  rewrite (block_loop_blocks n); [done | done |].
  rewrite ripemd_padded_length in Hl. lia.
Qed.

Lemma ripemd_out_length h : length (ripemd_out h) = 20%nat.
Proof. unfold ripemd_out. by rewrite !length_app, !le_bytes_length. Qed.
Lemma ripemd_out_wf h : bytes_wf (ripemd_out h).
Proof. unfold ripemd_out. rewrite !bytes_wf_app. split_and!; apply le_bytes_wf. Qed.

Lemma ripemd160_length msg : length (ripemd160Digest msg) = 20%nat.
Proof. destruct (ripemd160_fold msg) as (z & n & _ & _ & ->). apply ripemd_out_length. Qed.
Lemma ripemd160_wf msg : bytes_wf (ripemd160Digest msg).
Proof. destruct (ripemd160_fold msg) as (z & n & _ & _ & ->). apply ripemd_out_wf. Qed.

(** Test vectors of the algorithm's authors, and the one of crypto_test.go. *)
Example ripemd160_empty :
  hex_encode (ripemd160Digest []) = str "9c1185a5c5e9fc54612808977ee8f548b2258d31".
Proof. vm_compute. reflexivity. Qed.
Example ripemd160_abc :
  hex_encode (ripemd160Digest (str "abc")) = str "8eb208f7e05d987a9b044a8e98c6b087f15a0bfc".
Proof. vm_compute. reflexivity. Qed.
Example ripemd160_two_blocks :
  hex_encode (ripemd160Digest (str "abcdbcdecdefdefgefghfghighijhijkijkljklmklmnlmnomnopnopq"))
  = str "12a053384a9c0c88e405a06c27dcf49ada62eb2b".
Proof. vm_compute. reflexivity. Qed.

(** ** Hash160 *)

Section Hash160.
Context {HF : HashFunction}.

Definition Hash160 (b : bytes) : bytes := ripemd160Digest (sha256 b).

Lemma Hash160_length b : length (Hash160 b) = 20%nat.
Proof. apply ripemd160_length. Qed.
Lemma Hash160_wf b : bytes_wf (Hash160 b).
Proof. apply ripemd160_wf. Qed.
End Hash160.

Example hash160_empty :
  hex_encode (@Hash160 go_sha256 []) = str "b472a266d0bd89c13706a4132ccfb16f7c3b9fcb".
Proof. vm_compute. reflexivity. Qed.

#[export] Hint Resolve Hash160_length Hash160_wf : nevel.
