(* ===== verification/Keys.v ===== *)
(** * Keys: compressed public keys

    Models marshalCompressed and unmarshalCompressed of wallet/wallet.go and shows
    that they are inverse: a key decodes to a point exactly when it is the
    encoding of that point and the point is on the curve. *)

From Stdlib Require Import ZmodInv.
From S2P Require Import Prelude Encoding Primes Curve Secp256k1 BasePoint Ecdsa.

(** [z.FillBytes(make([]byte, n))]: a panic when [z] does not fit. *)
Definition FillBytes (n : nat) (z : Z) : option bytes :=
  if z <? 256 ^ Z.of_nat n then Some (be_bytes n z) else None.

(** [new(big.Int).Exp(x, y, m)] for [y >= 0]. *)
Definition Exp (x y m : Z) : Z :=
  match y with Z.pos e => pow_red (fun z => z mod m) (x mod m) e mod m | _ => 1 mod m end.

(** [y.Bit(0)] *)
Definition Bit0 (y : Z) : Z := y mod 2.

Definition marshalCompressed (A : Point) : option bytes :=
  '(x, y) ← A;
  out ← FillBytes 32 x;
  Some ((if Bit0 y =? 0 then 0x02 else 0x03) :: out).

Definition unmarshalCompressed (pub : bytes) : Point :=
  match pub with
  | b0 :: rest =>
      if negb (len pub =? 33) || (negb (b0 =? 0x02) && negb (b0 =? 0x03)) then None
      else
        let p := secp256k1.(P) in
        let x := be_val rest in
        if p <=? x then None
        else
          let y2 := (x * x * x + 7) mod p in
          let exponent := Z.shiftr (p + 1) 2 in
          let y := Exp y2 exponent p in
          let y := if negb (Bit0 y =? Z.land b0 1) then p - y else y in
          if IsOnCurve secp256k1 (Some (x, y)) then Some (x, y) else None
  | [] => None
  end.

(** ** Square roots modulo a prime that is 3 modulo 4 *)

Lemma Exp_pow x y m : 0 <= y -> Exp x y m = x ^ y mod m.
Proof.
  intros Hy. unfold Exp. destruct y as [|e|e]; [done| |lia].
  transitivity (pow_red (fun z => z mod m) (x mod m) e mod m); [done|].
  change (cong m (pow_red (fun z => z mod m) (x mod m) e) (x ^ Z.pos e)).
  rewrite pow_red_cong by (intros; apply mod_cong). apply cong_pow; [lia | apply mod_cong].
Qed.

Section Root.
Context (p : Z) (Hp : Z.prime p) (Hp4 : p mod 4 = 3).
#[local] Set Default Proof Using "All".

Lemma root_square y : cong p (((y * y) ^ ((p + 1) / 4)) * ((y * y) ^ ((p + 1) / 4))) (y * y).
Proof.
  assert (1 < p) by apply Hp. set (h := (p + 1) / 4).
  assert (4 * h = p + 1) as Eh by (unfold h; Z.div_mod_to_equations; lia).
  assert (0 < h) by lia.
  replace ((y * y) ^ h * (y * y) ^ h) with (y * y * y ^ (p - 1)).
  2: { rewrite <- Z.pow_2_r, <- !Z.pow_mul_r, <- !Z.pow_add_r by lia. f_equal. lia. }
  destruct (decide (y mod p = 0)) as [E|E].
  - assert (cong p y 0) as Ey by (unfold cong; by rewrite E, Zmod_0_l).
    rewrite <- Z.mul_assoc. transitivity (0 * (y * y ^ (p - 1))).
    { apply cong_mul; [exact Ey | reflexivity]. }
    rewrite Z.mul_0_l, <- (Z.mul_0_l y). apply cong_mul; [by symmetry | reflexivity].
  - assert (cong p (y ^ (p - 1)) 1) as Ef.
    { unfold cong. rewrite (Z.fermat_nz p y Hp E). rewrite Z.mod_small; lia. }
    rewrite Ef. unfold cong. f_equal. lia.
Qed.

(** The two roots are opposite. *)
Lemma roots_opposite y z :
  0 <= y < p -> 0 <= z < p -> cong p (z * z) (y * y) -> z = y \/ z = p - y.
Proof.
  intros Hy Hz E. assert (1 < p) by apply Hp. apply cong_divide in E; [|lia].
  replace (z * z - y * y) with ((z - y) * (z + y)) in E by lia.
  apply (Z.divide_prime_mul _ _ _ Hp) in E as [[k E]|[k E]].
  - assert (k = 0) as -> by nia. lia.
  - assert (k = 0 \/ k = 1) as [-> | ->] by nia; lia.
Qed.

Lemma odd_p : p mod 2 = 1.
Proof. Z.div_mod_to_equations. lia. Qed.

(** The root with the parity of [y] is [y]. *)
Lemma root_parity y :
  0 <= y < p ->
  let z := ((y * y) mod p) ^ ((p + 1) / 4) mod p in
  (if negb (Bit0 z =? Bit0 y) then p - z else z) = y.
Proof.
  intros Hy z. assert (1 < p) by apply Hp.
  assert (0 <= z < p) as Hz by (apply Z.mod_pos_bound; lia).
  assert (0 < (p + 1) / 4) by (Z.div_mod_to_equations; lia).
  assert (cong p (z * z) (y * y)) as E.
  { unfold z. rewrite mod_cong. rewrite (cong_pow p ((y * y) mod p) (y * y)); [|lia|apply mod_cong].
    apply root_square. }
  unfold Bit0. pose proof odd_p as Ho.
  destruct (roots_opposite y z Hy Hz E) as [->| ->].
  - by rewrite Z.eqb_refl.
  - destruct (Z.eqb_spec ((p - y) mod 2) (y mod 2)) as [Ep|_]; simpl; [|lia].
    exfalso. clear -Ho Ep. Z.div_mod_to_equations. lia.
Qed.
End Root.

(** ** Encoding and decoding *)

Abbreviation p := secp256k1.(P).

Lemma p_mod_4 : p mod 4 = 3.
Proof. by vm_compute. Qed.
Lemma p_fits : 1 < p < 256 ^ Z.of_nat 32.
Proof. by vm_compute. Qed.
Lemma p_exponent : Z.shiftr (p + 1) 2 = (p + 1) / 4.
Proof. by vm_compute. Qed.

#[local] Opaque secp256k1.

(** The two bytes a compressed key starts with. *)
Lemma parity_byte b0 :
  b0 = 0x02 \/ b0 = 0x03 -> (if Z.land b0 1 =? 0 then 0x02 else 0x03) = b0 /\ 0 <= Z.land b0 1 < 2.
Proof. by intros [-> | ->]. Qed.

Lemma Bit0_cases y : Bit0 y = 0 \/ Bit0 y = 1.
Proof. unfold Bit0. pose proof (Z.mod_pos_bound y 2 ltac:(lia)). lia. Qed.

Lemma IsOnCurve_range x y :
  IsOnCurve secp256k1 (Some (x, y)) = true ->
  0 <= x < p /\ 0 <= y < p /\ (y * y) mod p = (x * x * x + secp256k1.(B)) mod p.
Proof.
  unfold IsOnCurve. destruct (_ || _) eqn:E; [done|]. breflect. intros Hy. breflect. lia.
Qed.

Lemma marshal_on_curve x y :
  IsOnCurve secp256k1 (Some (x, y)) = true ->
  marshalCompressed (Some (x, y)) = Some ((if Bit0 y =? 0 then 0x02 else 0x03) :: be_bytes 32 x).
Proof.
  intros (Hx & _)%IsOnCurve_range. pose proof p_fits. unfold marshalCompressed, FillBytes.
  cbn [mbind option_bind]. rewrite (proj2 (Z.ltb_lt _ _)) by lia. done.
Qed.

Lemma unmarshal_marshal x y pub :
  IsOnCurve secp256k1 (Some (x, y)) = true -> marshalCompressed (Some (x, y)) = Some pub ->
  unmarshalCompressed pub = Some (x, y).
Proof.
  intros Hon. rewrite (marshal_on_curve x y Hon). intros [= <-].
  pose proof (IsOnCurve_range x y Hon) as (Hx & Hy & Eq). pose proof p_fits.
  unfold unmarshalCompressed. set (b0 := if _ =? 0 then 0x02 else 0x03).
  assert (Z.land b0 1 = Bit0 y) as Eb.
  { unfold b0. by destruct (Bit0_cases y) as [-> | ->]. }
  assert (negb (len (b0 :: be_bytes 32 x) =? 33) || (negb (b0 =? 0x02) && negb (b0 =? 0x03)) = false) as ->.
  { unfold len. cbn [length]. rewrite be_bytes_length. unfold b0. by destruct (Bit0 y =? 0). }
  cbv zeta. rewrite be_roundtrip by lia. rewrite (proj2 (Z.leb_gt _ _)) by lia.
  change 7 with (secp256k1.(B)). rewrite <- Eq.
  rewrite p_exponent, Exp_pow by (apply Z.div_pos; lia). rewrite Eb.
  rewrite (root_parity p field_prime_prime p_mod_4 y Hy). by rewrite Hon.
Qed.

Lemma unmarshal_Some pub x y :
  bytes_wf pub -> unmarshalCompressed pub = Some (x, y) ->
  IsOnCurve secp256k1 (Some (x, y)) = true /\ marshalCompressed (Some (x, y)) = Some pub.
Proof.
  intros Hw. unfold unmarshalCompressed. destruct pub as [|b0 rest]; [done|].
  destruct (_ || _) eqn:E1; [done|]. cbv zeta. destruct (p <=? be_val rest) eqn:E2; [done|].
  set (z := Exp _ _ _). set (y' := if negb _ then _ else _).
  destruct (IsOnCurve _ _) eqn:Hon; [|done]. intros [= <- <-]. split; [done|].
  rewrite (marshal_on_curve _ _ Hon). apply IsOnCurve_range in Hon as (Hx & Hy & _).
  apply orb_false_iff in E1 as [E1 E3]. breflect.
  assert (b0 = 0x02 \/ b0 = 0x03) as Hb0.
  { apply andb_false_iff in E3 as [E|E]; breflect; tauto. }
  destruct (parity_byte b0 Hb0) as [Hpar Hl].
  apply Forall_cons in Hw as [_ Hrest]. rewrite len_cons in E1. unfold len in E1.
  replace 32%nat with (length rest) by lia. rewrite be_bytes_val by done. f_equal. f_equal.
  etransitivity; [|exact Hpar]. pose proof (odd_p p field_prime_prime p_mod_4) as Ho.
  assert (Bit0 y' = Z.land b0 1) as ->; [|done].
  unfold y'. destruct (Z.eqb_spec (Bit0 z) (Z.land b0 1)) as [|Hne]; [done|]. simpl.
  destruct (Bit0_cases z) as [Ez|Ez]; unfold Bit0 in *; clear -Ho Ez Hne Hl; Z.div_mod_to_equations; lia.
Qed.
