(* ===== verification/Wallet.v ===== *)
(** * Wallet: keys, addresses and signatures of transactions

    Models wallet/wallet.go (addresses are in [Bech32], compressed keys in
    [Keys], the digest in [Ripemd160], crypto/ecdsa in [Ecdsa]).  A computation of
    the wallet returns, fails with an error, or panics: [go A].  The theorems are
    those a node and its users rely on: every wallet that can be made has a key
    pair and an address that belong together, what a wallet signs the verifier
    accepts, what the verifier accepts is a signature of the key the output is
    locked to, and which signatures make the verifier panic. *)

From S2P Require Import Prelude Encoding Sha256 Tx Consensus Bech32 Primes.
From S2P Require Import Secp256k1 Ecdsa BasePoint Ripemd160 Keys.

(** ** Results that may panic *)

Definition go (A : Type) : Type := option (result A).
Definition go_bind {A B} (m : go A) (f : A -> go B) : go B :=
  match m with
  | None => None
  | Some (Err e) => Some (Err e)
  | Some (Ok a) => f a
  end.
Notation "x ←! m ; k" := (go_bind m (fun x => k))
  (at level 20, m at level 100, k at level 200, right associativity).
(** A value that is no panic, and one that is no error. *)
Definition no_panic {A} (r : result A) : go A := Some r.
Definition no_error {A} (o : option A) : go A := Ok <$> o.

Lemma go_bind_Ok {A B} (m : go A) (f : A -> go B) b :
  go_bind m f = Some (Ok b) <-> exists a, m = Some (Ok a) /\ f a = Some (Ok b).
Proof. destruct m as [[a|e]|]; simpl; naive_solver. Qed.

#[export] Instance secp256k1_signing : SigningCurve secp256k1.
Proof.
  split; [apply secp256k1_valid | apply secp256k1_order_prime | apply base_point_order].
Qed.

#[local] Opaque secp256k1.

(** ** The group the curve is used for *)

(** C16: The point addition of the curve returns the sum, with a panic only for two
    points at infinity; the points of the curve are closed under it, and it is
    commutative, associative and has inverses. *)
Theorem curve_group A1 A2 A3 :
  let point A := A = None \/ IsOnCurve secp256k1 A = true in
  let sum := plus secp256k1 in
  point A1 -> point A2 -> point A3 ->
  (Add secp256k1 A1 A2 = (if decide (A1 = None /\ A2 = None) then None else Some (sum A1 A2))) /\
  point (sum A1 A2) /\ sum A1 A2 = sum A2 A1 /\ sum A1 (sum A2 A3) = sum (sum A1 A2) A3 /\
  (exists A', point A' /\ sum A1 A' = None).
Proof.
  cbv zeta. rewrite <- !(valid_spec secp256k1). intros V1 V2 V3. split_and!.
  - destruct (decide _) as [[-> ->]|Hn]; [done|]. apply (Add_plus secp256k1); [done..|].
    destruct A1; [by left|]. right. naive_solver.
  - by apply (valid_plus secp256k1).
  - by apply (plus_comm secp256k1).
  - by apply (plus_assoc secp256k1).
  - exists (minus secp256k1 A1). rewrite <- (valid_spec secp256k1).
    split; [by apply (valid_minus secp256k1) | by apply (plus_minus secp256k1)].
Qed.

(** C17: Double-and-add over the bytes of a scalar computes the repeated sum of the
    point, and a multiple of the base point is the point at infinity exactly when the
    scalar is a multiple of the order. *)
Theorem scalar_mult_multiple A k :
  IsOnCurve secp256k1 A = true -> bytes_wf k ->
  ScalarMult secp256k1 A k = Some (multiple secp256k1 (be_val k) A) /\
  (ScalarBaseMult secp256k1 k = Some None <-> be_val k mod secp256k1.(N) = 0).
Proof.
  intros HA Hk. split.
  { apply (ScalarMult_multiple secp256k1); [apply (valid_spec secp256k1); by right | by intros -> | done]. }
  unfold ScalarBaseMult.
  rewrite (ScalarMult_multiple secp256k1) by (done || apply (G_point secp256k1)).
  rewrite <- (multiple_G_nil secp256k1) by by apply be_val_bound.
  split; [by intros [= ->] | by intros ->].
Qed.

(** ** The code *)

Record Wallet := mkWallet {
  w_PrivateKey : PrivateKey;
  w_PublicKey : bytes;
  w_Address : bytes;
  w_Prefix : bytes;
}.

Definition PrivateKeyHex (priv : PrivateKey) : bytes := hex_encode (big_bytes priv.(D)).

Section Code.
Context {HF : HashFunction}.

Definition AddressFromPublicKey (pub prefix : bytes) : result bytes :=
  fiveBit ← convertBits (Hash160 pub) 8 5 true;
  bech32Encode prefix fiveBit.

Definition FromPrivateKey (priv : PrivateKey) (prefix : bytes) : go Wallet :=
  pub ←! no_error (marshalCompressed priv.(X));
  addr ←! no_panic (AddressFromPublicKey pub prefix);
  Some (Ok (mkWallet priv pub addr prefix)).

Definition New (prefix rand : bytes) : go (Wallet * bytes) :=
  kr ←! GenerateKey secp256k1 rand;
  w ←! FromPrivateKey kr.1 prefix;
  Some (Ok (w, kr.2)).

Definition FromHexPrivateKey (h prefix : bytes) : go Wallet :=
  b ←! no_panic (hex_decode h);
  A ←! no_error (ScalarBaseMult secp256k1 b);
  FromPrivateKey (mkPrivateKey (be_val b) A) prefix.

Definition clear_input (i : Input) : Input :=
  mkInput (in_PrevTxHash i) (in_OutputIdx i) [] [].

Definition set_signature (sig : bytes) (i : Input) : Input :=
  mkInput (in_PrevTxHash i) (in_OutputIdx i) sig (in_PublicKey i).

Definition with_inputs (t : Transaction) (ins : list Input) : Transaction :=
  mkTransaction (tx_Version t) ins (tx_Outputs t) (tx_LockTime t).

(** [0 <= inputIndex < len(t.Inputs)] *)
Definition in_range (t : Transaction) (inputIndex : Z) : bool :=
  negb (inputIndex <? 0) && negb (len (tx_Inputs t) <=? inputIndex).

Definition SignatureHash (t : Transaction) (inputIndex : Z) (script : bytes) : bytes :=
  let ins := clear_input <$> tx_Inputs t in
  let ins := if in_range t inputIndex then alter (set_signature script) (Z.to_nat inputIndex) ins else ins in
  sha256 (sha256 (SerializeTransaction (with_inputs t ins))).

(** The transaction with the signature and key of one input replaced. *)
Definition put_signature (t : Transaction) (i : nat) (sig pub : bytes) : Transaction :=
  with_inputs t (alter (fun inp => mkInput (in_PrevTxHash inp) (in_OutputIdx inp) sig pub) i (tx_Inputs t)).

(** The signed transaction and the rest of the randomness. *)
Definition SignInput (w : Wallet) (t : Transaction) (inputIndex : Z) (script rand : bytes)
  : go (Transaction * bytes) :=
  if negb (in_range t inputIndex) then Some (Err (Errorf "input out of range"))
  else
    let h := SignatureHash t inputIndex script in
    rs ←! Sign secp256k1 (w_PrivateKey w) h rand;
    rb ←! no_error (FillBytes 32 rs.1.1);
    sb ←! no_error (FillBytes 32 rs.1.2);
    Some (Ok (put_signature t (Z.to_nat inputIndex) (rb ++ sb) (w_PublicKey w), rs.2)).

(** [None]: the verification panics. *)
Definition VerifyTransactionInput (t : Transaction) (inputIndex : Z) (script : bytes) : option bool :=
  if negb (in_range t inputIndex) then Some false
  else
    match ExtractPubKeyHash script with
    | None => Some false
    | Some want =>
        match tx_Inputs t !! Z.to_nat inputIndex with
        | None => Some false
        | Some inp =>
            if negb (bool_decide (Hash160 (in_PublicKey inp) = want)) then Some false
            else
              match unmarshalCompressed (in_PublicKey inp) with
              | None => Some false
              | Some A =>
                  if negb (len (in_Signature inp) =? 64) then Some false
                  else
                    let r := be_val (take 32 (in_Signature inp)) in
                    let s := be_val (drop 32 (in_Signature inp)) in
                    let h := SignatureHash t inputIndex script in
                    Verify secp256k1 (Some A) h r s
              end
        end
    end.

(** The verifier as consensus/consensus.go calls it.  A panic, which
    [verifier_outcomes] characterises, ends the call in the source; the boolean
    interface of the rules has no such outcome, so here the input is refused. *)
Definition Verifier : SignatureVerifier :=
  Some (fun t i script => default false (VerifyTransactionInput t (Z.of_nat i) script)).
End Code.

(** ** Wallets are well formed *)

Section Correct.
Context {HF : HashFunction}.

Abbreviation n := secp256k1.(N).
Abbreviation G := (Some (secp256k1.(Gx), secp256k1.(Gy))).

(** The key pair and the address belong together. *)
Definition wallet_ok (w : Wallet) : Prop :=
  key_ok secp256k1 (w_PrivateKey w) /\
  marshalCompressed (X (w_PrivateKey w)) = Some (w_PublicKey w) /\
  AddressFromPublicKey (w_PublicKey w) (w_Prefix w) = Ok (w_Address w).

Lemma key_on_curve priv : key_ok secp256k1 priv -> IsOnCurve secp256k1 (X priv) = true.
Proof. intros (_ & HX & Hne). rewrite HX in Hne |- *. by apply (valid_point secp256k1). Qed.

Lemma wallet_public_key w :
  wallet_ok w -> unmarshalCompressed (w_PublicKey w) = X (w_PrivateKey w)
                 /\ length (w_PublicKey w) = 33%nat /\ bytes_wf (w_PublicKey w).
Proof.
  intros (Hk & Hm & _). apply key_on_curve in Hk. destruct (X (w_PrivateKey w)) as [[x y]|]; [|done].
  split; [by apply unmarshal_marshal|]. rewrite (marshal_on_curve x y Hk) in Hm. injection Hm as <-.
  simpl. rewrite be_bytes_length. split; [done|]. constructor; [|apply be_bytes_wf].
  by destruct (Bit0 y =? 0).
Qed.

Lemma address_total pub prefix :
  bytes_wf prefix -> prefix <> [] -> exists addr, AddressFromPublicKey pub prefix = Ok addr.
Proof.
  intros Hw Hp. unfold AddressFromPublicKey.
  destruct (convertBits_roundtrip (Hash160 pub) (Hash160_wf pub)) as (five & -> & Hd & _). csimpl.
  destruct (checksum_verifies prefix five Hw Hd) as [Hc _].
  unfold bech32Encode. destruct prefix as [|c0 prefix]; [done|].
  rewrite write_chars_Ok; [by eexists|]. by apply Forall_app.
Qed.

Lemma address_empty_prefix pub : exists e, AddressFromPublicKey pub [] = Err e.
Proof.
  unfold AddressFromPublicKey.
  destruct (convertBits_roundtrip (Hash160 pub) (Hash160_wf pub)) as (five & -> & _ & _).
  by eexists.
Qed.

(** What FromPrivateKey does with a key pair. *)
Lemma FromPrivateKey_spec priv prefix :
  bytes_wf prefix -> 0 <= D priv -> X priv = multiple secp256k1 (D priv) G ->
  match FromPrivateKey priv prefix with
  | None => D priv mod n = 0
  | Some (Err _) => D priv mod n <> 0 /\ prefix = []
  | Some (Ok w) => D priv mod n <> 0 /\ wallet_ok w /\ w_PrivateKey w = priv /\ w_Prefix w = prefix
  end.
Proof.
  intros Hw Hd HX. unfold FromPrivateKey.
  pose proof (multiple_G_nil secp256k1 (D priv) Hd) as Hnil. rewrite <- HX in Hnil.
  destruct (decide (X priv = None)) as [E|Hne].
  { rewrite E. simpl. tauto. }
  assert (key_ok secp256k1 priv) as Hk by done.
  pose proof (key_on_curve priv Hk) as Hon.
  destruct (marshalCompressed (X priv)) as [pub|] eqn:Em.
  2: { destruct (X priv) as [[x y]|]; [|done]. by rewrite (marshal_on_curve x y Hon) in Em. }
  simpl. destruct (decide (prefix = [])) as [->|Hp].
  { destruct (address_empty_prefix pub) as [e ->]. simpl. tauto. }
  destruct (address_total pub prefix Hw Hp) as [addr Ha]. rewrite Ha. simpl.
  split; [tauto|]. by split_and!.
Qed.

(** FromHexPrivateKey panics exactly on the keys that are 0 modulo the order. *)
Lemma FromHexPrivateKey_spec h prefix :
  bytes_wf prefix ->
  match FromHexPrivateKey h prefix with
  | Some (Ok w) =>
      exists b, hex_decode h = Ok b /\ D (w_PrivateKey w) = be_val b /\ be_val b mod n <> 0 /\
                wallet_ok w /\ w_Prefix w = prefix
  | Some (Err _) => (exists e, hex_decode h = Err e) \/ prefix = []
  | None => exists b, hex_decode h = Ok b /\ be_val b mod n = 0
  end.
Proof.
  intros Hw. unfold FromHexPrivateKey. destruct (hex_decode h) as [b|e] eqn:Eh; [|simpl; eauto].
  apply hex_decode_wf in Eh as Hb. simpl. unfold ScalarBaseMult.
  rewrite (ScalarMult_multiple secp256k1) by (done || apply (G_point secp256k1)). simpl.
  pose proof (be_val_bound b Hb) as [Hnn _].
  pose proof (FromPrivateKey_spec (mkPrivateKey (be_val b) (multiple secp256k1 (be_val b) G)) prefix
                Hw Hnn eq_refl) as H.
  destruct (FromPrivateKey _ _) as [[w|e]|]; [|right; tauto | eauto].
  destruct H as (Hn & Hok & Hk & Hp). exists b. by rewrite Hk.
Qed.

(** The panic does not depend on the prefix. *)
Lemma FromHex_panics h prefix :
  FromHexPrivateKey h prefix = None <-> exists b, hex_decode h = Ok b /\ be_val b mod n = 0.
Proof.
  unfold FromHexPrivateKey. destruct (hex_decode h) as [b|e] eqn:Eh; [|split; [done | by intros (? & ? & _)]].
  apply hex_decode_wf in Eh as Hb. cbn [no_panic go_bind]. unfold ScalarBaseMult.
  rewrite (ScalarMult_multiple secp256k1) by (done || apply (G_point secp256k1)).
  cbn [no_error fmap option_fmap option_map go_bind]. pose proof (be_val_bound b Hb) as [Hnn _].
  transitivity (be_val b mod n = 0); [|naive_solver]. rewrite <- (multiple_G_nil secp256k1) by done.
  unfold FromPrivateKey. cbn [X]. destruct (multiple secp256k1 (be_val b) G) as [[x y]|] eqn:E; [|done].
  assert (IsOnCurve secp256k1 (Some (x, y)) = true) as Hon.
  { rewrite <- E. apply (valid_point secp256k1). by rewrite E. }
  rewrite (marshal_on_curve x y Hon). cbn [no_error fmap option_fmap option_map go_bind].
  by destruct (AddressFromPublicKey _ _).
Qed.

(** A new wallet: a panic is impossible. *)
Lemma GeneratedWallet_ok prefix rand :
  bytes_wf prefix -> bytes_wf rand ->
  match New prefix rand with
  | Some (Ok (w, _)) => wallet_ok w /\ w_Prefix w = prefix
  | Some (Err e) => e = ErrEOF \/ e = ErrUnexpectedEOF \/ prefix = []
  | None => False
  end.
Proof.
  intros Hw Hr. unfold New, GenerateKey.
  pose proof (randFieldElement_reads secp256k1 (S (length rand)) rand) as Hu.
  destruct (randFieldElement _ _ _) as [[k rest]|e] eqn:E; [|simpl; tauto]. clear Hu.
  apply (randFieldElement_range secp256k1) in E as [[Hk1 Hk2] _]; [|done].
  unfold ScalarBaseMult.
  rewrite (ScalarMult_multiple secp256k1) by (done || apply (G_point secp256k1) || apply big_bytes_wf).
  rewrite be_val_big_bytes by lia. cbn [mbind option_bind go_bind fst snd].
  pose proof (FromPrivateKey_spec (mkPrivateKey k (multiple secp256k1 k G)) prefix Hw
                ltac:(simpl; lia) eq_refl) as H. cbn [D] in H.
  destruct (FromPrivateKey _ _) as [[w|e]|]; simpl; [tauto | tauto|].
  rewrite Z.mod_small in H; lia.
Qed.

(** The address of a wallet decodes to the hash of its key. *)
Lemma wallet_address w :
  wallet_ok w -> bytes_wf (w_Prefix w) -> ToLower (w_Prefix w) = w_Prefix w ->
  LockingScriptForAddress (w_Address w) (w_Prefix w) = Ok (ScriptForPubKeyHash (Hash160 (w_PublicKey w))).
Proof.
  intros (_ & _ & Ha) Hw Hl.
  destruct (convertBits_roundtrip (Hash160 (w_PublicKey w)) (Hash160_wf _)) as (five & E & Hd & Hback).
  unfold AddressFromPublicKey in Ha. rewrite E in Ha. csimpl in Ha.
  apply bech32_roundtrip in Ha; [|done..].
  unfold LockingScriptForAddress, DecodeAddress. rewrite Ha. csimpl.
  rewrite bool_decide_true by done. simpl. by rewrite Hback.
Qed.

(** ** Signatures *)

Lemma SignatureHash_wf t i script : bytes_wf (SignatureHash t i script).
Proof. apply sha256_wf. Qed.

Lemma clear_alter f (j : nat) (ins : list Input) :
  (forall x, clear_input (f x) = clear_input x) -> clear_input <$> alter f j ins = clear_input <$> ins.
Proof.
  intros Hf. apply list_eq. intros k. rewrite !list_lookup_fmap.
  destruct (decide (j = k)) as [->|Hne].
  - rewrite list_lookup_alter_eq. destruct (ins !! k) as [x|]; [exact (f_equal Some (Hf x)) | done].
  - by rewrite list_lookup_alter_ne.
Qed.

Lemma in_range_put t j sig pub i : in_range (put_signature t j sig pub) i = in_range t i.
Proof. unfold in_range, put_signature, len. simpl. by rewrite length_alter. Qed.

(** A signature does not change what the others sign. *)
Lemma SignatureHash_put t j sig pub i script :
  SignatureHash (put_signature t j sig pub) i script = SignatureHash t i script.
Proof.
  unfold SignatureHash. rewrite in_range_put. simpl. by rewrite clear_alter.
Qed.

Lemma in_range_lookup t i :
  in_range t i = true -> exists inp, tx_Inputs t !! Z.to_nat i = Some inp.
Proof.
  unfold in_range, len. intros H. breflect. apply lookup_lt_is_Some. lia.
Qed.

Lemma order_fits r : in_order secp256k1 r -> 0 <= r < 256 ^ Z.of_nat 32.
Proof.
  intros [H1 H2]. split; [lia|]. eapply Z.lt_trans; [exact H2|]. by vm_compute.
Qed.

Lemma FillBytes_order r : in_order secp256k1 r -> FillBytes 32 r = Some (be_bytes 32 r).
Proof. intros H%order_fits. unfold FillBytes. by rewrite (proj2 (Z.ltb_lt _ _)) by lia. Qed.

(** The 64 bytes of a signature. *)
Definition signature_bytes (r s : Z) : bytes := be_bytes 32 r ++ be_bytes 32 s.

Lemma signature_bytes_split r s :
  in_order secp256k1 r -> in_order secp256k1 s ->
  len (signature_bytes r s) = 64 /\ be_val (take 32 (signature_bytes r s)) = r
  /\ be_val (drop 32 (signature_bytes r s)) = s.
Proof.
  intros Hr%order_fits Hs%order_fits. unfold signature_bytes.
  rewrite take_app_length', drop_app_length' by (by rewrite be_bytes_length).
  rewrite !be_roundtrip by done. split; [|done].
  unfold len. by rewrite length_app, !be_bytes_length.
Qed.

(** The verifier on an input with the wallet's key and a signature in range. *)
Lemma verify_put w t i r s :
  wallet_ok w -> in_range t i = true -> in_order secp256k1 r -> in_order secp256k1 s ->
  let script := ScriptForPubKeyHash (Hash160 (w_PublicKey w)) in
  VerifyTransactionInput (put_signature t (Z.to_nat i) (signature_bytes r s) (w_PublicKey w)) i script
  = Verify secp256k1 (X (w_PrivateKey w)) (SignatureHash t i script) r s.
Proof.
  intros Hok Hi Hr Hs script. unfold VerifyTransactionInput. rewrite in_range_put, Hi.
  unfold script. rewrite ExtractPubKeyHash_Script. fold script.
  destruct (in_range_lookup t i Hi) as [inp E].
  unfold put_signature at 1. simpl. rewrite list_lookup_alter_eq, E. simpl.
  rewrite bool_decide_true by done. simpl.
  destruct (wallet_public_key w Hok) as (Hu & _ & _). rewrite Hu.
  destruct (X (w_PrivateKey w)) as [A|] eqn:EX; [|by destruct Hok as [(_ & _ & ?) _]].
  destruct (signature_bytes_split r s Hr Hs) as (-> & -> & ->). simpl.
  by rewrite SignatureHash_put.
Qed.

(** SignInput puts a signature that verifies, or reports the error of Sign. *)
Lemma SignInput_spec w t i rand :
  wallet_ok w -> bytes_wf rand ->
  let script := ScriptForPubKeyHash (Hash160 (w_PublicKey w)) in
  match SignInput w t i script rand with
  | None => False
  | Some (Err e) =>
      (in_range t i = false /\ e = Errorf "input out of range") \/
      (in_range t i = true /\ (e = ErrEOF \/ e = ErrUnexpectedEOF) /\
       Sign secp256k1 (w_PrivateKey w) (SignatureHash t i script) rand = Some (Err e))
  | Some (Ok (t', rest)) =>
      exists r s, in_range t i = true /\ in_order secp256k1 r /\ in_order secp256k1 s /\
        t' = put_signature t (Z.to_nat i) (signature_bytes r s) (w_PublicKey w) /\
        VerifyTransactionInput t' i script = Some true /\ bytes_wf rest /\ exists used, rand = used ++ rest
  end.
Proof.
  intros Hok Hr script. unfold SignInput. destruct (in_range t i) eqn:Hi; [|by left].
  simpl. pose proof (signLegacy_verifies secp256k1 (S (length rand)) (w_PrivateKey w)
    (SignatureHash t i script) rand (proj1 Hok) (SignatureHash_wf _ _ _) Hr) as H.
  pose proof (signLegacy_reads secp256k1 (S (length rand)) (w_PrivateKey w) (SignatureHash t i script) rand) as Hu.
  unfold Sign. destruct (signLegacy _ _ _ _ _) as [[[[r s] rest]|e]|]; [|by right|done].
  destruct H as (Hor & Hos & Hv & Hrest). simpl. rewrite !FillBytes_order by done. simpl.
  exists r, s. split_and!; try done.
  etransitivity; [|exact Hv]. apply (verify_put w t i r s Hok Hi Hor Hos).
Qed.

(** A signature changes nothing for the other inputs. *)
Lemma verify_put_ne t i j sig pub script :
  in_range t i = true -> j <> i ->
  VerifyTransactionInput (put_signature t (Z.to_nat i) sig pub) j script = VerifyTransactionInput t j script.
Proof.
  intros Hi Hj. unfold VerifyTransactionInput. rewrite in_range_put.
  destruct (in_range t j) eqn:Hij; [|done]. rewrite SignatureHash_put. simpl.
  rewrite list_lookup_alter_ne; [done|]. unfold in_range in Hi, Hij. breflect. lia.
Qed.

(** C4: Signing an input with a well-formed wallet, for the script of that wallet, never
    panics; it fails only for an index out of range or when the randomness ends, with
    the error of the reader, and otherwise the signed input verifies and every other
    input verifies, for whatever script, as before. *)
Theorem signed_input_verifies w t i rand :
  wallet_ok w -> bytes_wf rand ->
  let script := ScriptForPubKeyHash (Hash160 (w_PublicKey w)) in
  match SignInput w t i script rand with
  | None => False
  | Some (Err e) =>
      (in_range t i = false /\ e = Errorf "input out of range") \/
      (in_range t i = true /\ (e = ErrEOF \/ e = ErrUnexpectedEOF) /\
       Sign secp256k1 (w_PrivateKey w) (SignatureHash t i script) rand = Some (Err e))
  | Some (Ok (t', _)) =>
      VerifyTransactionInput t' i script = Some true /\
      (forall j script', j <> i -> VerifyTransactionInput t' j script' = VerifyTransactionInput t j script')
  end.
Proof.
  intros Hok Hr script. pose proof (SignInput_spec w t i rand Hok Hr) as H. cbv zeta in H. fold script in H.
  destruct (SignInput _ _ _ _ _) as [[[t' rest]|e]|]; [|done..].
  destruct H as (r & s & Hi & _ & _ & -> & Hv & _). split; [done|].
  intros j script' Hj. by apply verify_put_ne.
Qed.

(** The input holds the key its output is locked to, a point of the curve, and
    two numbers in range. *)
Definition decoded_signature (t : Transaction) (i : Z) (script : bytes) (A : Point) (r s : Z) : Prop :=
  exists inp, in_range t i = true /\ tx_Inputs t !! Z.to_nat i = Some inp /\
    script = ScriptForPubKeyHash (Hash160 (in_PublicKey inp)) /\
    unmarshalCompressed (in_PublicKey inp) = A /\ IsOnCurve secp256k1 A = true /\
    in_Signature inp = signature_bytes r s /\ in_order secp256k1 r /\ in_order secp256k1 s.

Lemma unmarshal_on_curve pub A : unmarshalCompressed pub = Some A -> IsOnCurve secp256k1 (Some A) = true.
Proof.
  unfold unmarshalCompressed. destruct pub as [|b0 rest]; [done|].
  intros H. repeat case_match; simplify_eq; done.
Qed.

Lemma ExtractPubKeyHash_Some script want :
  ExtractPubKeyHash script = Some want -> script = ScriptForPubKeyHash want.
Proof.
  unfold ExtractPubKeyHash. destruct (has_prefix _ _) eqn:E; [|done]. intros [= <-].
  apply has_prefix_spec in E as [u ->]. unfold ScriptForPubKeyHash. done.
Qed.

Lemma signature_bytes_join sig :
  bytes_wf sig -> len sig = 64 ->
  sig = signature_bytes (be_val (take 32 sig)) (be_val (drop 32 sig)).
Proof.
  intros Hw Hl. unfold len in Hl. unfold signature_bytes.
  assert (length (take 32 sig) = 32%nat) as H1 by (rewrite length_take; lia).
  assert (length (drop 32 sig) = 32%nat) as H2 by (rewrite length_drop; lia).
  pose proof (be_bytes_val (take 32 sig) ltac:(auto with nevel)) as E1. rewrite H1 in E1.
  pose proof (be_bytes_val (drop 32 sig) ltac:(auto with nevel)) as E2. rewrite H2 in E2.
  by rewrite E1, E2, take_drop.
Qed.

(** The verifier on a decoded signature is the check of the sum. *)
Lemma verify_decoded t i script A r s :
  decoded_signature t i script A r s ->
  VerifyTransactionInput t i script =
    match sum_point secp256k1 A (hashToInt secp256k1 (SignatureHash t i script)) r s with
    | None => None
    | Some (x, _) => Some (x mod n =? r)
    end.
Proof.
  intros (inp & Hi & E & -> & Hu & Hon & Hsig & Hr & Hs). unfold VerifyTransactionInput.
  rewrite Hi, ExtractPubKeyHash_Script, E. simpl. rewrite bool_decide_true by done. simpl. rewrite Hu.
  destruct A as [A|]; [|done].
  destruct (signature_bytes_split r s Hr Hs) as (H1 & H2 & H3). rewrite Hsig, H1, H2, H3. simpl.
  rewrite (Verify_spec secp256k1) by done. by rewrite decide_True.
Qed.

(** Anything else is refused. *)
Lemma verify_refuses t i script :
  tx_wf t -> VerifyTransactionInput t i script <> Some false ->
  exists A r s, decoded_signature t i script A r s.
Proof.
  intros (_ & Hins & _) H. unfold VerifyTransactionInput in H.
  destruct (in_range t i) eqn:Hi; [|done]. simpl in H.
  destruct (ExtractPubKeyHash script) as [want|] eqn:Ew; [|done].
  destruct (tx_Inputs t !! Z.to_nat i) as [inp|] eqn:E; [|done].
  destruct (bool_decide _) eqn:Eh; [|done]. simpl in H.
  destruct (unmarshalCompressed (in_PublicKey inp)) as [A|] eqn:Eu; [|done].
  destruct (len (in_Signature inp) =? 64) eqn:El; [|done]. simpl in H. breflect.
  apply unmarshal_on_curve in Eu as Hon. rewrite (Verify_spec secp256k1) in H by done.
  destruct (decide _) as [[Hr Hs]|]; [|done].
  rewrite Forall_lookup in Hins. apply Hins in E as Hw.
  exists (Some A), (be_val (take 32 (in_Signature inp))), (be_val (drop 32 (in_Signature inp))), inp.
  split_and!; try done.
  - subst want. by apply ExtractPubKeyHash_Some.
  - by apply signature_bytes_join; [apply Hw|].
Qed.

(** C5: Verifying an input accepts exactly when the input holds the compressed key its
    output is locked to and two numbers r and s in range whose curve point has
    x-coordinate r modulo the order, and panics exactly when that point is the point at
    infinity. *)
Theorem verifier_outcomes t i script :
  tx_wf t ->
  let e := hashToInt secp256k1 (SignatureHash t i script) in
  (VerifyTransactionInput t i script = Some true <->
     exists A r s x y, decoded_signature t i script A r s /\
       sum_point secp256k1 A e r s = Some (x, y) /\ x mod n = r) /\
  (VerifyTransactionInput t i script = None <->
     exists A r s, decoded_signature t i script A r s /\ sum_point secp256k1 A e r s = None).
Proof.
  intros Hw e. split; split.
  - intros H. destruct (verify_refuses t i script Hw) as (A & r & s & Hd); [by rewrite H|].
    rewrite (verify_decoded _ _ _ _ _ _ Hd) in H. fold e in H.
    destruct (sum_point _ _ _ _ _) as [[x y]|] eqn:Es; [|done].
    exists A, r, s, x, y. split_and!; try done. simplify_eq. by breflect.
  - intros (A & r & s & x & y & Hd & Es & Hx). rewrite (verify_decoded _ _ _ _ _ _ Hd). fold e.
    rewrite Es, Hx. by rewrite Z.eqb_refl.
  - intros H. destruct (verify_refuses t i script Hw) as (A & r & s & Hd); [by rewrite H|].
    rewrite (verify_decoded _ _ _ _ _ _ Hd) in H. fold e in H. exists A, r, s. split; [done|].
    by destruct (sum_point _ _ _ _ _) as [[x y]|].
  - intros (A & r & s & Hd & Es). rewrite (verify_decoded _ _ _ _ _ _ Hd). fold e. by rewrite Es.
Qed.

(** C29: The owner of a key can write a signature for any message whose hash is not a
    multiple of the order that makes the verifier panic. *)
Theorem crafted_signature_panics w t i s :
  wallet_ok w -> in_range t i = true -> in_order secp256k1 s ->
  let script := ScriptForPubKeyHash (Hash160 (w_PublicKey w)) in
  let e := hashToInt secp256k1 (SignatureHash t i script) in
  e mod n <> 0 ->
  let r := crash_r secp256k1 (D (w_PrivateKey w)) e in
  VerifyTransactionInput (put_signature t (Z.to_nat i) (signature_bytes r s) (w_PublicKey w)) i script
  = None.
Proof.
  intros Hok Hi Hs script e He r. destruct (proj1 Hok) as (Hd & HX & Hne).
  assert (D (w_PrivateKey w) mod n <> 0) as Hdn.
  { intros E. apply Hne. rewrite HX. by apply (multiple_G_nil secp256k1). }
  destruct (crash_r_panics secp256k1 (D (w_PrivateKey w)) (SignatureHash t i script) s) as [Hr Hv];
    [done | done | apply SignatureHash_wf | done | done |].
  etransitivity; [|exact Hv]. rewrite <- HX. by apply (verify_put w t i r s).
Qed.

(** Decoding a compressed key accepts exactly the encodings of the points of the curve,
    and returns the encoded point. *)
Theorem public_key_roundtrip pub A :
  bytes_wf pub ->
  unmarshalCompressed pub = Some A <->
  IsOnCurve secp256k1 (Some A) = true /\ marshalCompressed (Some A) = Some pub.
Proof.
  intros Hw. destruct A as [x y]. split; [by apply unmarshal_Some|].
  intros [Hon Hm]. by apply unmarshal_marshal.
Qed.

(** C33: A hexadecimal private key gives a well-formed wallet with that key, an error
    only for bad digits or an empty prefix, and a panic only when the key is a multiple
    of the order. *)
Theorem wallet_from_hex h prefix :
  bytes_wf prefix ->
  match FromHexPrivateKey h prefix with
  | Some (Ok w) =>
      exists b, hex_decode h = Ok b /\ D (w_PrivateKey w) = be_val b /\ be_val b mod n <> 0 /\
                wallet_ok w /\ w_Prefix w = prefix
  | Some (Err _) => (exists e, hex_decode h = Err e) \/ prefix = []
  | None => exists b, hex_decode h = Ok b /\ be_val b mod n = 0
  end.
Proof. apply FromHexPrivateKey_spec. Qed.

(** C19: Making a wallet never panics; it fails only when the randomness ends or the
    prefix is empty. A new wallet is well formed and has the given prefix, its public
    key has 33 bytes and decodes to the point of its private key, and, when the prefix
    has no upper-case letter, its address decodes to the script of the hash of that key.
    *)
Theorem new_wallet prefix rand :
  bytes_wf prefix -> bytes_wf rand ->
  match New prefix rand with
  | None => False
  | Some (Err e) => e = ErrEOF \/ e = ErrUnexpectedEOF \/ prefix = []
  | Some (Ok (w, _)) =>
      wallet_ok w /\ w_Prefix w = prefix /\ length (w_PublicKey w) = 33%nat /\
      unmarshalCompressed (w_PublicKey w) = X (w_PrivateKey w) /\
      (ToLower prefix = prefix ->
       LockingScriptForAddress (w_Address w) prefix = Ok (ScriptForPubKeyHash (Hash160 (w_PublicKey w))))
  end.
Proof.
  intros Hp Hr. pose proof (GeneratedWallet_ok prefix rand Hp Hr) as H.
  destruct (New prefix rand) as [[[w rest]|e]|]; [|done..]. destruct H as [Hok <-].
  destruct (wallet_public_key w Hok) as (? & ? & _). split_and!; try done. intros Hl. by apply wallet_address.
Qed.
End Correct.
