(* ===== verification/Builder.v ===== *)
(** * Builder: spending from a wallet

    Models wallet/builder.go and wallet/hardware.go.  [BuildTransaction] selects
    outputs in the order the provider lists them, pays the amount, returns the
    change to the wallet and signs every input.  The theorems state exactly what
    is built, and that the node accepts it when the fee covers its size, which
    depends only on the numbers of inputs and outputs. *)

From S2P Require Import Prelude Encoding Sha256 Params Tx Consensus Bech32.
From S2P Require Import Secp256k1 Ecdsa BasePoint Ripemd160 Keys Wallet.

#[local] Opaque secp256k1.

Section Code.
Context {HF : HashFunction}.

(** The interface UTXOProvider: its method ListUTXOsByScript. *)
Definition UTXOProvider : Type := bytes -> result (list UTXO).

(** The selection loop: it stops at the first output that reaches [need]. *)
Fixpoint select_utxos (need : Z) (utxos selected : list UTXO) (total : Z) : result (list UTXO * Z) :=
  match utxos with
  | [] => Ok (selected, total)
  | u :: utxos =>
      let selected := selected ++ [u] in
      total ← checked_add total (u_Amount u);
      if need <=? total then Ok (selected, total) else select_utxos need utxos selected total
  end.

(** [for i := range tr.Inputs { w.SignInput(&tr, i, fromScript) }] *)
Fixpoint sign_inputs (w : Wallet) (script : bytes) (n : nat) (i : Z) (t : Transaction) (rand : bytes)
  : go (Transaction * bytes) :=
  match n with
  | O => Some (Ok (t, rand))
  | S n => tr ←! SignInput w t i script rand; sign_inputs w script n (i + 1) tr.1 tr.2
  end.

Definition unsigned_input (u : UTXO) : Input := mkInput (u_TxHash u) (u_OutputIdx u) [] [].

Definition build_outputs (amount change : Z) (toScript fromScript : bytes) : list Output :=
  mkOutput amount toScript :: (if 0 <? change then [mkOutput change fromScript] else []).

Definition BuildTransaction (w : Wallet) (provider : UTXOProvider) (toAddress : bytes)
    (amount fee : Z) (rand : bytes) : go (Transaction * bytes) :=
  if amount =? 0 then Some (Err (Errorf "amount must be greater than zero"))
  else if max64 - amount <? fee then Some (Err ErrInflation)
  else
    fromScript ←! no_panic (LockingScriptForAddress (w_Address w) (w_Prefix w));
    toScript ←! no_panic (LockingScriptForAddress toAddress (w_Prefix w));
    utxos ←! no_panic (provider fromScript);
    let need := u64 (amount + fee) in
    sel ←! no_panic (select_utxos need utxos [] 0);
    let total := sel.2 in
    if total <? need then Some (Err (Errorf "insufficient funds"))
    else
      let change := u64 (total - need) in
      let tr := mkTransaction 1 (unsigned_input <$> sel.1)
                  (build_outputs amount change toScript fromScript) 0 in
      sign_inputs w fromScript (length sel.1) 0 tr rand.

(** *** Hardware signers *)

Record HardwareSigner := {
  hs_PublicKey : bytes;
  hs_Address : bytes -> result bytes;
  hs_SignInput : Transaction -> Z -> bytes -> result bytes;
}.

Record HardwareWallet := { hw_Signer : option HardwareSigner; hw_Prefix : bytes }.

Definition hw_Address (h : HardwareWallet) : result bytes :=
  match hw_Signer h with
  | None => Err (Errorf "hardware signer unavailable")
  | Some s => hs_Address s (hw_Prefix h)
  end.

(** An index out of range panics after the device has signed. *)
Definition hw_Sign (h : HardwareWallet) (t : Transaction) (inputIndex : Z) (script : bytes) : go Transaction :=
  match hw_Signer h with
  | None => Some (Err (Errorf "hardware signer unavailable"))
  | Some s =>
      sig ←! no_panic (hs_SignInput s t inputIndex script);
      if in_range t inputIndex
      then Some (Ok (put_signature t (Z.to_nat inputIndex) sig (hs_PublicKey s)))
      else None
  end.
End Code.

Section Correct.
Context {HF : HashFunction}.

(** ** Selection *)

(** The first outputs that reach [need], and no more. *)
Record selection (need : Z) (utxos selected : list UTXO) : Prop := {
  sel_prefix : exists rest, utxos = selected ++ rest;
  sel_enough : need <= Zsum (u_Amount <$> selected);
  sel_minimal : forall short last, selected = short ++ [last] -> Zsum (u_Amount <$> short) < need;
}.

Lemma select_utxos_spec need utxos acc total :
  0 < need -> is_u64 total -> total < need -> Forall utxo_wf utxos ->
  Zsum (u_Amount <$> acc) = total ->
  match select_utxos need utxos acc total with
  | Ok (sel, tot) =>
      exists taken, sel = acc ++ taken /\ tot = Zsum (u_Amount <$> sel) /\ is_u64 tot /\
        if need <=? tot
        then (exists rest, utxos = taken ++ rest) /\
             (forall short last, sel = short ++ [last] -> Zsum (u_Amount <$> short) < need)
        else taken = utxos
  | Err e => e = ErrInflation /\ max64 < total + Zsum (u_Amount <$> utxos)
  end.
Proof.
  intros Hneed Ht Hlt Hwf. revert acc total Ht Hlt.
  induction Hwf as [|u utxos Hu Hwf IH]; intros acc total Ht Hlt Hacc; cbn [select_utxos].
  { exists []. rewrite app_nil_r. split_and!; try done. by rewrite (proj2 (Z.leb_gt _ _)). }
  destruct Hu as (_ & _ & Hamt & _).
  assert (Forall is_u64 (u_Amount <$> utxos)) as Hamts.
  { apply Forall_fmap. eapply Forall_impl; [exact Hwf|]. by intros ? (_ & _ & ? & _). }
  pose proof (u64_sum_nonneg _ Hamts) as Hnn.
  unfold checked_add. destruct (Z.ltb_spec (max64 - total) (u_Amount u)); cbn [mbind result_bind].
  { split; [done|]. rewrite fmap_cons. cbn [Zsum]. mach. }
  rewrite u64_small by mach.
  assert (Zsum (u_Amount <$> acc ++ [u]) = total + u_Amount u) as Hsum
    by (rewrite fmap_app, Zsum_app; simpl; lia).
  destruct (Z.leb_spec need (total + u_Amount u)) as [Hle|Hgt].
  - exists [u]. split_and!; [done | done | mach |]. rewrite (proj2 (Z.leb_le _ _)) by done.
    split; [by exists utxos|]. intros short last [-> _]%app_inj_tail. lia.
  - specialize (IH (acc ++ [u]) (total + u_Amount u) ltac:(mach) Hgt Hsum).
    destruct (select_utxos _ _ _ _) as [[sel tot]|e]; [|split; [tauto|]; rewrite fmap_cons; cbn [Zsum]; mach].
    destruct IH as (taken & -> & -> & Htot & H'). exists (u :: taken).
    rewrite <- (app_assoc acc [u]) in *. split_and!; [done | done | done |].
    change ([u] ++ taken) with (u :: taken) in *.
    destruct (need <=? _); [|by subst].
    destruct H' as [[rest ->] Hmin]. split; [by exists rest | done].
Qed.

(** ** Signing every input *)

(** The input names the same output and holds a signature of the wallet's size. *)
Definition signed_from (w : Wallet) (inp inp' : Input) : Prop :=
  in_PrevTxHash inp' = in_PrevTxHash inp /\ in_OutputIdx inp' = in_OutputIdx inp /\
  in_PublicKey inp' = w_PublicKey w /\ length (in_Signature inp') = 64%nat /\
  bytes_wf (in_Signature inp').

Record signing (w : Wallet) (script : bytes) (i : Z) (n : nat) (t t' : Transaction) : Prop := {
  sg_shape : t' = with_inputs t (tx_Inputs t');
  sg_length : length (tx_Inputs t') = length (tx_Inputs t);
  sg_before : forall j, j < i -> VerifyTransactionInput t' j script = VerifyTransactionInput t j script;
  sg_inputs : forall k inp, tx_Inputs t !! k = Some inp -> exists inp', tx_Inputs t' !! k = Some inp' /\
    if decide (i <= Z.of_nat k < i + Z.of_nat n) then signed_from w inp inp' else inp' = inp;
  sg_verified : forall j, i <= j < i + Z.of_nat n -> VerifyTransactionInput t' j script = Some true;
}.

Lemma signature_bytes_wf r s : bytes_wf (signature_bytes r s) /\ length (signature_bytes r s) = 64%nat.
Proof.
  unfold signature_bytes. rewrite bytes_wf_app, length_app, !be_bytes_length.
  split; [split; apply be_bytes_wf | done].
Qed.

Lemma sign_inputs_spec w n i t rand :
  wallet_ok w -> bytes_wf rand -> 0 <= i -> i + Z.of_nat n <= len (tx_Inputs t) ->
  let script := ScriptForPubKeyHash (Hash160 (w_PublicKey w)) in
  match sign_inputs w script n i t rand with
  | None => False
  | Some (Err e) => exists j used rand',
      i <= j < i + Z.of_nat n /\ rand = used ++ rand' /\ (e = ErrEOF \/ e = ErrUnexpectedEOF) /\
      Sign secp256k1 (w_PrivateKey w) (SignatureHash t j script) rand' = Some (Err e)
  | Some (Ok (t', _)) => signing w script i n t t'
  end.
Proof.
  intros Hok Hr Hi Hlen script. revert i t rand Hr Hi Hlen.
  induction n as [|n IH]; intros i t rand Hr Hi Hlen; cbn [sign_inputs].
  { split; [by destruct t | done | done | | lia].
    intros k inp E. exists inp. split; [done|]. rewrite decide_False by lia. done. }
  pose proof (SignInput_spec w t i rand Hok Hr) as H. cbv zeta in H. fold script in H.
  destruct (SignInput w t i script rand) as [[[t1 r1]|e]|]; cbn [go_bind fst snd]; [|clear IH|done].
  2: { destruct H as [[Hf _]|(_ & He & H)]; [|exists i, [], rand; split_and!; try done; lia].
       exfalso. unfold in_range in Hf. apply andb_false_iff in Hf as [Hf|Hf]; breflect; lia. }
  destruct H as (r & s & Hin & _ & _ & -> & Hv & Hw1 & used & ->).
  set (t1 := put_signature _ _ _ _) in *.
  specialize (IH (i + 1) t1 r1 Hw1 ltac:(lia)).
  assert (length (tx_Inputs t1) = length (tx_Inputs t)) as Hl1 by apply length_alter.
  destruct (sign_inputs w script n (i + 1) t1 r1) as [[[t2 r2]|e]|]; [| |apply IH; unfold len in *; lia].
  2: { destruct IH as (j & used' & rand' & Hj & -> & He & H); [unfold len in *; lia|].
       exists j, (used ++ used'), rand'. unfold t1 in H. rewrite SignatureHash_put in H.
       rewrite app_assoc. split_and!; try done; lia. }
  destruct IH as [Hs Hl Hb Hk Hf]; [unfold len in *; lia|]. split.
  - rewrite Hs. done.
  - by rewrite Hl.
  - intros j Hj. rewrite Hb by lia. apply verify_put_ne; [done | lia].
  - intros k inp E. destruct (decide (Z.to_nat i = k)) as [<-|Hne].
    + destruct (Hk (Z.to_nat i) (mkInput (in_PrevTxHash inp) (in_OutputIdx inp)
                  (signature_bytes r s) (w_PublicKey w))) as (inp' & E' & H').
      { unfold t1, put_signature. simpl. by rewrite list_lookup_alter_eq, E. }
      exists inp'. split; [done|]. rewrite decide_False in H' by lia. rewrite decide_True by lia.
      subst inp'. destruct (signature_bytes_wf r s). done.
    + destruct (Hk k inp) as (inp' & E' & H').
      { unfold t1, put_signature. simpl. by rewrite list_lookup_alter_ne. }
      exists inp'. split; [done|]. destruct (decide (i + 1 <= _ < _)).
      * by rewrite decide_True by lia.
      * by rewrite decide_False by lia.
  - intros j Hj. destruct (decide (j = i)) as [->|]; [rewrite Hb by lia; done | apply Hf; lia].
Qed.

(** ** The transaction that is built *)

Definition wallet_script (w : Wallet) : bytes := ScriptForPubKeyHash (Hash160 (w_PublicKey w)).

(** An input signed by the wallet that names an output. *)
Definition spends (w : Wallet) (u : UTXO) (inp : Input) : Prop :=
  in_PrevTxHash inp = u_TxHash u /\ in_OutputIdx inp = u_OutputIdx u /\
  in_PublicKey inp = w_PublicKey w /\ length (in_Signature inp) = 64%nat /\
  bytes_wf (in_Signature inp).

(** The payment, and the change unless it is zero. *)
Definition paid (amount change : Z) (toScript fromScript : bytes) : list Output :=
  mkOutput amount toScript :: if decide (change = 0) then [] else [mkOutput change fromScript].

Lemma build_outputs_paid amount change toScript fromScript :
  0 <= change -> build_outputs amount change toScript fromScript = paid amount change toScript fromScript.
Proof. intros H. unfold build_outputs, paid. destruct (Z.ltb_spec 0 change), (decide (change = 0)); done || lia. Qed.

Record built (w : Wallet) (utxos : list UTXO) (toScript : bytes) (amount fee : Z)
    (sel : list UTXO) (t : Transaction) : Prop := {
  bt_selection : selection (amount + fee) utxos sel;
  bt_inputs : Forall2 (spends w) sel (tx_Inputs t);
  bt_outputs : tx_Outputs t =
    paid amount (Zsum (u_Amount <$> sel) - (amount + fee)) toScript (wallet_script w);
  bt_rest : tx_Version t = 1 /\ tx_LockTime t = 0;
  bt_signed : forall j, 0 <= j < len (tx_Inputs t) ->
    VerifyTransactionInput t j (wallet_script w) = Some true;
}.

(** Why nothing is built. *)
Inductive build_failure (w : Wallet) (utxos : list UTXO) (toAddress : bytes) (amount fee : Z) (rand : bytes)
  : error -> Prop :=
| bf_zero : amount = 0 -> build_failure w utxos toAddress amount fee rand (Errorf "amount must be greater than zero")
| bf_need : max64 < amount + fee -> build_failure w utxos toAddress amount fee rand ErrInflation
| bf_address e : LockingScriptForAddress toAddress (w_Prefix w) = Err e ->
    build_failure w utxos toAddress amount fee rand e
| bf_total : max64 < Zsum (u_Amount <$> utxos) -> build_failure w utxos toAddress amount fee rand ErrInflation
| bf_funds : Zsum (u_Amount <$> utxos) < amount + fee ->
    build_failure w utxos toAddress amount fee rand (Errorf "insufficient funds")
(** The randomness ends while input [j] of the selected outputs is signed. *)
| bf_sign e toScript sel j used rest :
    LockingScriptForAddress toAddress (w_Prefix w) = Ok toScript -> selection (amount + fee) utxos sel ->
    0 <= j < len sel -> rand = used ++ rest -> (e = ErrEOF \/ e = ErrUnexpectedEOF) ->
    let outs := paid amount (Zsum (u_Amount <$> sel) - (amount + fee)) toScript (wallet_script w) in
    let t := mkTransaction 1 (unsigned_input <$> sel) outs 0 in
    Sign secp256k1 (w_PrivateKey w) (SignatureHash t j (wallet_script w)) rest = Some (Err e) ->
    build_failure w utxos toAddress amount fee rand e.

Lemma signing_built w utxos toScript amount fee sel t :
  selection (amount + fee) utxos sel ->
  signing w (wallet_script w) 0 (length sel)
    (mkTransaction 1 (unsigned_input <$> sel)
       (build_outputs amount (Zsum (u_Amount <$> sel) - (amount + fee)) toScript (wallet_script w)) 0) t ->
  built w utxos toScript amount fee sel t.
Proof.
  intros Hsel [Hshape Hl _ Hin Hv]. simpl in Hl. rewrite length_fmap in Hl. split; [done | | | |].
  - apply Forall2_same_length_lookup_2; [done|]. intros k u inp' Eu E'.
    destruct (Hin k (unsigned_input u)) as (inp & E & H).
    { simpl. by rewrite list_lookup_fmap, Eu. }
    rewrite E in E'. simplify_eq. apply lookup_lt_Some in Eu. by rewrite decide_True in H by lia.
  - rewrite Hshape. simpl. apply build_outputs_paid. destruct Hsel. lia.
  - by rewrite Hshape.
  - intros j Hj. apply Hv. unfold len in Hj. lia.
Qed.

Lemma BuildTransaction_spec w provider toAddress amount fee rand utxos :
  wallet_ok w -> bytes_wf (w_Prefix w) -> ToLower (w_Prefix w) = w_Prefix w ->
  is_u64 amount -> is_u64 fee -> bytes_wf rand ->
  provider (wallet_script w) = Ok utxos -> Forall utxo_wf utxos ->
  match BuildTransaction w provider toAddress amount fee rand with
  | None => False
  | Some (Err e) => build_failure w utxos toAddress amount fee rand e
  | Some (Ok (t, _)) => exists toScript sel,
      LockingScriptForAddress toAddress (w_Prefix w) = Ok toScript /\
      built w utxos toScript amount fee sel t
  end.
Proof.
  intros Hok Hpw Hpl Ha Hf Hr Hprov Hwf. unfold BuildTransaction.
  destruct (Z.eqb_spec amount 0); [by apply bf_zero|].
  destruct (Z.ltb_spec (max64 - amount) fee); [apply bf_need; mach|].
  rewrite (wallet_address w Hok Hpw Hpl). fold (wallet_script w). cbn [go_bind no_panic].
  destruct (LockingScriptForAddress toAddress _) as [toScript|e] eqn:Eto; [|by apply bf_address].
  cbn [go_bind no_panic]. rewrite Hprov. cbn [go_bind no_panic].
  rewrite u64_small by mach.
  pose proof (select_utxos_spec (amount + fee) utxos [] 0 ltac:(mach) ltac:(mach) ltac:(mach) Hwf eq_refl) as Hs.
  destruct (select_utxos _ _ _ _) as [[sel total]|e]; cbn [go_bind fst snd].
  2: { destruct Hs as [-> Hs]. apply bf_total. lia. }
  destruct Hs as (taken & -> & -> & Htot & Hs). simpl app in *.
  destruct (Z.leb_spec (amount + fee) (Zsum (u_Amount <$> taken))) as [Hle|Hgt].
  2: { subst taken. rewrite (proj2 (Z.ltb_lt _ _)) by done. by apply bf_funds. }
  rewrite (proj2 (Z.ltb_ge _ _)) by done. rewrite u64_small by mach.
  destruct Hs as [Hpre Hmin].
  pose proof (sign_inputs_spec w (length taken) 0 (mkTransaction 1 (unsigned_input <$> taken)
    (build_outputs amount (Zsum (u_Amount <$> taken) - (amount + fee)) toScript (wallet_script w)) 0)
    rand Hok Hr ltac:(lia)) as Hsg. cbv zeta in Hsg. fold (wallet_script w) in Hsg.
  specialize (Hsg ltac:(unfold len; simpl; rewrite length_fmap; lia)).
  destruct (sign_inputs _ _ _ _ _ _) as [[[t rest]|e]|]; [| |done].
  - exists toScript, taken. split; [done|]. by apply signing_built.
  - destruct Hsg as (j & used & rand' & Hj & -> & He & Hsg).
    eapply (bf_sign _ _ _ _ _ _ _ toScript taken j used rand'); try done.
    rewrite <- build_outputs_paid by lia. exact Hsg.
Qed.

(** ** What the node makes of it *)

(** The bytes an output adds to a transaction. *)
Definition output_size (o : Output) : Z := 16 + len (out_LockingScript o).
Definition built_size (inputs : Z) (outs : list Output) : Z :=
  28 + 149 * inputs + Zsum (output_size <$> outs).

Lemma writeOutput_len o : len (writeOutput o) = output_size o.
Proof.
  unfold writeOutput, writeBytes, output_size. rewrite !len_app, !len_le_bytes. lia.
Qed.

Lemma writeOutputs_len outs : len (flat_map writeOutput outs) = Zsum (output_size <$> outs).
Proof.
  induction outs as [|o outs IH]; [done|]. rewrite fmap_cons. cbn [flat_map Zsum].
  by rewrite len_app, writeOutput_len, IH.
Qed.

Lemma spends_len w u inp :
  wallet_ok w -> utxo_wf u -> spends w u inp -> len (writeInput inp) = 149.
Proof.
  intros Hok ([Hh _] & _) (Ep & Ei & Ek & Hs & _). simpl in Ep, Ei.
  destruct (wallet_public_key w Hok) as (_ & Hk & _). rewrite <- Ek in Hk.
  unfold writeInput, writeBytes. rewrite !len_app, !len_le_bytes. unfold len.
  rewrite Ep, Hh, Hs, Hk. done.
Qed.

Lemma built_length w utxos toScript amount fee sel t :
  wallet_ok w -> Forall utxo_wf utxos -> built w utxos toScript amount fee sel t ->
  len (SerializeTransaction t) = built_size (len sel) (tx_Outputs t).
Proof.
  intros Hok Hwf [[[rest ->] _ _] Hin _ _ _]. apply Forall_app in Hwf as [Hwf _].
  unfold SerializeTransaction, WriteTransaction, writeVarBytesList, built_size.
  rewrite !len_app, !len_le_bytes, writeOutputs_len.
  assert (len (flat_map writeInput (tx_Inputs t)) = 149 * len sel) as ->; [|lia].
  clear -Hok Hwf Hin HF. induction Hin as [|u inp sel ins Hs Hin IH]; [done|].
  apply Forall_cons in Hwf as [Hu Hwf]. cbn [flat_map].
  rewrite len_app, len_cons, (spends_len w u inp), IH by done. lia.
Qed.

Lemma built_key w u inp : spends w u inp -> in_key inp = OutpointKey (u_TxHash u) (u_OutputIdx u).
Proof. intros (Ep & Ei & _). unfold in_key. by rewrite Ep, Ei. Qed.

(** What the node has to know of the outputs that were listed: they are the
    stored ones, locked to the wallet, distinct, mature and unspent. *)
Record listed (reader : UTXOReader) (w : Wallet) (h : Z) (spent : gset bytes) (utxos : list UTXO) : Prop := {
  li_stored : Forall (fun u => reader (u_TxHash u) (u_OutputIdx u) = Ok u) utxos;
  li_script : Forall (fun u => u_Script u = wallet_script w) utxos;
  li_distinct : NoDup ((fun u => OutpointKey (u_TxHash u) (u_OutputIdx u)) <$> utxos);
  li_mature : Forall (fun u => immature u h = false) utxos;
  li_unspent : Forall (fun u => OutpointKey (u_TxHash u) (u_OutputIdx u) ∉ spent) utxos;
  li_real : Forall (fun u => u_TxHash u <> zero_hash) utxos;
}.

Lemma listed_prefix reader w h spent sel rest :
  listed reader w h spent (sel ++ rest) -> listed reader w h spent sel.
Proof.
  intros [H1 H2 H3 H4 H5 H6]. rewrite fmap_app in H3.
  apply Forall_app in H1 as [H1 _], H2 as [H2 _], H4 as [H4 _], H5 as [H5 _], H6 as [H6 _].
  apply NoDup_app in H3 as [H3 _]. by split.
Qed.

Lemma built_inputs_accepted reader w h spent sel t :
  listed reader w h spent sel -> Forall2 (spends w) sel (tx_Inputs t) ->
  (forall j, 0 <= j < len (tx_Inputs t) -> VerifyTransactionInput t j (wallet_script w) = Some true) ->
  inputs_accepted t reader Verifier h 0 (tx_Inputs t) spent sel.
Proof.
  intros [H1 H2 H3 H4 H5 H6] Hin Hv. split; [| | |done|].
  - apply Forall2_flip. rewrite Forall_forall in H1. apply Forall2_same_length_lookup in Hin as [Hl Hin].
    apply Forall2_same_length_lookup_2; [done|]. intros k u inp Eu Ei. unfold flip, resolves.
    destruct (Hin k u inp Eu Ei) as (Ep & Eo & _). rewrite Ep, Eo. simpl.
    by apply H1, list_elem_of_lookup_2 with k.
  - assert (in_key <$> tx_Inputs t = (fun u => OutpointKey (u_TxHash u) (u_OutputIdx u)) <$> sel) as ->; [|done].
    clear -Hin. induction Hin as [|u inp sel ins Hs _ IH]; [done|].
    rewrite !fmap_cons, IH. by rewrite (built_key w u inp Hs).
  - rewrite Forall_forall in H5. apply Forall_lookup. intros k inp Ei.
    apply Forall2_same_length_lookup in Hin as [Hl Hin].
    destruct (lookup_lt_is_Some_2 sel k) as [u Eu]; [rewrite Hl; by eapply lookup_lt_Some|].
    rewrite (built_key w u inp) by by eapply Hin. by apply H5, list_elem_of_lookup_2 with k.
  - intros k u Eu. simpl. apply lookup_lt_Some in Eu as Hk.
    apply Forall2_length in Hin. rewrite Forall_lookup in H2. rewrite (H2 k u Eu).
    rewrite Hv; [done|]. unfold len. lia.
Qed.

Lemma built_outputs_sum amount change toScript fromScript :
  0 <= change ->
  Zsum (out_Amount <$> paid amount change toScript fromScript) = amount + change.
Proof. intros Hc. unfold paid. destruct (decide (change = 0)); simpl; lia. Qed.

Lemma built_not_coinbase reader w h spent sel t :
  listed reader w h spent sel -> Forall2 (spends w) sel (tx_Inputs t) -> IsCoinbase t = false.
Proof.
  intros [_ _ _ _ _ H6] Hin. unfold IsCoinbase.
  destruct Hin as [|u inp sel ins (Ep & _) Hin]; [done|]. destruct Hin; [|done].
  apply Forall_cons in H6 as [H6 _]. rewrite bool_decide_false; [done|]. by rewrite Ep.
Qed.

Lemma built_validated reader w h spent utxos toScript amount fee sel t :
  reader_wf reader -> Forall utxo_wf utxos -> listed reader w h spent utxos -> bytes_wf toScript ->
  is_u64 amount -> amount <> 0 -> 0 <= fee -> is_u64 (Zsum (u_Amount <$> sel)) ->
  built w utxos toScript amount fee sel t ->
  ValidateTransactionAt t reader Verifier spent h =
    if fee <? MinFee t then Err ErrFeeTooLow else Ok (fee, in_keys (tx_Inputs t) ∪ spent).
Proof.
  intros Hrw Hwf Hli Hto Ha Ha0 Hf Htot [[[rest ->] Hen _] Hin Hout _ Hv].
  apply listed_prefix in Hli. unfold ValidateTransactionAt.
  rewrite (built_not_coinbase _ _ _ _ _ _ Hli Hin).
  assert (validate_inputs t reader Verifier h 0 (tx_Inputs t) spent 0
          = Ok (Zsum (u_Amount <$> sel), in_keys (tx_Inputs t) ∪ spent)) as ->.
  { apply validate_inputs_Ok; [done | mach|]. exists sel.
    split; [by apply (built_inputs_accepted reader w)|]. done. }
  csimpl. set (change := Zsum (u_Amount <$> sel) - (amount + fee)) in *.
  pose proof (built_outputs_sum amount change toScript (wallet_script w) ltac:(lia)) as Hsum.
  assert (Forall output_wf (tx_Outputs t)) as Howf.
  { assert (bytes_wf (wallet_script w)) as Hws.
    { apply bytes_wf_app. split; [apply str_wf | apply Hash160_wf]. }
    rewrite Hout. unfold paid. constructor; [done|].
    destruct (decide (change = 0)); [by constructor|]. constructor; [|by constructor].
    split; [simpl; mach | done]. }
  assert (validate_outputs (tx_Outputs t) 0 = Ok (amount + change)) as ->.
  { apply validate_outputs_Ok; [mach | done|]. rewrite Hout, Hsum. split_and!; [|lia | mach].
    unfold paid. constructor; [done|].
    destruct (decide (change = 0)); [by constructor|]. constructor; [simpl; lia | by constructor]. }
  csimpl. rewrite (proj2 (Z.ltb_ge _ _)) by lia.
  by replace (Zsum (u_Amount <$> sel) - (amount + change)) with fee by lia.
Qed.

Lemma LockingScript_wf addr prefix script :
  LockingScriptForAddress addr prefix = Ok script -> bytes_wf script.
Proof.
  unfold LockingScriptForAddress. intros (h & Hd & [= <-])%bind_Ok. apply bytes_wf_app.
  split; [apply str_wf | by eapply DecodeAddress_wf].
Qed.

(** ** Properties *)

(** C15: With a well-formed wallet with a lower-case prefix and a listing of its
    outputs, BuildTransaction never panics; it fails only for the reasons the code
    names, each tied to the inputs that cause it, and otherwise spends the shortest
    prefix of the listed outputs that covers amount and fee, pays the recipient, returns
    the change, signs every input and leaves exactly the fee. *)
Theorem built_transaction w provider toAddress amount fee rand utxos :
  wallet_ok w -> bytes_wf (w_Prefix w) -> ToLower (w_Prefix w) = w_Prefix w ->
  is_u64 amount -> is_u64 fee -> bytes_wf rand ->
  provider (wallet_script w) = Ok utxos -> Forall utxo_wf utxos ->
  match BuildTransaction w provider toAddress amount fee rand with
  | None => False
  | Some (Err e) => build_failure w utxos toAddress amount fee rand e
  | Some (Ok (t, _)) => exists toScript sel,
      LockingScriptForAddress toAddress (w_Prefix w) = Ok toScript /\
      built w utxos toScript amount fee sel t /\
      Zsum (u_Amount <$> sel) = Zsum (out_Amount <$> tx_Outputs t) + fee
  end.
Proof.
  intros Hok Hpw Hpl Ha Hf Hr Hprov Hwf.
  pose proof (BuildTransaction_spec w provider toAddress amount fee rand utxos Hok Hpw Hpl Ha Hf Hr Hprov Hwf) as H.
  destruct (BuildTransaction _ _ _ _ _ _) as [[[t rest]|e]|]; [|done..].
  destruct H as (toScript & sel & Hto & Hb). exists toScript, sel. split_and!; try done.
  destruct Hb as [[_ Hen _] _ Hout _ _]. rewrite Hout, built_outputs_sum; lia.
Qed.

(** C14: A transaction built by a well-formed wallet with a lower-case prefix from
    listed outputs that the node stores, that are mature and unspent and whose sum fits
    64 bits passes the validation of the node exactly when the fee reaches the minimum
    for its size, and is otherwise refused for its fee alone. *)
Theorem built_transaction_accepted w provider toAddress amount fee rand utxos t rest reader h spent :
  wallet_ok w -> bytes_wf (w_Prefix w) -> ToLower (w_Prefix w) = w_Prefix w ->
  is_u64 amount -> is_u64 fee -> bytes_wf rand ->
  provider (wallet_script w) = Ok utxos -> Forall utxo_wf utxos -> is_u64 (Zsum (u_Amount <$> utxos)) ->
  reader_wf reader -> listed reader w h spent utxos ->
  BuildTransaction w provider toAddress amount fee rand = Some (Ok (t, rest)) ->
  let minimum := u64 (built_size (len (tx_Inputs t)) (tx_Outputs t) * MinRelayFeePerByte) in
  ValidateTransactionAt t reader Verifier spent h =
    if fee <? minimum then Err ErrFeeTooLow else Ok (fee, in_keys (tx_Inputs t) ∪ spent).
Proof.
  intros Hok Hpw Hpl Ha Hf Hr Hprov Hwf Htot Hrw Hli HB minimum.
  assert (amount <> 0) as Ha0.
  { intros ->. unfold BuildTransaction in HB. by rewrite Z.eqb_refl in HB. }
  pose proof (BuildTransaction_spec w provider toAddress amount fee rand utxos Hok Hpw Hpl Ha Hf Hr Hprov Hwf) as H.
  rewrite HB in H. destruct H as (toScript & sel & Hto%LockingScript_wf & Hb).
  assert (minimum = MinFee t) as ->.
  { unfold minimum, MinFee. rewrite (built_length w utxos toScript amount fee sel t) by done.
    apply bt_inputs, Forall2_length in Hb. unfold len. by rewrite Hb. }
  apply (built_validated reader w h spent utxos toScript amount fee sel t); try done; [mach|].
  destruct (sel_prefix _ _ _ (bt_selection _ _ _ _ _ _ _ Hb)) as [rest' ->].
  rewrite fmap_app, Zsum_app in Htot. apply Forall_app in Hwf as [H1 H2].
  assert (forall l, Forall utxo_wf l -> 0 <= Zsum (u_Amount <$> l)) as Hnn.
  { intros l Hl. apply u64_sum_nonneg, Forall_fmap. eapply Forall_impl; [exact Hl|]. by intros ? (_ & _ & ? & _). }
  pose proof (Hnn _ H1). pose proof (Hnn _ H2). mach.
Qed.
End Correct.
