(* ===== verification/Pbkdf2.v ===== *)
(** * Pbkdf2: HMAC and the key derivation of the wallet

    [hmac] models what the program uses of crypto/hmac with SHA-256;
    [pbkdf2SHA256] models wallet/pbkdf2_internal.go as it is written, with the
    slice T that aliases the end of dk and is updated in place, and is shown to be
    the function that RFC 8018 defines. *)

From S2P Require Import Prelude Encoding Sha256 Bech32.

Section Code.
Context {HF : HashFunction}.

(** The block size of SHA-256. *)
Definition BlockSize : nat := 64.

Definition hmac_key (key : bytes) : bytes :=
  let key := if Z.of_nat BlockSize <? len key then sha256 key else key in
  key ++ replicate (BlockSize - length key) 0.

Definition xor_byte (k : Z) (bs : bytes) : bytes := (fun b => Z.lxor b k) <$> bs.

(** [hmac.New(sha256.New, key)], [Write(msg)], [Sum(nil)] *)
Definition hmac (key msg : bytes) : bytes :=
  let k := hmac_key key in
  sha256 (xor_byte 0x5c k ++ sha256 (xor_byte 0x36 k ++ msg)).

(** [for x := range U { T[x] ^= U[x] }] *)
Definition xor_bytes (t u : bytes) : bytes := zip_with Z.lxor t u.

(** The inner loop, [n] rounds left: U is replaced by its HMAC and xored into the
    last 32 bytes of dk. *)
Fixpoint xor_rounds (password : bytes) (n : nat) (dk u : bytes) : bytes * bytes :=
  match n with
  | O => (dk, u)
  | S n =>
      let u := hmac password u in
      let cut := (length dk - 32)%nat in
      xor_rounds password n (take cut dk ++ xor_bytes (drop cut dk) u) u
  end.

(** One iteration of [for block := 1; block <= numBlocks; block++]. *)
Definition derive_block (password salt : bytes) (iter : Z) (dk : bytes) (block : Z) : bytes :=
  let dk := dk ++ hmac password (salt ++ be_bytes 4 (u32 block)) in
  let u := drop (length dk - 32) dk in
  (xor_rounds password (Z.to_nat (iter - 1)) dk u).1.

Definition pbkdf2SHA256 (password salt : bytes) (iter keyLen : Z) : bytes :=
  let numBlocks := (keyLen + 32 - 1) / 32 in
  take (Z.to_nat keyLen) (foldl (derive_block password salt iter) [] (seqZ 1 numBlocks)).

(** ** The definition of RFC 8018, section 5.2 *)

(** U_1 = PRF (P, S || INT (i)), U_c = PRF (P, U_(c-1)); [u_list c] is U_1 .. U_c. *)
Definition u_first (password salt : bytes) (i : Z) : bytes := hmac password (salt ++ be_bytes 4 i).
Definition u_nth (password salt : bytes) (i : Z) (c : nat) : bytes :=
  Nat.iter c (hmac password) (u_first password salt i).
(** F = U_1 xor U_2 xor ... xor U_c *)
Definition rfc_F (password salt : bytes) (c : Z) (i : Z) : bytes :=
  foldl xor_bytes (u_nth password salt i 0)
    (u_nth password salt i <$> seq 1 (Z.to_nat (c - 1))).
(** DK = the first dkLen bytes of T_1 || T_2 || ... || T_l *)
Definition rfc_pbkdf2 (password salt : bytes) (c dkLen : Z) : bytes :=
  let l := (dkLen + 31) / 32 in
  take (Z.to_nat dkLen) (flat_map (rfc_F password salt c) (seqZ 1 l)).

(** ** Equivalence *)

Lemma hmac_length key msg : length (hmac key msg) = 32%nat.
Proof. apply sha256_length. Qed.
Lemma hmac_wf key msg : bytes_wf (hmac key msg).
Proof. apply sha256_wf. Qed.

Lemma u_nth_length password salt i c : length (u_nth password salt i c) = 32%nat.
Proof. destruct c; apply hmac_length. Qed.

Lemma xor_rounds_spec password n dk t u :
  length t = 32%nat ->
  (xor_rounds password n (dk ++ t) u).1
  = dk ++ foldl xor_bytes t ((fun k => Nat.iter k (hmac password) u) <$> seq 1 n).
Proof.
  revert t u. induction n as [|n IH]; intros t u Ht; [done|]. cbn [xor_rounds].
  rewrite length_app, Ht, Nat.add_sub, take_app_length, drop_app_length.
  rewrite IH by (unfold xor_bytes; rewrite length_zip_with, hmac_length; lia).
  cbn [seq fmap list_fmap foldl]. do 2 f_equal.
  rewrite <- (fmap_S_seq 1), <- list_fmap_compose. apply list_fmap_ext. intros k x _. simpl.
  by rewrite <- Nat.iter_succ_r.
Qed.

Lemma derive_block_spec password salt iter dk i :
  is_u32 i -> derive_block password salt iter dk i = dk ++ rfc_F password salt iter i.
Proof.
  intros Hi. unfold derive_block. rewrite u32_small by done.
  rewrite length_app, hmac_length, Nat.add_sub, drop_app_length.
  by rewrite xor_rounds_spec by apply hmac_length.
Qed.

Lemma rfc_F_length password salt c i : length (rfc_F password salt c i) = 32%nat.
Proof.
  unfold rfc_F. generalize (u_nth_length password salt i). intros Hu.
  assert (forall l t, length t = 32%nat -> Forall (fun u => length u = 32%nat) l ->
            length (foldl xor_bytes t l) = 32%nat) as H.
  { intros l. induction l as [|u l IH]; intros t Ht Hl; [done|]. apply Forall_cons in Hl as [H1 Hl].
    simpl. apply IH; [|done]. unfold xor_bytes. rewrite length_zip_with. lia. }
  apply H; [apply Hu|]. apply Forall_fmap, Forall_true. intros k. apply Hu.
Qed.

Lemma blocks_spec password salt iter idx dk :
  Forall is_u32 idx ->
  foldl (derive_block password salt iter) dk idx = dk ++ flat_map (rfc_F password salt iter) idx.
Proof.
  intros His. revert dk. induction His as [|i idx Hi _ IH]; intros dk; simpl; [by rewrite app_nil_r|].
  by rewrite IH, derive_block_spec, <- app_assoc.
Qed.

Lemma blocks_length password salt iter idx :
  length (flat_map (rfc_F password salt iter) idx) = (32 * length idx)%nat.
Proof.
  induction idx as [|i idx IH]; [done|]. simpl. rewrite length_app, rfc_F_length, IH. lia.
Qed.

Lemma xor_bytes_wf t u : bytes_wf t -> bytes_wf u -> bytes_wf (xor_bytes t u).
Proof.
  intros Ht. revert u. induction Ht as [|x t Hx _ IH]; intros u Hu; [constructor|].
  destruct Hu as [|y u Hy Hu]; [constructor|]. constructor; [|by apply IH].
  by apply (lxor_range 8).
Qed.

Lemma rfc_F_wf password salt c i : bytes_wf (rfc_F password salt c i).
Proof.
  unfold rfc_F.
  assert (forall k, bytes_wf (u_nth password salt i k)) as Hu by (intros [|k]; apply hmac_wf).
  assert (forall l t, bytes_wf t -> Forall bytes_wf l -> bytes_wf (foldl xor_bytes t l)) as H.
  { intros l. induction l as [|u l IH]; intros t Ht Hl; [done|]. apply Forall_cons in Hl as [H1 Hl].
    apply IH; [by apply xor_bytes_wf | done]. }
  apply H; [apply Hu|]. apply Forall_fmap, Forall_true, Hu.
Qed.

Lemma rfc_pbkdf2_wf password salt c dkLen : bytes_wf (rfc_pbkdf2 password salt c dkLen).
Proof.
  apply bytes_wf_take. induction (seqZ _ _) as [|i l IH]; [constructor|].
  cbn [flat_map]. apply bytes_wf_app. split; [apply rfc_F_wf | done].
Qed.

Lemma pbkdf2_rfc password salt iter keyLen :
  0 <= keyLen <= (2 ^ 32 - 1) * 32 ->
  pbkdf2SHA256 password salt iter keyLen = rfc_pbkdf2 password salt iter keyLen.
Proof.
  intros Hk. unfold pbkdf2SHA256, rfc_pbkdf2.
  replace (keyLen + 32 - 1) with (keyLen + 31) by lia. rewrite blocks_spec; [done|].
  apply Forall_seqZ. intros i Hi. unfold is_u32. Z.div_mod_to_equations. lia.
Qed.

Lemma pbkdf2_length password salt iter keyLen :
  0 <= keyLen <= (2 ^ 32 - 1) * 32 -> len (pbkdf2SHA256 password salt iter keyLen) = keyLen.
Proof.
  intros Hk. rewrite pbkdf2_rfc by done. unfold rfc_pbkdf2, len.
  rewrite length_take, blocks_length, length_seqZ. Z.div_mod_to_equations. lia.
Qed.

(** C32: The key derivation computes PBKDF2 of RFC 8018 over HMAC-SHA256 and returns as
    many bytes as were asked for. *)
Theorem pbkdf2_is_rfc8018 password salt iter keyLen :
  0 <= keyLen <= (2 ^ 32 - 1) * 32 ->
  pbkdf2SHA256 password salt iter keyLen = rfc_pbkdf2 password salt iter keyLen /\
  len (pbkdf2SHA256 password salt iter keyLen) = keyLen.
Proof. intros Hk. split; [by apply pbkdf2_rfc | by apply pbkdf2_length]. Qed.
End Code.

(** RFC 4231, test case 2, and the vector of RFC 7914, section 11, for one
    iteration. *)
Example hmac_jefe :
  hex_encode (@hmac go_sha256 (str "Jefe") (str "what do ya want for nothing?"))
  = str "5bdcc146bf60754e6a042426089575c75a003f089d2739839dec58b964ec3843".
Proof. vm_compute. reflexivity. Qed.
Example pbkdf2_one_round :
  hex_encode (@pbkdf2SHA256 go_sha256 (str "passwd") (str "salt") 1 64)
  = str "55ac046e56e3089fec1691c22544b605f94185216dde0465e68b9d57c20dacbc" ++
    str "49ca9cccf179b645991664b39d77ef317c71b845b1e30bd509112041d3a19783".
Proof. vm_compute. reflexivity. Qed.
Example pbkdf2_two_rounds :
  hex_encode (@pbkdf2SHA256 go_sha256 (str "password") (str "salt") 2 32)
  = str "ae4d0c95af6b46d32d0adff928f06dd02a303f8ef3c251dfd6e2d85a95474c43".
Proof. vm_compute. reflexivity. Qed.
