(* ===== verification/Seed.v ===== *)
(** * Seed: seed phrases

    Models the seed phrases of wallet/store.go (seedWords, NewSeedPhrase,
    NewFromSeedPhrase) and wallet/seed_audit.go.  The text functions of package
    strings are those for ASCII text, which the word list is. *)

From S2P Require Import Prelude Encoding Sha256 Bech32 Secp256k1 Ecdsa.
From S2P Require Import BasePoint Ripemd160 Keys Wallet Pbkdf2.

#[local] Opaque secp256k1.

(** ** Package strings *)

(** The ASCII characters unicode.IsSpace accepts. *)
Definition is_space (c : Z) : bool := (c =? 32) || ((9 <=? c) && (c <=? 13)).

Fixpoint trim_left (s : bytes) : bytes :=
  match s with c :: s' => if is_space c then trim_left s' else s | [] => [] end.
Definition TrimSpace (s : bytes) : bytes := rev (trim_left (rev (trim_left s))).

(** [strings.Fields]: the maximal runs of non-space characters; [word] is the run
    being read. *)
Fixpoint fields_from (word s : bytes) : list bytes :=
  match s with
  | [] => match word with [] => [] | _ => [word] end
  | c :: s =>
      if is_space c then
        match word with [] => fields_from [] s | _ => word :: fields_from [] s end
      else fields_from (word ++ [c]) s
  end.
Definition Fields (s : bytes) : list bytes := fields_from [] s.

(** [strings.Join(parts, " ")] *)
Definition Join (parts : list bytes) : bytes :=
  match parts with [] => [] | p :: ps => p ++ flat_map (fun q => 32 :: q) ps end.

(** ** The word list *)

Definition seedWords : list bytes := str <$>
  ["able"; "about"; "above"; "absent"; "absorb"; "access"; "acid"; "across";
   "act"; "adapt"; "add"; "adjust"; "admit"; "adult"; "agent"; "ahead";
   "alarm"; "album"; "alert"; "alien"; "align"; "allow"; "alone"; "alpha";
   "always"; "amber"; "anchor"; "angle"; "apple"; "april"; "arena"; "arrow";
   "asset"; "atom"; "audit"; "avoid"; "badge"; "balance"; "basic"; "beach";
   "because"; "before"; "binary"; "bonus"; "brave"; "bridge"; "budget"; "cable";
   "camera"; "carbon"; "chain"; "circle"; "client"; "coin"; "core"; "credit";
   "crypto"; "dash"; "delta"; "digital"; "dollar"; "double"; "dream"; "eagle";
   "earth"; "elite"; "energy"; "engine"; "equal"; "ethic"; "fabric"; "faith";
   "fiber"; "final"; "future"; "galaxy"; "genesis"; "global"; "gold"; "green";
   "guard"; "hash"; "honest"; "index"; "input"; "jewel"; "kernel"; "layer";
   "ledger"; "limit"; "main"; "market"; "matrix"; "memory"; "merkle"; "miner";
   "mobile"; "money"; "native"; "network"; "nevel"; "node"; "nonce"; "output";
   "packet"; "payment"; "peer"; "proof"; "public"; "quantum"; "reward"; "script";
   "secure"; "seed"; "signal"; "silver"; "supply"; "target"; "token"; "trust";
   "valid"; "wallet"; "work"; "zero"]%string.

Definition pbkdf2Iter : Z := 100000.

(** ** Phrases *)

(** The phrase and the rest of the randomness. *)
Definition NewSeedPhrase (words : Z) (rand : bytes) : result (bytes * bytes) :=
  let words := if words <=? 0 then 24 else words in
  '(b, rand) ← readFull (Z.to_nat words) rand;
  Ok (Join ((fun v => nth (Z.to_nat (v mod len seedWords)) seedWords []) <$> b), rand).

Record SeedAuditReport := mkReport {
  sr_Words : Z;
  sr_Wordlist : bytes;
  sr_EstimatedEntropy : Z;
  sr_StandardWarnings : list bytes;
  sr_Valid : bool;
}.

Definition ErrSeedWordCount : error := Errorf "seed phrase must contain 12, 18, or 24 words".
Definition ErrSeedWordlist : error := Errorf "seed phrase contains a non NEVEL wordlist word".
Definition error_text (e : error) : bytes := match e with Errorf m => str m | _ => [] end.

Definition warn (r : SeedAuditReport) (w : bytes) : SeedAuditReport :=
  mkReport (sr_Words r) (sr_Wordlist r) (sr_EstimatedEntropy r) (sr_StandardWarnings r ++ [w]) (sr_Valid r).

(** The report and the error, nil or not. *)
Definition AuditSeedPhrase (seed : bytes) : SeedAuditReport * option error :=
  let words := Fields (ToLower (TrimSpace seed)) in
  let report := mkReport (len words) (str "nevel-v1") (len words * 8) [] false in
  if negb (len words =? 12) && negb (len words =? 18) && negb (len words =? 24)
  then (warn report (error_text ErrSeedWordCount), Some ErrSeedWordCount)
  else if negb (forallb (fun w => bool_decide (w ∈ seedWords)) words)
  then (warn report (error_text ErrSeedWordlist), Some ErrSeedWordlist)
  else
    let report := if len words =? 24
      then warn report (str "NEVEL v1 seeds are audited for internal compatibility but are not BIP-39 mnemonic checksums")
      else report in
    (mkReport (sr_Words report) (sr_Wordlist report) (sr_EstimatedEntropy report)
       (sr_StandardWarnings report) true, None).

Section Derive.
Context {HF : HashFunction}.

Definition NewFromSeedPhrase (seed prefix : bytes) : go Wallet :=
  let key := pbkdf2SHA256 seed (str "nevel-seed") pbkdf2Iter 32 in
  FromHexPrivateKey (hex_encode key) prefix.
End Derive.

(** ** Phrases split back into their words *)

Definition plain_word (w : bytes) : Prop :=
  w <> [] /\ Forall (fun c => 97 <= c <= 122) w.

Lemma seed_words_plain : Forall plain_word seedWords.
Proof.
  assert (Forall (fun w => w <> [] /\ Forall (fun c => 97 <= c <= 122) w) seedWords) as H by by_decision.
  exact H.
Qed.

Lemma seed_words_count : length seedWords = 124%nat /\ NoDup seedWords.
Proof. split; [by vm_compute | by_decision]. Qed.

#[local] Opaque seedWords.

Lemma letter_not_space c : 97 <= c <= 122 -> is_space c = false.
Proof.
  intros H. unfold is_space. rewrite (proj2 (Z.eqb_neq _ _)) by lia.
  by rewrite (proj2 (Z.leb_gt c 13)), andb_false_r by lia.
Qed.

Lemma fields_word w acc s :
  Forall (fun c => 97 <= c <= 122) w -> fields_from acc (w ++ s) = fields_from (acc ++ w) s.
Proof.
  intros Hw. revert acc. induction Hw as [|c w Hc _ IH]; intros acc; simpl; [by rewrite app_nil_r|].
  rewrite letter_not_space by done. by rewrite IH, <- app_assoc.
Qed.

Lemma fields_join p ps :
  plain_word p -> Forall plain_word ps ->
  fields_from [] (p ++ flat_map (fun q => 32 :: q) ps) = p :: ps.
Proof.
  intros [Hp1 Hp2] Hps. revert p Hp1 Hp2. induction Hps as [|q ps [Hq1 Hq2] _ IH]; intros p Hp1 Hp2.
  - simpl. rewrite app_nil_r, <- (app_nil_r p) at 1. rewrite fields_word by done. simpl.
    by destruct p.
  - cbn [flat_map]. rewrite fields_word by done. simpl. destruct p as [|c p]; [done|].
    f_equal. by apply IH.
Qed.

Lemma Fields_Join ps : Forall plain_word ps -> Fields (Join ps) = ps.
Proof.
  intros Hps. unfold Fields, Join. destruct Hps as [|p ps Hp Hps]; [done|]. by apply fields_join.
Qed.

Lemma join_chars ps :
  Forall plain_word ps -> Forall (fun c => c = 32 \/ 97 <= c <= 122) (Join ps).
Proof.
  assert (forall p, plain_word p -> Forall (fun c => c = 32 \/ 97 <= c <= 122) p) as Hw.
  { intros p [_ Hp]. eapply Forall_impl; [exact Hp|]. auto. }
  intros Hps. destruct Hps as [|p ps Hp Hps]; [constructor|]. apply Forall_app. split; [by apply Hw|].
  induction Hps as [|q ps Hq _ IH]; [constructor|]. cbn [flat_map]. apply Forall_app.
  split; [constructor; [by left | by apply Hw] | done].
Qed.

Lemma ToLower_Join ps : Forall plain_word ps -> ToLower (Join ps) = Join ps.
Proof.
  intros H%join_chars. unfold ToLower. induction H as [|c l Hc _ IH]; [done|].
  rewrite fmap_cons, IH. f_equal. unfold lower_byte.
  destruct Hc as [->|Hc]; [done|]. by rewrite (proj2 (Z.leb_gt c 90)), andb_false_r by lia.
Qed.

Lemma trim_left_letter c s : 97 <= c <= 122 -> trim_left (c :: s) = c :: s.
Proof. intros Hc. simpl. by rewrite letter_not_space. Qed.

(** A phrase starts and ends with a letter. *)
Lemma join_ends ps :
  Forall plain_word ps -> ps <> [] ->
  exists c d s t, Join ps = c :: s /\ rev (Join ps) = d :: t /\ 97 <= c <= 122 /\ 97 <= d <= 122.
Proof.
  intros Hps Hne. destruct ps as [|p ps]; [done|]. apply Forall_cons in Hps as [[Hp1 Hp2] Hps].
  destruct p as [|c p]; [done|]. apply Forall_cons in Hp2 as Hc. destruct Hc as [Hc _].
  assert (exists d t, rev (Join ((c :: p) :: ps)) = d :: t /\ 97 <= d <= 122) as (d & t & Hd & Hdr).
  { destruct ps as [|q ps _] using rev_ind.
    - simpl. rewrite app_nil_r. destruct (exists_last (l := c :: p) ltac:(done)) as (l & d & El).
      exists d, (rev l). change (rev p ++ [c]) with (rev (c :: p)). rewrite El, rev_app_distr.
      split; [done|]. rewrite El in Hp2. by apply Forall_app in Hp2 as [_ ?%Forall_inv].
    - apply Forall_app in Hps as [_ [Hq1 Hq2]%Forall_inv].
      destruct (exists_last Hq1) as (l & d & ->).
      assert (Join ((c :: p) :: ps ++ [l ++ [d]])
              = ((c :: p) ++ flat_map (fun q => 32 :: q) ps ++ 32 :: l) ++ [d]) as ->.
      { unfold Join. rewrite flat_map_app. cbn [flat_map]. by rewrite app_nil_r, <- !app_assoc. }
      rewrite rev_app_distr. eexists d, _. split; [reflexivity|].
      by apply Forall_app in Hq2 as [_ ?%Forall_inv]. }
  exists c, d, (p ++ flat_map (fun q => 32 :: q) ps), t. split; [done|]. split; [exact Hd | done].
Qed.

Lemma TrimSpace_Join ps : Forall plain_word ps -> TrimSpace (Join ps) = Join ps.
Proof.
  intros Hps. destruct (decide (ps = [])) as [->|Hne]; [done|].
  destruct (join_ends ps Hps Hne) as (c & d & s & t & E1 & E2 & Hc & Hd). unfold TrimSpace.
  assert (trim_left (Join ps) = Join ps) as -> by (rewrite E1; by apply trim_left_letter).
  rewrite E2, trim_left_letter, <- E2 by done. apply rev_involutive.
Qed.

Lemma words_of_bytes b :
  Forall plain_word ((fun v => nth (Z.to_nat (v mod len seedWords)) seedWords []) <$> b) /\
  Forall (fun w => w ∈ seedWords) ((fun v => nth (Z.to_nat (v mod len seedWords)) seedWords []) <$> b).
Proof.
  assert (forall v, nth (Z.to_nat (v mod len seedWords)) seedWords [] ∈ seedWords) as H.
  { intros v. apply list_elem_of_In, nth_In. destruct seed_words_count as [Hn _].
    unfold len. rewrite Hn. pose proof (Z.mod_pos_bound v (Z.of_nat 124) ltac:(lia)). lia. }
  pose proof seed_words_plain as Hp. rewrite Forall_forall in Hp.
  split; apply Forall_fmap, Forall_true; intros v; [apply Hp, H | apply H].
Qed.

(** ** Properties *)

(** A generated phrase passes the audit exactly for 12, 18 and 24 words; the entropy the
    audit estimates is 8 bits a word, while the word list gives less than 7. *)
Theorem generated_seed_audit words rand phrase rest :
  NewSeedPhrase words rand = Ok (phrase, rest) ->
  let n := if words <=? 0 then 24 else words in
  let '(report, err) := AuditSeedPhrase phrase in
  sr_Words report = n /\ sr_EstimatedEntropy report = 8 * n /\
  (sr_Valid report = true <-> err = None) /\
  (err = None <-> n = 12 \/ n = 18 \/ n = 24) /\
  Fields phrase ⊆ seedWords /\ len seedWords ^ n < 2 ^ (7 * n).
Proof.
  unfold NewSeedPhrase. intros ([b rand'] & Hb & [= <- <-])%bind_Ok. apply readFull_Ok in Hb as [_ Hb].
  destruct (words_of_bytes b) as [Hp Hin]. set (ws := _ <$> b) in *.
  assert (length ws = length b) as Hlen by apply length_fmap.
  set (n := if words <=? 0 then 24 else words) in *.
  assert (0 < n) as Hn by (unfold n; destruct (Z.leb_spec words 0); lia).
  unfold AuditSeedPhrase. rewrite TrimSpace_Join, ToLower_Join, Fields_Join by done.
  assert (len ws = n) as -> by (unfold len; lia).
  assert (forallb (fun w => bool_decide (w ∈ seedWords)) ws = true) as ->.
  { apply forallb_forall. intros w Hw. apply bool_decide_eq_true. rewrite Forall_forall in Hin.
    by apply Hin, list_elem_of_In. }
  assert (ws ⊆ seedWords) as Hsub by (intros w Hw; rewrite Forall_forall in Hin; by apply Hin).
  assert (len seedWords ^ n < 2 ^ (7 * n)) as Hent.
  { unfold len. destruct seed_words_count as [-> _]. rewrite Z.pow_mul_r by lia.
    change (2 ^ 7) with 128. apply Z.pow_lt_mono_l; lia. }
  destruct (negb (n =? 12) && negb (n =? 18) && negb (n =? 24)) eqn:E; simpl.
  - breflect. split_and!; try done; [lia|]. split; [done | lia].
  - assert (n = 12 \/ n = 18 \/ n = 24) as Hc.
    { apply andb_false_iff in E as [[E|E]%andb_false_iff|E]; breflect; lia. }
    destruct (n =? 24); simpl; split_and!; try done; lia.
Qed.

Section Derive.
Context {HF : HashFunction}.

(** A phrase gives the well-formed wallet of the key derived from it, and a panic only
    when that key is a multiple of the order. *)
Theorem seed_wallet seed prefix :
  bytes_wf prefix -> prefix <> [] ->
  let key := be_val (pbkdf2SHA256 seed (str "nevel-seed") pbkdf2Iter 32) in
  match NewFromSeedPhrase seed prefix with
  | Some (Ok w) => wallet_ok w /\ D (w_PrivateKey w) = key /\ w_Prefix w = prefix
  | Some (Err _) => False
  | None => key mod secp256k1.(N) = 0
  end.
Proof.
  intros Hp Hne. unfold NewFromSeedPhrase. set (bs := pbkdf2SHA256 _ _ _ _).
  assert (bytes_wf bs) as Hw by (unfold bs; rewrite pbkdf2_rfc by lia; apply rfc_pbkdf2_wf). clearbody bs.
  pose proof (FromHexPrivateKey_spec (hex_encode bs) prefix Hp) as H.
  rewrite (hex_decode_encode bs Hw) in H.
  destruct (FromHexPrivateKey _ _) as [[w|e]|].
  - destruct H as (b & [= <-] & ? & _ & ? & ?). done.
  - destruct H as [[e' ?]|?]; done.
  - by destruct H as (b & [= <-] & ?).
Qed.
End Derive.
