(* ===== verification/Aes.v ===== *)
(** * Aes: AES-256 in Galois/counter mode

    The wallet file is sealed with crypto/aes and crypto/cipher's GCM.  [BlockCipher]
    is what the mode relies on, a keyed function on 16-byte blocks; [go_aes] is the
    cipher (FIPS 197), with its substitution table computed from the field
    inverse.  [Seal] and [Open] are the mode (SP 800-38D) with 12-byte nonces and
    16-byte tags; a nonce of another length panics.  [Open_Seal] is what the wallet
    needs: what was sealed opens. *)

From S2P Require Import Prelude Encoding.

(** ** The cipher *)

(** Multiplication in GF(2^8) modulo x^8 + x^4 + x^3 + x + 1. *)
Definition xtime (a : Z) : Z :=
  let a2 := 2 * a in if a2 <? 256 then a2 else Z.lxor a2 0x11b.
Fixpoint gf_mul (n : nat) (a b : Z) : Z :=
  match n with
  | O => 0
  | S n => Z.lxor (if Z.odd b then a else 0) (gf_mul n (xtime a) (Z.div2 b))
  end.
Definition gmul (a b : Z) : Z := gf_mul 8 a b.

(** The inverse is the power 254. *)
Definition gf_inverse (a : Z) : Z := Nat.iter 254 (gmul a) 1.
Definition rotl8 (a k : Z) : Z := Z.lor ((a * 2 ^ k) mod 256) (a / 2 ^ (8 - k)).
Definition sub_byte (a : Z) : Z :=
  let b := gf_inverse a in
  Z.lxor (Z.lxor (Z.lxor (Z.lxor (Z.lxor b (rotl8 b 1)) (rotl8 b 2)) (rotl8 b 3)) (rotl8 b 4)) 0x63.

Definition sbox : list Z := Eval vm_compute in sub_byte <$> seqZ 0 256.
Definition SubByte (a : Z) : Z := nth (Z.to_nat a) sbox 0.

Definition xors (a b : bytes) : bytes := zip_with Z.lxor a b.

(** Key expansion: 60 words of 4 bytes, newest first. *)
Fixpoint expand (n : nat) (i : nat) (rcon : Z) (w : list bytes) : list bytes :=
  match n with
  | O => w
  | S n =>
      let temp := nth 0 w [] in
      let '(temp, rcon) :=
        if (i mod 8 =? 0)%nat then
          (xors (SubByte <$> (drop 1 temp ++ take 1 temp)) [rcon; 0; 0; 0], xtime rcon)
        else if (i mod 8 =? 4)%nat then (SubByte <$> temp, rcon)
        else (temp, rcon) in
      expand n (S i) rcon (xors (nth 7 w []) temp :: w)
  end.
Fixpoint chunks (n : nat) (size : nat) (bs : bytes) : list bytes :=
  match n with O => [] | S n => take size bs :: chunks n size (drop size bs) end.
(** The 15 round keys of 16 bytes. *)
Definition round_keys (key : bytes) : list bytes :=
  chunks 15 16 (concat (rev (expand 52 8 1 (rev (chunks 8 4 key))))).

(** The state is the block, column by column. *)
Definition ShiftRows (s : bytes) : bytes :=
  (fun k => nth ((k + 4 * (k mod 4)) mod 16) s 0) <$> seq 0 16.
Definition mix_column (c : bytes) : bytes :=
  let a i := nth (i mod 4) c 0 in
  (fun i => Z.lxor (Z.lxor (gmul 2 (a i)) (gmul 3 (a (i + 1)%nat))) (Z.lxor (a (i + 2)%nat) (a (i + 3)%nat))) <$> seq 0 4.
Definition MixColumns (s : bytes) : bytes := concat (mix_column <$> chunks 4 4 s).

Fixpoint rounds (ks : list bytes) (s : bytes) : bytes :=
  match ks with
  | [] => s
  | [k] => xors (ShiftRows (SubByte <$> s)) k
  | k :: ks => rounds ks (xors (MixColumns (ShiftRows (SubByte <$> s))) k)
  end.
Definition aes_encrypt (key block : bytes) : bytes :=
  match round_keys key with
  | [] => block
  | k :: ks => rounds ks (xors block k)
  end.

(** FIPS 197, appendix C.3. *)
Example aes_fips197 :
  hex_encode (aes_encrypt (seqZ 0 32) ((fun i => 17 * i) <$> seqZ 0 16))
  = str "8ea2b7ca516745bfeafc49904b496089".
Proof. vm_compute. reflexivity. Qed.

(** ** Blocks stay blocks *)

Definition word_ok (size : nat) (w : bytes) : Prop := length w = size /\ bytes_wf w.

Lemma SubByte_byte a : is_byte (SubByte a).
Proof.
  unfold SubByte. assert (Forall is_byte sbox) as H by by_decision.
  destruct (nth_in_or_default (Z.to_nat a) sbox 0) as [Hin| ->]; [|done].
  rewrite Forall_forall in H. by apply H, list_elem_of_In.
Qed.

Lemma lxor_byte a b : is_byte a -> is_byte b -> is_byte (Z.lxor a b).
Proof.
  unfold is_byte. intros Ha Hb. split; [apply Z.lxor_nonneg; lia|].
  destruct (Z.lxor a b =? 0) eqn:E; breflect; [lia|].
  apply Z.log2_lt_pow2; [pose proof (proj2 (Z.lxor_nonneg a b) ltac:(lia)); lia|].
  eapply Z.le_lt_trans; [apply Z.log2_lxor; lia|].
  destruct (Z.eq_dec a 0), (Z.eq_dec b 0); subst; simpl; try lia;
    apply Z.max_lub_lt; try (apply Z.log2_lt_pow2; lia); simpl; lia.
Qed.

Lemma xors_ok size a b : word_ok size a -> word_ok size b -> word_ok size (xors a b).
Proof.
  intros [Ha Hwa] [Hb Hwb]. unfold word_ok, xors. rewrite length_zip_with, Ha, Hb, Nat.min_id.
  split; [done|]. clear Ha Hb. revert b Hwb. induction Hwa as [|x a Hx _ IH]; intros b Hwb; [constructor|].
  destruct Hwb as [|y b Hy Hwb]; [constructor|]. constructor; [by apply lxor_byte | by apply IH].
Qed.

Lemma SubByte_ok size w : length w = size -> word_ok size (SubByte <$> w).
Proof.
  intros Hw. split; [by rewrite length_fmap|]. apply Forall_fmap, Forall_true. intros a. apply SubByte_byte.
Qed.

Lemma expand_ok n i rcon w :
  (8 <= length w)%nat -> Forall (word_ok 4) w -> is_byte rcon ->
  Forall (word_ok 4) (expand n i rcon w) /\ length (expand n i rcon w) = (n + length w)%nat.
Proof.
  revert i rcon w. induction n as [|n IH]; intros i rcon w Hl Hw Hr; [done|]. cbn [expand].
  assert (forall k, (k < 8)%nat -> word_ok 4 (nth k w [])) as Hn.
  { intros k Hk. rewrite Forall_forall in Hw. apply Hw, list_elem_of_In, nth_In. lia. }
  assert (is_byte (xtime rcon)) as Hx.
  { unfold xtime. destruct (Z.ltb_spec (2 * rcon) 256); [unfold is_byte in *; lia|].
    assert (Forall (fun a => 2 * a < 256 \/ is_byte (Z.lxor (2 * a) 0x11b)) (seqZ 0 256)) as H' by by_decision.
    rewrite Forall_forall in H'. destruct (H' rcon); [apply elem_of_seqZ; unfold is_byte in Hr; lia | lia | done]. }
  set (temp := nth 0 w []). assert (word_ok 4 temp) as [Ht Htw] by (apply Hn; lia).
  set (tr := if (i mod 8 =? 0)%nat then _ else _).
  assert (word_ok 4 tr.1 /\ is_byte tr.2) as [H1 H2].
  { unfold tr. destruct (i mod 8 =? 0)%nat; [|destruct (i mod 8 =? 4)%nat]; simpl; (split; [|done]).
    - apply xors_ok; [apply SubByte_ok|split; [done|]].
      2: { constructor; [done|]. by_decision. }
      rewrite length_app, length_drop, length_take. lia.
    - by apply SubByte_ok.
    - done. }
  destruct tr as [temp' rcon']. simpl in H1, H2.
  destruct (IH (S i) rcon' (xors (nth 7 w []) temp' :: w)) as [Hf Hlen].
  - simpl. lia.
  - constructor; [|done]. apply xors_ok; [apply Hn; lia | done].
  - done.
  - split; [done|]. rewrite Hlen. simpl. lia.
Qed.

Lemma chunks_ok n size bs :
  bytes_wf bs -> length bs = (n * size)%nat -> Forall (word_ok size) (chunks n size bs) /\ length (chunks n size bs) = n.
Proof.
  revert bs. induction n as [|n IH]; intros bs Hw Hl; [by split; [constructor|]|]. cbn [chunks].
  destruct (IH (drop size bs)) as [Hf Hn]; [by apply bytes_wf_drop | rewrite length_drop; lia|].
  split; [|simpl; lia]. constructor; [|done]. split; [rewrite length_take; lia | by apply bytes_wf_take].
Qed.

Lemma concat_ok size ws :
  Forall (word_ok size) ws -> bytes_wf (concat ws) /\ length (concat ws) = (length ws * size)%nat.
Proof.
  induction 1 as [|w ws [Hl Hw] _ [IH1 IH2]]; [by split; [constructor|]|]. simpl. rewrite length_app, Hl, IH2.
  split; [by apply bytes_wf_app | done].
Qed.

Lemma round_keys_ok key :
  word_ok 32 key -> Forall (word_ok 16) (round_keys key) /\ length (round_keys key) = 15%nat.
Proof.
  intros [Hl Hw]. unfold round_keys.
  destruct (chunks_ok 8 4 key Hw Hl) as [Hc Hcl].
  destruct (expand_ok 52 8 1 (rev (chunks 8 4 key))) as [He Hel].
  - by rewrite length_rev, Hcl.
  - by apply Forall_rev.
  - done.
  - rewrite length_rev, Hcl in Hel. set (ws := expand _ _ _ _) in *.
    destruct (concat_ok 4 (rev ws)) as [Hcw Hcn].
    { by apply Forall_rev. }
    rewrite length_rev, Hel in Hcn. by apply chunks_ok.
Qed.

Lemma ShiftRows_ok s : bytes_wf s -> word_ok 16 (ShiftRows s).
Proof.
  intros Hs. split; [done|]. apply Forall_fmap, Forall_true. intros k. unfold compose.
  destruct (nth_in_or_default ((k + 4 * (k mod 4)) mod 16) s 0) as [Hin|E]; cbv beta.
  - unfold bytes_wf in Hs. rewrite Forall_forall in Hs. by apply Hs, list_elem_of_In.
  - by rewrite E.
Qed.

Lemma rounds_ok ks s : ks <> [] -> Forall (word_ok 16) ks -> word_ok 16 (rounds ks s).
Proof.
  intros Hne Hk. revert s Hne. induction Hk as [|k ks Hk Hks IH]; intros s Hne; [done|].
  destruct ks as [|k' ks]; [|by apply IH]. cbn [rounds]. apply xors_ok; [|done].
  apply ShiftRows_ok. apply Forall_fmap, Forall_true. intros a. apply SubByte_byte.
Qed.

Lemma aes_encrypt_ok key block : word_ok 32 key -> word_ok 16 (aes_encrypt key block).
Proof.
  intros [Hf Hn]%round_keys_ok. unfold aes_encrypt.
  destruct (round_keys key) as [|k ks]; [done|]. apply Forall_cons in Hf as [_ Hf].
  apply rounds_ok; [|done]. by destruct ks.
Qed.

(** ** The mode *)

Class BlockCipher := {
  encrypt : bytes -> bytes -> bytes;
  encrypt_ok : forall key block, word_ok 32 key -> word_ok 16 (encrypt key block);
}.

Definition go_aes : BlockCipher := {| encrypt := aes_encrypt; encrypt_ok := aes_encrypt_ok |}.

(** Multiplication in GF(2^128), the first bit of a block being the highest. *)
Fixpoint gcm_mul (n : nat) (x v z : Z) : Z :=
  match n with
  | O => z
  | S n =>
      let z := if Z.testbit x (Z.of_nat n) then Z.lxor z v else z in
      let v := if Z.odd v then Z.lxor (Z.div2 v) (0xe1 * 2 ^ 120) else Z.div2 v in
      gcm_mul n x v z
  end.

(** Zeros to the next multiple of 16. *)
Definition pad16 (bs : bytes) : bytes := bs ++ replicate (Z.to_nat ((- len bs) mod 16)) 0.

Definition ghash (h : Z) (data : bytes) : Z :=
  foldl (fun y block => gcm_mul 128 (Z.lxor y (be_val block)) h 0) 0
    (chunks (length data / 16) 16 data).

Section Gcm.
Context {BC : BlockCipher}.

Definition NonceSize : Z := 12.
Definition TagSize : nat := 16.

(** The counter block [i] for a nonce. *)
Definition counter (nonce : bytes) (i : nat) : bytes := nonce ++ be_bytes 4 (u32 (Z.of_nat i)).

(** Counter mode from block 2 on. *)
Definition gcm_crypt (key nonce text : bytes) : bytes :=
  xors text (flat_map (fun i => encrypt key (counter nonce i)) (seq 2 ((length text + 15) / 16))).

Definition gcm_tag (key nonce ad ciphertext : bytes) : bytes :=
  let h := be_val (encrypt key (replicate 16 0)) in
  let lengths := be_bytes 8 (u64 (len ad * 8)) ++ be_bytes 8 (u64 (len ciphertext * 8)) in
  let s := ghash h (pad16 ad ++ pad16 ciphertext ++ lengths) in
  be_bytes 16 (Z.lxor s (be_val (encrypt key (counter nonce 1)))).

(** [gcm.Seal(nil, nonce, plaintext, ad)]; [None]: a panic. *)
Definition Seal (key nonce plaintext ad : bytes) : option bytes :=
  if negb (len nonce =? NonceSize) then None
  else if (2 ^ 32 - 2) * 16 <? len plaintext then None
  else
    let c := gcm_crypt key nonce plaintext in
    Some (c ++ gcm_tag key nonce ad c).

(** [gcm.Open(nil, nonce, ciphertext, ad)] *)
Definition Open (key nonce ciphertext ad : bytes) : option (result bytes) :=
  if negb (len nonce =? NonceSize) then None
  else if len ciphertext <? Z.of_nat TagSize then Some (Err (Errorf "cipher: message authentication failed"))
  else if (2 ^ 32 - 2) * 16 + 16 <? len ciphertext
  then Some (Err (Errorf "cipher: message authentication failed"))
  else
    let cut := (length ciphertext - TagSize)%nat in
    let c := take cut ciphertext in
    if bool_decide (gcm_tag key nonce ad c = drop cut ciphertext)
    then Some (Ok (gcm_crypt key nonce c))
    else Some (Err (Errorf "cipher: message authentication failed")).

(** Opening panics for a nonce of another length, and only then. *)
Lemma Open_panics key nonce ciphertext ad : Open key nonce ciphertext ad = None <-> len nonce <> NonceSize.
Proof. unfold Open. destruct (Z.eqb_spec (len nonce) NonceSize); simpl; repeat case_match; done. Qed.

Lemma keystream_ok key nonce n m :
  word_ok 32 key -> word_ok (16 * n) (flat_map (fun i => encrypt key (counter nonce i)) (seq m n)).
Proof.
  intros Hk. revert m. induction n as [|n IH]; intros m; [by split; [|constructor]|].
  cbn [seq flat_map]. destruct (IH (S m)) as [Hl Hw]. destruct (encrypt_ok key (counter nonce m) Hk) as [He Hew].
  split; [rewrite length_app; lia | by apply bytes_wf_app].
Qed.

Lemma xors_twice a k : (length a <= length k)%nat -> xors (xors a k) k = a.
Proof.
  revert k. induction a as [|x a IH]; intros k Hl; [done|]. destruct k as [|y k]; [simpl in Hl; lia|].
  unfold xors in *. simpl. rewrite Z.lxor_assoc, Z.lxor_nilpotent, Z.lxor_0_r. f_equal.
  apply IH. simpl in Hl. lia.
Qed.

Lemma gcm_crypt_ok key nonce text :
  word_ok 32 key -> bytes_wf text ->
  length (gcm_crypt key nonce text) = length text /\ bytes_wf (gcm_crypt key nonce text).
Proof.
  intros Hk Hw. unfold gcm_crypt. set (n := ((length text + 15) / 16)%nat).
  destruct (keystream_ok key nonce n 2 Hk) as [Hl Hkw].
  assert (length text <= 16 * n)%nat as Hle.
  { unfold n. pose proof (Nat.div_mod_eq (length text + 15) 16).
    pose proof (Nat.mod_upper_bound (length text + 15) 16 ltac:(lia)). lia. }
  set (ks := flat_map _ _) in *.
  destruct (xors_ok (length text) text (take (length text) ks)) as [H1 H2].
  - done.
  - split; [rewrite length_take; lia | by apply bytes_wf_take].
  - assert (xors text (take (length text) ks) = xors text ks) as E.
    { unfold xors. rewrite <- (take_drop (length text) ks) at 2.
      rewrite <- (app_nil_r text) at 3. rewrite zip_with_app by (rewrite length_take; lia).
      by rewrite app_nil_r. }
    by rewrite E in *.
Qed.

Lemma gcm_crypt_twice key nonce text :
  word_ok 32 key -> bytes_wf text -> gcm_crypt key nonce (gcm_crypt key nonce text) = text.
Proof.
  intros Hk Hw. destruct (gcm_crypt_ok key nonce text Hk Hw) as [Hl _].
  unfold gcm_crypt at 1. rewrite Hl. unfold gcm_crypt. apply xors_twice.
  destruct (keystream_ok key nonce ((length text + 15) / 16) 2 Hk) as [-> _].
  pose proof (Nat.div_mod_eq (length text + 15) 16).
  pose proof (Nat.mod_upper_bound (length text + 15) 16 ltac:(lia)). lia.
Qed.

Lemma gcm_tag_ok key nonce ad c : word_ok 16 (gcm_tag key nonce ad c).
Proof. unfold gcm_tag. split; [apply be_bytes_length | apply be_bytes_wf]. Qed.

(** What was sealed opens, under the same key, nonce and additional data. *)
Lemma Open_Seal key nonce plain ad sealed :
  word_ok 32 key -> bytes_wf plain -> Seal key nonce plain ad = Some sealed ->
  Open key nonce sealed ad = Some (Ok plain) /\ bytes_wf sealed /\ len sealed = len plain + 16.
Proof.
  intros Hk Hw. unfold Seal, Open. destruct (len nonce =? NonceSize); [|done]. simpl.
  destruct (Z.ltb_spec ((2 ^ 32 - 2) * 16) (len plain)) as [|Hlen]; [done|]. intros [= <-].
  destruct (gcm_crypt_ok key nonce plain Hk Hw) as [Hl Hcw]. set (c := gcm_crypt key nonce plain) in *.
  destruct (gcm_tag_ok key nonce ad c) as [Htl Htw].
  assert (len (c ++ gcm_tag key nonce ad c) = len plain + 16) as El
    by (unfold len; rewrite length_app, Hl, Htl; lia).
  rewrite El. pose proof (len_nonneg plain).
  rewrite !(proj2 (Z.ltb_ge _ _)) by (unfold TagSize; lia).
  rewrite length_app, Htl. unfold TagSize. rewrite Nat.add_sub, take_app_length, drop_app_length.
  rewrite bool_decide_true by done. unfold c. rewrite gcm_crypt_twice by done.
  split_and!; [done | by apply bytes_wf_app | done].
Qed.
End Gcm.

(** Two test cases of the specification of the mode. *)
Example gcm_case_13 :
  hex_encode <$> (@Seal go_aes (replicate 32 0) (replicate 12 0) [] [])
  = Some (str "530f8afbc74536b9a963b4f1c4cb738b").
Proof. vm_compute. reflexivity. Qed.
Example gcm_case_14 :
  hex_encode <$> (@Seal go_aes (replicate 32 0) (replicate 12 0) (replicate 16 0) [])
  = Some (str "cea7403d4d606b6e074ec5d3baf39d18d0d1c8a799996bf0265b98b5d48ab919").
Proof. vm_compute. reflexivity. Qed.
