(* ===== verification/KeyFile.v ===== *)
(** * KeyFile: encrypted wallet files

    Models the rest of wallet/store.go: SaveEncrypted, SaveEncryptedWithSeed and
    LoadEncrypted, with the JSON text of the file as json.MarshalIndent writes it
    and json.Unmarshal reads it.  The files of the disk are a map from paths to
    contents; whether a write succeeds, and what a failed one leaves, is an
    argument. *)

From S2P Require Import Prelude Encoding Sha256 Params Tx Block Consensus Pebble Storage Json Bech32.
From S2P Require Import Secp256k1 Ecdsa BasePoint Ripemd160 Keys Wallet Pbkdf2 Seed Aes.

#[local] Opaque secp256k1 pbkdf2SHA256.

(** ** Data *)

Record EncryptedFile := mkEncryptedFile {
  ef_Version : Z;
  ef_Address : bytes;
  ef_Prefix : bytes;
  ef_KDF : bytes;
  ef_KDFSalt : bytes;
  ef_KDFIter : Z;
  ef_Nonce : bytes;
  ef_Ciphertext : bytes;
}.

Record walletPlaintext := mkPlaintext {
  wp_PrivateKeyHex : bytes;
  wp_SeedPhrase : bytes;
}.

Definition currentVersion : Z := 2.

(** ** JSON *)

Definition file_fields (f : EncryptedFile) : list (bytes * json) :=
  [(str "version", JNum (decimal (ef_Version f)));
   (str "address", json_string (ef_Address f));
   (str "prefix", json_string (ef_Prefix f));
   (str "kdf", json_string (ef_KDF f))] ++
  omit_string (str "kdfSalt") (ef_KDFSalt f) ++
  omit_int (str "kdfIter") (ef_KDFIter f) ++
  [(str "nonce", json_string (ef_Nonce f));
   (str "ciphertext", json_string (ef_Ciphertext f))].

Definition plaintext_fields (p : walletPlaintext) : list (bytes * json) :=
  (str "privateKeyHex", json_string (wp_PrivateKeyHex p)) ::
  omit_string (str "seedPhrase") (wp_SeedPhrase p).

(** [json.MarshalIndent(v, "", "  ")] of an object whose values are scalars. *)
Definition indent_member (kv : bytes * json) : bytes := quote kv.1 ++ [58; 32] ++ print kv.2.
Definition MarshalIndent (fs : list (bytes * json)) : bytes :=
  match fs with
  | [] => str "{}"
  | f :: fs => [123; 10; 32; 32] ++ indent_member f ++
      flat_map (fun f => [44; 10; 32; 32] ++ indent_member f) fs ++ [10; 125]
  end.

Definition decode_file_field (f : EncryptedFile) (kv : bytes * json) : result EncryptedFile :=
  let '(k, v) := kv in
  let '(mkEncryptedFile ver addr pre kdf salt iter nonce ct) := f in
  if is_field (str "version") k then x ← decode_int ver v; Ok (mkEncryptedFile x addr pre kdf salt iter nonce ct)
  else if is_field (str "address") k then x ← decode_string addr v; Ok (mkEncryptedFile ver x pre kdf salt iter nonce ct)
  else if is_field (str "prefix") k then x ← decode_string pre v; Ok (mkEncryptedFile ver addr x kdf salt iter nonce ct)
  else if is_field (str "kdf") k then x ← decode_string kdf v; Ok (mkEncryptedFile ver addr pre x salt iter nonce ct)
  else if is_field (str "kdfSalt") k then x ← decode_string salt v; Ok (mkEncryptedFile ver addr pre kdf x iter nonce ct)
  else if is_field (str "kdfIter") k then x ← decode_int iter v; Ok (mkEncryptedFile ver addr pre kdf salt x nonce ct)
  else if is_field (str "nonce") k then x ← decode_string nonce v; Ok (mkEncryptedFile ver addr pre kdf salt iter x ct)
  else if is_field (str "ciphertext") k then x ← decode_string ct v; Ok (mkEncryptedFile ver addr pre kdf salt iter nonce x)
  else Ok f.

Definition decode_plaintext_field (p : walletPlaintext) (kv : bytes * json) : result walletPlaintext :=
  let '(k, v) := kv in
  let '(mkPlaintext key seed) := p in
  if is_field (str "privateKeyHex") k then x ← decode_string key v; Ok (mkPlaintext x seed)
  else if is_field (str "seedPhrase") k then x ← decode_string seed v; Ok (mkPlaintext key x)
  else Ok p.

Definition decode_file : json -> result EncryptedFile :=
  decode_object decode_file_field (mkEncryptedFile 0 [] [] [] [] 0 [] []).
Definition decode_plaintext : json -> result walletPlaintext :=
  decode_object decode_plaintext_field (mkPlaintext [] []).

(** ** Saving and loading *)

Abbreviation Files := (gmap bytes bytes).

(** [os.WriteFile]: [None] is success, [Some torn] a failure that leaves [torn]. *)
Definition WriteFile (path data : bytes) (outcome : option (option bytes)) (files : Files) : Files * result unit :=
  match outcome with
  | None => (<[path := data]> files, Ok tt)
  | Some torn => (partial_alter (fun _ => torn) path files, Err ErrOS)
  end.

Section Code.
Context {HF : HashFunction} {BC : BlockCipher}.

Definition deriveKey (passphrase salt : bytes) : bytes := pbkdf2SHA256 passphrase salt pbkdf2Iter 32.

(** The contents of the file, before it is written. *)
Definition seal_wallet (w : Wallet) (seedPhrase passphrase rand : bytes) : go bytes :=
  match passphrase with
  | [] => Some (Err (Errorf "passphrase required"))
  | _ =>
      sr ←! no_panic (readFull 32 rand);
      let salt := sr.1 in
      let key := deriveKey passphrase salt in
      nr ←! no_panic (readFull (Z.to_nat NonceSize) sr.2);
      let nonce := nr.1 in
      let plain := print (JObj (plaintext_fields (mkPlaintext (PrivateKeyHex (w_PrivateKey w)) seedPhrase))) in
      encrypted ←! no_error (Seal key nonce plain (w_Address w));
      Some (Ok (MarshalIndent (file_fields
        (mkEncryptedFile currentVersion (w_Address w) (w_Prefix w) (str "pbkdf2-sha256")
           (hex_encode salt) pbkdf2Iter (hex_encode nonce) (hex_encode encrypted)))))
  end.

Definition SaveEncryptedWithSeed (path : bytes) (w : Wallet) (seedPhrase passphrase rand : bytes)
    (outcome : option (option bytes)) (files : Files) : Files * go unit :=
  match seal_wallet w seedPhrase passphrase rand with
  | None => (files, None)
  | Some (Err e) => (files, Some (Err e))
  | Some (Ok data) => let '(files, r) := WriteFile path data outcome files in (files, Some r)
  end.

Definition SaveEncrypted (path : bytes) (w : Wallet) (passphrase rand : bytes)
    (outcome : option (option bytes)) (files : Files) : Files * go unit :=
  SaveEncryptedWithSeed path w [] passphrase rand outcome files.

(** [switch file.Version] *)
Definition file_key (file : EncryptedFile) (passphrase : bytes) : result bytes :=
  if ef_Version file =? 1 then Ok (sha256 passphrase)
  else if ef_Version file =? 2 then
    salt ← hex_decode (ef_KDFSalt file);
    let iters := if ef_KDFIter file <=? 0 then pbkdf2Iter else ef_KDFIter file in
    Ok (pbkdf2SHA256 passphrase salt iters 32)
  else Err (Errorf "unsupported wallet version").

Definition open_wallet (data passphrase : bytes) : go (Wallet * bytes) :=
  file ←! no_panic (Unmarshal decode_file data);
  key ←! no_panic (file_key file passphrase);
  nonce ←! no_panic (hex_decode (ef_Nonce file));
  ciphertext ←! no_panic (hex_decode (ef_Ciphertext file));
  plain ←! match Open key nonce ciphertext (ef_Address file) with
           | Some (Err _) => Some (Err (Errorf "wrong passphrase or corrupt wallet"))
           | r => r
           end;
  decoded ←! no_panic (Unmarshal decode_plaintext plain);
  w ←! FromHexPrivateKey (wp_PrivateKeyHex decoded) (ef_Prefix file);
  if negb (bool_decide (w_Address w = ef_Address file))
  then Some (Err (Errorf "wallet address mismatch"))
  else Some (Ok (w, wp_SeedPhrase decoded)).

Definition LoadEncrypted (path passphrase : bytes) (files : Files) : go (Wallet * bytes) :=
  match files !! path with
  | None => Some (Err ErrNotFound)
  | Some data => open_wallet data passphrase
  end.
End Code.

(** ** The indented text parses *)

Definition canonical_member (kv : bytes * json) : Prop := Forall safe_char kv.1 /\ canonical kv.2.

(** The members after the first, each after a comma and a new line. *)
Definition more_members (fs : list (bytes * json)) : bytes :=
  flat_map (fun f => [44; 10; 32; 32] ++ indent_member f) fs.

Lemma skip_ws_app ws s : forallb is_ws ws = true -> skip_ws (ws ++ s) = skip_ws s.
Proof.
  induction ws as [|c ws IH]; simpl; [done|]. intros [-> H]%andb_true_iff. by apply IH.
Qed.

Lemma parse_value_ws fuel ws s : forallb is_ws ws = true -> parse_value fuel (ws ++ s) = parse_value fuel s.
Proof. intros H. destruct fuel as [|fuel]; [done|]. cbn [parse_value]. by rewrite skip_ws_app. Qed.

Lemma indent_length f : (length (print f.2) + 4 <= length (indent_member f))%nat.
Proof. unfold indent_member, quote. rewrite length_app. simpl. rewrite length_app. simpl. lia. Qed.

(** One member, up to what follows its value. *)
Lemma parse_member fuel ws k v rest :
  forallb is_ws ws = true -> canonical_member (k, v) -> stops rest -> (length (print v) < fuel)%nat ->
  parse_members (S fuel) (ws ++ indent_member (k, v) ++ rest) =
  match skip_ws rest with
  | 44 :: s => '(fs, s) ← parse_members fuel s; Some ((k, v) :: fs, s)
  | 125 :: s => Some ([(k, v)], s)
  | _ => None
  end.
Proof.
  intros Hws [Hk Hv] Hs Hf. cbn [fst snd] in Hk, Hv.
  assert (ws ++ indent_member (k, v) ++ rest = ws ++ 34 :: k ++ 34 :: 58 :: [32] ++ print v ++ rest) as ->.
  { unfold indent_member, quote. cbn [fst snd app]. by rewrite <- !app_assoc. }
  cbn [parse_members]. rewrite skip_ws_app by done. rewrite (skip_ws_cons 34) by done.
  rewrite scan_string_safe; [|done | rewrite length_app; simpl; lia].
  cbn [mbind option_bind]. rewrite (skip_ws_cons 58) by done. rewrite parse_value_ws by done.
  destruct (parses_all fuel) as (HP & _). by rewrite HP.
Qed.

Lemma parse_indented fuel f fs ws :
  forallb is_ws ws = true -> Forall canonical_member (f :: fs) ->
  (length (indent_member f ++ more_members fs) < fuel)%nat ->
  parse_members fuel (ws ++ indent_member f ++ more_members fs ++ [10; 125]) = Some (f :: fs, []).
Proof.
  revert fuel f ws. induction fs as [|g fs IH]; intros fuel [k v] ws Hws Hc Hf;
    (destruct fuel as [|fuel]; [lia|]); apply Forall_cons in Hc as [Hkv Hc];
    pose proof (indent_length (k, v)) as Hlen; rewrite length_app in Hf; cbn [snd] in Hlen.
  - rewrite parse_member; [done | done | done | done | lia].
  - assert (more_members (g :: fs) ++ [10; 125] = 44 :: [10; 32; 32] ++ indent_member g ++ more_members fs ++ [10; 125])
      as -> by (unfold more_members; cbn [flat_map]; by rewrite <- !app_assoc).
    rewrite parse_member; [|done | done | done | lia].
    rewrite (skip_ws_cons 44) by done. rewrite IH; [done | done | done |].
    change (more_members (g :: fs)) with (([44; 10; 32; 32] ++ indent_member g) ++ more_members fs) in Hf.
    rewrite <- app_assoc, (length_app [44; 10; 32; 32]) in Hf. cbn [length] in Hf. lia.
Qed.

(** What MarshalIndent writes parses to the object. *)
Lemma parse_MarshalIndent f fs :
  Forall canonical_member (f :: fs) -> parse (MarshalIndent (f :: fs)) = Some (JObj (f :: fs)).
Proof.
  intros Hc. set (text := MarshalIndent (f :: fs)).
  assert (text = 123 :: [10; 32; 32] ++ indent_member f ++ more_members fs ++ [10; 125]) as E by done.
  unfold parse. set (fuel := (2 * length text + 2)%nat).
  assert (S (S (length (indent_member f ++ more_members fs))) < fuel)%nat as Hf.
  { unfold fuel. rewrite E. cbn [length]. rewrite !length_app. simpl. lia. }
  clearbody fuel text. subst text. destruct fuel as [|fuel]; [lia|]. cbn [parse_value].
  rewrite (skip_ws_cons 123) by done. cbn [Z.eqb Pos.eqb].
  rewrite (parse_indented fuel f fs [10; 32; 32]) by (done || lia).
  rewrite skip_ws_app by done. destruct f as [k v].
  assert (indent_member (k, v) ++ more_members fs ++ [10; 125]
    = 34 :: (k ++ [34]) ++ [58; 32] ++ print v ++ more_members fs ++ [10; 125]) as ->.
  { unfold indent_member, quote. cbn [fst snd app]. by rewrite <- !app_assoc. }
  by rewrite (skip_ws_cons 34) by done.
Qed.

(** ** Addresses are plain text *)

Lemma plain_ToLower s : plain_text s -> plain_text (ToLower s).
Proof.
  intros H. apply Forall_fmap. eapply Forall_impl; [exact H|]. intros c Hc. unfold plain_char in *.
  cbn [compose]. unfold lower_byte. destruct (_ && _) eqn:E; breflect; lia.
Qed.

Lemma plain_chars data : Bech32.digits 5 data -> plain_text (chars data).
Proof.
  assert (Forall (fun n => plain_char (nth (Z.to_nat n) bech32Charset 0)) (Z.of_nat <$> seq 0 32)) as H by by_decision.
  rewrite Forall_forall in H. intros Hd. apply Forall_fmap. eapply Forall_impl; [exact Hd|].
  intros p Hp. change (0 <= p < 32) in Hp. cbn [compose]. apply H, list_elem_of_fmap. exists (Z.to_nat p). split; [lia|]. apply elem_of_seq. lia.
Qed.

(** ** The file decodes to what was encoded *)

Definition plain_file (f : EncryptedFile) : Prop :=
  (0 <= ef_Version f < 2 ^ 63) /\ (0 <= ef_KDFIter f < 2 ^ 63) /\
  plain_text (ef_Address f) /\ plain_text (ef_Prefix f) /\ plain_text (ef_KDF f) /\
  plain_text (ef_KDFSalt f) /\ plain_text (ef_Nonce f) /\ plain_text (ef_Ciphertext f).

Lemma member_string name s :
  Forall safe_char name -> plain_text s -> canonical_member (name, json_string s).
Proof.
  intros Hn Hs. split; [done|]. unfold json_string. rewrite escape_plain by done. by apply plain_safe.
Qed.

Lemma member_int name z :
  Forall safe_char name -> 0 <= z -> canonical_member (name, JNum (decimal z)).
Proof. intros Hn Hz. split; [done|]. by apply decimal_canonical. Qed.

#[export] Instance safe_char_dec c : Decision (safe_char c).
Proof. unfold safe_char. apply _. Defined.

Lemma file_canonical f : plain_file f -> Forall canonical_member (file_fields f).
Proof.
  intros (Hv & Hi & Ha & Hp & Hk & Hs & Hn & Hc). unfold file_fields, omit_string, omit_int.
  repeat (apply Forall_app; split);
    repeat (apply Forall_cons; split);
    first [apply member_string; [by_decision | done] | apply member_int; [by_decision | lia] | constructor | idtac].
  - destruct (ef_KDFSalt f); [constructor|].
    apply Forall_singleton, member_string; [by_decision | done].
  - destruct (_ =? _); [constructor|]. apply Forall_singleton, member_int; [by_decision | lia].
Qed.

Lemma plaintext_canonical p :
  plain_text (wp_PrivateKeyHex p) -> plain_text (wp_SeedPhrase p) ->
  Forall canonical_member (plaintext_fields p).
Proof.
  intros Hk Hs. apply Forall_cons. split; [apply member_string; [by_decision | done]|]. unfold omit_string.
  destruct (wp_SeedPhrase p); [constructor|]. apply Forall_singleton, member_string; [by_decision | done].
Qed.

Lemma decode_int_decimal old z : 0 <= z < 2 ^ 63 -> decode_int old (JNum (decimal z)) = Ok z.
Proof.
  intros Hz. pose proof (decimal_digits z (proj1 Hz)) as Hd. pose proof (decimal_roundtrip z (proj1 Hz)) as E.
  assert (match decimal_value (decimal z) with
          | Some n => if n <? 2 ^ 63 then Ok n else type_error | None => type_error end = Ok z) as E'
    by (rewrite E, (proj2 (Z.ltb_lt _ _)) by lia; done).
  destruct (decimal z) as [|c l]; [done|]. apply Forall_cons in Hd as [Hc _].
  etransitivity; [|exact E']. cbn beta in Hc. unfold decode_int. destruct c as [|p|p]; [lia| |lia].
  repeat (destruct p as [p|p|]; try lia; try done).
Qed.

(** Which field a name selects. *)
Section FileFields.
Context (ver : Z) (addr pre kdf salt : bytes) (iter : Z) (nonce ct : bytes) (v : json).
Abbreviation f := (mkEncryptedFile ver addr pre kdf salt iter nonce ct).
Lemma field_version :
  decode_file_field f (str "version", v) = x ← decode_int ver v; Ok (mkEncryptedFile x addr pre kdf salt iter nonce ct).
Proof. reflexivity. Qed.
Lemma field_address :
  decode_file_field f (str "address", v) = x ← decode_string addr v; Ok (mkEncryptedFile ver x pre kdf salt iter nonce ct).
Proof. reflexivity. Qed.
Lemma field_prefix :
  decode_file_field f (str "prefix", v) = x ← decode_string pre v; Ok (mkEncryptedFile ver addr x kdf salt iter nonce ct).
Proof. reflexivity. Qed.
Lemma field_kdf :
  decode_file_field f (str "kdf", v) = x ← decode_string kdf v; Ok (mkEncryptedFile ver addr pre x salt iter nonce ct).
Proof. reflexivity. Qed.
Lemma field_kdfSalt :
  decode_file_field f (str "kdfSalt", v) = x ← decode_string salt v; Ok (mkEncryptedFile ver addr pre kdf x iter nonce ct).
Proof. reflexivity. Qed.
Lemma field_kdfIter :
  decode_file_field f (str "kdfIter", v) = x ← decode_int iter v; Ok (mkEncryptedFile ver addr pre kdf salt x nonce ct).
Proof. reflexivity. Qed.
Lemma field_nonce :
  decode_file_field f (str "nonce", v) = x ← decode_string nonce v; Ok (mkEncryptedFile ver addr pre kdf salt iter x ct).
Proof. reflexivity. Qed.
Lemma field_ciphertext :
  decode_file_field f (str "ciphertext", v) = x ← decode_string ct v; Ok (mkEncryptedFile ver addr pre kdf salt iter nonce x).
Proof. reflexivity. Qed.
End FileFields.
Lemma field_privateKeyHex k s v :
  decode_plaintext_field (mkPlaintext k s) (str "privateKeyHex", v) = x ← decode_string k v; Ok (mkPlaintext x s).
Proof. reflexivity. Qed.
Lemma field_seedPhrase k s v :
  decode_plaintext_field (mkPlaintext k s) (str "seedPhrase", v) = x ← decode_string s v; Ok (mkPlaintext k x).
Proof. reflexivity. Qed.

Ltac take_field lemma :=
  erewrite decode_struct_cons;
    [|rewrite lemma; first [rewrite decode_string_json by done | rewrite decode_int_decimal by done]; reflexivity].

Lemma decode_file_fields f : plain_file f -> decode_file (JObj (file_fields f)) = Ok f.
Proof.
  destruct f as [ver addr pre kdf salt iter nonce ct].
  intros (Hv & Hi & Ha & Hp & Hk & Hs & Hn & Hc).
  cbn [ef_Version ef_KDFIter ef_Address ef_Prefix ef_KDF ef_KDFSalt ef_Nonce ef_Ciphertext] in *.
  unfold decode_file, decode_object, file_fields.
  cbn [ef_Version ef_KDFIter ef_Address ef_Prefix ef_KDF ef_KDFSalt ef_Nonce ef_Ciphertext app].
  take_field field_version. take_field field_address. take_field field_prefix. take_field field_kdf.
  rewrite (decode_struct_app _ _ (mkEncryptedFile ver addr pre kdf salt 0 [] [])).
  2: { destruct salt as [|c salt]; [done|]. unfold omit_string. by take_field field_kdfSalt. }
  rewrite (decode_struct_app _ _ (mkEncryptedFile ver addr pre kdf salt iter [] [])).
  2: { unfold omit_int. destruct (Z.eqb_spec iter 0) as [->|]; [done|]. by take_field field_kdfIter. }
  take_field field_nonce. by take_field field_ciphertext.
Qed.

Lemma decode_plaintext_fields p :
  plain_text (wp_PrivateKeyHex p) -> plain_text (wp_SeedPhrase p) ->
  decode_plaintext (JObj (plaintext_fields p)) = Ok p.
Proof.
  destruct p as [k s]. cbn [wp_PrivateKeyHex wp_SeedPhrase]. intros Hk Hs.
  unfold decode_plaintext, decode_object, plaintext_fields, omit_string. cbn [wp_PrivateKeyHex wp_SeedPhrase].
  take_field field_privateKeyHex. destruct s as [|c s]; [done|]. by take_field field_seedPhrase.
Qed.

(** ** Saving and loading *)

Section Correct.
Context {HF : HashFunction} {BC : BlockCipher}.

Lemma address_plain pub prefix addr :
  plain_text prefix -> AddressFromPublicKey pub prefix = Ok addr -> plain_text addr.
Proof.
  intros Hp H. unfold AddressFromPublicKey in H.
  destruct (convertBits_roundtrip (Hash160 pub) (Hash160_wf pub)) as (five & E & Hd & _).
  rewrite E in H. csimpl in H. unfold bech32Encode in H. destruct prefix as [|c0 prefix]; [done|].
  destruct (checksum_verifies (c0 :: prefix) five (plain_wf _ Hp) Hd) as [Hc _].
  rewrite write_chars_Ok in H by by apply Forall_app.
  assert (addr = (ToLower (c0 :: prefix) ++ [49]) ++ chars (five ++ bech32CreateChecksum (c0 :: prefix) five))
    as -> by congruence.
  rewrite !plain_app. split_and!; [by apply plain_ToLower | by_decision | apply plain_chars; by apply Forall_app].
Qed.

(** A wallet is made again from its key. *)
Lemma FromHex_wallet w :
  wallet_ok w -> FromHexPrivateKey (PrivateKeyHex (w_PrivateKey w)) (w_Prefix w) = Some (Ok w).
Proof.
  destruct w as [[d A] pub addr prefix].
  intros ((Hd & HX & _) & Hm & Ha). cbn [D X w_PrivateKey w_PublicKey w_Address w_Prefix] in *.
  unfold FromHexPrivateKey, PrivateKeyHex. cbn [D]. rewrite hex_decode_encode by apply big_bytes_wf.
  cbn [no_panic go_bind]. unfold ScalarBaseMult.
  rewrite (ScalarMult_multiple secp256k1) by (done || apply (G_point secp256k1) || apply big_bytes_wf).
  rewrite be_val_big_bytes by done. rewrite <- HX. cbn [no_error fmap option_fmap option_map go_bind].
  unfold FromPrivateKey. cbn [X]. rewrite Hm. cbn [no_error fmap option_fmap option_map go_bind].
  by rewrite Ha.
Qed.

(** Whatever key a file holds, the wallet made from it is well formed. *)
Lemma FromHex_ok h prefix w :
  FromHexPrivateKey h prefix = Some (Ok w) -> wallet_ok w /\ w_Prefix w = prefix.
Proof.
  unfold FromHexPrivateKey. intros (b & Hb & H)%go_bind_Ok. injection Hb as Hb.
  apply hex_decode_wf in Hb. apply go_bind_Ok in H as (A & HA & H). unfold ScalarBaseMult in HA.
  rewrite (ScalarMult_multiple secp256k1) in HA by (done || apply (G_point secp256k1)).
  injection HA as <-. unfold FromPrivateKey in H. cbn [X] in H.
  apply go_bind_Ok in H as (pub & Hp & H). apply go_bind_Ok in H as (addr & Ha & H).
  injection H as <-. injection Ha as Ha. split; [|done].
  destruct (marshalCompressed _) as [pub'|] eqn:E; [|done]. injection Hp as ->.
  split_and!; [|done | done]. split_and!; cbn; [by apply be_val_bound | done|].
  intros En. by rewrite En in E.
Qed.

Lemma derived_key_ok passphrase salt iters : word_ok 32 (pbkdf2SHA256 passphrase salt iters 32).
Proof.
  split; [|rewrite pbkdf2_rfc by lia; apply rfc_pbkdf2_wf].
  pose proof (pbkdf2_length passphrase salt iters 32 ltac:(lia)) as H. unfold len in H. lia.
Qed.

Lemma print_string s : plain_text s -> print (json_string s) = quote s.
Proof. intros Hs. unfold json_string. by rewrite escape_plain. Qed.

(** What is encrypted: its text, and that it decodes to the key and the seed. *)
Lemma plaintext_text w seed :
  wallet_ok w -> plain_text seed ->
  let p := mkPlaintext (PrivateKeyHex (w_PrivateKey w)) seed in
  let text := print (JObj (plaintext_fields p)) in
  Unmarshal decode_plaintext text = Ok p /\ bytes_wf text /\
  len text <= len (PrivateKeyHex (w_PrivateKey w)) + len seed + 40.
Proof.
  intros Hok Hs p text.
  assert (plain_text (PrivateKeyHex (w_PrivateKey w))) as Hk by (apply plain_hex, big_bytes_wf).
  set (h := PrivateKeyHex (w_PrivateKey w)) in *. clearbody h. split.
  - unfold Unmarshal, text. rewrite parse_print; [by apply decode_plaintext_fields|].
    apply canonical_obj. by apply plaintext_canonical.
  - assert (text = 123 :: (quote (str "privateKeyHex") ++ 58 :: quote h) ++
      (match seed with [] => [] | _ => 44 :: quote (str "seedPhrase") ++ 58 :: quote seed end) ++ [125]) as ->.
    { unfold text. rewrite print_obj. unfold plaintext_fields, omit_string, p. cbn [wp_PrivateKeyHex wp_SeedPhrase].
      destruct seed; cbn [map join flat_map]; unfold member; cbn [fst snd]; rewrite !print_string by done;
        cbn [app]; rewrite ?app_nil_r, <- ?app_assoc; done. }
    apply plain_wf in Hk, Hs. unfold quote, len. split.
    + destruct seed; repeat first [done | by_decision | apply bytes_wf_app; split | apply Forall_cons; split].
    + cbn [length]. rewrite !length_app. cbn [length]. rewrite !length_app. destruct seed; simpl; rewrite ?length_app; simpl; lia.
Qed.
(** The text of a file opens with the key its salt and nonce were used with. *)
Lemma open_sealed w seed passphrase salt nonce sealed :
  wallet_ok w -> plain_text (w_Prefix w) -> plain_text seed -> bytes_wf salt -> bytes_wf nonce ->
  let plain := print (JObj (plaintext_fields (mkPlaintext (PrivateKeyHex (w_PrivateKey w)) seed))) in
  Seal (deriveKey passphrase salt) nonce plain (w_Address w) = Some sealed ->
  open_wallet (MarshalIndent (file_fields
    (mkEncryptedFile currentVersion (w_Address w) (w_Prefix w) (str "pbkdf2-sha256")
       (hex_encode salt) pbkdf2Iter (hex_encode nonce) (hex_encode sealed)))) passphrase
  = Some (Ok (w, seed)).
Proof.
  intros Hok Hp Hs Hsalt Hnonce plain Hseal.
  destruct (plaintext_text w seed Hok Hs) as (Hdec & Hpw & _). fold plain in Hdec, Hpw.
  assert (word_ok 32 (deriveKey passphrase salt)) as Hkey by apply derived_key_ok.
  destruct (Open_Seal (deriveKey passphrase salt) nonce plain (w_Address w) sealed Hkey Hpw Hseal)
    as (Hopen & Hsw & _).
  clearbody plain. set (f := mkEncryptedFile _ _ _ _ _ _ _ _).
  assert (plain_file f) as Hf.
  { split_and!; cbn; try done; try (by apply plain_hex); [|by_decision].
    eapply address_plain; [exact Hp | apply Hok]. }
  unfold open_wallet.
  assert (Unmarshal decode_file (MarshalIndent (file_fields f)) = Ok f) as ->.
  { unfold Unmarshal. pose proof (decode_file_fields f Hf) as Hd. pose proof (file_canonical f Hf) as Hc.
    destruct (file_fields f) as [|kv fs]; [done|]. by rewrite parse_MarshalIndent. }
  unfold f. cbn [no_panic go_bind]. unfold file_key.
  cbn [ef_Version ef_KDFIter ef_Address ef_Prefix ef_KDF ef_KDFSalt ef_Nonce ef_Ciphertext].
  change (currentVersion =? 1) with false. change (currentVersion =? 2) with true.
  change (pbkdf2Iter <=? 0) with false. cbn iota.
  rewrite !hex_decode_encode by done. rewrite ok_bind. cbn [no_panic go_bind].
  unfold deriveKey in Hopen. rewrite Hopen. cbn [go_bind]. rewrite Hdec. cbn [no_panic go_bind wp_PrivateKeyHex].
  rewrite FromHex_wallet by done. cbn [go_bind]. by rewrite bool_decide_true.
Qed.
(** Saving with enough randomness and an undamaged disk succeeds. *)
Lemma seal_wallet_Ok w seed passphrase rand :
  wallet_ok w -> plain_text seed -> D (w_PrivateKey w) < 2 ^ 256 -> len seed <= 2 ^ 32 ->
  passphrase <> [] -> (44 <= length rand)%nat ->
  exists salt nonce sealed,
    let plain := print (JObj (plaintext_fields (mkPlaintext (PrivateKeyHex (w_PrivateKey w)) seed))) in
    take 44 rand = salt ++ nonce /\
    Seal (deriveKey passphrase salt) nonce plain (w_Address w) = Some sealed /\
    seal_wallet w seed passphrase rand = Some (Ok (MarshalIndent (file_fields
      (mkEncryptedFile currentVersion (w_Address w) (w_Prefix w) (str "pbkdf2-sha256")
         (hex_encode salt) pbkdf2Iter (hex_encode nonce) (hex_encode sealed))))).
Proof.
  intros Hok Hs Hd Hl Hp Hr. destruct (plaintext_text w seed Hok Hs) as (_ & _ & Hlen).
  assert (len (PrivateKeyHex (w_PrivateKey w)) <= 64) as Hkl.
  { unfold PrivateKeyHex, len. rewrite hex_encode_length. unfold big_bytes.
    destruct (Z.eqb_spec (D (w_PrivateKey w)) 0); [simpl; lia|]. rewrite be_bytes_length.
    destruct Hok as ((H0 & _) & _).
    assert (Z.log2 (D (w_PrivateKey w)) < 256) by (apply Z.log2_lt_pow2; lia).
    Z.div_mod_to_equations. lia. }
  set (salt := take 32 rand). set (nonce := take 12 (drop 32 rand)).
  set (plain := print _) in *.
  destruct (Seal (deriveKey passphrase salt) nonce plain (w_Address w)) as [sealed|] eqn:E.
  - exists salt, nonce, sealed. cbv zeta. split; [|split; [done|]].
    { unfold salt, nonce. rewrite take_drop_commute. rewrite <- (take_drop 32 (take 44 rand)) at 1.
      by rewrite take_take. }
    unfold seal_wallet. destruct passphrase as [|c0 pp]; [done|].
    assert (rand = salt ++ nonce ++ drop 12 (drop 32 rand)) as Er by (unfold salt, nonce; by rewrite !take_drop).
    rewrite Er, readFull_app by (unfold salt; rewrite length_take; lia). cbn [no_panic go_bind fst snd].
    change (Z.to_nat NonceSize) with 12%nat.
    rewrite readFull_app by (unfold nonce; rewrite length_take, length_drop; lia).
    cbn [no_panic go_bind fst snd]. fold plain. by rewrite E.
  - exfalso. revert E. unfold Seal.
    assert (len nonce = NonceSize) as ->.
    { unfold nonce, len, NonceSize. rewrite length_take, length_drop. lia. }
    rewrite (proj2 (Z.ltb_ge _ _)) by lia. done.
Qed.

(** A file that can be read: its fields, the key of the passphrase, and the decoded
    nonce and ciphertext. *)
Definition stored (path passphrase : bytes) (files : Files) (data : bytes) (file : EncryptedFile)
    (key nonce ciphertext : bytes) : Prop :=
  files !! path = Some data /\ Unmarshal decode_file data = Ok file /\ file_key file passphrase = Ok key /\
  hex_decode (ef_Nonce file) = Ok nonce /\ hex_decode (ef_Ciphertext file) = Ok ciphertext.

(** What loading does once the file is read. *)
Definition opening (file : EncryptedFile) (key nonce ciphertext : bytes) : go (Wallet * bytes) :=
  plain ←! match Open key nonce ciphertext (ef_Address file) with
           | Some (Err _) => Some (Err (Errorf "wrong passphrase or corrupt wallet"))
           | r => r
           end;
  decoded ←! no_panic (Unmarshal decode_plaintext plain);
  w ←! FromHexPrivateKey (wp_PrivateKeyHex decoded) (ef_Prefix file);
  if negb (bool_decide (w_Address w = ef_Address file))
  then Some (Err (Errorf "wallet address mismatch"))
  else Some (Ok (w, wp_SeedPhrase decoded)).

Ltac refuse := left; eexists; split; [reflexivity|]; intros ????? (? & ? & ? & ? & ?); congruence.

Lemma load_opening path passphrase files :
  (exists e, LoadEncrypted path passphrase files = Some (Err e) /\
     forall data file key nonce ct, ~ stored path passphrase files data file key nonce ct) \/
  (exists data file key nonce ct, stored path passphrase files data file key nonce ct /\
     LoadEncrypted path passphrase files = opening file key nonce ct).
Proof.
  unfold LoadEncrypted, stored. destruct (files !! path) as [data|] eqn:Ef; [|refuse].
  unfold open_wallet. destruct (Unmarshal decode_file data) as [file|e] eqn:Eu; [|refuse].
  cbn [no_panic go_bind]. destruct (file_key file passphrase) as [key|e] eqn:Ek; [|refuse].
  cbn [no_panic go_bind]. destruct (hex_decode (ef_Nonce file)) as [nonce|e] eqn:En; [|refuse].
  cbn [no_panic go_bind]. destruct (hex_decode (ef_Ciphertext file)) as [ct|e] eqn:Ec; [|refuse].
  right. by exists data, file, key, nonce, ct.
Qed.

Lemma load_Ok path passphrase files x :
  LoadEncrypted path passphrase files = Some (Ok x) ->
  exists data file key nonce ct, stored path passphrase files data file key nonce ct /\
    opening file key nonce ct = Some (Ok x).
Proof.
  destruct (load_opening path passphrase files) as [(e & -> & _)|(data & file & key & nonce & ct & Hs & ->)]; [done|].
  intros H. by exists data, file, key, nonce, ct.
Qed.

Lemma load_panics path passphrase files :
  LoadEncrypted path passphrase files = None <->
  exists data file key nonce ct, stored path passphrase files data file key nonce ct /\
    opening file key nonce ct = None.
Proof.
  destruct (load_opening path passphrase files) as [(e & -> & Hn)|(data & file & key & nonce & ct & Hs & ->)].
  - split; [done|]. intros (data & file & key & nonce & ct & Hs & _). by destruct (Hn _ _ _ _ _ Hs).
  - split; [intros H; by exists data, file, key, nonce, ct|].
    intros (data' & file' & key' & nonce' & ct' & Hs' & H).
    destruct Hs as (E1 & E2 & E3 & E4 & E5), Hs' as (F1 & F2 & F3 & F4 & F5).
    rewrite E1 in F1. injection F1 as <-. rewrite E2 in F2. injection F2 as <-.
    rewrite E3 in F3. injection F3 as <-. rewrite E4 in F4. injection F4 as <-.
    rewrite E5 in F5. by injection F5 as <-.
Qed.

Lemma opening_panics file key nonce ct :
  opening file key nonce ct = None <->
  Open key nonce ct (ef_Address file) = None \/
  exists plain p, Open key nonce ct (ef_Address file) = Some (Ok plain) /\
    Unmarshal decode_plaintext plain = Ok p /\
    FromHexPrivateKey (wp_PrivateKeyHex p) (ef_Prefix file) = None.
Proof.
  unfold opening. destruct (Open _ _ _ _) as [[plain|e]|]; cbn [go_bind];
    [|split; [done | by intros [?|(? & ? & ? & _)]] | split; [by left | done]].
  transitivity (exists p, Unmarshal decode_plaintext plain = Ok p /\
    FromHexPrivateKey (wp_PrivateKeyHex p) (ef_Prefix file) = None).
  2: { split; [intros (p & H1 & H2); right; by exists plain, p|].
       intros [?|(plain' & p & [= <-] & H1 & H2)]; [done | by exists p]. }
  destruct (Unmarshal decode_plaintext plain) as [p|e] eqn:Ep; cbn [no_panic go_bind];
    [|split; [done | by intros (? & ? & _)]].
  transitivity (FromHexPrivateKey (wp_PrivateKeyHex p) (ef_Prefix file) = None).
  - destruct (FromHexPrivateKey _ _) as [[w|e]|]; cbn [go_bind]; [by destruct (bool_decide _) | done | done].
  - split; [intros H; by exists p | by intros (p' & [= <-] & H)].
Qed.

(** C18: A well-formed wallet with a private key below 2^256 and a plain-text prefix
    that is saved under a non-empty passphrase, with a plain-text seed of at most 2^32
    bytes and 44 bytes of randomness, is loaded back unchanged with its seed, and no
    other file changes. *)
Theorem saved_wallet_loads path w seed passphrase rand files :
  wallet_ok w -> plain_text (w_Prefix w) -> plain_text seed -> D (w_PrivateKey w) < 2 ^ 256 ->
  len seed <= 2 ^ 32 -> passphrase <> [] -> bytes_wf rand -> (44 <= length rand)%nat ->
  exists files',
    SaveEncryptedWithSeed path w seed passphrase rand None files = (files', Some (Ok tt)) /\
    LoadEncrypted path passphrase files' = Some (Ok (w, seed)) /\
    (forall p, p <> path -> files' !! p = files !! p).
Proof.
  intros Hok Hp Hs Hd Hl Hpp Hrw Hr.
  destruct (seal_wallet_Ok w seed passphrase rand Hok Hs Hd Hl Hpp Hr) as (salt & nonce & sealed & Ht & Hseal & Hw).
  assert (bytes_wf (salt ++ nonce)) as [Hsw Hnw]%bytes_wf_app by (rewrite <- Ht; by apply bytes_wf_take).
  unfold SaveEncryptedWithSeed. rewrite Hw. set (text := MarshalIndent _).
  exists (<[path := text]> files). split; [done|]. split.
  - unfold LoadEncrypted. rewrite lookup_insert_eq. unfold text. by apply open_sealed.
  - intros p Hne. by apply lookup_insert_ne.
Qed.

(** C34: A load of a key file succeeds only with the wallet of the private key in the
    plaintext that the file decrypts to, with its seed, and that wallet is well formed
    and has the address and prefix the file names. It panics exactly when the file
    parses, its key is derived and its hexadecimal fields decode, and then either the
    nonce has the wrong length or the plaintext that the file decrypts to holds a
    private key that is a multiple of the order; otherwise it returns an error. *)
Theorem load_outcomes path passphrase files :
  (forall w seed, LoadEncrypted path passphrase files = Some (Ok (w, seed)) ->
     exists data file key nonce ciphertext plain p,
       stored path passphrase files data file key nonce ciphertext /\
       Open key nonce ciphertext (ef_Address file) = Some (Ok plain) /\ Unmarshal decode_plaintext plain = Ok p /\
       FromHexPrivateKey (wp_PrivateKeyHex p) (ef_Prefix file) = Some (Ok w) /\ seed = wp_SeedPhrase p /\
       wallet_ok w /\ w_Address w = ef_Address file /\ w_Prefix w = ef_Prefix file) /\
  (LoadEncrypted path passphrase files = None <->
     exists data file key nonce ciphertext,
       stored path passphrase files data file key nonce ciphertext /\
       (len nonce <> NonceSize \/
        exists plain p b, Open key nonce ciphertext (ef_Address file) = Some (Ok plain) /\
          Unmarshal decode_plaintext plain = Ok p /\ hex_decode (wp_PrivateKeyHex p) = Ok b /\
          be_val b mod secp256k1.(N) = 0)).
Proof.
  split.
  - intros w seed H. apply load_Ok in H as (data & file & key & nonce & ct & Hs & H).
    apply go_bind_Ok in H as (plain & Ho & H). apply go_bind_Ok in H as (p & Hp & H). injection Hp as Hp.
    apply go_bind_Ok in H as (w' & Hw & H). destruct (bool_decide _) eqn:Eb; [|done]. injection H as -> <-.
    apply bool_decide_eq_true in Eb. destruct (FromHex_ok _ _ _ Hw) as [Hok Hpre].
    exists data, file, key, nonce, ct, plain, p. split_and!; try done. by repeat case_match.
  - rewrite load_panics. split; intros (data & file & key & nonce & ct & Hs & H);
      exists data, file, key, nonce, ct; (split; [done|]); revert H; rewrite opening_panics, Open_panics.
    all: intros [H|(plain & p & H1 & H2 & H3)]; [by left | right].
    + apply FromHex_panics in H3 as (b & H3 & H4). by exists plain, p, b.
    + destruct H3 as [H3 H4]. exists plain, p. split_and!; try done. apply FromHex_panics. by exists H1.
Qed.

(** A key file whose nonce does not have the length of the cipher makes the loading
    panic. *)
Theorem wrong_nonce_panics path passphrase files data file nonce ciphertext :
  files !! path = Some data -> Unmarshal decode_file data = Ok file -> ef_Version file = 1 ->
  hex_decode (ef_Nonce file) = Ok nonce -> hex_decode (ef_Ciphertext file) = Ok ciphertext ->
  len nonce <> NonceSize -> LoadEncrypted path passphrase files = None.
Proof.
  intros Ef Eu Ev En Ec Hl. unfold LoadEncrypted. rewrite Ef. unfold open_wallet, file_key.
  rewrite Eu. cbn [no_panic go_bind]. rewrite Ev, En, Ec. cbn [Z.eqb Pos.eqb no_panic go_bind].
  unfold Open. by rewrite (proj2 (Z.eqb_neq _ _)).
Qed.
End Correct.
