(* ===== verification/Pay.v ===== *)
(** * Pay: payment requests

    Models pay/pay.go.  A store is a map from identifiers to requests; every
    operation reads and writes the map under one lock, so an execution of several
    goroutines is a sequence of operations ([pay_step]).  Create draws its
    identifier and reads the clock before it takes the lock, so its clock may be
    behind that of the step.  Clocks are nanoseconds since the Unix epoch. *)

From S2P Require Import Prelude Encoding Sha256 Bech32 Pbkdf2.

Definition StatusPending : bytes := str "pending".
Definition StatusBroadcasted : bytes := str "broadcasted".
Definition StatusConfirmed : bytes := str "confirmed".
Definition StatusExpired : bytes := str "expired".
Definition StatusRefunded : bytes := str "refunded".

Record PaymentRequest := mkRequest {
  pr_ID : bytes;
  pr_Merchant : bytes;
  pr_Address : bytes;
  pr_Amount : Z;
  pr_Memo : bytes;
  pr_ExpiresAt : Z;
  pr_Status : bytes;
  pr_TxHash : bytes;
}.

Abbreviation Requests := (gmap bytes PaymentRequest).

Definition Second : Z := 10 ^ 9.
(** [t.Unix()] *)
Definition Unix (t : Z) : Z := t / Second.

Definition set_status (req : PaymentRequest) (status txHash : bytes) : PaymentRequest :=
  mkRequest (pr_ID req) (pr_Merchant req) (pr_Address req) (pr_Amount req) (pr_Memo req)
    (pr_ExpiresAt req) status txHash.

(** The new store, the result and the rest of the randomness. *)
Definition Create (merchant address : bytes) (amount : Z) (memo : bytes) (ttl now : Z) (rand : bytes)
    (s : Requests) : Requests * result (PaymentRequest * bytes) :=
  if bool_decide (merchant = []) || bool_decide (address = []) || (amount =? 0)
  then (s, Err (Errorf "merchant, address, and positive amount are required"))
  else
    match readFull 16 rand with
    | Err e => (s, Err e)
    | Ok (idBytes, rand) =>
        let ttl := if ttl <=? 0 then 15 * 60 * Second else ttl in
        let req := mkRequest (hex_encode idBytes) merchant address amount memo (Unix (now + ttl)) StatusPending [] in
        (<[pr_ID req := req]> s, Ok (req, rand))
    end.

Definition GetRequest (id : bytes) (now : Z) (s : Requests) : option PaymentRequest :=
  req ← s !! id;
  if bool_decide (pr_Status req = StatusPending) && (pr_ExpiresAt req <? Unix now)
  then Some (set_status req StatusExpired (pr_TxHash req))
  else Some req.

Definition MarkBroadcasted (id txHash : bytes) (now : Z) (s : Requests) : Requests * result PaymentRequest :=
  match s !! id with
  | None => (s, Err (Errorf "payment not found"))
  | Some req =>
      let req := if pr_ExpiresAt req <? Unix now then set_status req StatusExpired (pr_TxHash req)
                 else set_status req StatusBroadcasted txHash in
      (<[id := req]> s, Ok req)
  end.

Record WebhookEvent := mkEvent {
  we_Type : bytes;
  we_Payment : PaymentRequest;
  we_CreatedAt : Z;
}.

Definition Event (eventType : bytes) (payment : PaymentRequest) (now : Z) : WebhookEvent :=
  mkEvent eventType payment (Unix now).

Section Webhook.
Context {HF : HashFunction}.

Definition SignWebhook (secret body : bytes) : bytes := hex_encode (hmac secret body).
(** [hmac.Equal] compares the texts. *)
Definition VerifyWebhook (secret body signature : bytes) : bool :=
  bool_decide (SignWebhook secret body = signature).
End Webhook.

(** ** Executions *)

(** A call of MarkBroadcasted: its clock, identifier and hash. *)
Definition Mark : Type := Z * bytes * bytes.

(** One operation of any goroutine at clock [now], and the mark it made. *)
Inductive pay_step (now : Z) : list Mark -> Requests -> Requests -> Prop :=
| step_create merchant address amount memo ttl read rand s :
    is_u64 amount -> read <= now ->
    pay_step now [] s (Create merchant address amount memo ttl read rand s).1
| step_get s : pay_step now [] s s
| step_mark id txHash s : pay_step now [(now, id, txHash)] s (MarkBroadcasted id txHash now s).1.

(** The clock of the steps does not go back.  The run lists the marks it made. *)
Inductive pay_run : Z -> list Mark -> Requests -> Prop :=
| run_new now : pay_run now [] ∅
| run_step t now marks new s s' :
    pay_run t marks s -> t <= now -> pay_step now new s s' -> pay_run now (marks ++ new) s'.

(** The request was marked with its hash, before its end. *)
Definition marked (marks : list Mark) (req : PaymentRequest) : Prop :=
  exists t, (t, pr_ID req, pr_TxHash req) ∈ marks /\ Unix t <= pr_ExpiresAt req.

(** What holds of every request in a store at clock [now]. *)
Definition request_ok (now : Z) (marks : list Mark) (id : bytes) (req : PaymentRequest) : Prop :=
  pr_ID req = id /\ pr_Merchant req <> [] /\ pr_Address req <> [] /\ 0 < pr_Amount req <= max64 /\
  (pr_Status req = StatusPending /\ pr_TxHash req = [] \/
   pr_Status req = StatusBroadcasted /\ marked marks req \/
   pr_Status req = StatusExpired /\ pr_ExpiresAt req < Unix now).

Lemma Unix_mono t u : t <= u -> Unix t <= Unix u.
Proof. intros H. by apply Z.div_le_mono. Qed.

Lemma marked_app marks new req : marked marks req -> marked (marks ++ new) req.
Proof. intros (t & Hin & Ht). exists t. split; [apply elem_of_app; by left | done]. Qed.

Lemma request_ok_mono t u marks new id req :
  t <= u -> request_ok t marks id req -> request_ok u (marks ++ new) id req.
Proof.
  intros H (? & ? & ? & ? & Hs). pose proof (Unix_mono t u H). split_and!; try done; try lia.
  destruct Hs as [?|[[? ?%(marked_app _ new)]|[? ?]]]; [by left | by right; left | right; right; split; [done | lia]].
Qed.

Lemma pay_step_ok now marks new s s' :
  pay_step now new s s' -> map_Forall (request_ok now (marks ++ new)) s ->
  map_Forall (request_ok now (marks ++ new)) s'.
Proof.
  intros Hstep Hs. destruct Hstep as [merchant address amount memo ttl read rand s Ha Hread | |id txHash s]; [|done|].
  - unfold Create. destruct (_ || _) eqn:E; [done|].
    destruct (readFull 16 rand) as [[idBytes rest]|e]; [|done]. apply map_Forall_insert_2; [|done].
    apply orb_false_iff in E as [[E1 E2]%orb_false_iff E3]. rewrite bool_decide_eq_false in E1, E2.
    apply Z.eqb_neq in E3. split_and!; try done; cbn; try mach. by left.
  - unfold MarkBroadcasted. destruct (s !! id) as [req|] eqn:E; [|done].
    destruct (Hs id req E) as (? & ? & ? & ? & _). apply map_Forall_insert_2; [|done].
    destruct (Z.ltb_spec (pr_ExpiresAt req) (Unix now)) as [Hlt|Hle]; split_and!; try done; cbn; try lia; [by auto|].
    right. left. split; [done|]. exists now. cbn [set_status pr_ID pr_TxHash pr_ExpiresAt]. subst id.
    split; [|lia]. apply elem_of_app. right. by apply list_elem_of_singleton.
Qed.

Lemma pay_run_ok now marks s : pay_run now marks s -> map_Forall (request_ok now marks) s.
Proof.
  induction 1 as [now|t now marks new s s' _ IH Ht Hstep]; [done|].
  eapply pay_step_ok; [done|]. intros id req E. eapply request_ok_mono; [exact Ht | by apply IH].
Qed.

(** ** Properties *)

(** C35: Whatever invoices are made and marked as time goes on, a lookup returns a
    request with the asked identifier and a positive amount that is pending without
    transaction and not yet over, broadcast under a hash that a MarkBroadcasted call
    gave for it before its end, or expired and over. *)
Theorem payment_lifecycle now marks s id req :
  pay_run now marks s -> GetRequest id now s = Some req ->
  pr_ID req = id /\ 0 < pr_Amount req <= max64 /\
  (pr_Status req = StatusPending /\ pr_TxHash req = [] /\ Unix now <= pr_ExpiresAt req \/
   pr_Status req = StatusBroadcasted /\ marked marks req \/
   pr_Status req = StatusExpired /\ pr_ExpiresAt req < Unix now).
Proof.
  intros Hrun. unfold GetRequest. intros (r & Er & H)%bind_Some.
  destruct (pay_run_ok now marks s Hrun id r Er) as (Hid & _ & _ & Ha & Hs).
  destruct (bool_decide _ && _) eqn:E; injection H as <-.
  - apply andb_true_iff in E as [_ E%Z.ltb_lt]. split_and!; try done; cbn; try lia; auto.
  - split_and!; try done; try lia. destruct Hs as [[Hp Ht]|Hs]; [left|by right].
    rewrite (bool_decide_true _ Hp), andb_true_l in E. by apply Z.ltb_ge in E.
Qed.

(** Marking a broadcast payment again after its end makes it expired, although a lookup
    at that time still returns it as broadcast. *)
Theorem late_mark_expires id h1 h2 now now' s s1 req :
  MarkBroadcasted id h1 now s = (s1, Ok req) -> pr_Status req = StatusBroadcasted ->
  pr_ExpiresAt req < Unix now' ->
  (exists r, GetRequest id now' s1 = Some r /\ pr_Status r = StatusBroadcasted /\ pr_TxHash r = h1) /\
  (exists s2 r, MarkBroadcasted id h2 now' s1 = (s2, Ok r) /\
     pr_Status r = StatusExpired /\ pr_TxHash r = h1 /\ s2 !! id = Some r).
Proof.
  unfold MarkBroadcasted. destruct (s !! id) as [r|] eqn:E; [|done]. intros [= <- <-].
  destruct (Z.ltb_spec (pr_ExpiresAt r) (Unix now)); [done|]. intros _ Hexp. cbn [pr_ExpiresAt set_status] in Hexp.
  rewrite lookup_insert_eq. split.
  - unfold GetRequest. rewrite lookup_insert_eq. by eexists.
  - eexists _, _. split; [done|]. cbn [pr_ExpiresAt set_status].
    rewrite (proj2 (Z.ltb_lt _ _)) by done. split_and!; [done..|]. apply lookup_insert_eq.
Qed.
