(* ===== verification/Readiness.v ===== *)
(** * Readiness: the release gate

    Models security/readiness.go.  A time is nanoseconds since the Unix epoch; the
    zero time is the first of January of year 1.  The order in which Go ranges over
    the map of controls is not defined: it is an argument, any permutation of the
    entries. *)

From S2P Require Import Prelude Encoding Peers.

Definition zero_time : Z := - 62135596800 * 10 ^ 9.
Definition IsZero (t : Z) : bool := t =? zero_time.
Definition After (t u : Z) : bool := u <? t.

Record AuditEvidence := mkAudit {
  ae_Auditor : bytes;
  ae_ReportURL : bytes;
  ae_ReportSHA256 : bytes;
  ae_CompletedAt : Z;
  ae_Scope : list bytes;
  ae_CriticalOpen : Z;
  ae_HighOpen : Z;
}.

Record BattleTestEvidence := mkBattleTest {
  bt_Network : bytes;
  bt_PublicStart : Z;
  bt_PublicEnd : Z;
  bt_MinimumDuration : Z;
  bt_SpamDrill : bool;
  bt_MalformedP2PDrill : bool;
  bt_ReorgDrill : bool;
  bt_WalletRestoreDrill : bool;
}.

Record OperationalControls := mkControls {
  oc_P2PHardening : bool;
  oc_DifficultyReorgGuards : bool;
  oc_WalletSeedAudit : bool;
  oc_MiningPoolSecurity : bool;
  oc_DDoSProtection : bool;
  oc_ExchangeMonitoring : bool;
  oc_SupplyEconomicAudit : bool;
}.

Record ReleaseEvidence := mkEvidence {
  re_Audit : AuditEvidence;
  re_Testnet : BattleTestEvidence;
  re_Controls : OperationalControls;
}.

(** The entries of the map, in one order. *)
Definition controls (c : OperationalControls) : list (bytes * bool) :=
  [(str "real P2P hardening", oc_P2PHardening c);
   (str "mature difficulty/reorg protection", oc_DifficultyReorgGuards c);
   (str "wallet seed phrase standard audit", oc_WalletSeedAudit c);
   (str "mining pool/hashrate security", oc_MiningPoolSecurity c);
   (str "DDoS protection", oc_DDoSProtection c);
   (str "exchange-grade monitoring", oc_ExchangeMonitoring c);
   (str "formal supply/economic audit", oc_SupplyEconomicAudit c)].

Definition empty (s : bytes) : bool := bool_decide (s = []).

Definition audit_missing (a : AuditEvidence) (now : Z) : bool :=
  empty (ae_Auditor a) || empty (ae_ReportURL a) || empty (ae_ReportSHA256 a) ||
  IsZero (ae_CompletedAt a) || After (ae_CompletedAt a) now.

Definition findings_open (a : AuditEvidence) : bool := (0 <? ae_CriticalOpen a) || (0 <? ae_HighOpen a).

Definition testnet_missing (t : BattleTestEvidence) : bool :=
  empty (bt_Network t) || IsZero (bt_PublicStart t) ||
  (Sub (bt_PublicEnd t) (bt_PublicStart t) <? bt_MinimumDuration t) ||
  negb (bt_SpamDrill t) || negb (bt_MalformedP2PDrill t) || negb (bt_ReorgDrill t) ||
  negb (bt_WalletRestoreDrill t).

(** [None] is nil; [Some missing] is ErrReleaseGateFailed, wrapped with the list. *)
Definition ValidateReleaseEvidence (e : ReleaseEvidence) (now : Z) (order : list (bytes * bool))
  : option (list bytes) :=
  let missing := if audit_missing (re_Audit e) now then [str "independent security audit evidence"] else [] in
  let missing := missing ++
    if findings_open (re_Audit e) then [str "critical/high audit findings resolved"] else [] in
  let missing := missing ++
    if testnet_missing (re_Testnet e) then [str "public testnet battle-testing evidence"] else [] in
  let missing := foldl (fun missing '(name, ok) => if negb ok then missing ++ [name] else missing) missing order in
  match missing with [] => None | _ => Some missing end.

(** ** The gate *)

Lemma collect_missing (order : list (bytes * bool)) missing :
  foldl (fun missing '(name, ok) => if negb ok then missing ++ [name] else missing) missing order
  = missing ++ (List.filter (fun kv => negb kv.2) order).*1.
Proof.
  revert missing. induction order as [|[name ok] order IH]; intros missing; simpl; [by rewrite app_nil_r|].
  rewrite IH. destruct ok; simpl; [done|]. by rewrite <- app_assoc.
Qed.

(** What docs/security-assurance.md asks of a release: an audit with its auditor, report,
    scope and date and no open critical or high finding, a long enough public testnet with
    its four drills, and every control in place. *)
Definition documented (e : ReleaseEvidence) (now : Z) : Prop :=
  let a := re_Audit e in let t := re_Testnet e in
  (ae_Auditor a <> [] /\ ae_ReportURL a <> [] /\ ae_ReportSHA256 a <> [] /\ ae_Scope a <> [] /\
   ae_CompletedAt a <> zero_time /\ ae_CompletedAt a <= now) /\
  (ae_CriticalOpen a <= 0 /\ ae_HighOpen a <= 0) /\
  (bt_Network t <> [] /\ bt_PublicStart t <> zero_time /\
   bt_MinimumDuration t <= Sub (bt_PublicEnd t) (bt_PublicStart t) /\
   bt_SpamDrill t = true /\ bt_MalformedP2PDrill t = true /\ bt_ReorgDrill t = true /\
   bt_WalletRestoreDrill t = true) /\
  re_Controls e = mkControls true true true true true true true.

(** The evidence with another audit scope. *)
Definition with_scope (e : ReleaseEvidence) (scope : list bytes) : ReleaseEvidence :=
  let a := re_Audit e in
  mkEvidence (mkAudit (ae_Auditor a) (ae_ReportURL a) (ae_ReportSHA256 a) (ae_CompletedAt a) scope
                (ae_CriticalOpen a) (ae_HighOpen a)) (re_Testnet e) (re_Controls e).

Lemma empty_false s : empty s = false <-> s <> [].
Proof. unfold empty. by rewrite bool_decide_eq_false. Qed.

Lemma audit_complete a now :
  audit_missing a now = false <->
  ae_Auditor a <> [] /\ ae_ReportURL a <> [] /\ ae_ReportSHA256 a <> [] /\
  ae_CompletedAt a <> zero_time /\ ae_CompletedAt a <= now.
Proof.
  unfold audit_missing, IsZero, After.
  rewrite !orb_false_iff, !empty_false, Z.eqb_neq, Z.ltb_ge. tauto.
Qed.

Lemma findings_closed a : findings_open a = false <-> ae_CriticalOpen a <= 0 /\ ae_HighOpen a <= 0.
Proof. unfold findings_open. by rewrite orb_false_iff, !Z.ltb_ge. Qed.

Lemma testnet_complete t :
  testnet_missing t = false <->
  bt_Network t <> [] /\ bt_PublicStart t <> zero_time /\
  bt_MinimumDuration t <= Sub (bt_PublicEnd t) (bt_PublicStart t) /\
  bt_SpamDrill t = true /\ bt_MalformedP2PDrill t = true /\ bt_ReorgDrill t = true /\
  bt_WalletRestoreDrill t = true.
Proof.
  unfold testnet_missing, IsZero.
  rewrite !orb_false_iff, !empty_false, !negb_false_iff, Z.eqb_neq, Z.ltb_ge. tauto.
Qed.

Lemma controls_complete c order :
  order ≡ₚ controls c ->
  (List.filter (fun kv => negb kv.2) order).*1 = [] <-> c = mkControls true true true true true true true.
Proof.
  intros Hp. assert (forall l : list (bytes * bool),
    (List.filter (fun kv => negb kv.2) l).*1 = [] <-> Forall (fun kv => kv.2 = true) l) as Hnil.
  { induction l as [|[name ok] l IH]; [done|]. rewrite Forall_cons. destruct ok; simpl; naive_solver. }
  rewrite Hnil, Hp. unfold controls. rewrite !Forall_cons, Forall_nil. destruct c as [c1 c2 c3 c4 c5 c6 c7]. simpl.
  split; [by intros (-> & -> & -> & -> & -> & -> & -> & _) | by intros [= -> -> -> -> -> -> ->]].
Qed.

Lemma filter_missing_permutation (order order' : list (bytes * bool)) :
  order' ≡ₚ order ->
  (List.filter (fun kv => negb kv.2) order').*1 ≡ₚ (List.filter (fun kv => negb kv.2) order).*1.
Proof.
  intros Ho. apply fmap_Permutation.
  induction Ho; simpl; repeat case_match; try done; try by constructor. by etransitivity.
Qed.

(** The gate asks for all that the document asks for except the scope of the audit: it
    passes exactly when the evidence would meet the document with some scope written in. *)
Theorem gate_ignores_scope e now order :
  order ≡ₚ controls (re_Controls e) ->
  ValidateReleaseEvidence e now order = None <-> exists scope, documented (with_scope e scope) now.
Proof.
  intros Hp. unfold ValidateReleaseEvidence. rewrite collect_missing.
  trans (audit_missing (re_Audit e) now = false /\ findings_open (re_Audit e) = false /\
         testnet_missing (re_Testnet e) = false /\ (List.filter (fun kv => negb kv.2) order).*1 = []).
  { set (fs := (List.filter _ order).*1).
    destruct (audit_missing _ _), (findings_open _), (testnet_missing _), fs; simpl; naive_solver. }
  rewrite audit_complete, findings_closed, testnet_complete, (controls_complete _ _ Hp).
  unfold documented. simpl. split; [|intros (? & ?); tauto].
  intros. exists [[]]. assert ([[]] <> @nil bytes) by done. tauto.
Qed.

(** The set of missing pieces the gate reports does not depend on the order in which the
    map of controls is visited. *)
Theorem gate_order_irrelevant e now order order' missing :
  order ≡ₚ controls (re_Controls e) -> order' ≡ₚ controls (re_Controls e) ->
  ValidateReleaseEvidence e now order = Some missing ->
  exists missing', ValidateReleaseEvidence e now order' = Some missing' /\ missing' ≡ₚ missing.
Proof.
  intros Hp Hp'. unfold ValidateReleaseEvidence. rewrite !collect_missing. intros H.
  set (base := ((if audit_missing _ _ then _ else _) ++ _) ++ _) in *.
  assert (base ++ (List.filter (fun kv => negb kv.2) order').*1
          ≡ₚ base ++ (List.filter (fun kv => negb kv.2) order).*1) as Hperm.
  { apply Permutation_app_head, filter_missing_permutation. by rewrite Hp', Hp. }
  destruct (base ++ (List.filter _ order).*1) as [|x l]; [done|]. injection H as <-.
  destruct (base ++ (List.filter _ order').*1) as [|x' l']; [by apply Permutation_nil_cons in Hperm|].
  by eexists.
Qed.
