(* ===== verification/Http.v ===== *)
(** * Http: what the RPC server uses of net/http and encoding/json

    Requests, responses, the routes of [http.ServeMux] (Go 1.22 and later, patterns
    without methods, hosts or wildcards), reading a JSON body and writing maps as
    JSON.  A request gives the decoded path, which needs no escaping, and the
    decoded query. *)

From S2P Require Import Prelude Encoding Json.

(** ** Requests and responses *)

Record Request := mkHttpRequest {
  rq_Method : bytes;
  rq_Path : bytes;
  rq_Query : list (bytes * bytes);
  rq_Authorization : bytes;
  rq_Body : bytes;
}.

(** [ErrorText prefix e] is the text [prefix + e.Error()]. *)
Inductive Body :=
| Text (s : bytes)
| ErrorText (prefix : bytes) (e : error)
| JsonBody (v : json)
| Moved (path : bytes).

Record Response := mkResponse {
  rs_Status : Z;
  rs_Headers : list (bytes * bytes);
  rs_Body : Body;
}.

(** What a client sees: a response, or a connection that is closed because the
    handler panicked (net/http recovers), or none yet, the fuel being spent. *)
Inductive reply :=
| Reply (r : Response)
| Panic
| Pending.

(** [h.Set(name, value)] *)
Definition set_header (name value : bytes) (hs : list (bytes * bytes)) : list (bytes * bytes) :=
  List.filter (fun kv => negb (bool_decide (kv.1 = name))) hs ++ [(name, value)].

Definition content_type : bytes := str "content-type".
Definition nosniff : bytes * bytes := (str "x-content-type-options", str "nosniff").

Definition error_response (body : Body) (code : Z) : reply :=
  Reply (mkResponse code [(content_type, str "text/plain; charset=utf-8"); nosniff] body).
(** [http.Error(w, text, code)] and [http.Error(w, prefix+err.Error(), code)] *)
Definition http_Error (text : bytes) (code : Z) : reply := error_response (Text text) code.
Definition http_ErrorOf (prefix : bytes) (e : error) (code : Z) : reply := error_response (ErrorText prefix e) code.

Definition writeJSON (v : json) : reply :=
  Reply (mkResponse 200 [(content_type, str "application/json")] (JsonBody v)).

Definition MethodGet : bytes := str "GET".
Definition MethodPost : bytes := str "POST".
Definition MethodConnect : bytes := str "CONNECT".

(** [r.URL.Query().Get(name)] *)
Definition query_get (name : bytes) (q : list (bytes * bytes)) : bytes :=
  match List.find (fun kv => bool_decide (kv.1 = name)) q with Some kv => kv.2 | None => [] end.

(** [json.NewDecoder(http.MaxBytesReader(w, r.Body, limit)).Decode(&v)]: the first
    value of the body, which has to end within the limit; what follows it is not
    read. *)
Definition DecodeBody {A} (decode : json -> result A) (limit : Z) (body : bytes) : result A :=
  let s := take (Z.to_nat limit) body in
  match parse_value (2 * length s + 2) s with
  | Some (v, _) => decode v
  | None => Err (Errorf "json: invalid syntax")
  end.

(** ** JSON of a map: the keys are sorted *)

Fixpoint bytes_leb (a b : bytes) : bool :=
  match a, b with
  | [], _ => true
  | _ :: _, [] => false
  | x :: a, y :: b => (x <? y) || ((x =? y) && bytes_leb a b)
  end.
Fixpoint insert_field (kv : bytes * json) (fs : list (bytes * json)) : list (bytes * json) :=
  match fs with
  | [] => [kv]
  | f :: fs => if bytes_leb kv.1 f.1 then kv :: f :: fs else f :: insert_field kv fs
  end.
Definition map_json (fs : list (bytes * json)) : json := JObj (foldr insert_field [] fs).

Definition uint_json (z : Z) : json := JNum (decimal z).
Definition int_json (z : Z) : json := JNum (if z <? 0 then 45 :: decimal (- z) else decimal z).

(** ** Routes *)

(** [strings.Split(s, sep)] for a separator of one byte. *)
Fixpoint Split (s : bytes) (sep : Z) : list bytes :=
  match s with
  | [] => [[]]
  | c :: s =>
      if c =? sep then [] :: Split s sep
      else match Split s sep with
           | part :: parts => (c :: part) :: parts
           | [] => [[c]]
           end
  end.

(** [path.Clean] of a path that starts with a slash. *)
Definition clean_segment (acc : list bytes) (seg : bytes) : list bytes :=
  if bool_decide (seg = []) || bool_decide (seg = str ".") then acc
  else if bool_decide (seg = str "..") then take (length acc - 1) acc
  else acc ++ [seg].
Definition path_Clean (p : bytes) : bytes :=
  match foldl clean_segment [] (Split p 47) with
  | [] => [47]
  | segs => flat_map (fun s => 47 :: s) segs
  end.

Definition ends_with_slash (p : bytes) : bool := bool_decide (last p = Some 47).
Definition cleanPath (p : bytes) : bytes :=
  match p with
  | [] => [47]
  | c :: _ =>
      let p := if c =? 47 then p else 47 :: p in
      let np := path_Clean p in
      if ends_with_slash p && negb (bool_decide (np = [47])) then np ++ [47] else np
  end.

Section Mux.
Context {H : Type}.

(** The routes: a pattern that ends with a slash matches the paths below it. *)
Definition Routes : Type := list (bytes * H).

Definition pattern_matches (pattern path : bytes) : bool :=
  if ends_with_slash pattern then has_prefix pattern path else bool_decide (pattern = path).

(** The longest pattern wins. *)
Definition match_path (routes : Routes) (path : bytes) : option (bytes * H) :=
  foldl (fun best r =>
    if pattern_matches r.1 path then
      match best with
      | Some b => if len b.1 <? len r.1 then Some r else best
      | None => Some r
      end
    else best) None routes.

Inductive routed :=
| ToHandler (h : H)
| ToPath (path : bytes)
| NotFound.

Definition registered (routes : Routes) (pattern : bytes) : bool :=
  existsb (fun r => bool_decide (r.1 = pattern)) routes.

Definition route (routes : Routes) (method path : bytes) : routed :=
  let connect := bool_decide (method = MethodConnect) in
  let clean := if connect then path else cleanPath path in
  if negb (registered routes clean) && negb (ends_with_slash clean) && registered routes (clean ++ [47])
  then ToPath (cleanPath path ++ [47])
  else if negb connect && negb (bool_decide (clean = path)) then ToPath clean
  else match match_path routes clean with
       | Some r => ToHandler r.2
       | None => NotFound
       end.
End Mux.
Arguments Routes : clear implicits.

(** Every handler a path reaches belongs to a pattern that matches the path as it
    was sent. *)
Lemma match_path_In {H} (routes : Routes H) path r :
  match_path routes path = Some r -> In r routes /\ pattern_matches r.1 path = true.
Proof.
  unfold match_path.
  assert (forall best, foldl (fun best r =>
    if pattern_matches r.1 path then
      match best with Some b => if len b.1 <? len r.1 then Some r else best | None => Some r end
    else best) best routes = Some r -> best = Some r \/ In r routes /\ pattern_matches r.1 path = true) as Hg.
  { induction routes as [|r0 routes IH]; intros best Hf; simpl in Hf; [by left|].
    apply IH in Hf as [Hf|[? ?]]; [|right; split; [by right | done]].
    destruct (pattern_matches r0.1 path) eqn:E; [|by left].
    destruct best as [b|]; [destruct (_ <? _)|]; simplify_eq; auto; right; split; try done; by left. }
  intros Hf. by destruct (Hg None Hf).
Qed.

Lemma route_handler {H} (routes : Routes H) method path h :
  route routes method path = ToHandler h ->
  exists pattern, In (pattern, h) routes /\ pattern_matches pattern path = true.
Proof.
  unfold route. destruct (negb (registered _ _) && _ && _); [done|]. intros E.
  assert (forall clean, match match_path routes clean with Some r => ToHandler r.2 | None => NotFound end
    = ToHandler h -> exists pattern, In (pattern, h) routes /\ pattern_matches pattern clean = true) as Hm.
  { intros clean Em. destruct (match_path routes clean) as [[p h']|] eqn:E'; [|done]. injection Em as <-.
    apply match_path_In in E' as [? ?]. by exists p. }
  destruct (bool_decide (method = MethodConnect)); simpl in E; [by apply Hm|].
  destruct (bool_decide (cleanPath path = path)) eqn:Ec; simpl in E; [|done].
  apply bool_decide_eq_true in Ec. rewrite Ec in E. by apply Hm.
Qed.
