(* ===== verification/Rpc.v ===== *)
(** * Rpc: the RPC server

    Models rpc/server.go.  A server made by NewWithChain shares the store and the
    pool of the chain manager, so the state holds each of them once and a manager
    is put together from the parts ([manager]).  A handler maps the request, the
    state and what it reads of the world ([Env]) to the new state and the reply.
    Texts are ASCII, as in [Json]. *)

From S2P Require Import Prelude Encoding Sha256 Params Tx Block Consensus Pebble Storage.
From S2P Require Import Mempool Miner Bech32 Chain Json Peers Secp256k1 Ecdsa BasePoint Ripemd160 Keys Wallet Builder.
From S2P Require Import Pbkdf2 Seed Pay Float64 Health Http.

#[local] Opaque secp256k1.

(** ** State *)

Record Server := mkServer {
  sv_Store : DB;
  sv_Mempool : option Mempool;
  sv_Chain : option (Network * SignatureVerifier);   (** the other fields of the manager *)
  sv_Payments : Requests;
  sv_AuthToken : bytes;
  sv_Peers : option Z;                                (** what the function returns *)
}.

Definition rpc_New (store : DB) (mp : option Mempool) : Server := mkServer store mp None ∅ [] None.
Definition NewWithChain (m : Manager) : Server :=
  mkServer (mg_Store m) (mg_Mempool m) (Some (mg_Network m, mg_Verifier m)) ∅ [] None.

Definition manager (s : Server) : option Manager :=
  (fun '(net, v) => mkManager (sv_Store s) net (sv_Mempool s) v) <$> sv_Chain s.
Definition set_chain (s : Server) (m : Manager) : Server :=
  mkServer (mg_Store m) (mg_Mempool m) (sv_Chain s) (sv_Payments s) (sv_AuthToken s) (sv_Peers s).
Definition set_pool (s : Server) (mp : Mempool) : Server :=
  mkServer (sv_Store s) (Some mp) (sv_Chain s) (sv_Payments s) (sv_AuthToken s) (sv_Peers s).
Definition set_payments (s : Server) (p : Requests) : Server :=
  mkServer (sv_Store s) (sv_Mempool s) (sv_Chain s) p (sv_AuthToken s) (sv_Peers s).

(** Clocks in nanoseconds, randomness, the order of the pool's map, the text of an
    error of the operating system, fuel. *)
Record Env := mkEnv {
  ev_now : Z;
  ev_now' : Z;
  ev_rand : bytes;
  ev_range : MapOrder;
  ev_os_error : bytes;
  ev_fuel : nat;
}.

(** [err.Error()] *)
Definition Error (e : Env) (err : error) : bytes :=
  match err with
  | ErrNotFound => str "not found"
  | ErrEOF => str "EOF"
  | ErrUnexpectedEOF => str "unexpected EOF"
  | ErrOS => ev_os_error e
  | ErrDustOutput => str "dust output"
  | ErrInflation => str "outputs exceed inputs"
  | ErrFeeTooLow => str "fee too low"
  | ErrInvalidProofOfWork => str "invalid proof of work"
  | ErrInvalidMerkleRoot => str "invalid merkle root"
  | ErrInvalidCoinbase => str "invalid coinbase"
  | ErrInvalidSignature => str "invalid signature"
  | ErrMissingUTXO => str "missing utxo"
  | ErrDoubleSpend => str "double spend"
  | ErrBadTimestamp => str "bad timestamp"
  | ErrImmatureCoinbase => str "coinbase output is not mature"
  | ErrBadDifficulty => str "bad difficulty target"
  | ErrSupplyScheduleExceedsMax => str "supply schedule exceeds maximum supply"
  | ErrChainUninitialized => str "chain is not initialized"
  | ErrReorgTooDeep => str "reorg exceeds configured depth"
  | ErrInsufficientWork => str "candidate chain does not have more accumulated work"
  | ErrDifficultyAnomaly => str "difficulty change exceeds consensus bounds"
  | ErrCanceled => str "context canceled"
  | Errorf m => str m
  end.

(** ** Request bodies *)

Record HexRequest := mkHexRequest { hx_Hex : bytes }.
Definition hex_field (r : HexRequest) (kv : bytes * json) : result HexRequest :=
  if is_field (str "hex") kv.1 then x ← decode_string (hx_Hex r) kv.2; Ok (mkHexRequest x) else Ok r.
Definition decode_hex : json -> result HexRequest := decode_object hex_field (mkHexRequest []).

Record BuildRequest := mkBuildRequest {
  br_PrivateKeyHex : bytes;
  br_ToAddress : bytes;
  br_Amount : Z;
  br_Fee : Z;
}.
Definition build_field (r : BuildRequest) (kv : bytes * json) : result BuildRequest :=
  let '(k, v) := kv in
  let '(mkBuildRequest key to amount fee) := r in
  if is_field (str "privateKeyHex") k then x ← decode_string key v; Ok (mkBuildRequest x to amount fee)
  else if is_field (str "toAddress") k then x ← decode_string to v; Ok (mkBuildRequest key x amount fee)
  else if is_field (str "amount") k then x ← decode_uint (2 ^ 64) amount v; Ok (mkBuildRequest key to x fee)
  else if is_field (str "fee") k then x ← decode_uint (2 ^ 64) fee v; Ok (mkBuildRequest key to amount x)
  else Ok r.
Definition decode_build : json -> result BuildRequest := decode_object build_field (mkBuildRequest [] [] 0 0).

Record TradeRequest := mkTrade {
  tr_PrivateKeyHex : bytes;
  tr_PoolAddress : bytes;
  tr_Amount : Z;
  tr_Side : bytes;
  tr_Ticker : bytes;
  tr_LaunchID : bytes;
  tr_TradeID : bytes;
  tr_PriceNevel : Float;
}.
Definition trade_field (r : TradeRequest) (kv : bytes * json) : result TradeRequest :=
  let '(k, v) := kv in
  let '(mkTrade key pool amount side ticker launch trade price) := r in
  if is_field (str "privateKeyHex") k then x ← decode_string key v; Ok (mkTrade x pool amount side ticker launch trade price)
  else if is_field (str "poolAddress") k then x ← decode_string pool v; Ok (mkTrade key x amount side ticker launch trade price)
  else if is_field (str "amount") k then x ← decode_uint (2 ^ 64) amount v; Ok (mkTrade key pool x side ticker launch trade price)
  else if is_field (str "side") k then x ← decode_string side v; Ok (mkTrade key pool amount x ticker launch trade price)
  else if is_field (str "ticker") k then x ← decode_string ticker v; Ok (mkTrade key pool amount side x launch trade price)
  else if is_field (str "launchId") k then x ← decode_string launch v; Ok (mkTrade key pool amount side ticker x trade price)
  else if is_field (str "tradeId") k then x ← decode_string trade v; Ok (mkTrade key pool amount side ticker launch x price)
  else if is_field (str "priceNevel") k then x ← decode_float price v; Ok (mkTrade key pool amount side ticker launch trade x)
  else Ok r.
Definition decode_trade : json -> result TradeRequest :=
  decode_object trade_field (mkTrade [] [] 0 [] [] [] [] zero_float).

Record PoolRequest := mkPool {
  po_LaunchID : bytes;
  po_Ticker : bytes;
  po_NevelLiquidity : Float;
  po_TokenLiquidity : Float;
}.
Definition pool_field (r : PoolRequest) (kv : bytes * json) : result PoolRequest :=
  let '(k, v) := kv in
  let '(mkPool launch ticker nevel token) := r in
  if is_field (str "launchId") k then x ← decode_string launch v; Ok (mkPool x ticker nevel token)
  else if is_field (str "ticker") k then x ← decode_string ticker v; Ok (mkPool launch x nevel token)
  else if is_field (str "nevelLiquidity") k then x ← decode_float nevel v; Ok (mkPool launch ticker x token)
  else if is_field (str "tokenLiquidity") k then x ← decode_float token v; Ok (mkPool launch ticker nevel x)
  else Ok r.
Definition decode_pool : json -> result PoolRequest :=
  decode_object pool_field (mkPool [] [] zero_float zero_float).

Record InvoiceRequest := mkInvoice {
  iv_Merchant : bytes;
  iv_Address : bytes;
  iv_Amount : Z;
  iv_Memo : bytes;
  iv_TTL : Z;
}.
Definition invoice_field (r : InvoiceRequest) (kv : bytes * json) : result InvoiceRequest :=
  let '(k, v) := kv in
  let '(mkInvoice merchant address amount memo ttl) := r in
  if is_field (str "merchant") k then x ← decode_string merchant v; Ok (mkInvoice x address amount memo ttl)
  else if is_field (str "address") k then x ← decode_string address v; Ok (mkInvoice merchant x amount memo ttl)
  else if is_field (str "amount") k then x ← decode_uint (2 ^ 64) amount v; Ok (mkInvoice merchant address x memo ttl)
  else if is_field (str "memo") k then x ← decode_string memo v; Ok (mkInvoice merchant address amount x ttl)
  else if is_field (str "ttlSeconds") k then x ← decode_int ttl v; Ok (mkInvoice merchant address amount memo x)
  else Ok r.
Definition decode_invoice : json -> result InvoiceRequest := decode_object invoice_field (mkInvoice [] [] 0 [] 0).

(** ** Replies as JSON *)

Abbreviation text := json_string.

Definition tip_json (t : TipInfo) : json :=
  JObj [(str "hash", text (ti_Hash t)); (str "height", uint_json (ti_Height t));
        (str "bits", uint_json (ti_Bits t)); (str "timestamp", int_json (ti_Timestamp t))].

(** A nil slice is null. *)
Definition health_json (r : HealthReport) : json :=
  JObj [(str "tipHeight", uint_json (hr_TipHeight r)); (str "tipAgeSeconds", int_json (hr_TipAgeSeconds r));
        (str "peerCount", int_json (hr_PeerCount r));
        (str "alerts", match hr_Alerts r with [] => JNull | l => JArr (text <$> l) end)].

Definition template_json (t : MiningTemplate) : json :=
  JObj [(str "previousHash", text (mt_PreviousHash t)); (str "height", uint_json (mt_Height t));
        (str "bits", uint_json (mt_Bits t)); (str "target", text (mt_Target t));
        (str "transactions", JArr (text <$> mt_Transactions t)); (str "coinbase", uint_json (mt_Coinbase t))].

Definition payment_json (p : PaymentRequest) : json :=
  JObj ([(str "id", text (pr_ID p)); (str "merchant", text (pr_Merchant p)); (str "address", text (pr_Address p));
         (str "amount", uint_json (pr_Amount p)); (str "memo", text (pr_Memo p));
         (str "expiresAt", int_json (pr_ExpiresAt p)); (str "status", text (pr_Status p))] ++
        omit_string (str "txHash") (pr_TxHash p)).

Section Code.
Context {HF : HashFunction} {UJ : UTXOJson}.

Definition blockDTO (b : Block) : json :=
  let hd := blk_Header b in
  map_json [(str "hash", text (hex_encode (blk_Hash b))); (str "height", uint_json (hdr_Height hd));
            (str "previous", text (hex_encode (hdr_PrevHash hd)));
            (str "merkleRoot", text (hex_encode (hdr_MerkleRoot hd)));
            (str "timestamp", int_json (hdr_Timestamp hd)); (str "bits", uint_json (hdr_Bits hd));
            (str "nonce", uint_json (hdr_Nonce hd));
            (str "transactions", JArr ((fun t => text (hex_encode (tx_Hash t))) <$> blk_Transactions b))].

Definition txDTO (t : Transaction) : json :=
  map_json [(str "hash", text (hex_encode (tx_Hash t))); (str "version", uint_json (tx_Version t));
            (str "inputs", JArr ((fun i =>
               map_json [(str "prevTxHash", text (hex_encode (in_PrevTxHash i)));
                         (str "outputIdx", uint_json (in_OutputIdx i))]) <$> tx_Inputs t));
            (str "outputs", JArr ((fun o =>
               map_json [(str "amount", uint_json (out_Amount o));
                         (str "lockingScript", text (hex_encode (out_LockingScript o)))]) <$> tx_Outputs t));
            (str "lockTime", uint_json (tx_LockTime t)); (str "coinbase", JBool (IsCoinbase t))].

Definition parseHash (raw : bytes) : result bytes :=
  match hex_decode raw with
  | Ok b => if len b =? 32 then Ok b else Err (Errorf "bad hash")
  | Err _ => Err (Errorf "bad hash")
  end.

Definition metaHash (launchID tradeID side ticker : bytes) : bytes :=
  hex_encode (sha256 (launchID ++ [58] ++ tradeID ++ [58] ++ side ++ [58] ++ ticker)).

Definition poolAddress (launchID ticker : bytes) : bytes :=
  let poolHash := sha256 (str "genesis-pool:" ++ launchID ++ [58] ++ ticker) in
  str "nevel1pool" ++ ToLower ticker ++ take 8 (hex_encode poolHash).

(** [json.Marshal(req)] *)
Definition pool_data (r : PoolRequest) : bytes :=
  print (JObj [(str "launchId", text (po_LaunchID r)); (str "ticker", text (po_Ticker r));
               (str "nevelLiquidity", float_json (po_NevelLiquidity r));
               (str "tokenLiquidity", float_json (po_TokenLiquidity r))]).

(** ** Handlers *)

Definition Handler : Type := Env -> Request -> Server -> Server * reply.

(** [strings.TrimPrefix] *)
Definition TrimPrefix (s prefix : bytes) : bytes :=
  if has_prefix prefix s then drop (length prefix) s else s.

(** [if r.Method != http.MethodPost { ... }] *)
Definition post_only (h : Handler) : Handler := fun e r s =>
  if negb (bool_decide (rq_Method r = MethodPost)) then (s, http_Error (str "method not allowed") 405)
  else h e r s.

(** The decoding of a body of at most [limit] bytes. *)
Definition with_body {A} (decode : json -> result A) (limit : Z) (r : Request) (s : Server)
    (k : A -> Server * reply) : Server * reply :=
  match DecodeBody decode limit (rq_Body r) with
  | Err _ => (s, http_Error (str "bad json") 400)
  | Ok req => k req
  end.

(** [prefix := "nevel"; if s.Chain != nil { prefix = s.Chain.Network.AddressPrefix }] *)
Definition address_prefix (s : Server) : bytes :=
  match sv_Chain s with None => str "nevel" | Some (net, _) => str (AddressPrefix net) end.

(** [s.Mempool.Add(t)] *)
Definition pool_add (e : Env) (t : Transaction) (mp : Mempool) (s : Server) : Server * result unit :=
  let '(mp, r) := Mempool.Add (Get (sv_Store s)) (ev_now e) (ev_range e) t mp in (set_pool s mp, r).

Definition explorer_url (h : bytes) : json := text (str "https://0nevel.com/explorer?tx=" ++ h).

Definition health : Handler := fun _ _ s => (s, writeJSON (map_json [(str "status", text (str "ok"))])).

Definition securityMetrics : Handler := fun e _ s =>
  let peers := default 0 (sv_Peers s) in
  let alert name := writeJSON (map_json [(str "peerCount", int_json peers); (str "alerts", JArr [text name])]) in
  match manager s with
  | None => (s, alert (str "chain_manager_unavailable"))
  | Some m =>
      match chain_Tip m with
      | Err _ => (s, alert (str "tip_unavailable"))
      | Ok tip => (s, writeJSON (health_json
          (AssessHealth tip peers (mkThresholds (5 * 60 * Second) 0 1 None) (ev_now e))))
      end
  end.

Definition rpc_tip : Handler := fun _ _ s =>
  match manager s with
  | Some m =>
      match chain_Tip m with
      | Err err => (s, http_ErrorOf [] err 404)
      | Ok tip => (s, writeJSON (tip_json tip))
      end
  | None =>
      match Tip (sv_Store s) with
      | Err err => (s, http_ErrorOf [] err 404)
      | Ok h =>
          match GetBlock h (sv_Store s) with
          | Err err => (s, http_ErrorOf [] err 404)
          | Ok b => (s, writeJSON (map_json [(str "hash", text (hex_encode h));
              (str "height", uint_json (hdr_Height (blk_Header b))); (str "bits", uint_json (hdr_Bits (blk_Header b)))]))
          end
      end
  end.

Definition writeBlock (h : bytes) (s : Server) : Server * reply :=
  match GetBlock h (sv_Store s) with
  | Err err => (s, http_ErrorOf [] err 404)
  | Ok b => (s, writeJSON (blockDTO b))
  end.

(** [strconv.ParseUint(s, 10, 64)] *)
Definition ParseUint (s : bytes) : option Z :=
  n ← decimal_value s; if n <? 2 ^ 64 then Some n else None.

Definition blockHeight : Handler := fun _ r s =>
  match ParseUint (TrimPrefix (rq_Path r) (str "/block/height/")) with
  | None => (s, http_Error (str "bad height") 400)
  | Some height =>
      match BlockHashByHeight height (sv_Store s) with
      | Err err => (s, http_ErrorOf [] err 404)
      | Ok h => writeBlock h s
      end
  end.

Definition blockHash : Handler := fun _ r s =>
  match hex_decode (TrimPrefix (rq_Path r) (str "/block/")) with
  | Ok b => if negb (len b =? 32) then (s, http_Error (str "bad hash") 400) else writeBlock b s
  | Err _ => (s, http_Error (str "bad hash") 400)
  end.

Definition txByHash : Handler := fun _ r s =>
  match parseHash (TrimPrefix (rq_Path r) (str "/tx/")) with
  | Err _ => (s, http_Error (str "bad hash") 400)
  | Ok h =>
      match GetTx h (sv_Store s) with
      | Err err => (s, http_ErrorOf [] err 404)
      | Ok t => (s, writeJSON (txDTO t))
      end
  end.

Definition rpc_address : Handler := fun _ r s =>
  let usage := http_Error (str "expected /address/{address}/balance or /address/{address}/utxos") 404 in
  match Split (TrimPrefix (rq_Path r) (str "/address/")) 47 with
  | [addr; what] =>
      if negb (bool_decide (what = str "balance")) && negb (bool_decide (what = str "utxos")) then (s, usage)
      else
        match LockingScriptForAddress addr (address_prefix s) with
        | Err err => (s, http_ErrorOf [] err 400)
        | Ok script =>
            if bool_decide (what = str "balance") then
              match BalanceByScript script (sv_Store s) with
              | Err err => (s, http_ErrorOf [] err 500)
              | Ok balance => (s, writeJSON (map_json [(str "address", text addr); (str "balance", uint_json balance)]))
              end
            else
              match ListUTXOsByScript script (sv_Store s) with
              | Err err => (s, http_ErrorOf [] err 500)
              | Ok utxos => (s, writeJSON (JArr (utxo_json <$> utxos)))
              end
        end
  | _ => (s, usage)
  end.

Definition broadcastTx : Handler := post_only (fun e r s =>
  with_body decode_hex (2 ^ 20) r s (fun req =>
    match hex_decode (hx_Hex req) with
    | Err _ => (s, http_Error (str "bad transaction hex") 400)
    | Ok data =>
        match DeserializeTransaction data with
        | Err err => (s, http_ErrorOf [] err 400)
        | Ok t =>
            match sv_Mempool s with
            | None => (s, http_Error (str "mempool unavailable") 503)
            | Some mp =>
                match pool_add e t mp s with
                | (s, Err err) => (s, http_ErrorOf [] err 400)
                | (s, Ok _) => (s, writeJSON (map_json [(str "txHash", text (hex_encode (tx_Hash t)))]))
                end
            end
        end
    end)).

Definition buildTx : Handler := post_only (fun e r s =>
  with_body decode_build (2 ^ 20) r s (fun req =>
    if bool_decide (br_PrivateKeyHex req = []) || bool_decide (br_ToAddress req = []) || (br_Amount req =? 0)
    then (s, http_Error (str "privateKeyHex, toAddress, and amount are required") 400)
    else
      let fee := if br_Fee req =? 0 then 1000 else br_Fee req in
      match FromHexPrivateKey (br_PrivateKeyHex req) (address_prefix s) with
      | None => (s, Panic)
      | Some (Err err) => (s, http_ErrorOf (str "bad private key: ") err 400)
      | Some (Ok w) =>
          match BuildTransaction w (fun script => ListUTXOsByScript script (sv_Store s))
                  (br_ToAddress req) (br_Amount req) fee (ev_rand e) with
          | None => (s, Panic)
          | Some (Err err) => (s, http_ErrorOf [] err 400)
          | Some (Ok (t, _)) =>
              match sv_Mempool s with
              | None => (s, http_Error (str "mempool unavailable") 503)
              | Some mp =>
                  match pool_add e t mp s with
                  | (s, Err err) => (s, http_ErrorOf [] err 400)
                  | (s, Ok _) =>
                      let h := hex_encode (tx_Hash t) in
                      (s, writeJSON (map_json
                        [(str "txHash", text h); (str "fromAddress", text (w_Address w));
                         (str "toAddress", text (br_ToAddress req)); (str "amount", uint_json (br_Amount req));
                         (str "fee", uint_json fee); (str "raw", text (hex_encode (SerializeTransaction t)));
                         (str "explorerUrl", explorer_url h)]))
                  end
              end
          end
      end)).

Definition genesisWalletNew : Handler := post_only (fun e _ s =>
  match Wallet.New (address_prefix s) (ev_rand e) with
  | None => (s, Panic)
  | Some (Err err) => (s, http_ErrorOf [] err 500)
  | Some (Ok (w, _)) =>
      (s, writeJSON (map_json [(str "address", text (w_Address w));
        (str "privateKeyHex", text (PrivateKeyHex (w_PrivateKey w)));
        (str "publicKeyHex", text (hex_encode (w_PublicKey w)))]))
  end).

(** The transaction of a trade is added to the pool and the outcome is dropped. *)
Definition genesisTrade : Handler := post_only (fun e r s =>
  with_body decode_trade (2 ^ 20) r s (fun req =>
    let meta := metaHash (tr_LaunchID req) (tr_TradeID req) (tr_Side req) (tr_Ticker req) in
    if negb (bool_decide (tr_PrivateKeyHex req = [])) && negb (bool_decide (tr_PoolAddress req = [])) &&
       (0 <? tr_Amount req) then
      match FromHexPrivateKey (tr_PrivateKeyHex req) (address_prefix s) with
      | None => (s, Panic)
      | Some (Err err) => (s, http_ErrorOf (str "bad private key: ") err 400)
      | Some (Ok w) =>
          let fee := 1000 in
          match BuildTransaction w (fun script => ListUTXOsByScript script (sv_Store s))
                  (tr_PoolAddress req) (tr_Amount req) fee (ev_rand e) with
          | None => (s, Panic)
          | Some (Err err) =>
              (s, writeJSON (map_json
                [(str "success", JBool true); (str "txHash", text meta); (str "type", text (str "genesis_meta"));
                 (str "side", text (tr_Side req)); (str "ticker", text (tr_Ticker req)); (str "fallback", JBool true);
                 (str "fallbackReason", text (Error e err)); (str "explorerUrl", explorer_url meta)]))
          | Some (Ok (t, _)) =>
              let s := match sv_Mempool s with Some mp => (pool_add e t mp s).1 | None => s end in
              let h := hex_encode (tx_Hash t) in
              (s, writeJSON (map_json
                [(str "success", JBool true); (str "txHash", text h); (str "type", text (str "genesis_utxo"));
                 (str "side", text (tr_Side req)); (str "ticker", text (tr_Ticker req));
                 (str "fromAddress", text (w_Address w)); (str "toAddress", text (tr_PoolAddress req));
                 (str "amount", uint_json (tr_Amount req)); (str "fee", uint_json fee);
                 (str "chain", text (str "nevel")); (str "explorerUrl", explorer_url h)]))
          end
      end
    else
      (s, writeJSON (map_json
        [(str "success", JBool true); (str "txHash", text meta); (str "type", text (str "genesis_meta"));
         (str "side", text (tr_Side req)); (str "ticker", text (tr_Ticker req)); (str "chain", text (str "nevel"));
         (str "explorerUrl", explorer_url meta)])))).

Definition genesisPool : Handler := post_only (fun _ r s =>
  with_body decode_pool (2 ^ 20) r s (fun req =>
    let poolAddr := poolAddress (po_LaunchID req) (po_Ticker req) in
    let txHash := hex_encode (sha256 (pool_data req)) in
    (s, writeJSON (map_json
      [(str "success", JBool true); (str "poolAddress", text poolAddr); (str "txHash", text txHash);
       (str "ticker", text (po_Ticker req)); (str "nevelLiquidity", float_json (po_NevelLiquidity req));
       (str "tokenLiquidity", float_json (po_TokenLiquidity req)); (str "chain", text (str "nevel"));
       (str "explorerUrl", text (str "https://0nevel.com/explorer?pool=" ++ poolAddr))])))).

Definition rpc_mempool : Handler := fun e _ s =>
  match sv_Mempool s with
  | None => (s, writeJSON (JArr []))
  | Some mp => (s, writeJSON (JArr ((fun t => text (hex_encode (tx_Hash t))) <$> Snapshot (ev_range e) mp)))
  end.

Definition miningTemplate : Handler := fun e r s =>
  match manager s with
  | None => (s, http_Error (str "chain manager unavailable") 503)
  | Some m =>
      let address := query_get (str "address") (rq_Query r) in
      if bool_decide (address = []) then (s, http_Error (str "address query parameter required") 400)
      else
        match LockingScriptForAddress address (str (AddressPrefix (mg_Network m))) with
        | Err err => (s, http_ErrorOf [] err 400)
        | Ok script =>
            match BuildTemplate (Unix (ev_now e)) (Unix (ev_now' e)) (ev_range e) script m with
            | Err err => (s, http_ErrorOf [] err 500)
            | Ok (_, tmpl) => (s, writeJSON (template_json tmpl))
            end
        end
  end.

Definition submitBlock : Handler := post_only (fun e r s =>
  match manager s with
  | None => (s, http_Error (str "chain manager unavailable") 503)
  | Some m =>
      with_body decode_hex (4 * 2 ^ 20) r s (fun req =>
        match hex_decode (hx_Hex req) with
        | Err _ => (s, http_Error (str "bad block hex") 400)
        | Ok data =>
            match DeserializeBlock data with
            | Err err => (s, http_ErrorOf [] err 400)
            | Ok block =>
                match ValidateAndApplyBlock (ev_fuel e) (Unix (ev_now e)) block m with
                | None => (s, Pending)
                | Some (m, Err err) => (set_chain s m, http_ErrorOf [] err 400)
                | Some (m, Ok _) =>
                    (set_chain s m, writeJSON (map_json [(str "hash", text (hex_encode (blk_Hash block)));
                      (str "height", uint_json (hdr_Height (blk_Header block)))]))
                end
            end
        end)
  end).

(** [time.Duration(req.TTL)*time.Second] wraps. *)
Definition invoice : Handler := post_only (fun e r s =>
  with_body decode_invoice (2 ^ 20) r s (fun req =>
    let '(p, res) := Create (iv_Merchant req) (iv_Address req) (iv_Amount req) (iv_Memo req)
                       (i64 (iv_TTL req * Second)) (ev_now e) (ev_rand e) (sv_Payments s) in
    match res with
    | Err err => (set_payments s p, http_ErrorOf [] err 400)
    | Ok (req, _) => (set_payments s p, writeJSON (payment_json req))
    end)).

Definition paymentStatus : Handler := fun e r s =>
  match GetRequest (TrimPrefix (rq_Path r) (str "/payments/status/")) (ev_now e) (sv_Payments s) with
  | None => (s, http_Error (str "payment not found") 404)
  | Some req => (s, writeJSON (payment_json req))
  end.

(** ** The server *)

Definition routes : Routes Handler :=
  [(str "/health", health); (str "/metrics/security", securityMetrics); (str "/chain/tip", rpc_tip);
   (str "/block/height/", blockHeight); (str "/block/", blockHash); (str "/tx/broadcast", broadcastTx);
   (str "/tx/build", buildTx); (str "/tx/", txByHash); (str "/address/", rpc_address);
   (str "/mempool", rpc_mempool); (str "/mining/template", miningTemplate); (str "/mining/submit", submitBlock);
   (str "/payments/invoice", invoice); (str "/payments/status/", paymentStatus);
   (str "/genesis/pool", genesisPool); (str "/genesis/trade", genesisTrade);
   (str "/genesis/wallet/new", genesisWalletNew)].

Definition mux : Handler := fun e r s =>
  match route routes (rq_Method r) (rq_Path r) with
  | ToHandler h => h e r s
  | ToPath p => (s, Reply (mkResponse 301 [] (Moved p)))
  | NotFound => (s, http_Error (str "404 page not found") 404)
  end.

Definition protected (r : Request) : bool :=
  negb (bool_decide (rq_Method r = MethodGet)) ||
  has_prefix (str "/mining/") (rq_Path r) || has_prefix (str "/tx/broadcast") (rq_Path r) ||
  has_prefix (str "/tx/build") (rq_Path r) || has_prefix (str "/genesis/") (rq_Path r) ||
  has_prefix (str "/payments/") (rq_Path r).

Definition auth (next : Handler) : Handler := fun e r s =>
  if negb (bool_decide (sv_AuthToken s = [])) && protected r &&
     negb (bool_decide (rq_Authorization r = str "Bearer " ++ sv_AuthToken s))
  then (s, http_Error (str "unauthorized") 401)
  else next e r s.

(** The headers are set before the handler runs, so a handler that sets one of
    them again wins. *)
Definition securityHeaders (next : Handler) : Handler := fun e r s =>
  let '(s, rep) := next e r s in
  match rep with
  | Reply resp =>
      let base := [(str "x-content-type-options", str "nosniff"); (str "referrer-policy", str "no-referrer")] in
      (s, Reply (mkResponse (rs_Status resp)
            (foldl (fun hs kv => set_header kv.1 kv.2 hs) base (rs_Headers resp)) (rs_Body resp)))
  | rep => (s, rep)
  end.

Definition ServeHTTP : Handler := securityHeaders (auth mux).
End Code.
