(* ===== verification/RpcSpec.v ===== *)
(** * RpcSpec: what a client of the RPC server can do

    Every handler either reads, or changes one part of the state in one way
    ([effect]); the theorems on authorisation and on the state of the node follow
    for the whole server, with its routes and its filters. *)

From S2P Require Import Prelude Encoding Sha256 Params Tx Block Consensus Pebble Storage StoreSpec.
From S2P Require Import Ledger Mempool Miner Bech32 Chain ChainSpec Json Peers Secp256k1 Ecdsa BasePoint Ripemd160.
From S2P Require Import Keys Wallet Builder Pbkdf2 Seed Pay Float64 Health Http Rpc.

#[local] Opaque secp256k1.

Section Spec.
Context {HF : HashFunction} {UJ : UTXOJson}.

(** The block a request submits. *)
Definition submitted (r : Request) (b : Block) : Prop :=
  exists req data, DecodeBody decode_hex (4 * 2 ^ 20) (rq_Body r) = Ok req /\
    hex_decode (hx_Hex req) = Ok data /\ DeserializeBlock data = Ok b.

(** The routes that may change the state. *)
Definition pool_routes : list bytes := [str "/tx/broadcast"; str "/tx/build"; str "/genesis/trade"].
Definition writing_routes : list bytes := pool_routes ++ [str "/mining/submit"; str "/payments/invoice"].

(** The new state and the reply of the handler of a pattern. *)
Inductive effect (pattern : bytes) (e : Env) (r : Request) (s : Server) : Server -> reply -> Prop :=
| eff_read rep : rep <> Pending -> effect pattern e r s s rep
| eff_pool t mp rep :
    rq_Method r = MethodPost -> pattern ∈ pool_routes -> sv_Mempool s = Some mp -> rep <> Pending ->
    effect pattern e r s (pool_add e t mp s).1 rep
| eff_payments p rep :
    rq_Method r = MethodPost -> pattern = str "/payments/invoice" -> rep <> Pending ->
    effect pattern e r s (set_payments s p) rep
| eff_block b m m' res rep :
    rq_Method r = MethodPost -> pattern = str "/mining/submit" -> submitted r b -> manager s = Some m ->
    ValidateAndApplyBlock (ev_fuel e) (Unix (ev_now e)) b m = Some (m', res) -> rep <> Pending ->
    effect pattern e r s (set_chain s m') rep
| eff_busy b m :
    submitted r b -> manager s = Some m ->
    ValidateAndApplyBlock (ev_fuel e) (Unix (ev_now e)) b m = None -> effect pattern e r s s Pending.

#[local] Hint Constructors effect : rpc.

(** A handler that only reads. *)
Ltac reads_only :=
  let H := fresh "H" in
  intros H; repeat case_match; simplify_eq; apply eff_read; discriminate.

Lemma post_only_effect pattern h e r s s' rep :
  (rq_Method r = MethodPost -> h e r s = (s', rep) -> effect pattern e r s s' rep) ->
  post_only h e r s = (s', rep) -> effect pattern e r s s' rep.
Proof.
  intros H. unfold post_only. destruct (bool_decide_reflect (rq_Method r = MethodPost)); simpl; [by apply H|].
  intros [= <- <-]. by apply eff_read.
Qed.

Lemma with_body_effect {A} pattern (decode : json -> result A) limit k e r s s' rep :
  (forall req, DecodeBody decode limit (rq_Body r) = Ok req -> k req = (s', rep) -> effect pattern e r s s' rep) ->
  with_body decode limit r s k = (s', rep) -> effect pattern e r s s' rep.
Proof.
  intros H. unfold with_body. destruct (DecodeBody _ _ _) as [req|] eqn:E; [by apply H|].
  intros [= <- <-]. by apply eff_read.
Qed.

Lemma broadcastTx_effect e r s s' rep :
  broadcastTx e r s = (s', rep) -> effect (str "/tx/broadcast") e r s s' rep.
Proof.
  apply post_only_effect. intros Hp. apply with_body_effect. intros req _.
  destruct (hex_decode _); [|reads_only]. destruct (DeserializeTransaction _) as [t|]; [|reads_only].
  destruct (sv_Mempool s) as [mp|] eqn:Em; [|reads_only].
  destruct (pool_add e t mp s) as [s1 res] eqn:Ea. assert (s1 = (pool_add e t mp s).1) as -> by by rewrite Ea.
  intros H. destruct res; simplify_eq; by apply eff_pool; [|by_decision|..].
Qed.

Lemma buildTx_effect e r s s' rep :
  buildTx e r s = (s', rep) -> effect (str "/tx/build") e r s s' rep.
Proof.
  apply post_only_effect. intros Hp. apply with_body_effect. intros req _.
  destruct (_ || _); [reads_only|]. cbv zeta. destruct (FromHexPrivateKey _ _) as [[w|]|]; [|reads_only..].
  destruct (BuildTransaction _ _ _ _ _ _) as [[[t rest]|]|]; [|reads_only..].
  destruct (sv_Mempool s) as [mp|] eqn:Em; [|reads_only].
  destruct (pool_add e t mp s) as [s1 res] eqn:Ea. assert (s1 = (pool_add e t mp s).1) as -> by by rewrite Ea.
  intros H. destruct res; simplify_eq; by apply eff_pool; [|by_decision|..].
Qed.

Lemma genesisTrade_effect e r s s' rep :
  genesisTrade e r s = (s', rep) -> effect (str "/genesis/trade") e r s s' rep.
Proof.
  apply post_only_effect. intros Hp. apply with_body_effect. intros req _. cbv zeta.
  destruct (_ && _); [|reads_only]. destruct (FromHexPrivateKey _ _) as [[w|]|]; [|reads_only..].
  destruct (BuildTransaction _ _ _ _ _ _) as [[[t rest]|]|]; [|reads_only..].
  destruct (sv_Mempool s) as [mp|] eqn:Em; [|reads_only].
  intros [= <- <-]. by apply eff_pool; [|by_decision|..].
Qed.

Lemma submitBlock_effect e r s s' rep :
  submitBlock e r s = (s', rep) -> effect (str "/mining/submit") e r s s' rep.
Proof.
  apply post_only_effect. intros Hp. destruct (manager s) as [m|] eqn:Em; [|reads_only].
  apply with_body_effect. intros req Hreq.
  destruct (hex_decode _) as [data|] eqn:Eh; [|reads_only].
  destruct (DeserializeBlock data) as [b|] eqn:Eb; [|reads_only].
  assert (submitted r b) as Hs by (by exists req, data).
  destruct (ValidateAndApplyBlock _ _ b m) as [[m' res]|] eqn:Ev.
  - intros H. destruct res; simplify_eq; by eapply eff_block.
  - intros [= <- <-]. by eapply eff_busy.
Qed.

Lemma invoice_effect e r s s' rep :
  invoice e r s = (s', rep) -> effect (str "/payments/invoice") e r s s' rep.
Proof.
  apply post_only_effect. intros Hp. apply with_body_effect. intros req _.
  destruct (Create _ _ _ _ _ _ _ _) as [p [[q rest]|]]; intros [= <- <-]; by apply eff_payments.
Qed.

Lemma handler_effect pattern h e r s s' rep :
  In (pattern, h) routes -> h e r s = (s', rep) -> effect pattern e r s s' rep.
Proof.
  unfold routes. intros Hin.
  repeat (destruct Hin as [Hin|Hin]; [apply (inj2 pair) in Hin as [<- <-]|]); [..|done];
    first [apply broadcastTx_effect | apply buildTx_effect | apply genesisTrade_effect
          | apply submitBlock_effect | apply invoice_effect | idtac].
  - unfold health. reads_only.
  - unfold securityMetrics. reads_only.
  - unfold rpc_tip. reads_only.
  - unfold blockHeight, writeBlock. reads_only.
  - unfold blockHash, writeBlock. reads_only.
  - unfold txByHash. reads_only.
  - unfold rpc_address. reads_only.
  - unfold rpc_mempool. reads_only.
  - unfold miningTemplate. reads_only.
  - unfold paymentStatus. reads_only.
  - apply post_only_effect. intros _. apply with_body_effect. intros req _. cbv zeta. reads_only.
  - apply post_only_effect. intros _. reads_only.
Qed.

(** ** The whole server *)

(** A pattern of a route that writes has no trailing slash: it matches itself. *)
Lemma exact_pattern pattern path :
  pattern ∈ writing_routes -> pattern_matches pattern path = true -> path = pattern.
Proof.
  unfold pattern_matches. intros Hin. destruct (ends_with_slash pattern) eqn:E.
  - exfalso. revert E. assert (Forall (fun p => ends_with_slash p = false) writing_routes) as H by by_decision.
    rewrite Forall_forall in H. by rewrite (H pattern Hin).
  - intros H%bool_decide_eq_true. done.
Qed.

Definition authorised (r : Request) (s : Server) : Prop :=
  sv_AuthToken s = [] \/ rq_Authorization r = str "Bearer " ++ sv_AuthToken s.

(** A request that is not GET passes the filter only if it is authorised. *)
Lemma auth_passes next e r s :
  protected r = true ->
  auth next e r s = next e r s /\ authorised r s \/
  auth next e r s = (s, http_Error (str "unauthorized") 401) /\ ~ authorised r s.
Proof.
  intros Hp. unfold auth, authorised. rewrite Hp, andb_true_r.
  destruct (bool_decide_reflect (sv_AuthToken s = [])) as [Ht|Ht]; cbn [negb andb]; [left; by split; [|left]|].
  destruct (bool_decide_reflect (rq_Authorization r = str "Bearer " ++ sv_AuthToken s)) as [Hb|Hb];
    cbn [negb]; [left; by split; [|right]|].
  right. split; [done | tauto].
Qed.

Lemma post_protected r : rq_Method r = MethodPost -> protected r = true.
Proof. intros H. unfold protected. by rewrite H. Qed.

(** Adding the headers does not change the state, nor whether there is a reply. *)
Lemma securityHeaders_state next e r s s' rep :
  securityHeaders next e r s = (s', rep) -> exists rep', next e r s = (s', rep') /\ (rep = Pending <-> rep' = Pending).
Proof.
  unfold securityHeaders. destruct (next e r s) as [s1 rep1]. intros H. exists rep1.
  destruct rep1; simplify_eq; by split.
Qed.

(** What a request does, whatever the route. *)
Lemma serve_effect e r s s' rep :
  ServeHTTP e r s = (s', rep) ->
  s' = s /\ rep <> Pending \/
  (protected r = true -> authorised r s) /\
  exists pattern h rep', In (pattern, h) routes /\ pattern_matches pattern (rq_Path r) = true /\
    effect pattern e r s s' rep' /\ (rep = Pending <-> rep' = Pending).
Proof.
  intros (rep1 & H & Hr)%securityHeaders_state.
  assert (mux e r s = (s', rep1) /\ (protected r = true -> authorised r s) \/ s' = s /\ rep1 <> Pending) as [[Hm Ha]|[-> ?]].
  { destruct (protected r) eqn:Ep.
    - destruct (auth_passes mux e r s Ep) as [[E ?]|[E ?]]; rewrite E in H; [by left|]. by right; simplify_eq.
    - left. unfold auth in H. rewrite Ep, andb_false_r in H. done. }
  2: { left. split; [done|]. tauto. }
  unfold mux in Hm. destruct (route routes _ _) as [h|p|] eqn:Er; [|left; simplify_eq; split; [done | by rewrite Hr]..].
  apply route_handler in Er as (pattern & Hin & Hp). right. split; [done|].
  exists pattern, h, rep1. split_and!; try done. by eapply handler_effect.
Qed.

Lemma pool_route_writes pattern : pattern ∈ pool_routes -> pattern ∈ writing_routes.
Proof. intros H. apply elem_of_app. by left. Qed.

(** ** Properties *)

(** C6: A request that changes the state of the server is a POST to one of the five
    writing routes and carries the bearer token whenever a token is set. *)
Theorem writes_are_authorised e r s s' rep :
  ServeHTTP e r s = (s', rep) -> s' <> s ->
  rq_Method r = MethodPost /\ rq_Path r ∈ writing_routes /\
  (sv_AuthToken s = [] \/ rq_Authorization r = str "Bearer " ++ sv_AuthToken s).
Proof.
  intros H Hne. apply serve_effect in H as [[? _]|(Ha & pattern & h & rep' & _ & Hp & He & _)]; [done|].
  destruct He as [rep'' _|t mp rep'' Hm Hin|p rep'' Hm ->|b m m' res rep'' Hm ->|b m]; try done.
  - apply pool_route_writes in Hin. rewrite (exact_pattern _ _ Hin Hp).
    split_and!; [done | done | by apply Ha, post_protected].
  - rewrite (exact_pattern (str "/payments/invoice") _ ltac:(by_decision) Hp).
    split_and!; [done | by_decision | by apply Ha, post_protected].
  - rewrite (exact_pattern (str "/mining/submit") _ ltac:(by_decision) Hp).
    split_and!; [done | by_decision | by apply Ha, post_protected].
Qed.

Lemma DeserializeBlock_wf data b :
  bytes_wf data -> DeserializeBlock data = Ok b -> block_wf b /\ block_fits b.
Proof.
  intros Hw. unfold DeserializeBlock. intros H. inv_ok. destruct x as [b' rest].
  destruct (codec_block) as [_ Hc]. destruct (Hc _ _ _ Hw H) as [? ?]. repeat case_match; simplify_eq; done.
Qed.

Lemma manager_set_chain s m m' :
  manager s = Some m -> mg_Network m' = mg_Network m -> mg_Verifier m' = mg_Verifier m ->
  manager (set_chain s m') = Some m'.
Proof.
  unfold manager. destruct (sv_Chain s) as [[net v]|] eqn:E; [|done]. intros [= <-] Hn Hv.
  simpl. rewrite E. simpl. destruct m'; simpl in *. by subst.
Qed.

(** C7: Serving any request that submits no block of height 0, on a server whose chain
    manager is reachable (started empty on a healthy disk, offered only blocks of
    positive height within the parser limits), always ends and leaves the chain manager
    in a reachable state, and only a block submission changes the database. *)
Theorem rpc_keeps_node_reachable net v e r s s' rep m :
  is_u32 (GenesisBits net) -> manager s = Some m -> reachable net v m ->
  (forall b, submitted r b -> 0 < hdr_Height (blk_Header b)) ->
  ServeHTTP e r s = (s', rep) ->
  rep <> Pending /\ exists m', manager s' = Some m' /\ reachable net v m' /\
    (rq_Path r <> str "/mining/submit" -> mg_Store m' = mg_Store m).
Proof.
  intros Hg Hm Hr Hpos H.
  apply serve_effect in H as [[-> ?]|(_ & pattern & h & rep' & _ & Hp & He & ->)].
  { split; [done|]. by exists m. }
  destruct He as [rep'' Hrep|t mp rep'' _ _ Emp Hrep|p rep'' _ _ Hrep|b m0 m' res rep'' _ -> (req & data & ? & Hd & Hb) Em Ev Hrep|b m0 (req & data & ? & Hd & Hb) Em Ev].
  - split; [done|]. by exists m.
  - split; [done|]. unfold pool_add. destruct (Mempool.Add _ _ _ _ _) as [mp' res]. simpl.
    exists (mkManager (mg_Store m) (mg_Network m) (Some mp') (mg_Verifier m)).
    unfold manager in Hm |- *. simpl. destruct (sv_Chain s) as [[n0 v0]|]; [|done]. injection Hm as <-.
    split_and!; [done | by apply (reach_mempool net v) | done].
  - split; [done|]. by exists m.
  - split; [done|]. rewrite Hm in Em. injection Em as <-. exists m'.
    pose proof (hex_decode_wf _ _ Hd) as Hw. destruct (DeserializeBlock_wf _ _ Hw Hb) as [Hbw Hbf].
    assert (0 < hdr_Height (blk_Header b)) as Hh by (apply Hpos; by exists req, data).
    assert (reachable net v m') as Hr' by (by eapply reach_block).
    destruct (reachable_inv net v m Hg Hr) as (? & ? & _ & _ & Hn & Hv).
    destruct (reachable_inv net v m' Hg Hr') as (? & ? & _ & _ & Hn' & Hv').
    split_and!; [by apply (manager_set_chain s m); congruence | done|].
    intros Hne. destruct Hne. by rewrite (exact_pattern (str "/mining/submit") _ ltac:(by_decision) Hp).
  - exfalso. rewrite Hm in Em. injection Em as <-. pose proof (hex_decode_wf _ _ Hd) as Hw.
    destruct (DeserializeBlock_wf _ _ Hw Hb) as [Hbw Hbf].
    assert (0 < hdr_Height (blk_Header b)) as Hh by (apply Hpos; by exists req, data).
    destruct (accept_tip net v m (ev_fuel e) (Unix (ev_now e)) b Hg Hr Hbw Hbf Hh) as (m1 & r1 & E & _).
    by rewrite E in Ev.
Qed.

(** ** Token trades *)

Lemma split_last_Some c s a b : split_last c s = Some (a, b) -> s = a ++ c :: b.
Proof.
  revert a. induction s as [|x s IH]; intros a H; simpl in H; [done|].
  destruct (split_last c s) as [[a' b']|]; [injection H as <- <-; by rewrite (IH a')|].
  destruct (Z.eqb_spec x c) as [->|]; [by injection H as <- <- | done].
Qed.

Lemma read_chars_bad s t : 111 ∈ s -> is_ok (read_chars (s ++ t)) = false.
Proof.
  intros Hin. induction s as [|c s IH]; [by apply elem_of_nil in Hin|]. cbn [app read_chars].
  apply elem_of_cons in Hin as [<-|Hin]; [by vm_compute|].
  destruct (IndexByte bech32Charset c) as [i|]; [|done].
  apply IH in Hin. by destruct (read_chars (s ++ t)).
Qed.

(** Text that starts like a pool address is no address of a network. *)
Lemma pool_text_no_address rest prefix :
  49 ∉ prefix -> is_ok (LockingScriptForAddress (str "nevel1pool" ++ rest) prefix) = false.
Proof.
  intros Hp. unfold LockingScriptForAddress, DecodeAddress.
  destruct (bech32Decode _) as [[hrp data]|e] eqn:E; [|done]. csimpl.
  destruct (bool_decide_reflect (hrp = prefix)) as [->|]; [exfalso | done].
  unfold bech32Decode in E. cbv zeta in E. destruct (_ || _); [done|].
  destruct (split_last 49 _) as [[a b]|] eqn:Es; [|done]. apply split_last_Some in Es.
  destruct (_ || _); [done|]. apply bind_Ok in E as (d & Ed & E).
  assert (a = prefix) as -> by (destruct (bech32VerifyChecksum a d); simpl in E; by simplify_eq).
  assert (ToLower (str "nevel1pool" ++ rest) = str "nevel" ++ 49 :: str "pool" ++ ToLower rest) as El
    by (unfold ToLower; by rewrite fmap_app).
  rewrite El in Es. clear -Hp Es Ed.
  destruct prefix as [|c0 [|c1 [|c2 [|c3 [|c4 [|c5 prefix]]]]]]; simpl in Es; try discriminate Es.
  - injection Es as _ _ _ _ _ Es.
    assert (is_ok (read_chars b) = false) as H by (rewrite <- Es; apply (read_chars_bad (str "pool")); by_decision).
    by rewrite Ed in H.
  - injection Es as _ _ _ _ _ E5 _. apply Hp. rewrite <- E5. set_solver.
Qed.

Lemma undecodable_fails w provider to amount fee rand :
  is_ok (LockingScriptForAddress to (w_Prefix w)) = false ->
  exists err, BuildTransaction w provider to amount fee rand = Some (Err err).
Proof.
  intros H. unfold BuildTransaction. destruct (amount =? 0); [by eexists|]. destruct (_ <? fee); [by eexists|].
  destruct (LockingScriptForAddress (w_Address w) _); [|by eexists]. simpl.
  destruct (LockingScriptForAddress to _); [done | by eexists].
Qed.

(** The reply that reports a trade as done, with the hash of its metadata. *)
Definition reports_metadata (req : TradeRequest) (rep : reply) : Prop :=
  exists fields, rep = writeJSON (map_json fields) /\ (str "success", JBool true) ∈ fields /\
    (str "type", json_string (str "genesis_meta")) ∈ fields /\
    (str "txHash", json_string (hex_encode (sha256
       (tr_LaunchID req ++ str ":" ++ tr_TradeID req ++ str ":" ++ tr_Side req ++ str ":" ++ tr_Ticker req)))) ∈ fields.

Ltac in_fields := repeat first [apply list_elem_of_here | apply list_elem_of_further].

Lemma metadata_fields req more :
  let meta := metaHash (tr_LaunchID req) (tr_TradeID req) (tr_Side req) (tr_Ticker req) in
  reports_metadata req (writeJSON (map_json
    ([(str "success", JBool true); (str "txHash", json_string meta); (str "type", json_string (str "genesis_meta"))] ++ more))).
Proof. eexists. split; [reflexivity|]. split_and!; in_fields. Qed.

(** C30: A posted trade that decodes and names a pool address the server itself made up,
    on a network whose address prefix has no digit 1, never changes the server. With a
    private key and a positive amount it panics when the key is a multiple of the order
    and is refused with status 400 when the key does not decode; in every other case it
    is reported as a success of type genesis_meta, whose txHash is the hash of the
    metadata of the trade, although no transaction was made. *)
Theorem pool_trade_moves_nothing e r s req launchID ticker :
  rq_Method r = MethodPost -> DecodeBody decode_trade (2 ^ 20) (rq_Body r) = Ok req ->
  tr_PoolAddress req = poolAddress launchID ticker -> 49 ∉ address_prefix s ->
  exists rep, genesisTrade e r s = (s, rep) /\
    if decide (tr_PrivateKeyHex req <> [] /\ 0 < tr_Amount req) then
      match FromHexPrivateKey (tr_PrivateKeyHex req) (address_prefix s) with
      | Some (Ok _) => reports_metadata req rep
      | Some (Err err) => rep = http_ErrorOf (str "bad private key: ") err 400
      | None => rep = Panic
      end
    else reports_metadata req rep.
Proof.
  intros Hm Hreq Hpool Hp. unfold genesisTrade, post_only, with_body. rewrite Hm, Hreq.
  cbn [bool_decide negb decide_rel]. rewrite bool_decide_eq_true_2 by done. cbn [negb]. cbv zeta.
  assert (bool_decide (tr_PoolAddress req = []) = false) as -> by (rewrite Hpool; by apply bool_decide_eq_false_2).
  assert (negb (bool_decide (tr_PrivateKeyHex req = [])) && negb false && (0 <? tr_Amount req)
          = bool_decide (tr_PrivateKeyHex req <> [] /\ 0 < tr_Amount req)) as ->.
  { rewrite andb_true_r. apply eq_true_iff_eq. rewrite andb_true_iff, negb_true_iff, bool_decide_eq_false, Z.ltb_lt.
    by rewrite bool_decide_eq_true. }
  destruct (decide (tr_PrivateKeyHex req <> [] /\ 0 < tr_Amount req)) as [Hd|Hd];
    [rewrite bool_decide_true by done | rewrite bool_decide_false by done].
  - destruct (FromHexPrivateKey _ _) as [[w|err]|] eqn:Hw; [|eexists; split; reflexivity..].
    destruct (undecodable_fails w (fun script => ListUTXOsByScript script (sv_Store s)) (tr_PoolAddress req)
                (tr_Amount req) 1000 (ev_rand e)) as [err ->].
    { assert (w_Prefix w = address_prefix s) as -> by (unfold FromHexPrivateKey, FromPrivateKey in Hw;
        apply go_bind_Ok in Hw as (? & _ & Hw); apply go_bind_Ok in Hw as (? & _ & Hw);
        apply go_bind_Ok in Hw as (? & _ & Hw); apply go_bind_Ok in Hw as (? & _ & Hw); by injection Hw as <-).
      rewrite Hpool. by apply pool_text_no_address. }
    eexists. split; [reflexivity|]. apply (metadata_fields req).
  - eexists. split; [reflexivity|]. apply (metadata_fields req).
Qed.

(** A trade whose transaction the pool refuses is reported as a success with the hash of
    that transaction. *)
Theorem rejected_trade_reports_success e r s req w t rest mp mp' err :
  rq_Method r = MethodPost -> DecodeBody decode_trade (2 ^ 20) (rq_Body r) = Ok req ->
  tr_PrivateKeyHex req <> [] -> tr_PoolAddress req <> [] -> 0 < tr_Amount req ->
  FromHexPrivateKey (tr_PrivateKeyHex req) (address_prefix s) = Some (Ok w) ->
  BuildTransaction w (fun script => ListUTXOsByScript script (sv_Store s)) (tr_PoolAddress req)
    (tr_Amount req) 1000 (ev_rand e) = Some (Ok (t, rest)) ->
  sv_Mempool s = Some mp -> Mempool.Add (Get (sv_Store s)) (ev_now e) (ev_range e) t mp = (mp', Err err) ->
  exists fields, genesisTrade e r s = (set_pool s mp, writeJSON (map_json fields)) /\
    (str "success", JBool true) ∈ fields /\ (str "txHash", json_string (hex_encode (tx_Hash t))) ∈ fields.
Proof.
  intros Hm Hreq Hk Hpool Ha Hw HB Hmp Hadd. unfold genesisTrade, post_only, with_body. rewrite Hm, Hreq.
  rewrite bool_decide_eq_true_2 by done. cbn [negb]. cbv zeta.
  rewrite !bool_decide_eq_false_2 by done. rewrite (proj2 (Z.ltb_lt _ _)) by done. cbn [negb andb].
  rewrite Hw, HB, Hmp. unfold pool_add. rewrite Hadd. cbn [fst].
  assert (mp' = mp) as ->.
  { unfold Mempool.Add in Hadd. destruct (ValidateTransaction _ _ _ _) as [[fee sp]|]; [done|]. by injection Hadd as <-. }
  eexists. split; [reflexivity|]. set_solver.
Qed.

(** ** Broadcasting *)

Lemma DecodeBody_print {A} (decode : json -> result A) limit v :
  canonical v -> len (print v) <= limit -> DecodeBody decode limit (print v) = decode v.
Proof.
  intros Hc Hl. unfold DecodeBody. rewrite take_ge by (unfold len in Hl; lia).
  rewrite <- (app_nil_r (print v)) at 2.
  destruct (parses_all (2 * length (print v) + 2)) as (Hv & _). by rewrite Hv by (done || lia).
Qed.

Lemma DeserializeTransaction_Serialize t :
  tx_wf t -> tx_fits t -> DeserializeTransaction (SerializeTransaction t) = Ok t.
Proof.
  intros. unfold DeserializeTransaction, SerializeTransaction.
  rewrite <- (app_nil_r (WriteTransaction t)). by rewrite (codec_read codec_tx).
Qed.

(** The body a client sends. *)
Definition hex_body (data : bytes) : bytes := print (JObj [(str "hex", json_string (hex_encode data))]).

Lemma decode_hex_body data limit :
  bytes_wf data -> len (hex_body data) <= limit ->
  DecodeBody decode_hex limit (hex_body data) = Ok (mkHexRequest (hex_encode data)).
Proof.
  intros Hw Hl. unfold hex_body. rewrite DecodeBody_print; [| |done].
  - unfold decode_hex, decode_object. cbn [decode_struct]. unfold hex_field. cbn [fst snd].
    change (is_field (str "hex") (str "hex")) with true. cbn iota.
    rewrite decode_string_json by by apply plain_hex. done.
  - apply canonical_obj, Forall_singleton. split; [by_decision|]. cbn [snd]. unfold json_string.
    rewrite escape_plain by by apply plain_hex. by apply plain_safe, plain_hex.
Qed.

Lemma route_broadcast : route routes MethodPost (str "/tx/broadcast") = ToHandler broadcastTx.
Proof. reflexivity. Qed.

Lemma serve_authorised e r s h :
  authorised r s -> route routes (rq_Method r) (rq_Path r) = ToHandler h ->
  ServeHTTP e r s = securityHeaders h e r s.
Proof.
  intros Ha Hr. unfold ServeHTTP, securityHeaders, auth, mux. rewrite Hr.
  destruct Ha as [Ha|Ha]; rewrite (bool_decide_eq_true_2 _ Ha); [done|]. by rewrite andb_false_r.
Qed.

(** C31: Every authorised broadcast of a transaction within the limits, to a pool whose
    signature check returns, is answered: with status 200 and the hash of the
    transaction exactly when the pool accepts it, with status 400 and the error of the
    pool otherwise. *)
Theorem broadcast_reply e r s t mp :
  authorised r s -> rq_Method r = MethodPost -> rq_Path r = str "/tx/broadcast" ->
  tx_wf t -> tx_fits t -> rq_Body r = hex_body (SerializeTransaction t) -> len (rq_Body r) <= 2 ^ 20 ->
  sv_Mempool s = Some mp ->
  let '(mp', res) := Mempool.Add (Get (sv_Store s)) (ev_now e) (ev_range e) t mp in
  exists resp, ServeHTTP e r s = (set_pool s mp', Reply resp) /\
    match res with
    | Ok _ => rs_Status resp = 200 /\
        rs_Body resp = JsonBody (JObj [(str "txHash", json_string (hex_encode (tx_Hash t)))])
    | Err err => rs_Status resp = 400 /\ rs_Body resp = ErrorText [] err
    end.
Proof.
  intros Ha Hm Hp Hw Hf Hb Hl Hmp.
  rewrite (serve_authorised e r s broadcastTx Ha) by (rewrite Hm, Hp; apply route_broadcast).
  unfold securityHeaders, broadcastTx, post_only, with_body. rewrite Hm, bool_decide_eq_true_2 by done. cbn [negb].
  rewrite Hb in Hl |- *. rewrite decode_hex_body by (done || by apply SerializeTransaction_wf). cbn [hx_Hex].
  rewrite hex_decode_encode by by apply SerializeTransaction_wf.
  rewrite DeserializeTransaction_Serialize by done. rewrite Hmp. unfold pool_add.
  destruct (Mempool.Add _ _ _ _ _) as [mp' [[]|err]]; by eexists.
Qed.
End Spec.
