(* ===== verification/Explorer.v ===== *)
(** * Explorer: the pages of the block explorer

    Models explorer/explorer.go and explorer/server.go.  The pages read the chain
    manager and the pool; the values that html/template inserts are digits and
    hexadecimal text, which need no escaping. *)

From S2P Require Import Prelude Encoding Sha256 Params Tx Block Consensus Pebble Storage.
From S2P Require Import Mempool Miner Bech32 Chain Json Http.

Record ChainStats := mkStats {
  cst_Height : Z;
  cst_Difficulty : Z;
  cst_MempoolCount : Z;
  cst_CirculatingSupply : Z;
}.

(** [printf "%08x"] of a 32-bit value. *)
Definition hex8 (z : Z) : bytes := hex_encode (be_bytes 4 (u32 z)).

(** [indexTemplate.Execute] *)
Definition indexTemplate (tip : TipInfo) (stats : ChainStats) : bytes :=
  str "<!doctype html><html><head><title>NEVEL Explorer</title></head><body><h1>NEVEL Explorer</h1><p>Height: " ++
  decimal (cst_Height stats) ++ str "</p><p>Tip: " ++ ti_Hash tip ++ str "</p><p>Difficulty bits: " ++
  hex8 (cst_Difficulty stats) ++ str "</p><p>Mempool: " ++ decimal (cst_MempoolCount stats) ++ str "</p></body></html>".

Section Pages.
Context {HF : HashFunction} {UJ : UTXOJson}.

(** [len(s.Chain.Mempool.Snapshot())], 0 without a pool. *)
Definition pool_count (range : MapOrder) (m : Manager) : Z :=
  match mg_Mempool m with Some mp => len (Snapshot range mp) | None => 0 end.

(** Go sets the content type of a page from its first bytes. *)
Definition page (content : bytes) (s : bytes) : reply := Reply (mkResponse 200 [(content_type, content)] (Text s)).

Definition index (range : MapOrder) (m : Manager) : reply :=
  match chain_Tip m with
  | Err err => http_ErrorOf [] err 500
  | Ok tip =>
      page (str "text/html; charset=utf-8")
        (indexTemplate tip (mkStats (ti_Height tip) (ti_Bits tip) (pool_count range m) 0))
  end.

Definition explorer_mempool (range : MapOrder) (m : Manager) : reply :=
  page (str "text/plain; charset=utf-8")
    (str "NEVEL mempool transactions: " ++ decimal (pool_count range m) ++ [10]).

Definition explorer_routes : Routes (MapOrder -> Manager -> reply) :=
  [(str "/", index); (str "/mempool", explorer_mempool)].

Definition ServeExplorer (range : MapOrder) (r : Request) (m : Manager) : reply :=
  match route explorer_routes (rq_Method r) (rq_Path r) with
  | ToHandler h => h range m
  | ToPath p => Reply (mkResponse 301 [] (Moved p))
  | NotFound => http_Error (str "404 page not found") 404
  end.

(** The number on the pages is the number of entries of the pool. *)
Lemma pool_count_size range m mp :
  order_ok range -> mg_Mempool m = Some mp -> pool_count range m = Size mp.
Proof.
  intros Ho Hm. unfold pool_count, Snapshot, EntriesByFeeRate, Size, len. rewrite Hm, length_fmap.
  by rewrite sort_Slice_perm, length_fmap, (Ho 0%nat (mp_txs mp)), length_map_to_list.
Qed.
End Pages.
