(* ===== verification/Commands.v ===== *)
(** * Commands: the daemon and the command line client

    Models cmd/neveld/main.go and cmd/nevel-cli/main.go after the flags are parsed.
    The daemon works on the database at its path; its mining reads the world as
    [Chain] does.  The client sends one request to a server, follows redirects as
    net/http does, and prints what it gets; its arguments need no escaping in a
    URL. *)

From S2P Require Import Prelude Encoding Sha256 Params Tx Block Consensus Pebble Storage.
From S2P Require Import Mempool Miner Bech32 Chain ChainSpec Json Peers Secp256k1 Ecdsa BasePoint Ripemd160 Keys Wallet.
From S2P Require Import Builder Pbkdf2 Seed Pay Float64 Health Http Rpc RpcSpec Explorer.

#[local] Opaque secp256k1.

(** ** The daemon *)

Record Flags := mkFlags {
  fg_network : string;
  fg_address : bytes;
  fg_blocks : Z;
  fg_rpctoken : bytes;
}.

(** How the process goes on: it returns, [log.Fatal] ends it, it panics, it serves
    requests, or the search for a nonce needs more fuel. *)
Inductive ending :=
| Returned
| Fatal (e : error)
| Crashed
| Serving (s : Server)
| Searching.

(** What a run of the daemon leaves: the database, the printed text and the ending. *)
Record Run := mkRun { ru_DB : DB; ru_Output : bytes; ru_End : ending }.

Definition daemon_usage : bytes :=
  str "usage: neveld <init|start|mine|status> [--network regtest] [--datadir path] [--rpc addr] [--rpctoken token] [--blocks n] [--address addr]" ++ [10].

Section Daemon.
Context {HF : HashFunction} {UJ : UTXOJson}.

Definition mustManager (net : Network) (d : DB) : DB * result Manager :=
  match storage_Open d with
  | (d, Err e) => (d, Err e)
  | (d, Ok _) => (d, Ok (mkManager d net (Some (Mempool.New DefaultMempoolMaxByte Verifier)) Verifier))
  end.

Definition start (m : Manager) (token : bytes) : Server :=
  let s := NewWithChain m in
  mkServer (sv_Store s) (sv_Mempool s) (sv_Chain s) (sv_Payments s) token (sv_Peers s).

(** [manager := mustManager(dbPath, net)] and then [manager.InitGenesis] *)
Definition with_genesis (fuel : nat) (ctx : nat -> bool) (net : Network) (d : DB)
    (k : Manager -> Block -> Run) : Run :=
  match mustManager net d with
  | (d, Err e) => mkRun d [] (Fatal e)
  | (_, Ok m) =>
      match InitGenesis fuel ctx m with
      | None => mkRun (mg_Store m) [] Searching
      | Some (m, Err e) => mkRun (mg_Store m) [] (Fatal e)
      | Some (m, Ok b) => k m b
      end
  end.

(** [fmt.Printf("mined height=%d hash=%s\n", ...)] *)
Definition mined_line (tip : TipInfo) : bytes :=
  str "mined height=" ++ decimal (ti_Height tip) ++ str " hash=" ++ ti_Hash tip ++ [10].
Definition mined_lines (verbose : bool) (tips : list TipInfo) : bytes :=
  flat_map (fun tip => if verbose || (ti_Height tip mod 100000 =? 0) then mined_line tip else []) tips.

(** The payout address: the flag, or a new wallet whose key is printed. *)
Definition mine_address (fg : Flags) (net : Network) (rand : bytes) : go (bytes * bytes) :=
  match fg_address fg with
  | [] =>
      wr ←! Wallet.New (str (AddressPrefix net)) rand;
      Some (Ok (w_Address wr.1,
        str "generated miner address=" ++ w_Address wr.1 ++ str " private_key_hex=" ++
        PrivateKeyHex (w_PrivateKey wr.1) ++ [10]))
  | a => Some (Ok (a, []))
  end.

(** [rounds] is what the loop over [fg_blocks] blocks reads of the world. *)
Definition cmd_mine (fuel : nat) (fg : Flags) (rounds : list Round) (rand : bytes) (net : Network) (m : Manager) : Run :=
  match mine_address fg net rand with
  | None => mkRun (mg_Store m) [] Crashed
  | Some (Err e) => mkRun (mg_Store m) [] (Fatal e)
  | Some (Ok (address, printed)) =>
      let verbose := fg_blocks fg <=? 100 in
      match MineBlocksStreaming fuel rounds address m with
      | None => mkRun (mg_Store m) printed Searching
      | Some (m, tips, _, Err e) => mkRun (mg_Store m) (printed ++ mined_lines verbose tips) (Fatal e)
      | Some (m, tips, summary, Ok _) =>
          let report := if verbose then [] else
            str "mined blocks=" ++ decimal (ms_Blocks summary) ++
            str " first_height=" ++ decimal (ti_Height (ms_First summary)) ++
            str " last_height=" ++ decimal (ti_Height (ms_Last summary)) ++
            str " last_hash=" ++ ti_Hash (ms_Last summary) ++ [10] in
          mkRun (mg_Store m) (printed ++ mined_lines verbose tips ++ report) Returned
      end
  end.

Definition cmd_status (net : Network) (d : DB) : Run :=
  match mustManager net d with
  | (d, Err e) => mkRun d [] (Fatal e)
  | (d, Ok m) =>
      match chain_Tip m with
      | Err e => mkRun d [] (Fatal e)
      | Ok tip =>
          mkRun d (str "network=" ++ str (ID net) ++ str " height=" ++ decimal (ti_Height tip) ++
                   str " hash=" ++ ti_Hash tip ++ str " bits=" ++ hex8 (ti_Bits tip) ++ [10]) Returned
      end
  end.

(** [command] is [os.Args[1]], [None] when there is none. *)
Definition neveld (fuel : nat) (ctx : nat -> bool) (command : option bytes) (fg : Flags)
    (rounds : list Round) (rand : bytes) (d : DB) : Run :=
  let net := ByName (fg_network fg) in
  match command with
  | None => mkRun d daemon_usage Returned
  | Some c =>
      if bool_decide (c = str "init") then
        with_genesis fuel ctx net d (fun m b =>
          mkRun (mg_Store m)
            (str "initialized " ++ str (ID net) ++ str " genesis " ++ hex_encode (blk_Hash b) ++
             str " height " ++ decimal (hdr_Height (blk_Header b)) ++ [10]) Returned)
      else if bool_decide (c = str "start") then
        with_genesis fuel ctx net d (fun m _ => mkRun (mg_Store m) [] (Serving (start m (fg_rpctoken fg))))
      else if bool_decide (c = str "mine") then
        with_genesis fuel ctx net d (fun m _ => cmd_mine fuel fg rounds rand net m)
      else if bool_decide (c = str "status") then cmd_status net d
      else mkRun d daemon_usage Returned
  end.
End Daemon.

(** ** The client *)

(** [strconv.Quote] of ASCII text, as the verb q prints it. *)
Definition quote_char (c : Z) : bytes :=
  if (c =? 34) || (c =? 92) then [92; c]
  else if c =? 7 then [92; 97] else if c =? 8 then [92; 98] else if c =? 12 then [92; 102]
  else if c =? 10 then [92; 110] else if c =? 13 then [92; 114] else if c =? 9 then [92; 116]
  else if c =? 11 then [92; 118]
  else if (c <? 32) || (c =? 127) then str "\x" ++ hex_encode [c]
  else [c].
Definition Quote (s : bytes) : bytes := 34 :: flat_map quote_char s ++ [34].

(** What the client does: print its usage, make a wallet, or send one request. *)
Inductive action :=
| Usage
| CreateWallet
| Send (r : Request).

Definition get_request (path : bytes) : Request := mkHttpRequest MethodGet path [] [] [].
(** No Authorization header is set. *)
Definition post_request (path body : bytes) : Request := mkHttpRequest MethodPost path [] [] body.

Definition invoice_body (merchant address amount : bytes) (memo : list bytes) : bytes :=
  [123] ++ Quote (str "merchant") ++ [58] ++ Quote merchant ++ [44] ++ Quote (str "address") ++ [58] ++ Quote address ++
  [44] ++ Quote (str "amount") ++ [58] ++ amount ++ [44] ++ Quote (str "memo") ++ [58] ++ Quote (Join memo) ++ [125].

Definition cli_action (command : option bytes) (args : list bytes) : action :=
  match command with
  | None => Usage
  | Some c =>
      if bool_decide (c = str "wallet") then
        match args with
        | a :: _ => if bool_decide (a = str "create") then CreateWallet else Usage
        | [] => Usage
        end
      else if bool_decide (c = str "status") then Send (get_request (str "/chain/tip"))
      else if bool_decide (c = str "block") then
        match args with [a] => Send (get_request (str "/block/height/" ++ a)) | _ => Usage end
      else if bool_decide (c = str "tx") then
        match args with [a] => Send (get_request (str "/tx/" ++ a)) | _ => Usage end
      else if bool_decide (c = str "balance") then
        match args with [a] => Send (get_request (str "/address/" ++ a ++ str "/balance")) | _ => Usage end
      else if bool_decide (c = str "invoice") then
        match args with
        | merchant :: address :: amount :: memo =>
            Send (post_request (str "/payments/invoice") (invoice_body merchant address amount memo))
        | _ => Usage
        end
      else Usage
  end.

(** *** Printing a response *)

(** A JSON text decoded into [any]: numbers become float64, the last of equal keys
    counts, and a map is printed with sorted keys.  [None]: a number is out of range. *)
Definition set_key (kv : bytes * json) (fs : list (bytes * json)) : list (bytes * json) :=
  kv :: List.filter (fun f => negb (bool_decide (f.1 = kv.1))) fs.
Fixpoint as_any (v : json) : option json :=
  match v with
  | JNull => Some JNull
  | JBool b => Some (JBool b)
  | JNum l => float_json <$> ParseFloat l
  | JStr s => Some (json_string s)
  | JArr vs =>
      JArr <$> (fix all vs := match vs with
                              | [] => Some []
                              | v :: vs => v ← as_any v; vs ← all vs; Some (v :: vs)
                              end) vs
  | JObj fs =>
      (fun fs => map_json ((fun f => (escape f.1, f.2)) <$> fs)) <$>
      (fix all acc fs := match fs with
                         | [] => Some acc
                         | (k, v) :: fs => v ← as_any v; all (set_key (k, v) acc) fs
                         end) [] fs
  end.

(** [json.MarshalIndent(v, "", "  ")] at a depth. *)
Definition new_line (depth : nat) : bytes := 10 :: replicate (2 * depth) 32.
Definition block_of_items (depth : nat) (op cl : Z) (items : list bytes) : bytes :=
  match items with
  | [] => [op; cl]
  | i :: items =>
      [op] ++ new_line (S depth) ++ i ++ flat_map (fun i => [44] ++ new_line (S depth) ++ i) items ++
      new_line depth ++ [cl]
  end.
Fixpoint indent (depth : nat) (v : json) : bytes :=
  match v with
  | JArr vs => block_of_items depth 91 93 (map (indent (S depth)) vs)
  | JObj fs => block_of_items depth 123 125 (map (fun f => quote f.1 ++ [58; 32] ++ indent (S depth) f.2) fs)
  | v => print v
  end.

(** The bytes of a response body. *)
Definition body_text (e : Env) (b : Body) : bytes :=
  match b with
  | Text s => s ++ [10]
  | ErrorText prefix err => prefix ++ Error e err ++ [10]
  | JsonBody v => print v ++ [10]
  | Moved _ => []
  end.

(** What the client prints, or the status and the body [log.Fatalf] ends it with. *)
Definition printResponse (e : Env) (resp : Response) : bytes + Z * bytes :=
  let body := body_text e (rs_Body resp) in
  if 400 <=? rs_Status resp then inr (rs_Status resp, body)
  else
    match parse body ≫= as_any with
    | Some v => inl (indent 0 v ++ [10])
    | None => inl body
    end.

(** [http.Get] fails at the tenth redirect; a redirected POST becomes a GET. *)
Fixpoint http_do (fuel : nat) (rpc : Request -> reply) (r : Request) : option Response :=
  match rpc r with
  | Reply resp =>
      match rs_Body resp, fuel with
      | Moved p, S fuel => http_do fuel rpc (get_request p)
      | Moved _, O => None
      | _, _ => Some resp
      end
  | _ => None
  end.

Definition cli_usage : bytes :=
  str "usage: nevel-cli wallet create | status | block <height> | tx <hash> | balance <address> | invoice <merchant> <address> <neveloshi> [memo]" ++ [10].

(** How the client ends: it printed, the server refused, or the connection failed. *)
Inductive cli_result :=
| Printed (s : bytes)
| Refused (status : Z) (body : bytes)
| Failed.

Section Client.
Context {HF : HashFunction}.

Definition nevel_cli (e : Env) (net : Network) (rpc : Request -> reply) (command : option bytes) (args : list bytes) : cli_result :=
  match cli_action command args with
  | Usage => Printed cli_usage
  | CreateWallet =>
      match Wallet.New (str (AddressPrefix net)) (ev_rand e) with
      | Some (Ok (w, _)) =>
          Printed (str "address=" ++ w_Address w ++ [10] ++ str "private_key_hex=" ++ PrivateKeyHex (w_PrivateKey w) ++ [10])
      | _ => Failed
      end
  | Send r =>
      match http_do 9 rpc r with
      | None => Failed
      | Some resp =>
          match printResponse e resp with
          | inl s => Printed s
          | inr (status, body) => Refused status body
          end
      end
  end.
End Client.

(** ** Properties *)

Section Spec.
Context {HF : HashFunction} {UJ : UTXOJson}.

(** What a client with no token sees of a server. *)
Definition answers (e : Env) (s : Server) (r : Request) : reply := (ServeHTTP e r s).2.

Lemma unauthorised_reply e r s :
  protected r = true -> ~ authorised r s ->
  exists hs, ServeHTTP e r s = (s, Reply (mkResponse 401 hs (Text (str "unauthorized")))).
Proof.
  intros Hp Ha. unfold ServeHTTP, securityHeaders.
  destruct (auth_passes mux e r s Hp) as [[_ ?]|[-> _]]; [done|]. by eexists.
Qed.

(** The client never sends the token, so a server that has one refuses every
    invoice it asks for. *)
Theorem client_cannot_authenticate e net s merchant address amount memo :
  sv_AuthToken s <> [] ->
  nevel_cli e net (answers e s) (Some (str "invoice")) (merchant :: address :: amount :: memo)
  = Refused 401 (str "unauthorized" ++ [10]).
Proof.
  intros Ht. unfold nevel_cli.
  assert (cli_action (Some (str "invoice")) (merchant :: address :: amount :: memo)
    = Send (post_request (str "/payments/invoice") (invoice_body merchant address amount memo))) as -> by reflexivity.
  set (r := post_request _ _).
  assert (~ authorised r s) as Ha by (intros [?|E]; [done | by destruct (sv_AuthToken s)]).
  destruct (unauthorised_reply e r s (post_protected r eq_refl) Ha) as [hs E].
  cbn [http_do]. unfold answers at 1. rewrite E. reflexivity.
Qed.

(** The client decodes a balance into a float64 and prints it rounded. *)
Theorem client_rounds_balance e hs :
  printResponse e (mkResponse 200 hs (JsonBody (map_json [(str "balance", uint_json 9007199254740993)])))
  = inl (indent 0 (JObj [(str "balance", uint_json 9007199254740992)]) ++ [10]).
Proof. vm_compute. reflexivity. Qed.

(** A daemon started on an empty database serves a reachable node with the token of
    its flag; the manager checks signatures with the verifier of the wallet. *)
Theorem daemon_serves_reachable fuel ctx fg rounds rand d out s :
  neveld fuel ctx (Some (str "start")) fg rounds rand empty_db = mkRun d out (Serving s) ->
  exists m, manager s = Some m /\ reachable (ByName (fg_network fg)) Verifier m /\
    mg_Store m = d /\ sv_AuthToken s = fg_rpctoken fg /\ sv_Payments s = ∅.
Proof.
  unfold neveld. change (bool_decide (str "start" = str "init")) with false.
  change (bool_decide (str "start" = str "start")) with true. cbn iota.
  unfold with_genesis, mustManager. change (storage_Open empty_db) with (empty_db, Ok tt). cbn iota.
  destruct (InitGenesis _ _ _) as [[m [b|err]]|] eqn:E; [|done..]. intros [= <- _ <-].
  exists m. split; [|split; [by eapply reach_genesis | done]].
  unfold manager, start, NewWithChain. simpl. by destruct m.
Qed.
End Spec.
