(* ===== verification/Examples.v ===== *)
(** * Examples: the theorems on concrete data

    A regtest node with SHA-256 and the JSON encoding of UTXOs: its genesis
    block, the first block mined on top of it, a spending transaction, a pool
    with one entry, a run with a block of height 0.  Each [_witness] applies a theorem of the development to
    such data, which shows that its hypotheses can hold together. *)

From S2P Require Import Prelude Encoding Sha256 Params Tx Block Consensus Pebble Storage StoreSpec.
From S2P Require Import Ledger Mempool Miner Bech32 Chain ChainSpec Mining Rollback Sync Protection Json.
From S2P Require Import Peers Relay.

#[local] Existing Instance go_sha256.
#[local] Existing Instance go_json.
(** Hashes are evaluated only by [vm_compute]. *)
#[local] Opaque Sum256.

(** ** Data *)

Definition ex_script : bytes := ScriptForPubKeyHash (replicate 20 7).

(** The regtest genesis block; nonce 1 is the first that hits. *)
Definition ex_genesis : Block := set_nonce (CreateGenesisBlock Regtest) 1.

(** The block a node with an empty pool mines next; nonce 0 hits. *)
Definition ex_template : Block := template 1780000600 1780000600 ex_script ex_genesis RegtestPowBits.
Definition ex_block : Block := set_nonce ex_template 0.

(** An output of 1000 units and a transaction that spends 500 of them. *)
Definition ex_utxo : UTXO := mkUTXO zero_hash 0 1000 ex_script 0 false.
Definition ex_reader : UTXOReader := fun h i =>
  if bool_decide (h = zero_hash) && (i =? 0) then Ok ex_utxo else Err ErrNotFound.
Definition ex_tx : Transaction :=
  mkTransaction 1 [mkInput zero_hash 0 [] []] [mkOutput 500 ex_script] 0.
Definition ex_coinbase : Transaction := NewCoinbase (str "hello") InitialReward ex_script.

(** A block with both. *)
Definition ex_spending : Block :=
  mkBlock (mkHeader 1 zero_hash zero_hash 1780000600 RegtestPowBits 0 1) [ex_coinbase; ex_tx].

(** Visit maps in the order of their listing. *)
Definition ex_order : MapOrder := fun _ m => map_to_list m.

Lemma ex_order_ok : order_ok ex_order.
Proof. by intros n m. Qed.

Lemma ex_reader_wf : reader_wf ex_reader.
Proof. intros h i u. unfold ex_reader. destruct (_ && _); [|done]. intros [= <-]. by_decision. Qed.

Lemma ex_tx_ok : tx_wf ex_tx /\ tx_fits ex_tx.
Proof. by_decision. Qed.

Lemma ex_spending_wf : block_wf ex_spending.
Proof. by_decision. Qed.

(** ** The node *)

Lemma ex_genesis_mined :
  Mine 2 (fun _ => false) 0 (CreateGenesisBlock Regtest) (PowLimit Regtest) = Some (true, ex_genesis).
Proof. vm_compute. reflexivity. Qed.

Lemma ex_template_hits : hits ex_block (CompactToBig RegtestPowBits).
Proof. vm_compute. reflexivity. Qed.

Lemma ex_genesis_ok : block_wf ex_genesis /\ block_fits ex_genesis.
Proof.
  destruct (genesis_wf Regtest) as [Hw _]; [by_decision|].
  split; [by apply (set_nonce_wf (CreateGenesisBlock Regtest) 1 Hw); mach | by_decision].
Qed.

Lemma ex_block_ok : block_wf ex_block /\ block_fits ex_block.
Proof. apply template_wf; by_decision. Qed.

(** A node that has just been initialised. *)
Definition ex_fresh : Manager := mkManager empty_db Regtest None None.

Lemma ex_node :
  exists m cs, offered Regtest None [] m /\ reachable Regtest None m /\ represents (mg_Store m) cs /\
    chain_inv Regtest cs [ex_genesis] /\ mg_Network m = Regtest /\ mg_Mempool m = None /\
    mg_Verifier m = None /\
    cs = <[KWork (blk_Hash ex_genesis) := VWork (WorkForBits RegtestPowBits)]> (a_ApplyBlock ex_genesis ∅).
Proof.
  destruct ex_genesis_ok as [Hwf Hfit].
  destruct (ApplyBlock_refines _ _ ex_genesis represents_empty Hwf) as (d1 & E1 & R1).
  destruct (PutTotalWork_refines d1 _ (blk_Hash ex_genesis) (WorkForBits RegtestPowBits) R1
    (blk_Hash_hash ex_genesis)) as (d2 & E2 & R2).
  assert (HI : InitGenesis 2 (fun _ => false) ex_fresh = Some (set_store ex_fresh d2, Ok ex_genesis)).
  { unfold InitGenesis. change (Tip (mg_Store ex_fresh)) with (Err ErrNotFound : result bytes). cbv iota.
    change (mg_Network ex_fresh) with Regtest. rewrite ex_genesis_mined.
    change (mg_Store ex_fresh) with empty_db. rewrite E1.
    change (hdr_Bits (blk_Header ex_genesis)) with RegtestPowBits. by rewrite E2. }
  exists (set_store ex_fresh d2), (<[KWork (blk_Hash ex_genesis) := VWork (WorkForBits RegtestPowBits)]>
    (a_ApplyBlock ex_genesis ∅)).
  split_and!; [by eapply off_genesis | by eapply reach_genesis | exact R2 | by apply genesis_inv | done..].
Qed.

Lemma ex_tip m cs :
  represents (mg_Store m) cs -> chain_inv Regtest cs [ex_genesis] ->
  TipBlock (mg_Store m) = Ok ex_genesis /\ Height (mg_Store m) = Ok 0.
Proof.
  intros R I. split; [by apply (inv_TipBlock _ _ _ _ R I) | by apply (inv_Height _ _ _ _ R I ex_genesis)].
Qed.

(** ** The first mined block *)

Lemma ex_hashes_differ :
  bool_decide (blk_Hash ex_genesis = blk_Hash ex_block) = false /\
  bool_decide (tx_Hash (NewCoinbase GenesisMessage InitialReward (str "genesis")) =
               tx_Hash (NewCoinbase (coinbase_message 1780000600) (BlockReward 1) ex_script)) = false.
Proof. split; vm_compute; reflexivity. Qed.

Lemma ex_outputs k :
  k ∈ output_keys (blk_Transactions ex_block) ->
  k = KUTXO (tx_Hash (NewCoinbase (coinbase_message 1780000600) (BlockReward 1) ex_script)) 0.
Proof.
  change (blk_Transactions ex_block)
    with [NewCoinbase (coinbase_message 1780000600) (BlockReward 1) ex_script].
  rewrite output_keys_cons, elem_of_app, elem_of_delete_outputs.
  intros [(i & Hi & ->)|H]; [|by apply not_elem_of_nil in H]. simpl in Hi.
  by replace i with 0%nat by lia.
Qed.

Lemma ex_genesis_outputs k :
  k ∈ output_keys (blk_Transactions ex_genesis) ->
  k = KUTXO (tx_Hash (NewCoinbase GenesisMessage InitialReward (str "genesis"))) 0.
Proof.
  change (blk_Transactions ex_genesis)
    with [NewCoinbase GenesisMessage InitialReward (str "genesis")].
  rewrite output_keys_cons, elem_of_app, elem_of_delete_outputs.
  intros [(i & Hi & ->)|H]; [|by apply not_elem_of_nil in H]. simpl in Hi.
  by replace i with 0%nat by lia.
Qed.

Lemma KUTXO_inj h i h' i' : KUTXO h i = KUTXO h' i' -> h = h'.
Proof. by intros [= -> _]. Qed.

(** Applying a block to an empty store creates no other output. *)
Lemma only_outputs b h i :
  KUTXO h i ∉ output_keys (blk_Transactions b) -> a_ApplyBlock b ∅ !! KUTXO h i = None.
Proof.
  intros Hk. unfold a_ApplyBlock. rewrite (tops_lookup_same _ _ _ None); [by case_decide|].
  intros o Ho E. destruct (t_apply_utxo _ _ o Ho) as [K|[K _]]; [by rewrite E; eexists _, _ | | done].
  by rewrite E in K.
Qed.

Lemma ex_block_fresh m cs :
  represents (mg_Store m) cs ->
  cs = <[KWork (blk_Hash ex_genesis) := VWork (WorkForBits RegtestPowBits)]> (a_ApplyBlock ex_genesis ∅) ->
  fresh_outputs ex_block (mg_Store m).
Proof.
  intros R Ecs t i Ht Hi.
  rewrite (Get_spec _ _ _ _ R (tx_Hash_hash t) (u32_range _)). unfold cs_utxo.
  rewrite Ecs, lookup_insert_ne by discriminate. rewrite only_outputs; [reflexivity|].
  intros Hg. apply ex_genesis_outputs in Hg.
  assert (Hb : KUTXO (tx_Hash t) (u32 (Z.of_nat i)) ∈ output_keys (blk_Transactions ex_block)).
  { unfold output_keys. apply list_elem_of_fmap.
    exists (KUTXO (tx_Hash t) (u32 (Z.of_nat i)), None). split; [reflexivity|].
    apply list_elem_of_bind. exists t. split; [|exact Ht]. unfold t_delete_outputs.
    apply list_elem_of_fmap. exists i. split; [reflexivity|]. apply elem_of_seq. lia. }
  apply ex_outputs in Hb. rewrite Hb in Hg. apply KUTXO_inj in Hg.
  destruct ex_hashes_differ as [_ Hd]. apply bool_decide_eq_false in Hd. exact (Hd (eq_sym Hg)).
Qed.

Lemma ex_block_valid m cs :
  represents (mg_Store m) cs -> chain_inv Regtest cs [ex_genesis] -> mg_Network m = Regtest ->
  validate_block 1780000600 ex_block m = Ok tt.
Proof.
  intros R I Hn. destruct ex_block_ok as [Hwf _].
  assert (HE : ExpectedBits (blk_Header ex_genesis) Regtest (chain_HeaderByHeight (mg_Store m)) =
    Ok RegtestPowBits) by reflexivity.
  assert (Hlim : CompactToBig RegtestPowBits <= PowLimit Regtest) by (apply Z.leb_le; reflexivity).
  destruct (template_accepted Regtest cs [ex_genesis] m ex_genesis RegtestPowBits 1780000600 1780000600
    1780000600 ex_script 0 R I Hn eq_refl ltac:(simpl; lia) HE Hlim Hwf ex_template_hits ltac:(lia))
    as [_ [Hok|(_ & c & Hg & _)]]; [exact Hok|].
  exfalso. rewrite (inv_GetBlock _ _ _ _ R I) in Hg by apply blk_Hash_hash.
  destruct (cs_block cs _) as [c'|] eqn:E; [|discriminate Hg].
  pose proof (ci_only _ _ _ I _ _ E) as Hin. apply list_elem_of_singleton in Hin as ->.
  apply (cs_block_ok _ _ _ (rep_ok _ _ R)) in E as [_ E].
  destruct ex_hashes_differ as [Hd _]. apply bool_decide_eq_false in Hd. exact (Hd E).
Qed.

(** The node after accepting it. *)
Lemma ex_grown :
  exists m0 m, reachable Regtest None m0 /\ grown m0 [ex_block] m /\
    TipBlock (mg_Store m0) = Ok ex_genesis.
Proof.
  destruct ex_node as (m0 & cs & _ & Hr & R & I & Hn & _ & _ & Ecs). destruct ex_block_ok as [Hwf Hfit].
  pose proof (ex_block_valid m0 cs R I Hn) as Hval. rewrite <- Hn in I.
  destruct (accept_step 0 1780000600 ex_block m0 cs [ex_genesis] R I Hwf Hfit ltac:(done))
    as (m & r & cs' & E & R' & _ & _ & Hres).
  rewrite Hval in Hres. destruct Hres as [-> _]. rewrite Hn in I.
  exists m0, m. split_and!; [done | | by apply (ex_tip m0 cs)].
  apply (grown_block m0 0 1780000600 [] m0 ex_block m); try done; [constructor | by eapply ex_block_fresh |].
  by apply (inv_Tip _ _ _ _ R I ex_genesis).
Qed.

(** ** Witnesses: encodings and amounts *)

Lemma transaction_roundtrip_witness : DeserializeTransaction (SerializeTransaction ex_tx ++ [1; 2]) = Ok ex_tx.
Proof.
  apply transaction_roundtrip; [by_decision|].
  split; [by_decision|]. split; [by_decision|]. exists [1; 2]. reflexivity.
Defined.

Lemma Fee_correct_witness : Fee ex_tx 1000 = Ok 500.
Proof. apply Fee_correct; [by_decision | mach | by_decision]. Defined.

Lemma block_roundtrip_witness : DeserializeBlock (SerializeBlock ex_spending) = Ok ex_spending.
Proof.
  apply block_roundtrip; [by_decision|].
  split; [by_decision|]. split; [by_decision|]. exists []. symmetry. apply app_nil_r.
Defined.

Lemma ex_tx_collision_free : collision_free (merkle_messages [ex_tx] ++ merkle_messages [ex_tx]).
Proof.
  assert (Hm : forall x, x ∈ merkle_messages [ex_tx] ++ merkle_messages [ex_tx] -> x = SerializeTransaction ex_tx).
  { intros x Hx. change (merkle_messages [ex_tx]) with [SerializeTransaction ex_tx] in Hx. set_solver. }
  intros x y Hx Hy _. rewrite (Hm x Hx), (Hm y Hy). reflexivity.
Qed.

Lemma merkle_root_commits_witness : [ex_tx] = [ex_tx].
Proof.
  exact (merkle_root_commits [ex_tx] [ex_tx] ex_tx_collision_free
    ltac:(by_decision) ltac:(by_decision) ltac:(by_decision) ltac:(by_decision) eq_refl eq_refl).
Defined.

Lemma merkle_root_duplicate_witness :
  BuildMerkleRoot [ex_coinbase; ex_tx; ex_tx] = BuildMerkleRoot [ex_coinbase; ex_tx; ex_tx; ex_tx].
Proof.
  exact (merkle_root_duplicate [ex_coinbase; ex_tx] ex_tx eq_refl ltac:(discriminate)).
Defined.

Lemma stored_json_roundtrip_witness :
  Unmarshal decode_utxos (MarshalUTXOs [ex_utxo]) = Ok [ex_utxo] /\
  Forall (fun u => Unmarshal decode_utxo (MarshalUTXO u) = Ok u) [ex_utxo].
Proof. apply stored_json_roundtrip. by_decision. Defined.

Lemma ex_address : exists addr, address_of_hash (replicate 20 7) (str "rnevel") = Ok addr.
Proof. eexists. vm_compute. reflexivity. Qed.

Lemma address_roundtrip_witness :
  exists addr, DecodeAddress addr (str "rnevel") = Ok (replicate 20 7) /\
    LockingScriptForAddress addr (str "rnevel") = Ok (ScriptForPubKeyHash (replicate 20 7)).
Proof.
  destruct ex_address as [addr E]. exists addr.
  apply address_roundtrip; [by_decision | by_decision | reflexivity | exact E].
Defined.

(** ** Witnesses: rewards and targets *)

Lemma audit_supply_passes_witness :
  exists total, AuditSupplySchedule 10 3 = Some (audit_report total true, None) /\
    total = subsidy_below 4 /\ total <= 2102400000 * UnitsPerNEVEL < MaxSupply.
Proof. apply (audit_supply_passes 10 3); [mach | lia]. Defined.

Lemma total_rewards_never_ends_witness : TotalBlockRewards 10 (max64 - 3) max64 <> Some (Ok 0).
Proof. apply total_rewards_never_ends. unfold max64. mach. Defined.

(** The last header of a window, 1000 seconds after its first. *)
Definition ex_first : BlockHeader := mkHeader 1 zero_hash zero_hash 1780000600 ProductionPowBits 0 0.
Definition ex_prev : BlockHeader := mkHeader 1 zero_hash zero_hash 1780001600 ProductionPowBits 0 (DifficultyWindow - 1).

Lemma ex_retarget : exists bits, ExpectedBits ex_prev Mainnet (fun _ => Ok ex_first) = Ok bits /\
  bits <> ProductionPowBits.
Proof. eexists. split; [vm_compute; reflexivity | discriminate]. Qed.

Lemma retarget_stays_in_range_witness :
  exists bits, ExpectedBits ex_prev Mainnet (fun _ => Ok ex_first) = Ok bits /\
    0 < CompactToBig bits <= PowLimit Mainnet /\
    CompactToBig bits <= 4 * CompactToBig (hdr_Bits ex_prev) /\
    (CompactToBig (hdr_Bits ex_prev) / 4) * (2 ^ 15 - 1) <= CompactToBig bits * 2 ^ 15.
Proof.
  destruct ex_retarget as (bits & E & _). exists bits. split; [exact E|].
  apply (retarget_stays_in_range ex_prev Mainnet (fun _ => Ok ex_first) bits); [by_decision | by_decision | exact E].
Defined.

(** ** Witnesses: validation *)

Lemma ex_tx_validates :
  exists fee spent', ValidateTransactionAt ex_tx ex_reader None ∅ 10 = Ok (fee, spent').
Proof.
  assert (H : is_ok (ValidateTransactionAt ex_tx ex_reader None ∅ 10) = true) by (vm_compute; reflexivity).
  destruct (ValidateTransactionAt _ _ _ _ _) as [[fee spent']|e]; [eauto | discriminate H].
Qed.

Lemma accepted_transaction_rules_witness :
  exists us fee, tx_accepted ex_tx ex_reader None ∅ 10 us fee.
Proof.
  destruct ex_tx_validates as (fee & spent' & E).
  destruct (proj1 (accepted_transaction_rules ex_tx ex_reader None ∅ 10 fee spent' ex_reader_wf
    (proj1 ex_tx_ok)) E) as (us & H & _).
  exists us, fee. exact H.
Defined.

Lemma ex_spending_validates : ValidateBlockTransactions ex_spending ex_reader None = Ok tt.
Proof. vm_compute. reflexivity. Qed.

Lemma accepted_block_conserves_witness :
  exists cb txs us,
    blk_Transactions ex_spending = cb :: txs /\
    Forall2 (resolves ex_reader) (block_inputs txs) us /\
    NoDup (in_key <$> block_inputs txs) /\
    Zsum (out_Amount <$> block_outputs (cb :: txs)) <=
      Zsum (u_Amount <$> us) + BlockReward (hdr_Height (blk_Header ex_spending)).
Proof.
  exact (accepted_block_conserves ex_spending ex_reader None ex_reader_wf ex_spending_wf
    ex_spending_validates).
Defined.

(** ** Witnesses: mining *)

Lemma mined_block_has_work_witness :
  CheckProofOfWork (blk_Header ex_genesis) (PowLimit Regtest) = Ok tt /\
  exists nonce, is_u64 nonce /\ ex_genesis = set_nonce (CreateGenesisBlock Regtest) nonce.
Proof.
  apply (mined_block_has_work 2 (fun _ => false) (CreateGenesisBlock Regtest) (PowLimit Regtest));
    [change (is_u64 0); mach | reflexivity | by_decision | exact ex_genesis_mined].
Defined.

Lemma mining_terminates_witness :
  exists nonce, is_u64 nonce /\ hits (set_nonce (CreateGenesisBlock Regtest) nonce) (PowLimit Regtest).
Proof.
  apply (mining_terminates (CreateGenesisBlock Regtest) (PowLimit Regtest)); [change (is_u64 0); mach|].
  exists 2%nat, ex_genesis. exact ex_genesis_mined.
Defined.

(** ** Witnesses: the pool *)

(** A pool with [ex_tx], its order of evaluation left to the map. *)
Definition ex_pool : Mempool := add_entry ex_tx 500 1780000600 (New 1000000 None).

Lemma ex_pool_ok : mempool_ok ex_pool.
Proof.
  apply add_entry_ok; [apply New_ok | apply ex_tx_ok | apply ex_tx_ok | discriminate | reflexivity
    | apply lookup_empty | | by_decision].
  apply Forall_forall. intros i _. unfold New. cbn [mp_spends]. rewrite dom_empty. apply not_elem_of_empty.
Qed.

Lemma ex_pool_entry h e :
  mp_txs ex_pool !! h = Some e ->
  h = tx_Hash ex_tx /\ e = mkEntry ex_tx 500 (len (SerializeTransaction ex_tx)) 1780000600.
Proof.
  unfold ex_pool, add_entry, New. cbn [mp_txs]. intros H.
  apply lookup_insert_Some in H as [[E1 E2]|[_ H]]; [by rewrite E1, E2 | by rewrite lookup_empty in H].
Qed.

Lemma ex_pool_has :
  mp_txs ex_pool !! tx_Hash ex_tx = Some (mkEntry ex_tx 500 (len (SerializeTransaction ex_tx)) 1780000600).
Proof. unfold ex_pool, add_entry. cbn [mp_txs]. apply lookup_insert_eq. Qed.

Lemma ex_pool_rates : rates_fit (map_to_list (mp_txs ex_pool)).*2.
Proof.
  assert (H : forall a, a ∈ (map_to_list (mp_txs ex_pool)).*2 ->
    a = mkEntry ex_tx 500 (len (SerializeTransaction ex_tx)) 1780000600).
  { intros a ((h & e) & -> & Ha)%list_elem_of_fmap. apply elem_of_map_to_list, ex_pool_entry in Ha. apply Ha. }
  intros a b Ha Hb. rewrite (H a Ha), (H b Hb). cbn [e_Size e_Fee]. by_decision.
Qed.

Lemma ex_pool_messages : collision_free (SerializeTransaction ex_tx :: pool_messages (New 1000000 None)).
Proof.
  unfold pool_messages, New. cbn [mp_txs]. rewrite map_to_list_empty.
  intros x y ->%list_elem_of_singleton ->%list_elem_of_singleton _. reflexivity.
Qed.

Lemma pool_add_preserves_witness :
  exists m' r, Add ex_reader 1780000600 ex_order ex_tx (New 1000000 None) = (m', r) /\ mempool_ok m'.
Proof.
  destruct (Add ex_reader 1780000600 ex_order ex_tx (New 1000000 None)) as [m' r] eqn:E.
  exists m', r. split; [reflexivity|].
  exact (proj1 (pool_add_preserves ex_reader 1780000600 ex_order ex_tx (New 1000000 None) m' r
    ex_pool_messages ex_order_ok ex_reader_wf (New_ok 1000000 None) (proj1 ex_tx_ok) (proj2 ex_tx_ok)
    ltac:(by_decision) E)).
Defined.

Lemma pool_no_double_spend_witness : tx_Hash ex_tx = tx_Hash ex_tx.
Proof.
  exact (pool_no_double_spend ex_pool _ _ _ _ (mkInput zero_hash 0 [] []) (mkInput zero_hash 0 [] [])
    ex_pool_ok ex_pool_has ex_pool_has ltac:(by_decision) ltac:(by_decision) eq_refl eq_refl).
Defined.

Lemma mined_block_leaves_pool_witness :
  mempool_ok (RemoveMinedBlock ex_spending ex_pool) /\
  mp_txs (RemoveMinedBlock ex_spending ex_pool) !! tx_Hash ex_tx =
    if decide (tx_Hash ex_tx ∈
      tx_Hash <$> List.filter (fun t => negb (IsCoinbase t)) (blk_Transactions ex_spending))
    then None else mp_txs ex_pool !! tx_Hash ex_tx.
Proof. exact (mined_block_leaves_pool ex_spending ex_pool (tx_Hash ex_tx) ex_pool_ok). Defined.

Lemma snapshot_by_fee_rate_witness :
  StronglySorted rate_ge (EntriesByFeeRate ex_order ex_pool) /\
  EntriesByFeeRate ex_order ex_pool ≡ₚ (map_to_list (mp_txs ex_pool)).*2.
Proof. exact (snapshot_by_fee_rate ex_order ex_pool ex_order_ok ex_pool_rates). Defined.

Lemma ex_pool_evicts : exists m', evictLowest (map_to_list (mp_txs ex_pool)) ex_pool = Some m'.
Proof.
  unfold ex_pool, add_entry, New. cbn [mp_txs]. change (<[?k := ?v]> ∅ : gmap bytes Entry) with ({[k := v]} : gmap bytes Entry).
  rewrite map_to_list_singleton. eexists. reflexivity.
Qed.

Lemma eviction_takes_lowest_witness :
  exists m' h e, evictLowest (map_to_list (mp_txs ex_pool)) ex_pool = Some m' /\
    mp_txs ex_pool !! h = Some e /\ m' = drop_entry h e ex_pool.
Proof.
  destruct ex_pool_evicts as [m' E].
  destruct (eviction_takes_lowest (map_to_list (mp_txs ex_pool)) ex_pool m' (Permutation_refl _)
    ex_pool_rates E) as (h & e & H1 & H2 & _).
  exists m', h, e. exact (conj E (conj H1 H2)).
Defined.

(** ** Witnesses: the ledger *)

Lemma ex_empty_fresh : fresh_outputs ex_block empty_db.
Proof.
  intros t i _ _. rewrite (Get_spec _ _ _ _ represents_empty (tx_Hash_hash t) (u32_range _)). reflexivity.
Qed.

Lemma apply_block_supply_witness :
  exists d' us us',
    ApplyBlock ex_block empty_db = (d', Ok tt) /\ represents d' (a_ApplyBlock ex_block ∅) /\
    ListUTXOs empty_db = Ok us /\ ListUTXOs d' = Ok us' /\
    Zsum (u_Amount <$> us') <= Zsum (u_Amount <$> us) + BlockReward (hdr_Height (blk_Header ex_block)).
Proof.
  exact (apply_block_supply empty_db ∅ ex_block None represents_empty (proj1 ex_block_ok)
    (template_txs_valid _ _ _ _ _ 0 empty_db None (proj1 ex_block_ok))).
Defined.

Lemma apply_block_reads_back_witness :
  exists d', ApplyBlock ex_block empty_db = (d', Ok tt) /\ Tip d' = Ok (blk_Hash ex_block).
Proof.
  destruct (apply_block_reads_back empty_db ∅ ex_block represents_empty (proj1 ex_block_ok)
    (proj2 ex_block_ok)) as (d' & H1 & H2 & _).
  exists d'. exact (conj H1 H2).
Defined.

Lemma disconnect_inverts_apply_witness :
  exists d1 d2, ApplyBlock ex_block empty_db = (d1, Ok tt) /\ DisconnectTip d1 = (d2, Ok ex_block) /\
    Tip d2 = Ok (hdr_PrevHash (blk_Header ex_block)) /\
    (forall h i, is_hash h -> is_u32 i -> Get d2 h i = Get empty_db h i).
Proof.
  exact (disconnect_inverts_apply empty_db ∅ ex_block represents_empty (proj1 ex_block_ok)
    (proj2 ex_block_ok) ltac:(discriminate) ex_empty_fresh).
Defined.

(** The disk refuses the first write. *)
Definition ex_faulty : DB := with_faults empty_db [OsFail None].

Lemma ex_faulty_fails :
  is_ok (ApplyBlock ex_block ex_faulty).2 = false.
Proof. vm_compute. reflexivity. Qed.

Lemma failed_apply_keeps_tip_witness :
  exists d' e, ApplyBlock ex_block ex_faulty = (d', Err e) /\ e = ErrOS.
Proof.
  pose proof ex_faulty_fails as H.
  destruct (ApplyBlock ex_block ex_faulty) as [d' [u|e]] eqn:E; [discriminate H|].
  exists d', e. split; [reflexivity|].
  exact (proj1 (failed_apply_keeps_tip ex_block ex_faulty d' e E)).
Defined.

(** A store with one output, and a block that spends it and creates none. *)
Definition ex_burn : Block :=
  mkBlock (mkHeader 1 zero_hash zero_hash 1780000600 RegtestPowBits 0 1)
    [mkTransaction 1 [mkInput zero_hash 0 [] []] [] 0].

Lemma ex_utxo_store :
  exists d, represents d (<[KUTXO zero_hash 0 := VUTXO ex_utxo]> ∅) /\ Get d zero_hash 0 = Ok ex_utxo.
Proof.
  destruct (Set_represents empty_db ∅ (KUTXO zero_hash 0) (VUTXO ex_utxo) represents_empty)
    as (d & _ & R); [by_decision | by_decision |].
  exists d. split; [exact R|].
  rewrite (Get_spec _ _ zero_hash 0 R zero_hash_wf ltac:(by_decision)). unfold cs_utxo. by rewrite lookup_insert_eq.
Qed.

Lemma interrupted_apply_loses_utxo_witness :
  exists d os d', Get d zero_hash 0 = Ok ex_utxo /\
    ApplyBlock ex_burn (with_faults d os) = (d', Err ErrOS) /\
    Tip d' = Tip d /\ Get d' zero_hash 0 = Err ErrNotFound.
Proof.
  destruct ex_utxo_store as (d & R & G).
  destruct (interrupted_apply_loses_utxo d _ ex_burn (mkInput zero_hash 0 [] []) ex_utxo R
    ltac:(by_decision) ltac:(by_decision) G ltac:(apply not_elem_of_nil)) as (os & d' & H).
  exists d, os, d'. exact (conj G H).
Defined.

(** ** Witnesses: the chain *)

Lemma ex_bits_ok : is_u32 (GenesisBits Regtest).
Proof. by_decision. Qed.

(** The node after the first mined block. *)
Lemma ex_offered :
  exists m m', offered Regtest None [] m /\ ValidateAndApplyBlock 0 1780000600 ex_block m = Some (m', Ok tt) /\
    offered Regtest None [ex_block] m' /\ Forall regular [ex_block].
Proof.
  destruct ex_node as (m & cs & Ho & Hr & R & I & Hn & _).
  destruct (accept_step 0 1780000600 ex_block m cs [ex_genesis] R ltac:(rewrite Hn; exact I)
    (proj1 ex_block_ok) (proj2 ex_block_ok) eq_refl) as (m' & r & cs' & E & _ & _ & _ & Hres).
  rewrite (ex_block_valid m cs R I Hn) in Hres. destruct Hres as [-> _].
  exists m, m'. split_and!; [done | done | |].
  - exact (off_block _ _ _ _ [] _ _ _ _ Ho (proj1 ex_block_ok) E).
  - apply Forall_singleton. by split; [apply ex_block_ok|].
Qed.

Lemma reachable_supply_witness :
  exists m us h, offered Regtest None [ex_block] m /\ ListUTXOs (mg_Store m) = Ok us /\
    Height (mg_Store m) = Ok h /\ Zsum (u_Amount <$> us) <= subsidy_below (S (Z.to_nat h)).
Proof.
  destruct ex_offered as (_ & m & _ & _ & Ho & Hreg).
  destruct (reachable_supply Regtest None [ex_block] m ex_bits_ok Ho Hreg) as (us & h & H1 & H2 & H3 & _).
  exists m, us, h. exact (conj Ho (conj H1 (conj H2 H3))).
Defined.

Lemma reachable_balance_witness :
  exists m us, ListUTXOsByScript (str "genesis") (mg_Store m) = Ok us /\
    BalanceByScript (str "genesis") (mg_Store m) = Ok (Zsum (u_Amount <$> us)).
Proof.
  destruct ex_node as (m & cs & Ho & Hr & _).
  destruct (reachable_balance Regtest None m (str "genesis") ex_bits_ok Hr) as (us & H1 & H2 & _).
  exists m, us. exact (conj H1 H2).
Defined.

Lemma tip_moves_only_to_children_witness :
  exists m m', ValidateAndApplyBlock 0 1780000600 ex_block m = Some (m', Ok tt) /\
    (Tip (mg_Store m') = Tip (mg_Store m) \/
     (Tip (mg_Store m') = Ok (blk_Hash ex_block) /\ Tip (mg_Store m) = Ok (hdr_PrevHash (blk_Header ex_block)))).
Proof.
  destruct ex_offered as (m & m1 & Ho & HV & _ & Hreg).
  destruct (tip_moves_only_to_children Regtest None [] m 0 1780000600 ex_block ex_bits_ok Ho
    (proj1 ex_block_ok) Hreg) as (m' & r & E & Er & Ht).
  rewrite HV in E. injection E as E1 E2. rewrite <- E1, <- E2 in Ht. exists m, m1. split; [exact HV|].
  destruct Ht as [H|(_ & H)]; [left | right]; exact H.
Defined.

Definition ex_round : Round := mkRound 1780000600 1780000600 1780000600 ex_order (fun _ => false).

Lemma mined_blocks_are_accepted_witness :
  exists m p bits, TipBlock (mg_Store m) = Ok p /\ NextBits m (blk_Header p) = Ok bits.
Proof.
  destruct ex_node as (m & cs & Ho & Hr & R & I & _ & Hp & _).
  destruct (mined_blocks_are_accepted Regtest None m 10 ex_round ex_script 0
    (proj2 (proj2 networks_ok)) Hr Hp (proj2 (ex_tip m cs R I)) ltac:(lia) ltac:(by_decision)
    ltac:(by_decision) ltac:(by_decision) ltac:(by_decision) ltac:(by_decision))
    as (p & bits & H1 & H2 & _).
  exists m, p, bits. exact (conj H1 H2).
Defined.

Lemma rollback_restores_witness :
  exists m0 m d', RollbackToHeight 2 0 (mg_Store m) = Some (d', Ok tt) /\ Tip d' = Tip (mg_Store m0).
Proof.
  destruct ex_grown as (m0 & m & Hr & Hg & Ht).
  destruct (rollback_restores Regtest None m0 [ex_block] m 2 ex_genesis ex_bits_ok Hr Hg Ht
    ltac:(simpl; lia)) as (d' & H1 & H2 & _).
  exists m0, m, d'. exact (conj H1 H2).
Defined.

Lemma rolled_back_blocks_stay_known_witness :
  exists m d', RollbackToHeight 2 0 (mg_Store m) = Some (d', Ok tt) /\
    ValidateAndApplyBlock 5 1780000900 ex_block (set_store m d') =
      Some (set_store m d', Err (Errorf "block already known")).
Proof.
  destruct ex_grown as (m0 & m & Hr & Hg & Ht). exists m.
  exact (rolled_back_blocks_stay_known Regtest None m0 [ex_block] m 2 ex_genesis ex_block 5 1780000900
    ex_bits_ok Hr Hg Ht ltac:(simpl; lia) (list_elem_of_here _ _)).
Defined.

(** A peer that serves one block and its header. *)
Definition serves (b : Block) : HeaderSource := {|
  src_Headers := fun _ _ => Ok [blk_Header b];
  src_Block := fun _ => Ok b |}.

Lemma serves_typed b : block_wf b -> source_typed (serves b).
Proof.
  intros Hwf. split; [|by intros h b' [= <-]]. intros l s hs [= <-]. apply Forall_singleton, Hwf.
Qed.

Lemma sync_follows_headers_witness :
  exists m tip done rest m' res, TipBlock (mg_Store m) = Ok tip /\ [blk_Header ex_block] = done ++ rest /\
    reachable Regtest None m' /\ Tip (mg_Store m') = Ok (last_hash_of done (blk_Hash tip)) /\
    sr_Blocks res = len done.
Proof.
  destruct ex_offered as (m & _ & Ho & _).
  destruct (sync_follows_headers Regtest None [] 5 (fun _ => 1780000600) (serves ex_block) m ex_bits_ok
    (serves_typed ex_block (proj1 ex_block_ok)) Ho (Forall_nil_2 _))
    as (tip & H1 & done & rest & m' & res & H2 & H3 & H4 & _ & H5 & _).
  exists m, tip, done, rest, m', res. exact (conj H1 (conj H2 (conj H3 (conj H4 H5)))).
Defined.

(** A block of height 0 on the genesis block. *)
Definition ex_zero : Block :=
  NewBlock 1780000600 (blk_Hash ex_genesis) 0 RegtestPowBits
    [NewCoinbase (str "zero") InitialReward ex_script].

Lemma ex_zero_ok : block_wf ex_zero /\ block_fits ex_zero.
Proof. split; by_decision. Qed.

Lemma ex_zero_header : ValidateBlockHeader 1780000600 ex_zero None Regtest = Ok tt.
Proof. vm_compute. reflexivity. Qed.

Lemma ex_zero_new : bool_decide (blk_Hash ex_genesis = blk_Hash ex_zero) = false.
Proof. vm_compute. reflexivity. Qed.

(** Its only transaction is a coinbase: the outputs of the store do not matter. *)
Lemma ex_zero_txs d : ValidateBlockTransactions ex_zero (Get d) None = Ok tt.
Proof.
  generalize (Get d). intros f. vm_compute. reflexivity.
Qed.

Lemma height_zero_block_replaces_tip_witness :
  exists m m', Tip (mg_Store m) = Ok (blk_Hash ex_genesis) /\
    ValidateAndApplyBlock 5 1780000600 ex_zero m = Some (m', Ok tt) /\
    Tip (mg_Store m') = Ok (blk_Hash ex_zero) /\ Height (mg_Store m') = Ok 0 /\
    TotalWork (blk_Hash ex_zero) (mg_Store m') = Ok (WorkForBits (hdr_Bits (blk_Header ex_zero))).
Proof.
  destruct ex_node as (m & cs & Ho & Hr & R & I & Hn & _ & Hv & _).
  pose proof (inv_Tip _ _ _ _ R I ex_genesis eq_refl) as Ht.
  assert (Hk : is_ok (GetBlock (blk_Hash ex_zero) (mg_Store m)) = false).
  { rewrite (inv_GetBlock _ _ _ _ R I) by apply blk_Hash_hash.
    destruct (cs_block cs _) as [c|] eqn:E; [exfalso | reflexivity].
    pose proof (ci_only _ _ _ I _ _ E) as Hin. apply list_elem_of_singleton in Hin as ->.
    apply (cs_block_ok _ _ _ (rep_ok _ _ R)) in E as [_ E].
    pose proof ex_zero_new as Hd. apply bool_decide_eq_false in Hd. exact (Hd E). }
  destruct (height_zero_block_replaces_tip 5 1780000600 ex_zero m cs (blk_Hash ex_genesis) R Ht
    (proj1 ex_zero_ok) (proj2 ex_zero_ok) eq_refl eq_refl Hk
    ltac:(rewrite Hn; exact ex_zero_header) ltac:(rewrite Hv; apply ex_zero_txs)) as (m' & H).
  exists m, m'. exact (conj Ht H).
Defined.

(** *** A reorganisation away from a block of height 0

    On the chain of two blocks: a block of height 0 and one of height 2, both children
    of the tip.  The run is evaluated as it is. *)

Definition ex_late (height : Z) : Block :=
  set_nonce (NewBlock 1780000700 (blk_Hash ex_block) height RegtestPowBits
    [NewCoinbase [height] (BlockReward height) ex_script]) 1.

Definition after {A} (r : option (Manager * result A)) (m : Manager) : Manager := default m (fst <$> r).
Definition ex_m0 : Manager := after (InitGenesis 2 (fun _ => false) ex_fresh) ex_fresh.
Definition ex_m1 : Manager := after (ValidateAndApplyBlock 5 1780000600 ex_block ex_m0) ex_m0.
Definition ex_m2 : Manager := after (ValidateAndApplyBlock 5 1780000700 (ex_late 0) ex_m1) ex_m1.
Definition ex_m3 : Manager := after (ValidateAndApplyBlock 6 1780000700 (ex_late 2) ex_m2) ex_m2.




#[local] Opaque ex_m0 ex_m1 ex_m2 ex_m3.








(** The supply after it is above what the schedule pays up to height 2: the bound on
    the supply does not hold of runs with blocks of height 0. *)
Example height_zero_blocks_inflate :
  exists us, ListUTXOs (mg_Store ex_m3) = Ok us /\ Height (mg_Store ex_m3) = Ok 2 /\
    subsidy_below 3 < Zsum (u_Amount <$> us).
Proof.
  eexists. split_and!; [vm_compute; reflexivity | vm_compute; reflexivity|].
  apply Z.ltb_lt. vm_compute. reflexivity.
Qed.


(** ** Witnesses: peers *)

Definition ex_config : Config := mkConfig (str "nevel-regtest-1") [] [] 8 0 2 3 1000 (-100) 5000.
Definition ex_net_node : Node := NewNode ex_config [].
Definition ex_conn : Conn := mkConn 1 (str "10.0.0.1:5000").
Definition ex_other : Conn := mkConn 2 (str "[fe80::1]:6000").

(** Two peers connect. *)
Definition ex_connected : Node := (accept 20 ex_other (accept 10 ex_conn ex_net_node).1).1.

Lemma ex_connected_run : runs 0 ex_net_node 20 ex_connected.
Proof.
  apply (runs_step 0 ex_net_node 10 (accept 10 ex_conn ex_net_node).1); [lia | apply step_accept|].
  apply (runs_step 10 _ 20 ex_connected); [lia | apply step_accept | apply runs_nil].
Qed.

Lemma peer_table_bounded_witness :
  PeerCount ex_connected = 2 /\ PeerCount ex_connected <= cfg_MaxPeers (normalise ex_config).
Proof.
  split; [vm_compute; reflexivity|].
  exact (proj1 (peer_table_bounded ex_config [] 0 20 ex_connected ex_connected_run)).
Defined.

Lemma banned_peer_stays_out_witness :
  Connect 30 31 (conn_RemoteAddr ex_conn) (Ok ex_conn) (ReportPeer 20 (conn_RemoteAddr ex_conn) (-100) ex_connected) =
    (ReportPeer 20 (conn_RemoteAddr ex_conn) (-100) ex_connected, Err (Errorf "peer is banned")).
Proof.
  apply (banned_peer_stays_out 0 ex_config [] 20 ex_connected (conn_RemoteAddr ex_conn) (-100) 30);
    [exact ex_connected_run | by_decision | | by_decision].
  apply (runs_step 20 _ 30 (ReportPeer 20 (conn_RemoteAddr ex_conn) (-100) ex_connected));
    [lia | | apply runs_nil].
  exact (step_send 30 _ [] (mkMessage MsgPing None)).
Defined.

Lemma rate_limit_bound_witness :
  allowed (answers (str "10.0.0.1:5000") [100; 200; 300; 400; 500] ex_connected) = 3.
Proof.
  refine (eq_trans (proj2 (rate_limit_bound (str "10.0.0.1:5000") [100; 200; 300; 400; 500] ex_connected 100
    _ _ _ _ _ _) _) eq_refl);
    [lia | by_decision | by_decision | unfold stats_ok; by_decision | | by_decision | reflexivity].
  repeat constructor; lia.
Defined.

Lemma frame_roundtrip_witness :
  exists f, readMessageLimit (f ++ [1; 2; 3]) MaxMessageBytes = Ok (mkMessage MsgPing (Some [7; 8]), [1; 2; 3]).
Proof.
  destruct (frame_roundtrip ex_conn (mkMessage MsgPing (Some [7; 8])) ex_connected [1; 2; 3]
    eq_refl ltac:(by_decision) ltac:(reflexivity) ltac:(by_decision) ltac:(by_decision)) as (f & _ & _ & _ & H).
  exists f. exact H.
Defined.

(** A decoder that knows one block. *)
Definition ex_codec : Codec :=
  mkCodec (fun _ => Ok ex_block) (fun _ => Err ErrEOF) (fun _ => Err ErrEOF) (fun _ => []).
Definition ex_peer_order : PeerOrder := fun m => (map_to_list m).*1.
Definition ex_world : World :=
  mkWorld 5 30 1780000600 ex_peer_order ex_order
    (mkDials (fun _ => 0) (fun _ => 0) (fun _ _ => Err ErrEOF)).

Lemma ex_conns_distinct : conns_distinct ex_connected.
Proof.
  assert (H : map_Forall (fun a ca => map_Forall (fun b cb => conn_id ca = conn_id cb -> a = b)
    (nd_peers ex_connected)) (nd_peers ex_connected)) by by_decision.
  intros a b ca cb Ha Hb. exact (H a ca Ha b cb Hb).
Qed.

Lemma accepted_blocks_are_relayed_witness :
  exists m n m',
    handle ex_codec ex_world (mkPeerInfo (conn_RemoteAddr ex_conn) [] 0) (mkMessage MsgBlock (Some [1]))
      (mkNet ex_connected m) = Handled (mkNet n m') (Ok tt) /\
    received n ex_conn = received ex_connected ex_conn /\
    received n ex_other = received ex_connected ex_other ++ frame (mkMessage MsgBlock (Some [1])).
Proof.
  destruct ex_node as (m & cs & Ho & Hr & R & I & Hn & _).
  destruct (accept_step 5 1780000600 ex_block m cs [ex_genesis] R ltac:(rewrite Hn; exact I)
    (proj1 ex_block_ok) (proj2 ex_block_ok) eq_refl) as (m' & r & cs' & E & _ & _ & _ & Hres).
  rewrite (ex_block_valid m cs R I Hn) in Hres. destruct Hres as [Er _].
  pose proof (accepted_blocks_are_relayed ex_codec ex_world (mkPeerInfo (conn_RemoteAddr ex_conn) [] 0)
    (mkMessage MsgBlock (Some [1])) (mkNet ex_connected m) ex_block eq_refl eq_refl
    (fun m => Permutation_refl _) eq_refl ltac:(by_decision) ex_conns_distinct) as H.
  cbn [w_fuel w_now_seconds ex_world nt_Manager nt_Node] in H. rewrite E, Er in H.
  destruct H as (n & H1 & _ & H2). exists m, n, m'. split; [exact H1|]. split.
  - pose proof (H2 (conn_RemoteAddr ex_conn) ex_conn ltac:(vm_compute; reflexivity)) as H3.
    rewrite decide_True in H3 by reflexivity. rewrite H3. apply app_nil_r.
  - pose proof (H2 (conn_RemoteAddr ex_other) ex_other ltac:(vm_compute; reflexivity)) as H3.
    rewrite decide_False in H3 by discriminate. exact H3.
Defined.

Lemma served_headers_link_witness :
  exists m hs, gatherHeaders [blk_Hash ex_genesis] zero_hash m = Ok hs /\ linked (blk_Hash ex_genesis) hs.
Proof.
  destruct ex_node as (m & cs & Ho & Hr & R & I & _).
  destruct (ex_tip m cs R I) as [_ Hh].
  assert (Hg : GetBlock (blk_Hash ex_genesis) (mg_Store m) = Ok ex_genesis).
  { rewrite (inv_GetBlock _ _ _ _ R I) by apply blk_Hash_hash.
    rewrite (ci_block _ _ _ I 0%nat ex_genesis eq_refl). reflexivity. }
  destruct (served_headers_link Regtest None [] m 0 [] (blk_Hash ex_genesis) [] zero_hash ex_genesis
    ex_bits_ok Ho (Forall_nil_2 _) Hh ltac:(lia) (blk_Hash_hash _) (Forall_nil_2 _) Hg) as (hs & H1 & _ & H2 & _).
  exists m, hs. exact (conj H1 H2).
Defined.
