(* ===== verification/WalletExamples.v ===== *)
(** * WalletExamples: the theorems of the wallet and the server on concrete data

    The wallet of the private key 1, whose public key is the base point, one output
    locked to it, an invoice, a trade.  Each [_witness] applies a theorem to such
    data. *)

From S2P Require Import Prelude Encoding Sha256 Params Tx Block Consensus Pebble Storage StoreSpec.
From S2P Require Import Ledger Mempool Miner Bech32 Chain ChainSpec Json Peers Primes Secp256k1 Ecdsa BasePoint.
From S2P Require Import Ripemd160 Keys Wallet Builder Pbkdf2 Seed Aes KeyFile Pay Readiness Float64 Health Http Rpc RpcSpec.
From S2P Require Import Examples.

#[local] Existing Instance go_sha256.
#[local] Existing Instance go_json.
#[local] Existing Instance go_aes.

(** Computations are evaluated only by [vm_compute]. *)
#[local] Opaque Sum256 BuildTransaction SignInput FromHexPrivateKey.

(** ** The wallet of the key 1 *)

Definition ex_point : Z * Z := (secp256k1.(Gx), secp256k1.(Gy)).
Definition ex_key : PrivateKey := mkPrivateKey 1 (Some ex_point).
Definition ex_public : bytes := 2 :: be_bytes 32 secp256k1.(Gx).
Definition ex_address : bytes := str "rnevel1w508d6qejxtdg4y5r3zarvary0c5xw7k3jestc".
Definition ex_wallet : Wallet := mkWallet ex_key ex_public ex_address (str "rnevel").

Lemma ex_address_ok : AddressFromPublicKey ex_public (str "rnevel") = Ok ex_address.
Proof. vm_compute. reflexivity. Qed.

Lemma ex_point_ok : IsOnCurve secp256k1 (Some ex_point) = true.
Proof. vm_compute. reflexivity. Qed.

Lemma ex_wallet_ok : wallet_ok ex_wallet.
Proof.
  split; [|split; [by vm_compute | exact ex_address_ok]].
  split; [done|]. split; [symmetry; exact (multiple_1 secp256k1 _) | done].
Qed.

(** The nonce 1, the smallest randomness a signature can use. *)
Definition ex_rand : bytes := replicate 31 0 ++ [1].
Lemma ex_rand_wf : bytes_wf ex_rand.
Proof. by_decision. Qed.

(** One output of 5000 units locked to the wallet. *)
Definition ex_wscript : bytes := ScriptForPubKeyHash (Hash160 ex_public).
Definition ex_coin : UTXO := mkUTXO (replicate 32 9) 0 5000 ex_wscript 1 false.
Definition ex_provider : UTXOProvider := fun script =>
  if bool_decide (script = ex_wscript) then Ok [ex_coin] else Ok [].
Definition ex_coins : UTXOReader := fun h i =>
  if bool_decide (h = replicate 32 9) && (i =? 0) then Ok ex_coin else Err ErrNotFound.
Definition ex_unsigned : Transaction :=
  mkTransaction 1 [unsigned_input ex_coin] [mkOutput 500 ex_wscript] 0.

Lemma ex_provides : ex_provider (wallet_script ex_wallet) = Ok [ex_coin].
Proof. unfold ex_provider. by rewrite bool_decide_true. Qed.
Lemma ex_coin_wf : Forall utxo_wf [ex_coin].
Proof.
  constructor; [|constructor]. unfold utxo_wf. split_and!; try by_decision.
Qed.
Lemma ex_coins_wf : reader_wf ex_coins.
Proof.
  intros h i u. unfold ex_coins. destruct (_ && _); [|done]. intros [= <-].
  by apply (Forall_inv ex_coin_wf).
Qed.

(** The wallet can pay 500 units with that randomness. *)
Lemma ex_built : exists t rest,
  BuildTransaction ex_wallet ex_provider ex_address 500 1000 ex_rand = Some (Ok (t, rest)).
Proof.
  assert (match BuildTransaction ex_wallet ex_provider ex_address 500 1000 ex_rand with
          | Some (Ok _) => True | _ => False end) as H by (vm_compute; exact I).
  destruct (BuildTransaction _ _ _ _ _ _) as [[[t rest]|]|]; [by exists t, rest | done..].
Qed.

Lemma ex_coins_listed : listed ex_coins ex_wallet max64 ∅ [ex_coin].
Proof.
  split; by_decision.
Qed.

(** ** Keys and signatures *)

Lemma curve_group_witness :
  let G := Some ex_point in
  let sum := plus secp256k1 in
  IsOnCurve secp256k1 G = true /\ sum G (sum G None) = sum (sum G G) None /\ exists A', sum G A' = None.
Proof.
  destruct (curve_group (Some ex_point) (Some ex_point) None) as (_ & _ & _ & H1 & A' & _ & H2);
    [right; exact ex_point_ok | right; exact ex_point_ok | left; reflexivity|].
  split; [exact ex_point_ok|]. split; [exact H1|]. exists A'. exact H2.
Defined.

Lemma scalar_mult_multiple_witness :
  ScalarMult secp256k1 (Some ex_point) [3] = Some (multiple secp256k1 3 (Some ex_point)) /\
  (ScalarBaseMult secp256k1 [3] = Some None <-> 3 mod secp256k1.(N) = 0).
Proof. apply (scalar_mult_multiple (Some ex_point) [3] ex_point_ok). by_decision. Defined.

Lemma signed_input_verifies_witness :
  match SignInput ex_wallet ex_unsigned 0 ex_wscript ex_rand with
  | None => False
  | Some (Err e) =>
      (in_range ex_unsigned 0 = false /\ e = Errorf "input out of range") \/
      (in_range ex_unsigned 0 = true /\
       (e = ErrEOF \/ e = ErrUnexpectedEOF) /\
       Sign secp256k1 ex_key (SignatureHash ex_unsigned 0 ex_wscript) ex_rand = Some (Err e))
  | Some (Ok (t', _)) =>
      VerifyTransactionInput t' 0 ex_wscript = Some true /\
      (forall j script', j <> 0 ->
         VerifyTransactionInput t' j script' = VerifyTransactionInput ex_unsigned j script')
  end /\ exists tr, SignInput ex_wallet ex_unsigned 0 ex_wscript ex_rand = Some (Ok tr).
Proof.
  split; [exact (signed_input_verifies ex_wallet ex_unsigned 0 ex_rand ex_wallet_ok ex_rand_wf)|].
  assert (match SignInput ex_wallet ex_unsigned 0 ex_wscript ex_rand with
          | Some (Ok _) => True | _ => False end) as H by (vm_compute; exact I).
  destruct (SignInput _ _ _ _ _) as [[tr|]|]; [by exists tr | done..].
Defined.

Lemma ex_unsigned_wf : tx_wf ex_unsigned.
Proof. by_decision. Qed.

Lemma verifier_outcomes_witness :
  VerifyTransactionInput ex_unsigned 0 ex_wscript = Some true <->
  exists A r s x y, decoded_signature ex_unsigned 0 ex_wscript A r s /\
    sum_point secp256k1 A (hashToInt secp256k1 (SignatureHash ex_unsigned 0 ex_wscript)) r s = Some (x, y) /\
    x mod secp256k1.(N) = r.
Proof. exact (proj1 (verifier_outcomes ex_unsigned 0 ex_wscript ex_unsigned_wf)). Defined.

Lemma crafted_signature_panics_witness :
  let e := hashToInt secp256k1 (SignatureHash ex_unsigned 0 ex_wscript) in
  VerifyTransactionInput
    (put_signature ex_unsigned 0 (signature_bytes (crash_r secp256k1 1 e) 1) ex_public) 0 ex_wscript = None.
Proof.
  apply (crafted_signature_panics ex_wallet ex_unsigned 0 1 ex_wallet_ok); [reflexivity | by vm_compute | by vm_compute].
Defined.

Lemma wallet_from_hex_witness :
  match FromHexPrivateKey (str "01") (str "rnevel") with
  | Some (Ok w) =>
      exists b, hex_decode (str "01") = Ok b /\ D (w_PrivateKey w) = be_val b /\ be_val b mod secp256k1.(N) <> 0 /\
                wallet_ok w /\ w_Prefix w = str "rnevel"
  | Some (Err _) => (exists e, hex_decode (str "01") = Err e) \/ str "rnevel" = []
  | None => exists b, hex_decode (str "01") = Ok b /\ be_val b mod secp256k1.(N) = 0
  end.
Proof. pose proof (wallet_from_hex (str "01") (str "rnevel") (str_wf "rnevel")) as H. exact H. Defined.

Lemma new_wallet_witness :
  match Wallet.New (str "rnevel") ex_rand with
  | None => False
  | Some (Err e) => e = ErrEOF \/ e = ErrUnexpectedEOF \/ str "rnevel" = []
  | Some (Ok (w, _)) =>
      wallet_ok w /\ w_Prefix w = str "rnevel" /\ length (w_PublicKey w) = 33%nat /\
      unmarshalCompressed (w_PublicKey w) = X (w_PrivateKey w) /\
      (ToLower (str "rnevel") = str "rnevel" ->
       LockingScriptForAddress (w_Address w) (str "rnevel") = Ok (ScriptForPubKeyHash (Hash160 (w_PublicKey w))))
  end.
Proof. pose proof (new_wallet (str "rnevel") ex_rand (str_wf "rnevel") ex_rand_wf) as H. exact H. Defined.

(** ** Spending *)

Lemma built_transaction_witness :
  exists t rest toScript sel,
    BuildTransaction ex_wallet ex_provider ex_address 500 1000 ex_rand = Some (Ok (t, rest)) /\
    LockingScriptForAddress ex_address (str "rnevel") = Ok toScript /\
    built ex_wallet [ex_coin] toScript 500 1000 sel t /\
    Zsum (u_Amount <$> sel) = Zsum (out_Amount <$> tx_Outputs t) + 1000.
Proof.
  destruct ex_built as (t & rest & E).
  pose proof (built_transaction ex_wallet ex_provider ex_address 500 1000 ex_rand [ex_coin] ex_wallet_ok
    (str_wf "rnevel") eq_refl ltac:(mach) ltac:(mach) ex_rand_wf ex_provides ex_coin_wf) as H.
  rewrite E in H. destruct H as (toScript & sel & H). exists t, rest, toScript, sel. by split.
Defined.

Lemma built_transaction_accepted_witness :
  exists t, ValidateTransactionAt t ex_coins Verifier ∅ max64 =
    if 1000 <? u64 (built_size (len (tx_Inputs t)) (tx_Outputs t) * MinRelayFeePerByte)
    then Err ErrFeeTooLow else Ok (1000, in_keys (tx_Inputs t) ∪ ∅).
Proof.
  destruct ex_built as (t & rest & E). exists t.
  apply (built_transaction_accepted ex_wallet ex_provider ex_address 500 1000 ex_rand [ex_coin] t rest
    ex_coins max64 ∅ ex_wallet_ok (str_wf "rnevel") eq_refl ltac:(mach) ltac:(mach) ex_rand_wf ex_provides ex_coin_wf
    ltac:(by_decision) ex_coins_wf ex_coins_listed E).
Defined.

(** ** Key files *)

Lemma pbkdf2_is_rfc8018_witness :
  pbkdf2SHA256 (str "password") (str "salt") 4096 32 = rfc_pbkdf2 (str "password") (str "salt") 4096 32 /\
  len (pbkdf2SHA256 (str "password") (str "salt") 4096 32) = 32.
Proof. apply (pbkdf2_is_rfc8018 (str "password") (str "salt") 4096 32). lia. Defined.

Lemma saved_wallet_loads_witness :
  exists files',
    SaveEncryptedWithSeed (str "w.json") ex_wallet (str "able about") (str "secret") (replicate 44 7) None ∅
      = (files', Some (Ok tt)) /\
    LoadEncrypted (str "w.json") (str "secret") files' = Some (Ok (ex_wallet, str "able about")).
Proof.
  destruct (saved_wallet_loads (str "w.json") ex_wallet (str "able about") (str "secret") (replicate 44 7) ∅
    ex_wallet_ok) as (files' & H1 & H2 & _); [by_decision | by_decision | done | by_decision | done | by_decision | by_decision|].
  exists files'. split; [exact H1 | exact H2].
Defined.

(** A file of version 1 with a nonce of two bytes. *)
Definition ex_short : EncryptedFile :=
  mkEncryptedFile 1 ex_address (str "rnevel") (str "sha256") [] 0 (str "0102") (str "00").
Definition ex_short_files : Files := {[str "w.json" := MarshalIndent (file_fields ex_short)]}.

Lemma ex_short_stored :
  stored (str "w.json") (str "secret") ex_short_files (MarshalIndent (file_fields ex_short)) ex_short
    (sha256 (str "secret")) [1; 2] [0].
Proof. unfold stored. split_and!; [apply lookup_singleton_eq | vm_compute; reflexivity | reflexivity..]. Qed.

Lemma load_outcomes_witness : LoadEncrypted (str "w.json") (str "secret") ex_short_files = None.
Proof.
  apply (proj2 (load_outcomes (str "w.json") (str "secret") ex_short_files)).
  exists (MarshalIndent (file_fields ex_short)), ex_short, (sha256 (str "secret")), [1; 2], [0].
  split; [exact ex_short_stored | left; by_decision].
Defined.

(** ** Payments and the server *)

Definition ex_invoice : PaymentRequest :=
  mkRequest (hex_encode (replicate 16 5)) (str "shop") ex_address 250 (str "tea") 1900 StatusPending [].
Definition ex_paid : Requests := (Create (str "shop") ex_address 250 (str "tea") 0 (1000 * Second) (replicate 16 5) ∅).1.

(** The invoice after it was marked in time. *)
Definition ex_marked : PaymentRequest :=
  mkRequest (pr_ID ex_invoice) (str "shop") ex_address 250 (str "tea") 1900 StatusBroadcasted (str "ff").

Lemma payment_lifecycle_witness :
  let marks := [(1200 * Second, pr_ID ex_invoice, str "ff")] in
  let s := (MarkBroadcasted (pr_ID ex_invoice) (str "ff") (1200 * Second) ex_paid).1 in
  GetRequest (pr_ID ex_invoice) (1500 * Second) s = Some ex_marked /\ 0 < pr_Amount ex_marked <= max64 /\
  (pr_Status ex_marked = StatusPending /\ pr_TxHash ex_marked = [] /\ Unix (1500 * Second) <= pr_ExpiresAt ex_marked \/
   pr_Status ex_marked = StatusBroadcasted /\ marked marks ex_marked \/
   pr_Status ex_marked = StatusExpired /\ pr_ExpiresAt ex_marked < Unix (1500 * Second)).
Proof.
  intros marks s.
  assert (GetRequest (pr_ID ex_invoice) (1500 * Second) s = Some ex_marked) as E by (vm_compute; reflexivity).
  split; [exact E|]. apply (payment_lifecycle (1500 * Second) marks s (pr_ID ex_invoice) ex_marked); [|exact E].
  apply (run_step (1200 * Second) _ marks [] s); [|by_decision | apply step_get].
  apply (run_step (1000 * Second) _ [] marks ex_paid); [|by_decision | apply step_mark].
  apply (run_step 0 _ [] [] ∅); [apply run_new | by_decision | apply step_create; by_decision].
Defined.

(** A server with an empty pool and the token t. *)
Definition ex_server : Server :=
  mkServer empty_db (Some (Mempool.New 1000000 None)) (Some (Regtest, None)) ∅ (str "t") (Some 0).
Definition ex_env : Env := mkEnv (1000 * Second) (1000 * Second) (replicate 16 5) ex_order [] 0.
Definition ex_post (path body : bytes) : Request := mkHttpRequest MethodPost path [] (str "Bearer t") body.
Definition ex_invoice_request : Request :=
  ex_post (str "/payments/invoice")
    (print (JObj [(str "merchant", json_string (str "shop")); (str "address", json_string (str "rnevel1x"));
                  (str "amount", uint_json 250); (str "memo", json_string (str "tea"))])).

Lemma writes_are_authorised_witness :
  exists s' rep, ServeHTTP ex_env ex_invoice_request ex_server = (s', rep) /\ s' <> ex_server /\
    rq_Method ex_invoice_request = MethodPost /\ rq_Path ex_invoice_request ∈ writing_routes /\
    (sv_AuthToken ex_server = [] \/ rq_Authorization ex_invoice_request = str "Bearer " ++ sv_AuthToken ex_server).
Proof.
  destruct (ServeHTTP ex_env ex_invoice_request ex_server) as [s' rep] eqn:E. exists s', rep.
  assert (s' <> ex_server) as Hne.
  { assert (size (sv_Payments (ServeHTTP ex_env ex_invoice_request ex_server).1) = 1%nat) as Hs by (vm_compute; reflexivity).
    assert (size (sv_Payments ex_server) = 0%nat) as H0 by (vm_compute; reflexivity).
    rewrite E in Hs. intros ->. cbn [fst] in Hs. rewrite H0 in Hs. discriminate Hs. }
  split; [reflexivity|]. split; [exact Hne|].
  apply (writes_are_authorised ex_env ex_invoice_request ex_server s' rep E Hne).
Defined.

Definition ex_get_health : Request := mkHttpRequest MethodGet (str "/health") [] [] [].

Lemma rpc_keeps_node_reachable_witness :
  exists m s' rep m', reachable Regtest None m /\
    ServeHTTP ex_env ex_get_health (NewWithChain m) = (s', rep) /\ rep <> Pending /\
    manager s' = Some m' /\ reachable Regtest None m'.
Proof.
  destruct ex_node as (m & cs & _ & Hr & _ & _ & Hn & _ & Hv & _).
  destruct (ServeHTTP ex_env ex_get_health (NewWithChain m)) as [s' rep] eqn:E.
  destruct (rpc_keeps_node_reachable Regtest None ex_env ex_get_health (NewWithChain m) s' rep m)
    as (Hrep & m' & Hm' & Hr' & _).
  - by_decision.
  - unfold manager, NewWithChain. simpl. by destruct m.
  - exact Hr.
  - intros b (req & data & Hreq & _). by vm_compute in Hreq.
  - exact E.
  - exists m, s', rep, m'. split_and!; [exact Hr | exact E | exact Hrep | exact Hm' | exact Hr'].
Defined.

Lemma broadcast_reply_witness :
  let r := ex_post (str "/tx/broadcast") (hex_body (SerializeTransaction ex_unsigned)) in
  let '(mp', res) := Mempool.Add (Get empty_db) (1000 * Second) ex_order ex_unsigned (Mempool.New 1000000 None) in
  exists resp, ServeHTTP ex_env r ex_server = (set_pool ex_server mp', Reply resp) /\
    match res with
    | Ok _ => rs_Status resp = 200 /\
        rs_Body resp = JsonBody (JObj [(str "txHash", json_string (hex_encode (tx_Hash ex_unsigned)))])
    | Err err => rs_Status resp = 400 /\ rs_Body resp = ErrorText [] err
    end.
Proof.
  pose proof (broadcast_reply ex_env (ex_post (str "/tx/broadcast") (hex_body (SerializeTransaction ex_unsigned)))
    ex_server ex_unsigned (Mempool.New 1000000 None) (or_intror eq_refl) eq_refl eq_refl ex_unsigned_wf
    ltac:(by_decision) eq_refl ltac:(by_decision) eq_refl) as H.
  exact H.
Defined.

(** A trade that pays to the address the server gave for the pool. *)
Definition ex_trade : TradeRequest :=
  mkTrade (str "01") (poolAddress (str "7") (str "ABC")) 100 (str "buy") (str "ABC") (str "7") (str "1") zero_float.
Definition ex_trade_request : Request :=
  ex_post (str "/genesis/trade")
    (print (JObj [(str "privateKeyHex", json_string (str "01"));
                  (str "poolAddress", json_string (poolAddress (str "7") (str "ABC"))); (str "amount", uint_json 100);
                  (str "side", json_string (str "buy")); (str "ticker", json_string (str "ABC"));
                  (str "launchId", json_string (str "7")); (str "tradeId", json_string (str "1"))])).

Lemma ex_from_hex : exists w, FromHexPrivateKey (str "01") (address_prefix ex_server) = Some (Ok w).
Proof.
  assert (match FromHexPrivateKey (str "01") (address_prefix ex_server) with
          | Some (Ok _) => True | _ => False end) as H by (vm_compute; exact I).
  destruct (FromHexPrivateKey _ _) as [[w|]|]; [by exists w | done..].
Qed.

Lemma pool_trade_moves_nothing_witness :
  exists rep, genesisTrade ex_env ex_trade_request ex_server = (ex_server, rep) /\ reports_metadata ex_trade rep.
Proof.
  destruct ex_from_hex as [w Hw].
  destruct (pool_trade_moves_nothing ex_env ex_trade_request ex_server ex_trade (str "7") (str "ABC")
    eq_refl ltac:(vm_compute; reflexivity) eq_refl ltac:(by_decision)) as (rep & H1 & H2).
  exists rep. split; [exact H1|]. rewrite decide_True in H2 by by_decision.
  cbn [tr_PrivateKeyHex ex_trade] in H2. rewrite Hw in H2. exact H2.
Defined.

(** ** A release whose audit names no scope *)

Definition ex_evidence : ReleaseEvidence :=
  mkEvidence
    (mkAudit (str "auditor") (str "https://example.org/report") (str "00") 100 [] 0 0)
    (mkBattleTest (str "testnet") 100 (100 + 30 * 86400 * 10 ^ 9) (30 * 86400 * 10 ^ 9) true true true true)
    (mkControls true true true true true true true).

(** The map of controls is visited backwards. *)
Example release_without_scope :
  ValidateReleaseEvidence ex_evidence 200 (reverse (controls (re_Controls ex_evidence))) = None /\
  ~ documented ex_evidence 200.
Proof. split; [vm_compute; reflexivity|]. by intros ((_ & _ & _ & Hs & _) & _). Qed.
